(* ===== verification/_CoqProject ===== *)
-Q . S2P
Prelude.v
PhysMem.v
Buddy.v
BuddyTheorems.v
KString.v
Strfmt.v
CMonad.v
Tree.v
Pgt.v
PgtTheorems.v
PgtRange.v
Kmem.v
KmemTheorems.v
Memory.v
MemoryTheorems.v
MemoryBlocks.v
AllocInv.v
AllocPages.v
AllocBlock.v
AllocTheorems.v
Slab.v
SlabTheorems.v
SlabKernel.v
Devfs.v
DevfsTheorems.v
DevfsTypes.v
DevfsNames.v
Vfs.v
VfsTheorems.v
Proc.v
ProcTheorems.v
ProcMachine.v
ProcClock.v
Tty.v
TtyTheorems.v
DevfsPipe.v
Desc.v
Vconsole.v
Acpi.v
AcpiTheorems.v
Boot.v
BootTheorems.v
FpuTheorems.v
Start.v
StartTheorems.v
Layout.v
LayoutTheorems.v
