(* ===== verification/Prelude.v ===== *)
(** * A verification of the advos kernel

    advos is a small operating system kernel for x86-64 (sources under
    src/src/).  This development models its memory management, from the
    physical pages up to named object caches, the text functions everything
    prints with, its file systems, processes, scheduler and system calls, the
    device files through which user-mode drivers and processes exchange bytes,
    the tty driver that uses them, and the tables of the machine it reads and
    builds.  It states what each part promises to the parts
    above it and proves that the code keeps the promise, or exhibits the run
    in which it does not.

    ** The program

    - Physical pages (kernel/physmem.c): a buddy system per zone (DMA, kernel,
      one per NUMA domain), its free lists threaded through the free pages.
    - Page tables (kernel/arch/x86_64/pgt.c, the arch_memory functions of arch.c): four
      levels of tables, taken from a list of spare pages.
    - Virtual memory (kernel/memory.c, tree.c, kmem.c): an address space is a
      list of blocks; a block has a search tree of entries and two of free
      ranges (by address and by size); an entry has an object with its pages.
      It calls the page tables through the function table
      [memory_arch_interfaces_t], the pages through physmem.c, and gets its
      own records from the allocator of kmem.c.
    - Object caches (kernel/slab.c, kmalloc.c): slabs of eight pages from
      [memory_alloc_pages], caches found by name, sizes by [kmalloc].
    - Text (strings of kernel/kernel.c and lib/string.c, byte copies of
      asm.S, kernel/strfmt.c, [kprintf]).
    - Device files (kernel/devfs.c, sysdriver.c): a table of devices owned by
      driver processes, two ring buffers each, and the system call by which
      drivers register, write and read.
    - File systems (kernel/vfs.c, initramfs.c): modules with tables of
      functions, mount points, and the files the boot loader left in memory.
    - Processes (kernel/proc.c, task.c, sched.c, syscall.c, the clock and the
      address spaces of arch.c): a task per process, a run queue that the
      scheduler fills and the clock takes from, sleeping processes on a list of
      timer events, and the system calls.
    - User programs (lib/arch/x86_64, lib/crt0.c, servers/init, drivers/tty):
      the library's calls into the kernel, and the tty driver with its
      keyboard, line buffer and text screen.
    - The machine (kernel/arch/x86_64): descriptor tables (desc.c), the
      kernel's console (vconsole.c), firmware tables (acpi.c), timers
      (apic.c, i8254.c, tsc.c), and in arch.c the page tables, NUMA zones,
      floating point switch, panic screen and the entry points [bsp_start] and
      [ap_start], which with [kernel_init] of kernel.c call everything in order.

    ** The model

    The kernel's functions work on structures reached through pointers and
    shared between the components, so the model has one memory, a map from
    addresses to scalars ([gmap Z Z], [m.@a] reads and [m.[a <- v]] writes);
    a field is the address of its structure plus its offset in the C layout,
    a byte buffer has one cell per byte, a NULL pointer is 0, and a cell
    never written reads as 0.  Integers are [Z]; where the C type can wrap, the conversion to its width
    ([u8] ... [u64], [i8] ... [i64]) is written out.  Functions of physmem.c and
    of the strings return [option] of their result and the memory; [None] is
    a loop that uses up its fuel or a spin on a held lock.  Later files use
    the monad [M] of [CMonad], whose outcomes are a result, [Panic] (a failed
    [kassert]) and [Hang].

    Loops that are bounded in the source run on that bound.  Loops over
    lists and trees and the descents of recursive functions have a fuel
    argument; every theorem that says such a function returns asks for a
    fuel computed from the data (the number of free blocks, the length of a
    list, the height of a tree), so it proves termination for every input of that
    size.

    What the sources call but do not contain is an argument: the port
    instructions, model specific registers and [cpuid], the context switch,
    the trap of a user program (instantiated with the kernel's own
    [sys_driver] where a theorem is about both sides), calls through pointers
    in memory (instantiated in [Vfs] with the kernel's file systems).  A
    function of another component that a file needs before that component's
    file is an argument as well, for example [vfs_register] in [Devfs].
    Firmware tables are bytes in memory, the registers of the local APIC are cells.
    Compiler barriers and [invlpg] have no effect in the model, which
    has neither caches nor a TLB.

    ** Files and theorems

    - [Prelude]: integers, memory, lists linked through memory ([chain]),
      [kmemset], spin locks, the shared tactics and hints.
    - [PhysMem] (physmem.c), [Buddy] (invariant and abstract state: the
      family of free lists), [BuddyTheorems]: allocation removes exactly one
      aligned block from the free bytes, release and added regions put
      exactly theirs back, merging included; clients never share a byte.
    - [KString] (strings, byte copies), [Strfmt] (formatting): termination,
      exact results, and that no buffer is overrun.
    - [CMonad]: the monad.  [Tree] (tree.c): insertion and deletion keep a
      search tree and its contents.
    - [Pgt] (pgt.c and its callers in arch.c), [PgtTheorems], [PgtRange]: the reference
      is the processor's own table walk ([walk]); mapping and unmapping change
      the translation of exactly the pages asked for, ranges and roll back
      included.
    - [Kmem] (kmem.c; the interfaces [ArchMemory] and [DataAllocator] as
      classes), [KmemTheorems]: the laws of the interfaces and the instances
      that discharge them from the theorems on pgt.c and kmem.c.
    - [Memory] (memory.c), [MemoryTheorems] (the mapping loop of
      [virt_memory_wire], proved against the interfaces' laws), [MemoryBlocks]
      (block list, lookups by address, and runs of whole allocations).
    - [AllocInv] (the state of the manager while nothing was released: the
      free ranges of a block, the records left, the zones and the table),
      [AllocPages] (the pages of an object), [AllocBlock] (carving a range out
      of a block, with its roll back), [AllocTheorems]: [memory_alloc_pages]
      below the size of a superpage returns a range that was free, mapped to
      pages nobody else has, or fails and changes no translation.
    - [Slab] (slab.c, kmalloc.c, the wrappers of kmem.c), [SlabTheorems]:
      layout of a slab, and that objects in use never overlap, against the
      interface of the page allocator.  [SlabKernel] discharges the interface
      with the theorems of [AllocTheorems]: the kernel's own composition.
    - [Devfs] (devfs.c, sysdriver.c), [DevfsTheorems]: a ring buffer refines a
      bounded queue, also when writer and reader interleave at every memory
      access (sequentially consistent memory); writing, reading and the owner
      checks of device files.  [DevfsTypes]: a semantic typing of the calls, in
      which every sequence of calls keeps the types of the structures it
      reaches.  [DevfsNames]: a registered device is found under its name.
    - [Vfs] (vfs.c, initramfs.c), [VfsTheorems]: reading a file copies exactly
      its bytes; mounting attaches a registered file system once.
    - [Proc] (proc.c, task.c, sched.c, syscall.c, the clock), [ProcTheorems]:
      the scheduler queues exactly the ready tasks, the clock serves the
      queue in order, and the order of the timer list.
      [ProcMachine]: an abstract machine of the clock, the timer events, the two
      schedulers and the tasks, and a bound on the time a ready task waits.
      [ProcClock]: every sequence of clock interrupts and of nanosleep calls
      returns and refines the machine, so no ready task starves.  The cache of
      timer events is the interface [EventCache]: an object is never handed out
      twice and the calls return.  Of it slab.c keeps what is said of allocation
      ([SlabTheorems]); that a release always returns is not proved of it, since
      its lists can become circular ([slab_lists_alias]), so the class is a
      hypothesis of these theorems, shown to hold for a cache of one event.
    - [Tty] (user library, init, tty driver), [TtyTheorems]: the line buffer
      refines a line editor, the keyboard refines the set of keys held down,
      polling terminates, and a run of the driver on the kernel's calls.
      [DevfsPipe]: what a driver writes with the user library is what a process
      reads from the device file.
    - [Desc] (desc.c): descriptors decode to what was asked for.  [Vconsole]
      (vconsole.c): the effect of a line on the screen.
    - [Acpi] (acpi.c, apic.c, i8254.c, tsc.c), [AcpiTheorems]: the domains
      read from the NUMA table, and the sleep on the power management timer.
    - [Boot] (parts of arch.c), [BootTheorems]: memory of a NUMA domain goes to
      that domain's zone, and the boot page table translates as its comment
      says.  [FpuTheorems]: the lazy switch of the floating point registers
      keeps the values of every task.
    - [Start] (kernel.c, entry points and exception handlers of arch.c),
      [StartTheorems]: the table of system calls, the interrupt gates, and what
      a panic message looks like on the screen.
    - [Layout]: the declarations of the C structures as data, and the System V
      ABI's sizes and offsets.  [LayoutTheorems]: the field accessors of all
      files are those offsets, and the fields of a structure never overlap.

    Some theorems state what the code does where it is not what it means to
    do; they are runs or general statements about the functions as written:
    [phys_memory_init_zones_overlap], [kmemmove_up_off_by_one],
    [kprintf_overread], [pgt_v2p_misses_mapping],
    [pgt_map_inside_superpage_corrupts], [arch_memory_prepare_only_first],
    [memory_free_pages_keeps_mapping], [middle_allocation_stays_free],
    [free_tree_loses_ranges], [slab_lists_alias],
    [devfs_driver_putc_keeps_lock], [vfs_unmount_always_fails],
    [timer_all_or_nothing], [exited_task_ready_again], [idle_keeps_processor],
    [insert_middle_loses_char], [putc_runs_off_screen],
    [tty_hangs_at_first_line], [vconsole_scrolls_half],
    [vconsole_writes_below_screen], [tss_base_above_40],
    [zero_length_entry_hangs], [srat_id_out_of_range],
    [numa_region_around_lost], [registered_device_keeps_bytes],
    [negative_index_accepted]; the vector [IV_CRASH] in [setup_gates_correct].

    ** Not modelled

    The assembly entry points (boot sectors, interrupts, trampoline) have no
    counterpart in a model of C functions on a memory; of the boot loader only
    [centry] is C.  Of the context switch only its effect on memory is
    modelled, and the instructions that load a processor register
    ([mov %cr3], [lgdt], [ltr] and the like) are arguments.
    The functions of memory.c, [proc_fork] and [bsp_start] are modelled in
    full.  The theorems on whole allocations are about requests of fewer than
    512 pages in an address space from which nothing was released; those on
    superpages, on releasing and reusing a range, on a fork and on the whole
    start are stated for their parts only. *)

From Stdlib Require Export ZArith Lia.
From stdpp Require Export base tactics gmap list list_numbers numbers functions sorting.

#[global] Open Scope Z_scope.

(** [simpl] compares only numerals. *)
#[global] Arguments Z.eqb !_ !_ /.
#[global] Arguments Z.leb !_ !_ /.
#[global] Arguments Z.ltb !_ !_ /.

(** ** Machine integers

    C integers are [Z] values; every operation whose C type can wrap is
    followed by the conversion to its width. *)

Definition u8 (z : Z) : Z := z mod 256.
Definition u16 (z : Z) : Z := z mod 65536.
Definition u32 (z : Z) : Z := z mod 4294967296.
Definition u64 (z : Z) : Z := z mod 18446744073709551616.
Definition i8 (z : Z) : Z := (z + 128) mod 256 - 128.
Definition i32 (z : Z) : Z := (z + 2147483648) mod 4294967296 - 2147483648.
Definition i64 (z : Z) : Z :=
  (z + 9223372036854775808) mod 18446744073709551616 - 9223372036854775808.

Lemma u64_small z : 0 <= z < 2 ^ 64 → u64 z = z.
Proof. intros H. unfold u64. apply Z.mod_small. lia. Qed.

Lemma u64_range z : 0 <= u64 z < 2 ^ 64.
Proof. unfold u64. pose proof (Z.mod_pos_bound z 18446744073709551616). lia. Qed.

Lemma i32_small z : - 2 ^ 31 <= z < 2 ^ 31 → i32 z = z.
Proof. intros H. unfold i32. rewrite Z.mod_small; lia. Qed.

Lemma i64_small z : - 2 ^ 63 <= z < 2 ^ 63 → i64 z = z.
Proof. intros. unfold i64. rewrite Z.mod_small by lia. lia. Qed.

Lemma u64_idemp z : u64 (u64 z) = u64 z.
Proof. apply u64_small, u64_range. Qed.

(** Rounding to a multiple of a power of two, the C idioms
    [x & ~(s - 1)] and [(x + (s - 1)) & ~(s - 1)]. *)

Definition mask_down (s x : Z) : Z := Z.land x (u64 (Z.lnot (s - 1))).

Lemma land_lnot_ones x k : 0 <= k → Z.land x (Z.lnot (Z.ones k)) = x - x mod 2 ^ k.
Proof.
  intros Hk. rewrite <-Z.ldiff_land, Z.ldiff_ones_r by done.
  rewrite Z.shiftl_mul_pow2, Z.shiftr_div_pow2 by done.
  pose proof (Z.div_mod x (2 ^ k) ltac:(lia)). lia.
Qed.

Lemma land_u64_lnot x k :
  0 <= k <= 64 → 0 <= x < 2 ^ 64 →
  Z.land x (u64 (Z.lnot (2 ^ k - 1))) = x - x mod 2 ^ k.
Proof.
  intros Hk Hx. rewrite <-land_lnot_ones by lia.
  rewrite Z.ones_equiv. replace (Z.pred (2 ^ k)) with (2 ^ k - 1) by lia.
  unfold u64. change 18446744073709551616 with (2 ^ 64).
  rewrite <-Z.land_ones by lia.
  rewrite (Z.land_comm (Z.lnot _)), Z.land_assoc, Z.land_ones by lia.
  by rewrite (Z.mod_small x) by lia.
Qed.

Lemma mask_down_spec k x :
  0 <= k <= 64 → 0 <= x < 2 ^ 64 → mask_down (2 ^ k) x = x - x mod 2 ^ k.
Proof. apply land_u64_lnot. Qed.

Lemma land_ones_mod x k : 0 <= k → Z.land x (2 ^ k - 1) = x mod 2 ^ k.
Proof.
  intros Hk. rewrite <-Z.land_ones by done. rewrite Z.ones_equiv.
  f_equal; lia.
Qed.

Lemma mod_mul_iff a b c : 0 < b → a = b * c → a mod b = 0.
Proof. intros Hb ->. rewrite Z.mul_comm. by apply Z.mod_mul; lia. Qed.

(** [x mod m = 0] as a divisibility witness, for [nia]. *)
Lemma mod0_ex x m : 0 < m → x mod m = 0 → ∃ q, x = m * q.
Proof. intros Hm H. exists (x / m). pose proof (Z.div_mod x m). lia. Qed.

(** ** Memory

    A cell is a C scalar object at its byte address; the memory maps
    addresses of scalars to their values.  Every address of the kernel's
    linear mapping can be read; a cell never written reads 0. *)

Definition rd (m : gmap Z Z) (a : Z) : Z := default 0 (m !! a).
Definition wr (a v : Z) (m : gmap Z Z) : gmap Z Z := <[a := v]> m.

Declare Scope cmem_scope.
Delimit Scope cmem_scope with cmem.
Notation "m .@ a" := (rd m a) (at level 8, a at level 7, left associativity,
  format "m .@ a") : cmem_scope.
Notation "m .[ a <- v ]" := (wr a v m) (at level 1, a, v at level 200,
  left associativity, format "m .[ a  <-  v ]") : cmem_scope.
#[global] Open Scope cmem_scope.

Lemma rd_wr m a b v : (m.[a <- v]).@b = if decide (a = b) then v else m.@b.
Proof. unfold rd, wr. rewrite lookup_insert. by case_decide. Qed.
Lemma rd_wr_eq m a v : (m.[a <- v]).@a = v.
Proof. rewrite rd_wr. by case_decide. Qed.
Lemma rd_wr_ne m a b v : a ≠ b → (m.[a <- v]).@b = m.@b.
Proof. intros. rewrite rd_wr. by case_decide. Qed.

Lemma wr_wr m a v w : m.[a <- v].[a <- w] = m.[a <- w].
Proof. unfold wr. by rewrite insert_insert, decide_True. Qed.

Create HintDb cmem discriminated.
Create Rewrite HintDb cmem_rd.
#[export] Hint Rewrite rd_wr_eq : cmem_rd.
#[export] Hint Rewrite rd_wr_ne using (first [done | lia | congruence]) : cmem_rd.

(** Simplify reads after writes. *)
Ltac rdwr := autorewrite with cmem_rd.
Ltac rdwr_in H := autorewrite with cmem_rd in H.

(** ** Singly linked lists in memory

    [chain off m c l]: the pointer cell [c] heads a NULL-terminated list of
    the nodes [l], whose [next] field is at offset [off].  [seg] is the part
    of such a list walked so far and [lastc] the address of the pointer
    cell reached, the [cur = &( *cur)->next] of the source's loops. *)

Section chain.
Context (off : Z).
Implicit Types (m : gmap Z Z) (c p : Z) (l : list Z).

Fixpoint chain m c l : Prop :=
  match l with
  | [] => m.@c = 0
  | p :: l' => m.@c = p ∧ p ≠ 0 ∧ chain m (p + off) l'
  end.

Fixpoint seg m c l : Prop :=
  match l with
  | [] => True
  | p :: l' => m.@c = p ∧ p ≠ 0 ∧ seg m (p + off) l'
  end.

Fixpoint lastc c l : Z :=
  match l with
  | [] => c
  | p :: l' => lastc (p + off) l'
  end.

Definition cells c l : list Z := c :: ((λ p, p + off) <$> l).

Lemma chain_app m c l1 l2 :
  chain m c (l1 ++ l2) ↔ seg m c l1 ∧ chain m (lastc c l1) l2.
Proof. revert c. induction l1 as [|p l1 IH]; intros c; simpl; [tauto|]. rewrite IH. tauto. Qed.

Lemma seg_app m c l1 l2 :
  seg m c (l1 ++ l2) ↔ seg m c l1 ∧ seg m (lastc c l1) l2.
Proof. revert c. induction l1 as [|p l1 IH]; intros c; simpl; [tauto|]. rewrite IH. tauto. Qed.

Lemma lastc_app c l1 l2 : lastc c (l1 ++ l2) = lastc (lastc c l1) l2.
Proof. revert c. induction l1; intros c; simpl; auto. Qed.

Lemma lastc_cells c l : lastc c l ∈ cells c l.
Proof.
  revert c. induction l as [|p l IH]; intros c; simpl; [set_solver|].
  specialize (IH (p + off)). unfold cells in *. set_solver.
Qed.

Lemma chain_frame m m' c l :
  (∀ x, x ∈ cells c l → m'.@x = m.@x) → chain m c l → chain m' c l.
Proof.
  revert c. induction l as [|p l IH]; intros c H; simpl.
  - rewrite H; [done|]. set_solver.
  - intros (Hc & Hp & Hl). rewrite H by set_solver. split_and!; [done..|].
    apply IH; [|done]. intros x Hx. apply H. unfold cells in *. set_solver.
Qed.

Lemma seg_frame m m' c l :
  (∀ x, x ∈ cells c l → x ≠ lastc c l → m'.@x = m.@x) →
  NoDup (cells c l) → seg m c l → seg m' c l.
Proof.
  revert c. induction l as [|p l IH]; intros c H Hnd; simpl; [done|].
  intros (Hc & Hp & Hl).
  pose proof (lastc_cells (p + off) l) as Hlast.
  assert (c ≠ lastc (p + off) l) as Hne.
  { intros E. apply list.NoDup_cons in Hnd as [Hnd _]. apply Hnd. rewrite E.
    unfold cells in Hlast. simpl. exact Hlast. }
  rewrite H by (simpl; set_solver). split_and!; [done..|].
  apply IH; [|by apply list.NoDup_cons in Hnd as [_ ?]|done].
  intros x Hx Hx'. apply H; [unfold cells in *; set_solver|done].
Qed.

Lemma chain_wr m c l a v : a ∉ cells c l → chain m c l → chain (m.[a <- v]) c l.
Proof. intros Ha. apply chain_frame. intros x Hx. apply rd_wr_ne. congruence. Qed.

(** Linking a fresh node between [l1] and [l2]. *)
Lemma chain_insert m m' c p l1 l2 :
  chain m c (l1 ++ l2) → NoDup (cells c (l1 ++ p :: l2)) → p ≠ 0 →
  m'.@(lastc c l1) = p → m'.@(p + off) = m.@(lastc c l1) →
  (∀ x, x ∈ cells c (l1 ++ l2) → x ≠ lastc c l1 → m'.@x = m.@x) →
  chain m' c (l1 ++ p :: l2).
Proof.
  intros Hc Hnd Hp H1 H2 Hfr. apply chain_app in Hc as [Hs Hc].
  unfold cells in Hnd. rewrite fmap_app in Hnd. simpl in Hnd.
  rewrite app_comm_cons in Hnd. apply list.NoDup_app in Hnd as (Hnd1 & Hdj & Hnd2).
  assert (∀ x, x ∈ cells c l1 → x ∈ cells c (l1 ++ l2)) as Hin.
  { unfold cells. rewrite fmap_app. set_solver. }
  apply chain_app. split.
  { eapply seg_frame; [|exact Hnd1|exact Hs]. intros x Hx ?. apply Hfr; auto. }
  simpl. split_and!; [done..|].
  destruct l2 as [|q l2]; simpl in *.
  - by rewrite H2.
  - destruct Hc as (Hc & Hq & Hl). split_and!; [by rewrite H2|done|].
    eapply chain_frame; [|exact Hl]. intros x Hx. apply Hfr.
    + unfold cells in *. rewrite fmap_app. simpl. set_solver.
    + intros ->. apply (Hdj (lastc c l1)).
      * apply lastc_cells.
      * unfold cells in Hx. set_solver.
Qed.

(** Unlinking the node after [l1]. *)
Lemma chain_remove m m' c p l1 l2 :
  chain m c (l1 ++ p :: l2) → NoDup (cells c (l1 ++ p :: l2)) →
  m'.@(lastc c l1) = m.@(p + off) →
  (∀ x, x ∈ cells c (l1 ++ l2) → x ≠ lastc c l1 → m'.@x = m.@x) →
  chain m' c (l1 ++ l2).
Proof.
  intros Hc Hnd H1 Hfr. apply chain_app in Hc as [Hs Hc].
  unfold cells in Hnd. rewrite fmap_app in Hnd. simpl in Hnd.
  rewrite app_comm_cons in Hnd. apply list.NoDup_app in Hnd as (Hnd1 & Hdj & Hnd2).
  assert (∀ x, x ∈ cells c l1 → x ∈ cells c (l1 ++ l2)) as Hin.
  { unfold cells. rewrite fmap_app. set_solver. }
  apply chain_app. split.
  { eapply seg_frame; [|exact Hnd1|exact Hs]. intros x Hx ?. apply Hfr; auto. }
  simpl in Hc. destruct Hc as (Hc & Hp & Hl).
  destruct l2 as [|q l2]; simpl in *.
  - by rewrite H1.
  - destruct Hl as (Hq & Hq0 & Hl). split_and!; [by rewrite H1|done|].
    eapply chain_frame; [|exact Hl]. intros x Hx. apply Hfr.
    + unfold cells in *. rewrite fmap_app. simpl. set_solver.
    + intros ->. apply (Hdj (lastc c l1)).
      * apply lastc_cells.
      * unfold cells in Hx. set_solver.
Qed.

Lemma chain_functional m c l l' : chain m c l → chain m c l' → l = l'.
Proof.
  revert c l'. induction l as [|p l IH]; intros c [|p' l']; simpl; [done|..].
  - intros E (E' & ? & _). congruence.
  - intros (E & ? & _) E'. congruence.
  - intros (E & ? & H) (E' & ? & H'). assert (p = p') as -> by congruence.
    f_equal. eauto.
Qed.

End chain.

(** ** Assembly helpers

    [kmemset(b, 0, len)] clears every scalar stored in the range. *)

Definition kmemset0 (b len : Z) (m : gmap Z Z) : gmap Z Z :=
  filter (λ kv, ¬ (b <= kv.1 < b + len)) m.

Lemma rd_kmemset0 m b len a :
  (kmemset0 b len m).@a = if decide (b <= a < b + len) then 0 else m.@a.
Proof.
  unfold rd, kmemset0. rewrite map_lookup_filter.
  destruct (m !! a) as [v|]; simpl; [|by case_decide].
  destruct (decide (b <= a < b + len)) as [H|H].
  - by rewrite option_guard_False by tauto.
  - by rewrite option_guard_True.
Qed.

(** [spin_lock] spins until the word is 0 and takes it; with a single
    flow of control a held lock is never released, which is [None]. *)
Definition spin_lock (l : Z) (m : gmap Z Z) : option (gmap Z Z) :=
  if m.@l =? 0 then Some (m.[l <- 1]) else None.
Definition spin_unlock (l : Z) (m : gmap Z Z) : gmap Z Z := m.[l <- 0].
