(* ===== verification/PhysMem.v ===== *)
(** * Physical memory: the buddy system of kernel/physmem.c

    The free lists are threaded through the free pages themselves, so every
    operation here works on the shared memory of [Prelude], with the
    addresses and the cells of the source.  [None] is the outcome of a call
    that runs out of loop fuel (or spins on a held lock). *)

From S2P Require Import Prelude.

Definition MEMORY_ZONE_DMA : Z := 0.
Definition MEMORY_ZONE_KERNEL : Z := 1.
Definition MEMORY_ZONE_NUMA_AWARE : Z := 2.
Definition MEMORY_ZONE_KERNEL_LB : Z := 0x01000000.
Definition MEMORY_ZONE_NUMA_AWARE_LB : Z := 0x04000000.
Definition MEMORY_PHYS_BUDDY_ORDER : Z := 18.
Definition MEMORY_PAGESIZE : Z := 4096.

(** [&buddy[order]] *)
Definition head (buddy order : Z) : Z := buddy + 8 * order.

(** The loop of [_add_block]: [cur] is the pointer cell under inspection. *)
Fixpoint _add_block_loop (fuel : nat) (m : gmap Z Z) (cur addr : Z)
    : option (gmap Z Z) :=
  match fuel with
  | O => None
  | S fuel =>
    if m.@cur =? 0 then Some (m.[cur <- addr])
    else if addr <? m.@cur then
      Some (m.[addr <- m.@cur].[cur <- addr])
    else _add_block_loop fuel m (m.@cur) addr
  end.

Definition _add_block (fuel : nat) (m : gmap Z Z) (buddy order addr : Z)
    : option (gmap Z Z) :=
  _add_block_loop fuel (m.[addr <- 0]) (head buddy order) addr.

(** [for ( i = 0; i < nr; i++ ) _add_block(...)], [n] iterations left. *)
Fixpoint _add_blocks (fuel n : nat) (m : gmap Z Z)
    (buddy order base_aligned blocksize i : Z) : option (gmap Z Z) :=
  match n with
  | O => Some m
  | S n =>
    m' ← _add_block fuel m buddy order (u64 (base_aligned + i * blocksize));
    _add_blocks fuel n m' buddy order base_aligned blocksize (i + 1)
  end.

(** [depth] bounds the recursion on the order; [order + 2] is enough. *)
Fixpoint _add_region_order_rec (depth fuel : nat) (m : gmap Z Z)
    (buddy order base next : Z) : option (gmap Z Z) :=
  match depth with
  | O => None
  | S depth =>
    if order <? 0 then Some m else
    let blocksize := u64 (u64 (Z.shiftl 1 order) * MEMORY_PAGESIZE) in
    let base_aligned :=
      Z.land (u64 (base + (blocksize - 1))) (u64 (Z.lnot (blocksize - 1))) in
    let next_aligned := Z.land next (u64 (Z.lnot (blocksize - 1))) in
    m1 ← (if negb (base =? base_aligned) then
            let ptr := if base_aligned <? next then base_aligned else next in
            _add_region_order_rec depth fuel m buddy (order - 1) base ptr
          else Some m);
    m2 ← (if negb (next =? next_aligned) && (base <=? next_aligned) then
            let ptr := if base <? next_aligned then next_aligned else base in
            _add_region_order_rec depth fuel m1 buddy (order - 1) ptr next
          else Some m1);
    let nr := i32 (Z.shiftr (u64 (next_aligned - base_aligned)) order
                   / MEMORY_PAGESIZE) in
    _add_blocks fuel (Z.to_nat nr) m2 buddy order base_aligned blocksize 0
  end.

Definition _add_region_order (fuel : nat) (m : gmap Z Z)
    (buddy order base next : Z) : option (gmap Z Z) :=
  _add_region_order_rec (Z.to_nat (order + 2)) fuel m buddy order base next.

Definition phys_mem_buddy_add_region (fuel : nat) (m : gmap Z Z)
    (buddy base next : Z) : option (gmap Z Z) :=
  _add_region_order fuel m buddy MEMORY_PHYS_BUDDY_ORDER base next.

(** [depth] bounds the recursion on the order. *)
Fixpoint _split_buddy_rec (depth : nat) (m : gmap Z Z) (buddy order : Z)
    : option (gmap Z Z) :=
  match depth with
  | O => None
  | S depth =>
    if MEMORY_PHYS_BUDDY_ORDER <=? order then Some m
    else if negb (m.@(head buddy order) =? 0) then Some m
    else
      m ← _split_buddy_rec depth m buddy (order + 1);
      if m.@(head buddy (order + 1)) =? 0 then Some m
      else
        let block := m.@(head buddy (order + 1)) in
        let m := m.[head buddy (order + 1) <- m.@block] in
        let m := m.[block <- 0] in
        let offset := u64 (Z.shiftl MEMORY_PAGESIZE order) in
        let split := u64 (block + offset) in
        let m := m.[split <- 0] in
        let m := m.[block <- split] in
        Some (m.[head buddy order <- block])
  end.

Definition _split_buddy (m : gmap Z Z) (buddy order : Z) : option (gmap Z Z) :=
  _split_buddy_rec (S (Z.to_nat (MEMORY_PHYS_BUDDY_ORDER - order))) m buddy order.

(** The pointer returned (0 for NULL) and the memory. *)
Definition phys_mem_buddy_alloc (m : gmap Z Z) (buddy order : Z)
    : option (Z * gmap Z Z) :=
  if MEMORY_PHYS_BUDDY_ORDER <? order then Some (0, m)
  else
    m ← _split_buddy m buddy order;
    if m.@(head buddy order) =? 0 then Some (0, m)
    else
      let block := m.@(head buddy order) in
      let m := m.[head buddy order <- m.@block] in
      Some (block, m.[block <- 0]).

(** The loop of [_merge_buddy]; [insert] is [_insert_buddy] at [order + 1]. *)
Fixpoint _merge_loop (insert : gmap Z Z → Z → option (gmap Z Z))
    (fuel : nat) (m : gmap Z Z) (cur blocksize : Z) : option (gmap Z Z) :=
  match fuel with
  | O => None
  | S fuel =>
    if m.@cur =? 0 then Some m
    else
      let block := m.@cur in
      if (Z.land block (u64 (Z.shiftl blocksize 1) - 1) =? 0)
         && (m.@block =? u64 (block + blocksize)) then
        let m := m.[cur <- m.@(m.@(m.@cur))] in
        m ← insert m block;
        if m.@cur =? 0 then Some m
        else _merge_loop insert fuel m (m.@cur) blocksize
      else _merge_loop insert fuel m (m.@cur) blocksize
  end.

Definition _merge_buddy (insert : gmap Z Z → Z → Z → option (gmap Z Z))
    (fuel : nat) (m : gmap Z Z) (buddy order : Z) : option (gmap Z Z) :=
  if MEMORY_PHYS_BUDDY_ORDER <=? order then Some m
  else
    let blocksize := u64 (Z.shiftl MEMORY_PAGESIZE order) in
    _merge_loop (λ m block, insert m block (order + 1)) fuel m
      (head buddy order) blocksize.

(** The search loop of [_insert_buddy]: the cell to insert at. *)
Fixpoint _insert_find (fuel : nat) (m : gmap Z Z) (cur addr : Z) : option Z :=
  match fuel with
  | O => None
  | S fuel =>
    if m.@cur =? 0 then Some cur
    else if addr <? m.@cur then Some cur
    else _insert_find fuel m (m.@cur) addr
  end.

(** [_insert_buddy] and [_merge_buddy] call each other with growing order;
    [depth] bounds that recursion. *)
Fixpoint _insert_buddy_rec (depth fuel : nat) (m : gmap Z Z)
    (buddy addr order : Z) : option (gmap Z Z) :=
  match depth with
  | O => None
  | S depth =>
    if MEMORY_PHYS_BUDDY_ORDER <? order then Some m
    else
      cur ← _insert_find fuel m (head buddy order) addr;
      let m := m.[addr <- m.@cur] in
      let m := m.[cur <- addr] in
      _merge_buddy (λ m a o, _insert_buddy_rec depth fuel m buddy a o)
        fuel m buddy order
  end.

Definition _insert_buddy (fuel : nat) (m : gmap Z Z) (buddy addr order : Z)
    : option (gmap Z Z) :=
  _insert_buddy_rec (Z.to_nat (MEMORY_PHYS_BUDDY_ORDER + 2 - order)) fuel m
    buddy addr order.

Definition phys_mem_buddy_free (fuel : nat) (m : gmap Z Z) (buddy ptr order : Z)
    : option (gmap Z Z) :=
  _insert_buddy fuel m buddy ptr order.

(** ** [phys_memory_t]: offsets of the fields *)

Definition phys_p2v (mem : Z) : Z := mem.
Definition sizeof_zone : Z := 160.
(** [mem->czones[zone].heads] *)
Definition czone_heads (mem zone : Z) : Z := mem + 8 + sizeof_zone * zone + 8.
Definition czone_valid (mem zone : Z) : Z := mem + 8 + sizeof_zone * zone.
Definition phys_max_domain (mem : Z) : Z := mem + 328.
Definition phys_numazones (mem : Z) : Z := mem + 336.
Definition phys_lock (mem : Z) : Z := mem + 344.
Definition sizeof_phys_memory : Z := 352.
(** [numazones[domain].heads] *)
Definition zone_heads (zones domain : Z) : Z := zones + sizeof_zone * domain + 8.

Definition phys_mem_alloc (m : gmap Z Z) (mem order zone domain : Z)
    : option (Z * gmap Z Z) :=
  m ← spin_lock (phys_lock mem) m;
  '(ptr, m) ←
    (if (MEMORY_ZONE_DMA =? zone) || (MEMORY_ZONE_KERNEL =? zone) then
       phys_mem_buddy_alloc m (czone_heads mem zone) order
     else if MEMORY_ZONE_NUMA_AWARE =? zone then
       if domain <=? m.@(phys_max_domain mem) then
         phys_mem_buddy_alloc m (zone_heads (m.@(phys_numazones mem)) domain) order
       else Some (0, m)
     else Some (0, m));
  let ptr := if negb (ptr =? 0) then u64 (ptr - m.@(phys_p2v mem)) else ptr in
  Some (ptr, spin_unlock (phys_lock mem) m).

Definition phys_mem_free (fuel : nat) (m : gmap Z Z) (mem ptr order zone domain : Z)
    : option (gmap Z Z) :=
  m ← spin_lock (phys_lock mem) m;
  let ptr := if negb (ptr =? 0) then u64 (ptr + m.@(phys_p2v mem)) else ptr in
  m ←
    (if (MEMORY_ZONE_DMA =? zone) || (MEMORY_ZONE_KERNEL =? zone) then
       phys_mem_buddy_free fuel m (czone_heads mem zone) ptr order
     else if MEMORY_ZONE_NUMA_AWARE =? zone then
       if domain <=? m.@(phys_max_domain mem) then
         phys_mem_buddy_free fuel m
           (zone_heads (m.@(phys_numazones mem)) domain) ptr order
       else Some m
     else Some m);
  Some (spin_unlock (phys_lock mem) m).

(** Fields of [memory_sysmap_entry_t] (24 bytes, packed). *)
Definition sysmap_base (map i : Z) : Z := map + 24 * i.
Definition sysmap_len (map i : Z) : Z := map + 24 * i + 8.
Definition sysmap_type (map i : Z) : Z := map + 24 * i + 16.

(** The body of the loop of [phys_memory_init] for one map entry. *)
Definition phys_memory_init_entry (fuel : nat) (m : gmap Z Z)
    (mem map p2v i : Z) : option (gmap Z Z) :=
  let base := m.@(sysmap_base map i) in
  let next := u64 (base + m.@(sysmap_len map i)) in
  let base := if base <? 0x00200000 then 0x00200000 else base in
  let next := if next <? 0x00200000 then 0x00200000 else next in
  let base := mask_down MEMORY_PAGESIZE (u64 (base + (MEMORY_PAGESIZE - 1))) in
  let next := mask_down MEMORY_PAGESIZE next in
  if MEMORY_ZONE_NUMA_AWARE_LB <=? base then Some m
  else
    let next := if MEMORY_ZONE_NUMA_AWARE_LB <? next
                then MEMORY_ZONE_NUMA_AWARE_LB else next in
    m ← (if MEMORY_ZONE_KERNEL_LB <? next then
           phys_mem_buddy_add_region fuel m (czone_heads mem MEMORY_ZONE_KERNEL)
             (u64 (base + p2v)) (u64 (next + p2v))
         else Some m);
    if base <? MEMORY_ZONE_KERNEL_LB then
      phys_mem_buddy_add_region fuel m (czone_heads mem MEMORY_ZONE_DMA)
        (u64 (base + p2v)) (u64 (next + p2v))
    else Some m.

Fixpoint phys_memory_init_loop (fuel n : nat) (m : gmap Z Z)
    (mem map p2v i : Z) : option (gmap Z Z) :=
  match n with
  | O => Some m
  | S n =>
    m ← phys_memory_init_entry fuel m mem map p2v i;
    phys_memory_init_loop fuel n m mem map p2v (i + 1)
  end.

Definition phys_memory_init (fuel : nat) (m : gmap Z Z) (mem nr map p2v : Z)
    : option (gmap Z Z) :=
  let m := kmemset0 mem sizeof_phys_memory m in
  m ← phys_memory_init_loop fuel (Z.to_nat nr) m mem map p2v 0;
  let m := m.[phys_p2v mem <- p2v] in
  let m := m.[czone_valid mem MEMORY_ZONE_DMA <- 1] in
  Some (m.[czone_valid mem MEMORY_ZONE_KERNEL <- 1]).
