(* ===== verification/Buddy.v ===== *)
(** * The buddy system is correct

    The abstract state of a zone is the family of its free lists
    [f : order -> list of block addresses]; what it promises to its clients
    is the set [free_at f] of free bytes.  [buddy_inv] ties the memory to
    [f]; the theorems say that allocation removes exactly one block from the
    free set, that release puts exactly one block back (merging included),
    and that adding a region adds exactly its bytes. *)

From S2P Require Import Prelude PhysMem.

(** ** Abstract state *)

Definition bsz (o : Z) : Z := 4096 * 2 ^ o.
Definition valid_order (o : Z) : Prop := 0 <= o <= 18.
Definition in_blk (o a x : Z) : Prop := a <= x < a + bsz o.
Definition free_at (f : Z → list Z) (x : Z) : Prop :=
  ∃ o a, valid_order o ∧ a ∈ f o ∧ in_blk o a x.
Definition in_heads (b x : Z) : Prop := b <= x < b + 152.

(** A block of order [o] at [a]: in the address space and aligned. *)
Definition blk_ok (o a : Z) : Prop :=
  0 < a ∧ a + bsz o < 2 ^ 64 ∧ a mod bsz o = 0.

Record buddy_wf (f : Z → list Z) : Prop := {
  wf_block o a : valid_order o → a ∈ f o → blk_ok o a;
  wf_sorted o : valid_order o → StronglySorted Z.lt (f o);
  wf_disj o a o' a' x : valid_order o → valid_order o' → a ∈ f o → a' ∈ f o' →
    in_blk o a x → in_blk o' a' x → o = o' ∧ a = a';
}.

Record buddy_inv (m : gmap Z Z) (b : Z) (f : Z → list Z) : Prop := {
  inv_wf : buddy_wf f;
  inv_chain o : valid_order o → chain 0 m (head b o) (f o);
  inv_sep x : free_at f x → ¬ in_heads b x;
}.

(** Memory that an operation on the zone at [b] with free lists [f] may not
    touch. *)
Definition buddy_frame (b : Z) (f : Z → list Z) (m m' : gmap Z Z) : Prop :=
  ∀ x, ¬ in_heads b x → ¬ free_at f x → m'.@x = m.@x.

(** The number of free blocks. *)
Definition orders : list Z := Z.of_nat <$> seq 0 19.
Definition total (f : Z → list Z) : nat := sum_list ((λ o, length (f o)) <$> orders).

(** ** Arithmetic of blocks *)

Lemma bsz_pos o : 0 <= o → 0 < bsz o.
Proof. unfold bsz. intros. pose proof (Z.pow_pos_nonneg 2 o). lia. Qed.
Lemma bsz_succ o : 0 <= o → bsz (o + 1) = 2 * bsz o.
Proof. intros. unfold bsz. rewrite Z.pow_add_r by lia. lia. Qed.
Lemma bsz_max o : valid_order o → 4096 <= bsz o <= 2 ^ 30.
Proof.
  intros [? ?]. unfold bsz.
  assert (2 ^ 0 <= 2 ^ o) by (apply Z.pow_le_mono_r; lia).
  assert (2 ^ o <= 2 ^ 18) by (apply Z.pow_le_mono_r; lia). lia.
Qed.
Lemma bsz_pow o : 0 <= o → bsz o = 2 ^ (12 + o).
Proof. intros. unfold bsz. rewrite Z.pow_add_r by lia. done. Qed.
Lemma bsz_shiftl o : valid_order o → u64 (Z.shiftl MEMORY_PAGESIZE o) = bsz o.
Proof.
  intros Ho. pose proof (bsz_max o Ho). destruct Ho.
  rewrite Z.shiftl_mul_pow2 by lia. change (MEMORY_PAGESIZE * 2 ^ o) with (bsz o).
  apply u64_small. lia.
Qed.

Lemma in_blk_self o a : 0 <= o → in_blk o a a.
Proof. intros. pose proof (bsz_pos o). unfold in_blk. lia. Qed.

Lemma in_blk_halves o a x : 0 <= o →
  in_blk (o + 1) a x ↔ in_blk o a x ∨ in_blk o (a + bsz o) x.
Proof. intros. unfold in_blk. rewrite bsz_succ by done. pose proof (bsz_pos o). lia. Qed.

Lemma blk_ok_halves o a : 0 <= o →
  blk_ok (o + 1) a → blk_ok o a ∧ blk_ok o (a + bsz o).
Proof.
  intros Ho (? & ? & Ha). rewrite bsz_succ in * by done.
  pose proof (bsz_pos o Ho). apply mod0_ex in Ha as [q Ha]; [|lia].
  split; split_and!; try lia.
  - apply (mod_mul_iff _ _ (2 * q)); lia.
  - apply (mod_mul_iff _ _ (2 * q + 1)); lia.
Qed.

Lemma head_heads b o : valid_order o → in_heads b (head b o).
Proof. unfold valid_order, in_heads, head. lia. Qed.
Lemma head_inj b o o' : head b o = head b o' → o = o'.
Proof. unfold head. lia. Qed.

Create HintDb buddy discriminated.
#[export] Hint Resolve bsz_pos in_blk_self head_heads : buddy.
#[export] Hint Extern 1 (valid_order _) => (unfold valid_order in *; lia) : buddy.
#[export] Hint Extern 1 (_ <= _) => (unfold valid_order in *; lia) : buddy.

(** ** Lists: sorted insertion and removal *)

Lemma sorted_nodup l : StronglySorted Z.lt l → NoDup l.
Proof.
  induction 1 as [|x l Hs IH Hx]; constructor; [|done].
  intros Hin. rewrite Forall_forall in Hx. specialize (Hx _ Hin). lia.
Qed.

Lemma sorted_app l1 l2 :
  StronglySorted Z.lt (l1 ++ l2) ↔
  StronglySorted Z.lt l1 ∧ StronglySorted Z.lt l2 ∧
  (∀ x y, x ∈ l1 → y ∈ l2 → x < y).
Proof.
  induction l1 as [|z l1 IH]; simpl.
  - split; [intros; split_and!; [constructor|done|set_solver]|tauto].
  - split.
    + intros H. inversion H as [|? ? Hs Hz]; subst. rewrite Forall_forall in Hz.
      apply IH in Hs as (? & ? & ?). split_and!; [|done|].
      * constructor; [done|]. apply Forall_forall. intros. apply Hz. set_solver.
      * intros x y Hx Hy. apply elem_of_cons in Hx as [->|Hx]; [|auto].
        apply Hz. set_solver.
    + intros (H & H2 & H3). inversion H as [|? ? Hs Hz]; subst.
      rewrite Forall_forall in Hz. constructor.
      * apply IH. split_and!; [done..|]. intros. apply H3; set_solver.
      * apply Forall_forall. intros x Hx. apply elem_of_app in Hx as [?|?]; [auto|].
        apply H3; set_solver.
Qed.

Lemma sorted_insert l1 a l2 :
  StronglySorted Z.lt (l1 ++ l2) → (∀ x, x ∈ l1 → x < a) → (∀ x, x ∈ l2 → a < x) →
  StronglySorted Z.lt (l1 ++ a :: l2).
Proof.
  rewrite !sorted_app. intros (? & ? & ?) Hl Hr. split_and!; [done| |].
  - constructor; [done|]. by apply Forall_forall.
  - intros x y Hx Hy. apply elem_of_cons in Hy as [->|?]; auto.
Qed.

Lemma sorted_remove l1 a l2 :
  StronglySorted Z.lt (l1 ++ a :: l2) → StronglySorted Z.lt (l1 ++ l2).
Proof.
  rewrite !sorted_app. intros (? & Hs & ?). inversion Hs; subst.
  split_and!; [done..|]. intros. set_solver.
Qed.

(** ** Abstract operations: removing and adding a block *)

Section abstract.
Implicit Types (f : Z → list Z) (o a x : Z).

Lemma lookup_upd f o l o' : <[o:=l]> f o' = if decide (o = o') then l else f o'.
Proof.
  case_decide; subst; [apply fn_lookup_insert|by apply fn_lookup_insert_ne].
Qed.

Lemma free_at_insert f o a l1 l2 x :
  valid_order o → f o = l1 ++ l2 →
  free_at (<[o := l1 ++ a :: l2]> f) x ↔ free_at f x ∨ in_blk o a x.
Proof.
  intros Ho E. unfold free_at. setoid_rewrite lookup_upd. split.
  - intros (o' & a' & Ho' & Ha & Hx). case_decide; subst; [|eauto 10].
    apply elem_of_app in Ha as [Ha|Ha]; [left; exists o', a'; rewrite E; set_solver|].
    apply elem_of_cons in Ha as [->|Ha]; [by right|].
    left; exists o', a'; rewrite E; set_solver.
  - intros [(o' & a' & Ho' & Ha & Hx)|Hx].
    + exists o', a'. split_and!; [done| |done]. case_decide; subst; [|done].
      rewrite E in Ha. set_solver.
    + exists o, a. split_and!; [done| |done]. case_decide; [set_solver|done].
Qed.

Lemma free_at_remove f o a l1 l2 x :
  valid_order o → f o = l1 ++ a :: l2 →
  free_at f x ↔ free_at (<[o := l1 ++ l2]> f) x ∨ in_blk o a x.
Proof.
  intros Ho E. rewrite <-(free_at_insert _ o a l1 l2)
    by (rewrite ?lookup_upd; auto; by case_decide).
  unfold free_at.
  split; intros (o' & a' & ? & Ha & ?); exists o', a'; split_and!; try done;
    rewrite ?lookup_upd in *; case_decide; subst; rewrite ?E in *; done.
Qed.

Lemma free_at_cons f o a x :
  valid_order o → free_at (<[o := a :: f o]> f) x ↔ free_at f x ∨ in_blk o a x.
Proof. intros Ho. by apply (free_at_insert f o a [] (f o)). Qed.

Lemma free_at_tail f o a l x :
  valid_order o → f o = a :: l →
  free_at f x ↔ free_at (<[o := l]> f) x ∨ in_blk o a x.
Proof. intros Ho E. by apply (free_at_remove f o a [] l). Qed.

Lemma wf_remove f o a l1 l2 :
  valid_order o → f o = l1 ++ a :: l2 → buddy_wf f → buddy_wf (<[o := l1 ++ l2]> f).
Proof.
  intros Ho E Hwf.
  assert (∀ o' a', a' ∈ <[o:=l1 ++ l2]> f o' → a' ∈ f o') as Hsub.
  { intros o' a'. rewrite lookup_upd. case_decide; subst; [|done]. rewrite E. set_solver. }
  split.
  - intros. by apply (wf_block f Hwf); auto.
  - intros o' Ho'. rewrite lookup_upd. case_decide; subst; [|by apply Hwf].
    apply (sorted_remove _ a). rewrite <-E. by apply Hwf.
  - intros. eapply (wf_disj f Hwf); eauto.
Qed.

Lemma removed_disjoint f o a l1 l2 x :
  valid_order o → f o = l1 ++ a :: l2 → buddy_wf f →
  free_at (<[o := l1 ++ l2]> f) x → ¬ in_blk o a x.
Proof.
  intros Ho E Hwf (o' & a' & Ho' & Ha' & Hx') Hx.
  assert (a' ∈ f o') as Hin.
  { rewrite lookup_upd in Ha'. case_decide; subst; [|done]. rewrite E. set_solver. }
  destruct (wf_disj f Hwf o a o' a' x) as [<- <-]; try done; [rewrite E; set_solver|].
  rewrite lookup_upd in Ha'. case_decide; [|done].
  pose proof (sorted_nodup _ (wf_sorted f Hwf o Ho)) as Hnd. rewrite E in Hnd.
  apply list.NoDup_app in Hnd as (_ & Hnd1 & Hnd2). apply list.NoDup_cons in Hnd2 as [? _].
  apply elem_of_app in Ha' as [?|?]; [|done]. eapply Hnd1; [done|]. set_solver.
Qed.

Lemma wf_insert f o a l1 l2 :
  valid_order o → f o = l1 ++ l2 → buddy_wf f → blk_ok o a →
  (∀ x, in_blk o a x → ¬ free_at f x) →
  StronglySorted Z.lt (l1 ++ a :: l2) →
  buddy_wf (<[o := l1 ++ a :: l2]> f).
Proof.
  intros Ho E Hwf Hok Hdj Hs.
  assert (∀ o' a', a' ∈ <[o:=l1 ++ a :: l2]> f o' →
            a' ∈ f o' ∨ (o' = o ∧ a' = a)) as Hsub.
  { intros o' a'. rewrite lookup_upd. case_decide; subst; [|by left]. rewrite E. set_solver. }
  split.
  - intros o' a' Ho' [Ha'|[-> ->]]%Hsub; [by apply Hwf|done].
  - intros o' Ho'. rewrite lookup_upd. case_decide; subst; [done|by apply Hwf].
  - intros o1 a1 o2 a2 x Ho1 Ho2 [H1|[-> ->]]%Hsub [H2|[-> ->]]%Hsub Hx1 Hx2; [|exfalso..|done].
    + eapply (wf_disj f Hwf); eauto.
    + eapply Hdj; [exact Hx2|]. by exists o1, a1.
    + eapply Hdj; [exact Hx1|]. by exists o2, a2.
Qed.

(** Blocks are determined by their address, so a node is in one list only. *)
Lemma node_order f o o' a :
  buddy_wf f → valid_order o → valid_order o' → a ∈ f o → a ∈ f o' → o = o'.
Proof.
  intros Hwf Ho Ho' H H'.
  destruct (wf_disj f Hwf o a o' a a); auto with buddy.
Qed.

Lemma node_free f o a : valid_order o → a ∈ f o → free_at f a.
Proof. intros Ho Ha. exists o, a. split_and!; auto with buddy. Qed.

Lemma sum_insert (f : Z → list Z) o l (s : list Z) :
  NoDup s → o ∈ s →
  (sum_list ((λ o', length (<[o := l]> f o')) <$> s) + length (f o) =
   sum_list ((λ o', length (f o')) <$> s) + length l)%nat.
Proof.
  induction s as [|x s IH]; intros Hnd Hin; [set_solver|].
  apply list.NoDup_cons in Hnd as [Hx Hnd]. csimpl. rewrite lookup_upd.
  case_decide as E.
  - subst x. assert (sum_list ((λ o', length (<[o := l]> f o')) <$> s)
      = sum_list ((λ o', length (f o')) <$> s)) as ->.
    { f_equal. apply list_fmap_ext. intros i y Hy. rewrite lookup_upd.
      case_decide; subst; [|done]. exfalso. apply Hx.
      by eapply list_elem_of_lookup_2. }
    lia.
  - apply elem_of_cons in Hin as [?|Hin]; [congruence|].
    specialize (IH Hnd Hin). lia.
Qed.

Lemma orders_spec o : o ∈ orders ↔ valid_order o.
Proof.
  unfold orders. rewrite list_elem_of_fmap. split.
  - intros (n & -> & Hn%elem_of_seq). split; lia.
  - intros [??]. exists (Z.to_nat o). split; [lia|]. apply elem_of_seq. lia.
Qed.

Lemma total_upd f o l :
  valid_order o → (total (<[o := l]> f) + length (f o) = total f + length l)%nat.
Proof.
  intros Ho. unfold total. apply sum_insert; [|by apply orders_spec].
  unfold orders. apply NoDup_fmap; [apply _|]. apply NoDup_seq.
Qed.

Lemma total_length f o : valid_order o → (length (f o) <= total f)%nat.
Proof. intros Ho. pose proof (total_upd f o [] Ho). simpl in *. lia. Qed.

End abstract.

(** ** Free lists in memory *)

Section concrete.
Context (b : Z).
Implicit Types (m : gmap Z Z) (f : Z → list Z) (o a x : Z).

Lemma cells0 c l : cells 0 c l = c :: l.
Proof.
  unfold cells. f_equal. rewrite <-(list_fmap_id l) at 2.
  apply list_fmap_ext. intros. simpl. lia.
Qed.

Lemma lastc_snoc c l p : lastc 0 c (l ++ [p]) = p.
Proof. rewrite lastc_app. simpl. lia. Qed.

Lemma inv_cells_nodup m f o :
  buddy_inv m b f → valid_order o → NoDup (cells 0 (head b o) (f o)).
Proof.
  intros Hi Ho. rewrite cells0. apply list.NoDup_cons. split.
  - intros Hin. eapply (inv_sep _ _ _ Hi); [by eapply node_free|]. auto with buddy.
  - by apply sorted_nodup, Hi.
Qed.

Lemma inv_cells_disj m f o o' x :
  buddy_inv m b f → valid_order o → valid_order o' → o ≠ o' →
  x ∈ cells 0 (head b o) (f o) → x ∉ cells 0 (head b o') (f o').
Proof.
  intros Hi Ho Ho' Hne. rewrite !cells0, !elem_of_cons.
  intros [->|Hx] [Hx'|Hx'].
  - by apply head_inj in Hx'.
  - eapply (inv_sep _ _ _ Hi (head b o)); [by eapply (node_free f o')|auto with buddy].
  - subst. eapply (inv_sep _ _ _ Hi (head b o')); [by eapply (node_free f o)|auto with buddy].
  - apply Hne. eapply node_order; eauto. apply Hi.
Qed.

(** The pointer cell after [l1] belongs to the list it was reached in. *)
Lemma lastc_in m f o l1 l2 :
  f o = l1 ++ l2 → lastc 0 (head b o) l1 ∈ cells 0 (head b o) (f o).
Proof.
  intros E. pose proof (lastc_cells 0 (head b o) l1) as H.
  rewrite cells0 in *. rewrite E. set_solver.
Qed.

Lemma cell_heads_or_free f o l1 l2 :
  valid_order o → f o = l1 ++ l2 →
  in_heads b (lastc 0 (head b o) l1) ∨ free_at f (lastc 0 (head b o) l1).
Proof.
  intros Ho E. pose proof (lastc_cells 0 (head b o) l1) as H.
  rewrite cells0 in H. apply elem_of_cons in H as [->|H]; [left; auto with buddy|].
  right. eapply node_free; [done|]. rewrite E. set_solver.
Qed.

Lemma inv_ext m m' f : (∀ x, m'.@x = m.@x) → buddy_inv m b f → buddy_inv m' b f.
Proof.
  intros E [Hwf Hc Hs]. split; [done| |done]. intros o Ho.
  eapply chain_frame; [|by apply Hc]. auto.
Qed.

Lemma inv_remove m m' f o a l1 l2 :
  buddy_inv m b f → valid_order o → f o = l1 ++ a :: l2 →
  m'.@(lastc 0 (head b o) l1) = m.@a →
  (∀ x, x ≠ lastc 0 (head b o) l1 → ¬ in_blk o a x → m'.@x = m.@x) →
  buddy_inv m' b (<[o := l1 ++ l2]> f).
Proof.
  intros Hi Ho E Hcur Hfr. pose proof (inv_wf _ _ _ Hi) as Hwf.
  assert (∀ x o', valid_order o' → x ∈ cells 0 (head b o') (<[o := l1 ++ l2]> f o') →
            ¬ in_blk o a x) as Hnot.
  { intros x o' Ho'. rewrite cells0. intros [->|Hx]%elem_of_cons Hb.
    - eapply (inv_sep _ _ _ Hi (head b o')); [|auto with buddy].
      exists o, a. split_and!; [done| |done]. rewrite E. set_solver.
    - eapply (removed_disjoint f o a l1 l2 x); eauto. by eapply (node_free _ o'). }
  split.
  - by eapply wf_remove.
  - intros o' Ho'. pose proof (inv_cells_nodup m f o' Hi Ho') as Hnd.
    pose proof (inv_chain _ _ _ Hi o' Ho') as Hc.
    rewrite lookup_upd. destruct (decide (o = o')) as [<-|Hne].
    + rewrite E in *. eapply (chain_remove 0 m m'); eauto.
      * by rewrite Z.add_0_r.
      * intros x Hx Hx'. apply Hfr; [done|]. eapply Hnot; [exact Ho|].
        rewrite lookup_upd. by case_decide.
    + eapply chain_frame; [|exact Hc]. intros x Hx. apply Hfr.
      * intros ->. eapply (inv_cells_disj m f o o'); eauto. by eapply lastc_in.
      * eapply Hnot; [exact Ho'|]. rewrite lookup_upd. by case_decide.
  - intros x Hx. apply (inv_sep _ _ _ Hi). eapply free_at_remove; eauto.
Qed.

Lemma inv_insert m m' f o a l1 l2 :
  buddy_inv m b f → valid_order o → f o = l1 ++ l2 → blk_ok o a →
  (∀ x, in_blk o a x → ¬ free_at f x ∧ ¬ in_heads b x) →
  StronglySorted Z.lt (l1 ++ a :: l2) →
  m'.@(lastc 0 (head b o) l1) = a → m'.@a = m.@(lastc 0 (head b o) l1) →
  (∀ x, x ≠ lastc 0 (head b o) l1 → ¬ in_blk o a x → m'.@x = m.@x) →
  buddy_inv m' b (<[o := l1 ++ a :: l2]> f).
Proof.
  intros Hi Ho E Hok Hdj Hs Hcur Ha Hfr. pose proof (inv_wf _ _ _ Hi) as Hwf.
  assert (∀ x o', valid_order o' → x ∈ cells 0 (head b o') (f o') →
            ¬ in_blk o a x) as Hnot.
  { intros x o' Ho'. rewrite cells0. intros [->|Hx]%elem_of_cons Hb.
    - apply (proj2 (Hdj _ Hb)). auto with buddy.
    - apply (proj1 (Hdj _ Hb)). by eapply (node_free f o'). }
  assert (buddy_wf (<[o := l1 ++ a :: l2]> f)) as Hwf'.
  { eapply wf_insert; eauto. intros x Hx. by apply Hdj. }
  split; [done| |].
  - intros o' Ho'. pose proof (inv_cells_nodup m f o' Hi Ho') as Hnd.
    pose proof (inv_chain _ _ _ Hi o' Ho') as Hc.
    rewrite lookup_upd. destruct (decide (o = o')) as [<-|Hne].
    + rewrite E in *. eapply (chain_insert 0 m m'); eauto.
      * rewrite cells0. apply list.NoDup_cons. split; [|by apply sorted_nodup].
        rewrite cells0 in Hnd. apply list.NoDup_cons in Hnd as [Hnd _].
        rewrite elem_of_app, elem_of_cons in *. intros [?|[Heq|?]]; [tauto| |tauto].
        eapply (Hnot (head b o) o); [done|rewrite cells0; set_solver|].
        rewrite Heq. auto with buddy.
      * destruct Hok. lia.
      * by rewrite Z.add_0_r.
      * intros x Hx Hx'. apply Hfr; [done|]. eapply Hnot; [exact Ho|].
        by rewrite E.
    + eapply chain_frame; [|exact Hc]. intros x Hx. apply Hfr.
      * intros ->. eapply (inv_cells_disj m f o o'); eauto. by eapply lastc_in.
      * eapply Hnot; eauto.
  - intros x Hx. apply (free_at_insert f) in Hx as [Hx|Hx]; [|by apply Hdj|done..].
    by apply (inv_sep _ _ _ Hi).
Qed.

(** The head of a free list as the code reads it. *)
Lemma inv_head m f o : buddy_inv m b f → valid_order o →
  m.@(head b o) = match f o with [] => 0 | a :: _ => a end.
Proof.
  intros Hi Ho. pose proof (inv_chain _ _ _ Hi o Ho) as Hc.
  destruct (f o); simpl in Hc; naive_solver.
Qed.

Lemma inv_head_zero m f o : buddy_inv m b f → valid_order o →
  m.@(head b o) = 0 ↔ f o = [].
Proof.
  intros Hi Ho. rewrite (inv_head m f o) by done. destruct (f o) as [|a l] eqn:E; [done|].
  split; [|done]. intros ->. destruct (wf_block _ (inv_wf _ _ _ Hi) o 0 Ho); [rewrite E; set_solver|lia].
Qed.

End concrete.

(** ** Splitting and allocation *)

Section alloc.
Context (b : Z).
Implicit Types (m : gmap Z Z) (f : Z → list Z) (o a x : Z).

(** Unlinking the first block, and linking a block in front. *)
Lemma inv_pop m f o a l :
  buddy_inv m b f → valid_order o → f o = a :: l →
  buddy_inv (m.[head b o <- m.@a]) b (<[o := l]> f).
Proof.
  intros Hi Ho E. eapply (inv_remove b m _ f o a [] l Hi Ho E); simpl.
  - apply rd_wr_eq.
  - intros x ? _. by apply rd_wr_ne.
Qed.

Lemma inv_push m f o a :
  buddy_inv m b f → valid_order o → blk_ok o a →
  (∀ x, in_blk o a x → ¬ free_at f x ∧ ¬ in_heads b x) →
  (∀ x, x ∈ f o → a < x) →
  buddy_inv (m.[a <- m.@(head b o)].[head b o <- a]) b (<[o := a :: f o]> f).
Proof.
  intros Hi Ho Hok Hdj Hlt.
  assert (head b o ≠ a) as Hne.
  { intros <-. apply (proj2 (Hdj _ (in_blk_self o _ (proj1 Ho)))). auto with buddy. }
  apply (inv_insert b m _ f o a [] (f o)); simpl; [done..| | | |].
  - constructor; [by apply Hi|]. by apply Forall_forall.
  - apply rd_wr_eq.
  - by rewrite rd_wr_ne, rd_wr_eq.
  - intros x Hx Hx'. rewrite !rd_wr_ne; [done|..|congruence].
    intros ->. apply Hx', in_blk_self, Ho.
Qed.

(** A free block keeps clear of the heads and of the other free blocks. *)
Lemma free_block_sep m f o a :
  buddy_inv m b f → valid_order o → a ∈ f o →
  ∀ x, in_blk o a x → free_at f x ∧ ¬ in_heads b x.
Proof.
  intros Hi Ho Ha x Hx. assert (free_at f x) by (by exists o, a).
  split; [done|]. by apply (inv_sep _ _ _ Hi).
Qed.

Definition split_writes m o blk : gmap Z Z :=
  m.[head b (o + 1) <- m.@blk].[blk <- 0].[blk + bsz o <- 0]
   .[blk <- blk + bsz o].[head b o <- blk].

Definition split_lists f o blk l : Z → list Z :=
  let f1 := <[o + 1 := l]> f in
  let f2 := <[o := (blk + bsz o) :: f1 o]> f1 in
  <[o := blk :: f2 o]> f2.

Lemma split_free_at f o blk l x :
  valid_order o → o < 18 → f (o + 1) = blk :: l →
  free_at (split_lists f o blk l) x ↔ free_at f x.
Proof.
  intros Ho Ho' E1. assert (valid_order (o + 1)) by auto with buddy.
  unfold split_lists. rewrite !free_at_cons by done.
  rewrite (free_at_tail f (o + 1) blk l x), in_blk_halves by (done || apply Ho).
  tauto.
Qed.

Lemma split_inv m f o blk l :
  buddy_inv m b f → valid_order o → o < 18 → f o = [] → f (o + 1) = blk :: l →
  buddy_inv (split_writes m o blk) b (split_lists f o blk l).
Proof.
  intros Hi Ho Ho' E E1. set (h := blk + bsz o).
  assert (valid_order (o + 1)) as Ho1 by auto with buddy.
  assert (blk ∈ f (o + 1)) as Hin by (rewrite E1; set_solver).
  pose proof (bsz_pos o (proj1 Ho)) as Hpos.
  destruct (blk_ok_halves o blk (proj1 Ho)) as [Hok1 Hok2];
    [by apply (wf_block _ (inv_wf _ _ _ Hi))|].
  pose proof (free_block_sep m f _ _ Hi Ho1 Hin) as Hsep.
  assert (∀ x, in_blk o blk x ∨ in_blk o h x → in_blk (o + 1) blk x) as Hhalf
    by (intros x; apply in_blk_halves, Ho).
  pose proof (inv_pop m f (o + 1) blk l Hi Ho1 E1) as Hi1.
  assert (∀ x, free_at (<[o + 1 := l]> f) x → ¬ in_blk (o + 1) blk x) as Hrem.
  { intros x. apply (removed_disjoint f (o + 1) blk [] l); [done..|]. apply Hi. }
  assert (<[o + 1 := l]> f o = []) as E2 by (rewrite lookup_upd; case_decide; [lia|done]).
  apply (inv_push _ _ o h) in Hi1 as Hi2; [|done..| |rewrite E2; set_solver].
  2:{ intros x Hx. split; [intros Hf; by eapply Hrem; eauto|apply Hsep; auto]. }
  apply (inv_push _ _ o blk) in Hi2 as Hi3; [|done..| |].
  2:{ intros x Hx. split; [|apply Hsep; auto].
      rewrite free_at_cons by done. intros [Hf|Hf]; [by eapply Hrem; eauto|unfold in_blk in *; lia]. }
  2:{ intros x. rewrite lookup_upd, E2. case_decide; [|done]. set_solver by lia. }
  eapply inv_ext; [|exact Hi3]. intros x. unfold split_writes. fold h.
  pose proof (head_heads b o Ho). pose proof (head_heads b (o + 1) Ho1).
  assert (¬ in_heads b blk) by (apply Hsep, Hhalf; left; apply in_blk_self, Ho).
  assert (¬ in_heads b h) by (apply Hsep, Hhalf; right; apply in_blk_self, Ho).
  assert (head b o ≠ head b (o + 1)) by (unfold head; lia).
  assert (m.@(head b o) = 0) by (by apply (inv_head_zero b m f)).
  rewrite !rd_wr. repeat case_decide; congruence || lia.
Qed.

Lemma split_frame m f o blk l :
  buddy_inv m b f → valid_order o → o < 18 → f (o + 1) = blk :: l →
  buddy_frame b f m (split_writes m o blk).
Proof.
  intros Hi Ho Ho' E1 x Hx Hf. assert (valid_order (o + 1)) as Ho1 by auto with buddy.
  assert (∀ y, in_blk o blk y ∨ in_blk o (blk + bsz o) y → free_at f y) as Hfree.
  { intros y Hy. exists (o + 1), blk. rewrite E1.
    split_and!; [done|set_solver|]. by apply in_blk_halves; [apply Ho|]. }
  pose proof (in_blk_self o blk (proj1 Ho)). pose proof (in_blk_self o (blk + bsz o) (proj1 Ho)).
  unfold split_writes.
  rewrite !rd_wr_ne; [done|..]; intros <-; eauto using head_heads.
Qed.

Lemma frame_trans f f' m1 m2 m3 :
  buddy_frame b f m1 m2 → buddy_frame b f' m2 m3 →
  (∀ x, free_at f' x → free_at f x) → buddy_frame b f m1 m3.
Proof. intros H1 H2 H x Hx Hf. rewrite H2, H1; auto. Qed.

(** [_split_buddy] keeps the free set, leaves the lower orders alone, and
    leaves the order empty only if no larger block exists. *)
Lemma split_buddy_spec depth m f o :
  buddy_inv m b f → valid_order o → (Z.to_nat (18 - o) < depth)%nat →
  ∃ m' f', _split_buddy_rec depth m b o = Some m' ∧ buddy_inv m' b f' ∧
    (∀ x, free_at f' x ↔ free_at f x) ∧ (∀ o', o' < o → f' o' = f o') ∧
    buddy_frame b f m m' ∧
    (f' o = [] → ∀ o', o <= o' <= 18 → f' o' = []).
Proof.
  revert m f o. induction depth as [|depth IH]; intros m f o Hi Ho Hd; [lia|].
  simpl. unfold MEMORY_PHYS_BUDDY_ORDER.
  destruct (18 <=? o) eqn:E18.
  { exists m, f. assert (o = 18) as -> by (destruct Ho; lia).
    split_and!; try done. intros E o' ?. by replace o' with 18 by lia. }
  assert (o < 18) as Hlt by lia. assert (valid_order (o + 1)) as Ho1 by auto with buddy.
  destruct (m.@(head b o) =? 0) eqn:E0; simpl.
  2:{ exists m, f. split_and!; try done. intros E.
      apply (inv_head_zero b m f o Hi Ho) in E. lia. }
  apply Z.eqb_eq, (inv_head_zero b m f o Hi Ho) in E0.
  destruct (IH m f (o + 1) Hi Ho1) as (m1 & f1 & -> & Hi1 & Hf1 & Hlow & Hfr & Hc); [destruct Ho; lia|].
  simpl. assert (f1 o = []) as E1 by (rewrite Hlow; [done|lia]).
  rewrite (inv_head b m1 f1 (o + 1) Hi1 Ho1).
  destruct (f1 (o + 1)) as [|blk l] eqn:E2.
  { exists m1, f1. split_and!; auto with lia. intros _ o' Hr.
    destruct (decide (o' = o)) as [->|]; [done|]. apply Hc; [done|lia]. }
  assert (blk_ok (o + 1) blk) as Hok.
  { apply (wf_block _ (inv_wf _ _ _ Hi1)); [done|]. rewrite E2. set_solver. }
  rewrite (proj2 (Z.eqb_neq blk 0)) by (destruct Hok; lia).
  rewrite bsz_shiftl by done.
  rewrite (u64_small (blk + bsz o)).
  2:{ destruct Hok as (? & ? & _). rewrite bsz_succ in * by apply Ho.
      pose proof (bsz_pos o (proj1 Ho)). lia. }
  exists (split_writes m1 o blk), (split_lists f1 o blk l).
  split_and!; [done|by apply split_inv| | | |].
  - intros x. by rewrite split_free_at, Hf1.
  - intros o' ?. unfold split_lists. rewrite !lookup_upd. repeat case_decide; try lia.
    apply Hlow. lia.
  - eapply frame_trans; [done|by eapply split_frame|]. intros x. apply Hf1.
  - unfold split_lists. rewrite lookup_upd. by case_decide.
Qed.

(** Taking the first block of an order. *)
Lemma take_inv m f o a l :
  buddy_inv m b f → valid_order o → f o = a :: l →
  buddy_inv (m.[head b o <- m.@a].[a <- 0]) b (<[o := l]> f).
Proof.
  intros Hi Ho E. assert (a ∈ f o) as Hin by (rewrite E; set_solver).
  eapply (inv_remove b m _ f o a [] l Hi Ho E); simpl.
  - rewrite rd_wr_ne, rd_wr_eq; [done|]. intros ->.
    eapply (free_block_sep m f o _ Hi Ho Hin); [apply in_blk_self, Ho|auto with buddy].
  - intros x ? Hx. rewrite !rd_wr_ne; [done|congruence|].
    intros ->. apply Hx, in_blk_self, Ho.
Qed.

End alloc.

(** ** Insertion and merging *)

Section insert.
Context (b : Z).
Implicit Types (m : gmap Z Z) (f : Z → list Z) (o a x : Z).

(** What the pointer cell after [pre] holds. *)
Lemma inv_cell m f o pre rest :
  buddy_inv m b f → valid_order o → f o = pre ++ rest →
  m.@(lastc 0 (head b o) pre) = match rest with [] => 0 | a :: _ => a end ∧
  match rest with
  | [] => True
  | a :: r => a ≠ 0 ∧ m.@a = match r with [] => 0 | c :: _ => c end
  end.
Proof.
  intros Hi Ho E. pose proof (inv_chain _ _ _ Hi o Ho) as Hc. rewrite E in Hc.
  apply chain_app in Hc as [_ Hc].
  destruct rest as [|a [|c r]]; simpl in Hc; rewrite ?Z.add_0_r in Hc; naive_solver.
Qed.

(** The search loop stops between the smaller and the larger addresses. *)
Lemma insert_find_spec fuel m f o a pre rest :
  buddy_inv m b f → valid_order o → f o = pre ++ rest → (length rest < fuel)%nat →
  a ∉ f o → (∀ x, x ∈ pre → x < a) →
  ∃ l1 l2, _insert_find fuel m (lastc 0 (head b o) pre) a
           = Some (lastc 0 (head b o) l1) ∧
    f o = l1 ++ l2 ∧ StronglySorted Z.lt (l1 ++ a :: l2).
Proof.
  intros Hi Ho. pose proof (wf_sorted _ (inv_wf _ _ _ Hi) o Ho) as Hs.
  revert pre rest. induction fuel as [|fuel IH]; intros pre rest E Hf Ha Hpre; [lia|].
  simpl. destruct (inv_cell m f o pre rest Hi Ho E) as [-> Hp].
  destruct rest as [|p r]; simpl.
  - exists pre, []. split_and!; [done..|]. apply sorted_insert; [by rewrite <-E|done|set_solver].
  - destruct Hp as [Hp0 _]. rewrite (proj2 (Z.eqb_neq p 0)) by done.
    destruct (a <? p) eqn:Ea.
    + exists pre, (p :: r). split_and!; [done..|]. rewrite E in Hs.
      apply sorted_insert; [done..|]. apply sorted_app in Hs as (_ & Hs & _).
      inversion Hs as [|? ? _ Hall]; subst. rewrite Forall_forall in Hall.
      intros x [->|Hx]%elem_of_cons; [lia|]. specialize (Hall _ Hx). lia.
    + assert (p < a). { assert (a ≠ p) by (rewrite E in Ha; set_solver). lia. }
      destruct (IH (pre ++ [p]) r) as (l1 & l2 & IH1 & IH2 & IH3); simpl in *; try done; try lia.
      * by rewrite <-app_assoc.
      * intros x [?|?%list_elem_of_singleton]%elem_of_app; [auto|lia].
      * rewrite lastc_snoc in IH1. eauto.
Qed.

(** Linking a block of order [o] at the position found. *)
Definition link_writes m cur a : gmap Z Z := m.[a <- m.@cur].[cur <- a].

Lemma link_inv m f o a l1 l2 :
  buddy_inv m b f → valid_order o → f o = l1 ++ l2 → blk_ok o a →
  (∀ x, in_blk o a x → ¬ free_at f x ∧ ¬ in_heads b x) →
  StronglySorted Z.lt (l1 ++ a :: l2) →
  buddy_inv (link_writes m (lastc 0 (head b o) l1) a) b (<[o := l1 ++ a :: l2]> f).
Proof.
  intros Hi Ho E Hok Hdj Hs.
  assert (lastc 0 (head b o) l1 ≠ a) as Hne.
  { intros Heq. destruct (Hdj a) as [Hnf Hnh]; [apply in_blk_self, Ho|].
    rewrite <-Heq in Hnf, Hnh.
    by destruct (cell_heads_or_free b f o l1 l2 Ho E). }
  apply (inv_insert b m _ f o a l1 l2); [done..| | |]; unfold link_writes.
  - apply rd_wr_eq.
  - by rewrite rd_wr_ne, rd_wr_eq.
  - intros x Hx Hx'. rewrite !rd_wr_ne; [done|..|congruence].
    intros ->. apply Hx', in_blk_self, Ho.
Qed.

(** The contract of an insertion at order [o], as the merge loop at the
    order below uses it: the frame is relative to the free set and the new
    block. *)
Definition insert_ok (ins : gmap Z Z → Z → option (gmap Z Z)) (fuel : nat) o : Prop :=
  ∀ m f a, buddy_inv m b f → blk_ok o a →
    (∀ x, in_blk o a x → ¬ free_at f x ∧ ¬ in_heads b x) →
    (total f + 1 < fuel)%nat →
    ∃ m' f', ins m a = Some m' ∧ buddy_inv m' b f' ∧
      (∀ x, free_at f' x ↔ free_at f x ∨ in_blk o a x) ∧
      (∀ o', o' < o → f' o' = f o') ∧
      (∀ x, ¬ in_heads b x → ¬ free_at f x → ¬ in_blk o a x → m'.@x = m.@x) ∧
      (total f' <= total f + 1)%nat.

(** Removing two buddies from order [o]. *)
Lemma unlink_pair m f o pre a rest :
  buddy_inv m b f → valid_order o → o < 18 → f o = pre ++ a :: (a + bsz o) :: rest →
  let m' := m.[lastc 0 (head b o) pre <- m.@(a + bsz o)] in
  let f' := <[o := pre ++ rest]> (<[o := pre ++ (a + bsz o) :: rest]> f) in
  buddy_inv m' b f' ∧
  (∀ x, free_at f x ↔ free_at f' x ∨ in_blk (o + 1) a x) ∧
  (∀ x, in_blk (o + 1) a x → ¬ free_at f' x ∧ ¬ in_heads b x) ∧
  (total f' + 2 = total f)%nat.
Proof.
  intros Hi Ho Hlt E m' f'. set (h := a + bsz o) in *. set (cur := lastc 0 (head b o) pre) in *.
  set (f1 := <[o := pre ++ h :: rest]> f) in *.
  assert (f1 o = pre ++ h :: rest) as E1 by (unfold f1; rewrite lookup_upd; by case_decide).
  destruct (inv_cell m f o _ _ Hi Ho E) as [_ [_ Ha]].
  assert (buddy_inv (m.[cur <- h]) b f1) as Hi1.
  { apply (inv_remove b m _ f o a pre (h :: rest) Hi Ho E); fold cur.
    - by rewrite rd_wr_eq.
    - intros x ? _. by apply rd_wr_ne. }
  assert (cur ≠ h) as Hne.
  { intros Heq. pose proof (inv_cells_nodup b m f o Hi Ho) as Hnd.
    pose proof (lastc_cells 0 (head b o) pre) as Hin. fold cur in Hin.
    rewrite cells0 in *. rewrite E, app_comm_cons in Hnd.
    apply list.NoDup_app in Hnd as (_ & Hnd & _). apply (Hnd cur Hin). set_solver. }
  assert (buddy_inv m' b f') as Hi'.
  { apply (inv_remove b (m.[cur <- h]) _ f1 o h pre rest Hi1 Ho E1); fold cur; unfold m'.
    - rewrite rd_wr_eq, rd_wr_ne; done.
    - intros x ? _. by rewrite !rd_wr_ne. }
  assert (∀ x, free_at f x ↔ free_at f' x ∨ in_blk (o + 1) a x) as Hset.
  { intros x. rewrite (free_at_remove f o a pre (h :: rest) x) by done. fold f1.
    rewrite (free_at_remove f1 o h pre rest x) by done. fold f'.
    rewrite in_blk_halves by apply Ho. tauto. }
  split_and!; [done..| |].
  - intros x Hx. split; [|apply (inv_sep _ _ _ Hi), Hset; by right].
    intros Hf. apply in_blk_halves in Hx as [Hx|Hx]; [| |apply Ho].
    + apply (removed_disjoint f o a pre (h :: rest) x); auto; [apply Hi|].
      fold f1. apply (free_at_remove f1 o h pre rest); auto.
    + by apply (removed_disjoint f1 o h pre rest x); auto; apply Hi1.
  - unfold f'. pose proof (total_upd f1 o (pre ++ rest) Ho) as H1.
    pose proof (total_upd f o (pre ++ h :: rest) Ho) as H2. fold f1 in H2.
    rewrite E1 in H1. rewrite E in H2. rewrite !length_app in *. simpl in *. lia.
Qed.

Lemma align_test o a :
  valid_order o → o < 18 →
  Z.land a (u64 (Z.shiftl (bsz o) 1) - 1) = a mod bsz (o + 1).
Proof.
  intros Ho Hlt. assert (valid_order (o + 1)) as Ho1 by auto with buddy.
  rewrite Z.shiftl_mul_pow2 by lia.
  replace (bsz o * 2 ^ 1) with (bsz (o + 1)) by (rewrite bsz_succ by apply Ho; lia).
  rewrite u64_small by (pose proof (bsz_max _ Ho1); lia).
  rewrite bsz_pow by apply Ho1. apply land_ones_mod. destruct Ho; lia.
Qed.

(** The merge loop keeps the free set. *)
Lemma merge_loop_spec ins ffuel o :
  valid_order o → o < 18 → insert_ok ins ffuel (o + 1) →
  ∀ fuel m f pre rest,
  buddy_inv m b f → f o = pre ++ rest → (length rest < fuel)%nat →
  (total f < ffuel)%nat →
  ∃ m' f', _merge_loop ins fuel m (lastc 0 (head b o) pre) (bsz o) = Some m' ∧
    buddy_inv m' b f' ∧ (∀ x, free_at f' x ↔ free_at f x) ∧
    (∀ o', o' < o → f' o' = f o') ∧ buddy_frame b f m m' ∧ (total f' <= total f)%nat.
Proof.
  intros Ho Hlt Hins fuel. induction fuel as [|fuel IH]; intros m f pre rest Hi E Hlen Htot; [lia|].
  cbn [_merge_loop]. destruct (inv_cell m f o pre rest Hi Ho E) as [-> Hp].
  destruct rest as [|a r]; [rewrite Z.eqb_refl; by exists m, f|].
  destruct Hp as [Ha0 Hnext]. rewrite (proj2 (Z.eqb_neq a 0)) by done.
  assert (blk_ok o a) as (Hap & Hab & Hamod).
  { apply (wf_block _ (inv_wf _ _ _ Hi)); [done|]. rewrite E. set_solver. }
  rewrite align_test by done. rewrite (u64_small (a + bsz o)) by (pose proof (bsz_pos o (proj1 Ho)); lia).
  (* moving on past one node *)
  assert (∀ c r' m' f', f' o = pre ++ c :: r' → (length r' < fuel)%nat → buddy_inv m' b f' →
    (total f' < ffuel)%nat → ∃ m'' f'', _merge_loop ins fuel m' c (bsz o) = Some m'' ∧
      buddy_inv m'' b f'' ∧ (∀ x, free_at f'' x ↔ free_at f' x) ∧
      (∀ o', o' < o → f'' o' = f' o') ∧ buddy_frame b f' m' m'' ∧ (total f'' <= total f')%nat) as Hgo.
  { intros c r' m' f' E' Hl Hi' Ht'.
    rewrite <-(lastc_snoc (head b o) pre c). apply (IH m' f' (pre ++ [c]) r'); auto.
    by rewrite <-app_assoc. }
  destruct ((a mod bsz (o + 1) =? 0) && (m.@a =? a + bsz o)) eqn:Ebud; cycle 1.
  { apply (Hgo a r m f); auto. simpl in Hlen. lia. }
  apply andb_true_iff in Ebud as [Eal%Z.eqb_eq Enx%Z.eqb_eq].
  destruct r as [|h r]; [pose proof (bsz_pos o (proj1 Ho)); lia|].
  assert (h = a + bsz o) as -> by congruence. rewrite Hnext.
  destruct (unlink_pair m f o pre a r Hi Ho Hlt E) as (Hi1 & Hset & Hsep & Htot1).
  set (cur := lastc 0 (head b o) pre) in *.
  set (m1 := m.[cur <- m.@(a + bsz o)]) in *. set (f1 := <[o := pre ++ r]> _) in *.
  destruct (Hins m1 f1 a) as (m2 & f2 & -> & Hi2 & Hset2 & Hlow2 & Hfr2 & Htot2); auto; [|lia|].
  { split_and!; [done| |done]. rewrite bsz_succ by apply Ho.
    destruct (wf_block _ (inv_wf _ _ _ Hi) o (a + bsz o)) as (_ & ? & _); [done|rewrite E; set_solver|lia]. }
  simpl. assert (f2 o = pre ++ r) as E2.
  { rewrite Hlow2 by lia. unfold f1. rewrite lookup_upd. by case_decide. }
  assert (∀ x, free_at f2 x ↔ free_at f x) as Hset12 by (intros x; rewrite Hset2, Hset; tauto).
  assert (buddy_frame b f m m2) as Hfr12.
  { intros x Hx Hnf. rewrite Hset in Hnf. rewrite Hfr2 by tauto. unfold m1. apply rd_wr_ne.
    intros <-. destruct (cell_heads_or_free b f o pre _ Ho E) as [Hc|Hc]; [done|].
    apply Hnf, Hset, Hc. }
  assert (∀ o', o' < o → f2 o' = f o') as Hlow12.
  { intros o' ?. rewrite Hlow2 by lia. unfold f1. rewrite !lookup_upd. repeat case_decide; lia || done. }
  destruct (inv_cell m2 f2 o pre r Hi2 Ho E2) as [Hc2 Hc3]. fold cur in Hc2. rewrite Hc2.
  destruct r as [|c r]; [rewrite Z.eqb_refl; exists m2, f2; split_and!; auto; lia|].
  destruct Hc3 as [Hc0 _]. rewrite (proj2 (Z.eqb_neq c 0)) by done.
  destruct (Hgo c r m2 f2) as (m3 & f3 & -> & Hi3 & Hset3 & Hlow3 & Hfr3 & Htot3); auto; [|lia|].
  { simpl in Hlen. lia. }
  exists m3, f3. split_and!; [done..| | | |lia].
  - intros x. by rewrite Hset3.
  - intros o' ?. by rewrite Hlow3, Hlow12.
  - eapply frame_trans; [exact Hfr12|exact Hfr3|]. intros x. apply Hset12.
Qed.

(** [_insert_buddy]: the block becomes free and nothing else changes. *)
Lemma insert_buddy_spec depth fuel o :
  valid_order o → (Z.to_nat (18 - o) < depth)%nat →
  insert_ok (λ m a, _insert_buddy_rec depth fuel m b a o) fuel o.
Proof.
  revert o. induction depth as [|depth IH]; intros o Ho Hd m f a Hi Hok Hdj Htot; [lia|].
  cbn [_insert_buddy_rec]. unfold MEMORY_PHYS_BUDDY_ORDER.
  rewrite (proj2 (Z.ltb_ge 18 o)) by (destruct Ho; lia).
  assert (a ∉ f o) as Ha.
  { intros Hin. destruct (Hdj a) as [Hnf _]; [apply in_blk_self, Ho|].
    apply Hnf. by eapply node_free. }
  destruct (insert_find_spec fuel m f o a [] (f o)) as (l1 & l2 & Hfind & E & Hs);
    [done..| |done|set_solver|].
  { pose proof (total_length f o Ho). lia. }
  simpl in Hfind. rewrite Hfind. simpl.
  pose proof (link_inv m f o a l1 l2 Hi Ho E Hok Hdj Hs) as Hi1.
  fold (link_writes m (lastc 0 (head b o) l1) a).
  set (m1 := link_writes m (lastc 0 (head b o) l1) a) in *.
  set (f1 := <[o := l1 ++ a :: l2]> f) in *.
  assert (∀ x, free_at f1 x ↔ free_at f x ∨ in_blk o a x) as Hset1
    by (intros x; by apply free_at_insert).
  assert (∀ x, ¬ in_heads b x → ¬ free_at f x → ¬ in_blk o a x → m1.@x = m.@x) as Hfr1.
  { intros x Hx Hnf Hnb. unfold m1, link_writes. rewrite !rd_wr_ne; [done|..].
    - intros ->. apply Hnb, in_blk_self, Ho.
    - intros <-. by destruct (cell_heads_or_free b f o l1 l2 Ho E). }
  assert (total f1 = total f + 1)%nat as Htot1.
  { pose proof (total_upd f o (l1 ++ a :: l2) Ho) as H. fold f1 in H.
    rewrite E, !length_app in H. simpl in H. lia. }
  assert (∀ o', o' < o → f1 o' = f o') as Hlow1
    by (intros o' ?; unfold f1; rewrite lookup_upd; case_decide; [lia|done]).
  unfold _merge_buddy, MEMORY_PHYS_BUDDY_ORDER.
  destruct (18 <=? o) eqn:E18.
  { exists m1, f1. split_and!; auto. lia. }
  rewrite bsz_shiftl by done.
  destruct (merge_loop_spec (λ m block, _insert_buddy_rec depth fuel m b block (o + 1))
              fuel o Ho ltac:(lia)) with (fuel := fuel) (m := m1) (f := f1)
    (pre := @nil Z) (rest := f1 o) as (m2 & f2 & Hm & Hi2 & Hset2 & Hlow2 & Hfr2 & Htot2); auto.
  { apply IH; [auto with buddy|destruct Ho; lia]. }
  { pose proof (total_length f1 o Ho). lia. }
  { lia. }
  exists m2, f2. split_and!; [exact Hm|done| | | |lia].
  - intros x. by rewrite Hset2.
  - intros o' ?. by rewrite Hlow2, Hlow1.
  - intros x Hx Hnf Hnb. rewrite Hfr2; auto. rewrite Hset1. tauto.
Qed.

End insert.

(** ** Adding a memory region *)

Section region.
Context (b : Z).
Implicit Types (m : gmap Z Z) (f : Z → list Z) (o a x : Z).

(** Memory outside the free set and the heads belongs to the clients. *)
Lemma inv_wr_outside m f x v :
  buddy_inv m b f → ¬ in_heads b x → ¬ free_at f x → buddy_inv (m.[x <- v]) b f.
Proof.
  intros Hi Hh Hf. split; [apply Hi| |apply Hi]. intros o Ho.
  apply chain_wr; [|by apply Hi]. rewrite cells0. intros [->|Hx]%elem_of_cons.
  - apply Hh. auto with buddy.
  - apply Hf. by eapply node_free.
Qed.

Lemma add_block_loop_spec fuel m f o a pre rest :
  buddy_inv m b f → valid_order o → f o = pre ++ rest → (length rest < fuel)%nat →
  m.@a = 0 → a ∉ f o → (∀ x, x ∈ pre → x < a) →
  ∃ l1 l2 m', _add_block_loop fuel m (lastc 0 (head b o) pre) a = Some m' ∧
    f o = l1 ++ l2 ∧ StronglySorted Z.lt (l1 ++ a :: l2) ∧
    (∀ x, m'.@x = (link_writes m (lastc 0 (head b o) l1) a).@x).
Proof.
  intros Hi Ho. pose proof (wf_sorted _ (inv_wf _ _ _ Hi) o Ho) as Hs.
  revert pre rest. induction fuel as [|fuel IH]; intros pre rest E Hf Ha0 Ha Hpre; [lia|].
  cbn [_add_block_loop]. destruct (inv_cell b m f o pre rest Hi Ho E) as [Hc Hp].
  destruct rest as [|p r]; rewrite ?Hc; simpl.
  - exists pre, []. eexists. split_and!; [done..| |].
    + apply sorted_insert; [by rewrite <-E|done|set_solver].
    + intros x. unfold link_writes. rewrite Hc, !rd_wr. repeat case_decide; congruence.
  - destruct Hp as [Hp0 _]. rewrite (proj2 (Z.eqb_neq p 0)) by done.
    destruct (a <? p) eqn:Ea.
    + exists pre, (p :: r). eexists. split_and!; [done..| |].
      * rewrite E in Hs. apply sorted_insert; [done..|].
        apply sorted_app in Hs as (_ & Hs & _).
        inversion Hs as [|? ? _ Hall]; subst. rewrite Forall_forall in Hall.
        intros x [->|Hx]%elem_of_cons; [lia|]. specialize (Hall _ Hx). lia.
      * intros x. unfold link_writes. by rewrite Hc.
    + assert (p < a). { assert (a ≠ p) by (rewrite E in Ha; set_solver). lia. }
      destruct (IH (pre ++ [p]) r) as (l1 & l2 & m' & IH1 & IH2); simpl in *; try done; try lia.
      * by rewrite <-app_assoc.
      * intros x [?|?%list_elem_of_singleton]%elem_of_app; [auto|lia].
      * rewrite lastc_snoc in IH1. eauto 10.
Qed.

(** What adding memory to the zone achieves: [added] is the predicate of the
    new bytes and [n] bounds the number of new blocks. *)
Definition added_ok m f (added : Z → Prop) (n : nat) (r : option (gmap Z Z)) : Prop :=
  ∃ m' f', r = Some m' ∧ buddy_inv m' b f' ∧
    (∀ x, free_at f' x ↔ free_at f x ∨ added x) ∧
    (∀ x, ¬ in_heads b x → ¬ free_at f x → ¬ added x → m'.@x = m.@x) ∧
    (total f' <= total f + n)%nat.

Definition outside f (added : Z → Prop) : Prop :=
  ∀ x, added x → ¬ free_at f x ∧ ¬ in_heads b x.

Lemma added_none m f : buddy_inv m b f → added_ok m f (λ _, False) 0 (Some m).
Proof. intros Hi. exists m, f. split_and!; auto; [tauto|lia]. Qed.

Lemma added_weaken m f (P Q : Z → Prop) n n' r :
  (∀ x, P x ↔ Q x) → (n <= n')%nat → added_ok m f P n r → added_ok m f Q n' r.
Proof.
  intros HPQ Hn (m' & f' & -> & Hi & Hset & Hfr & Ht). exists m', f'.
  split_and!; auto; [|intros; apply Hfr; auto; by rewrite HPQ|lia].
  intros x. by rewrite Hset, HPQ.
Qed.

Lemma added_seq m f (P Q : Z → Prop) n1 n2 r (k : gmap Z Z → option (gmap Z Z)) :
  added_ok m f P n1 r → outside f Q → (∀ x, P x → ¬ Q x) →
  (∀ m' f', buddy_inv m' b f' → outside f' Q → (total f' <= total f + n1)%nat →
     added_ok m' f' Q n2 (k m')) →
  added_ok m f (λ x, P x ∨ Q x) (n1 + n2) (r ≫= k).
Proof.
  intros (m1 & f1 & -> & Hi1 & Hset1 & Hfr1 & Ht1) HQ Hdj Hk. simpl.
  destruct (Hk m1 f1) as (m2 & f2 & -> & Hi2 & Hset2 & Hfr2 & Ht2); auto.
  { intros x Hx. specialize (HQ x Hx). rewrite Hset1. naive_solver. }
  exists m2, f2. split_and!; auto; [| |lia].
  - intros x. rewrite Hset2, Hset1. tauto.
  - intros x Hh Hf Ha. rewrite Hfr2, Hfr1; auto. rewrite Hset1. tauto.
Qed.

Lemma add_block_spec fuel m f o a :
  buddy_inv m b f → valid_order o → blk_ok o a → outside f (in_blk o a) →
  (total f < fuel)%nat →
  added_ok m f (in_blk o a) 1 (_add_block fuel m b o a).
Proof.
  intros Hi Ho Hok Hout Ht.
  pose proof (Hout a (in_blk_self o a (proj1 Ho))) as [Hnf Hnh].
  pose proof (inv_wr_outside m f a 0 Hi Hnh Hnf) as Hi0.
  assert (a ∉ f o) as Hna by (intros ?; apply Hnf; by eapply node_free).
  destruct (add_block_loop_spec fuel (m.[a <- 0]) f o a [] (f o)) as
    (l1 & l2 & m' & Hl & E & Hs & Hm'); auto.
  { pose proof (total_length f o Ho). lia. } { apply rd_wr_eq. } { set_solver. }
  simpl in Hl. unfold _add_block. rewrite Hl.
  pose proof (link_inv b _ f o a l1 l2 Hi0 Ho E Hok Hout Hs) as Hi1.
  exists m', (<[o := l1 ++ a :: l2]> f). split_and!; [done| | | |].
  - by eapply inv_ext.
  - intros x. by apply free_at_insert.
  - intros x Hh Hf Hx. rewrite Hm'. unfold link_writes. rewrite !rd_wr_ne; [done|..].
    + intros ->. apply Hx, in_blk_self, Ho.
    + intros ->. apply Hx, in_blk_self, Ho.
    + intros <-. by destruct (cell_heads_or_free b f o l1 l2 Ho E).
  - pose proof (total_upd f o (l1 ++ a :: l2) Ho) as H.
    rewrite E, !length_app in H. simpl in H. lia.
Qed.

Lemma add_blocks_spec fuel n m f o base i :
  valid_order o → buddy_inv m b f → 0 < base → base mod bsz o = 0 → 0 <= i →
  base + (i + Z.of_nat n) * bsz o < 2 ^ 64 →
  outside f (λ x, base + i * bsz o <= x < base + (i + Z.of_nat n) * bsz o) →
  (total f + n <= fuel)%nat →
  added_ok m f (λ x, base + i * bsz o <= x < base + (i + Z.of_nat n) * bsz o) n
    (_add_blocks fuel n m b o base (bsz o) i).
Proof.
  intros Ho. pose proof (bsz_pos o (proj1 Ho)) as Hpos. pose proof (bsz_max o Ho) as Hmax.
  revert m f i. induction n as [|n IH]; intros m f i Hi Hb Hal Hi0 Hlt Hout Ht.
  { eapply added_weaken; [|done|by apply added_none]. simpl. intros. lia. }
  cbn [_add_blocks]. set (a := base + i * bsz o).
  rewrite (u64_small a) by (unfold a; nia).
  assert (∀ x, in_blk o a x → base + i * bsz o <= x < base + (i + Z.of_nat (S n)) * bsz o) as Hin.
  { unfold in_blk, a. intros. nia. }
  eapply added_weaken; [|reflexivity|apply (added_seq m f (in_blk o a)
    (λ x, base + (i + 1) * bsz o <= x < base + (i + 1 + Z.of_nat n) * bsz o) 1 n)].
  - unfold in_blk, a. intros x. nia.
  - apply add_block_spec; auto; [|intros x Hx; auto|lia].
    apply mod0_ex in Hal as [q Hq]; [|done].
    split_and!; [unfold a; nia..|]. apply (mod_mul_iff _ _ (q + i)); [done|]. unfold a. lia.
  - intros x Hx. apply Hout. nia.
  - unfold in_blk, a. intros x. nia.
  - intros m' f' Hi' Hout' Ht'. apply IH; auto; lia || nia.
Qed.

(** The arithmetic of [_add_region_order]. *)
Lemma blocksize_spec o : valid_order o →
  u64 (u64 (Z.shiftl 1 o) * MEMORY_PAGESIZE) = bsz o.
Proof.
  intros Ho. pose proof (bsz_max o Ho). rewrite Z.shiftl_mul_pow2 by apply Ho.
  unfold bsz in *. rewrite (u64_small (1 * 2 ^ o)) by lia.
  unfold MEMORY_PAGESIZE. rewrite u64_small by lia. lia.
Qed.

Definition align_up (s x : Z) : Z := x + (- x) mod s.
Definition align_down (s x : Z) : Z := x - x mod s.

Lemma align_up_code o base :
  valid_order o → 0 <= base → base + bsz o < 2 ^ 64 →
  Z.land (u64 (base + (bsz o - 1))) (u64 (Z.lnot (bsz o - 1))) = align_up (bsz o) base.
Proof.
  intros Ho Hb Hlt. pose proof (bsz_pos o (proj1 Ho)) as Hpos.
  rewrite (u64_small (base + _)) by lia. unfold align_up.
  rewrite bsz_pow in * by apply Ho.
  rewrite land_u64_lnot by (destruct Ho; lia). set (s := 2 ^ (12 + o)) in *.
  pose proof (Z.div_mod base s ltac:(lia)). pose proof (Z.mod_pos_bound base s Hpos).
  destruct (decide (base mod s = 0)) as [E|E].
  - rewrite Z.mod_opp_l_z by lia.
    replace (base + (s - 1)) with (s - 1 + base / s * s) by lia.
    rewrite Z.mod_add, Z.mod_small by lia. lia.
  - rewrite Z.mod_opp_l_nz by lia.
    replace (base + (s - 1)) with (base mod s - 1 + (base / s + 1) * s) by lia.
    rewrite Z.mod_add, (Z.mod_small (base mod s - 1)) by lia. lia.
Qed.

Lemma align_down_code o next :
  valid_order o → 0 <= next < 2 ^ 64 →
  Z.land next (u64 (Z.lnot (bsz o - 1))) = align_down (bsz o) next.
Proof.
  intros Ho Hn. unfold align_down. rewrite bsz_pow by apply Ho.
  apply land_u64_lnot; [destruct Ho; lia|done].
Qed.

Lemma align_up_spec s x : 0 < s → x <= align_up s x < x + s ∧ align_up s x mod s = 0.
Proof.
  intros Hs. unfold align_up. pose proof (Z.mod_pos_bound (- x) s Hs).
  split; [lia|]. rewrite Z.add_mod_idemp_r by lia. by replace (x + - x) with 0 by lia.
Qed.

Lemma align_down_spec s x : 0 < s → x - s < align_down s x <= x ∧ align_down s x mod s = 0.
Proof.
  intros Hs. unfold align_down. pose proof (Z.mod_pos_bound x s Hs).
  split; [lia|]. rewrite Zminus_mod_idemp_r. by replace (x - x) with 0 by lia.
Qed.

(** The block count, with the wrap-around of an empty middle part. *)
Lemma nr_code o k :
  valid_order o → -1 <= k < 2 ^ 31 →
  i32 (Z.shiftr (u64 (k * bsz o)) o / MEMORY_PAGESIZE) = k.
Proof.
  intros Ho Hk. pose proof (bsz_max o Ho). pose proof (bsz_pos o (proj1 Ho)).
  rewrite Z.shiftr_div_pow2 by apply Ho.
  assert (2 ^ 12 * 2 ^ o = bsz o) as Hs by (unfold bsz; lia).
  assert (0 < 2 ^ o) by (unfold bsz in *; lia).
  rewrite Z.div_div, (Z.mul_comm (2 ^ o)) by (unfold MEMORY_PAGESIZE; lia).
  change MEMORY_PAGESIZE with (2 ^ 12). rewrite Hs.
  destruct (decide (k = -1)) as [->|].
  - assert (2 ^ 64 = bsz o * 2 ^ (52 - o)) as E.
    { rewrite bsz_pow by apply Ho. rewrite <-Z.pow_add_r by (destruct Ho; lia).
      f_equal. lia. }
    assert (u64 (-1 * bsz o) = (2 ^ (52 - o) - 1) * bsz o) as ->.
    { unfold u64. change 18446744073709551616 with (2 ^ 64).
      replace (-1 * bsz o) with ((2 ^ (52 - o) - 1) * bsz o + (-1) * 2 ^ 64) by lia.
      rewrite Z.mod_add by lia. apply Z.mod_small.
      assert (1 <= 2 ^ (52 - o)) by (apply (Z.pow_le_mono_r 2 0); destruct Ho; lia).
      nia. }
    rewrite Z.div_mul by lia. unfold i32.
    replace (2 ^ (52 - o)) with (2 ^ (20 - o) * 4294967296)
      by (change 4294967296 with (2 ^ 32); rewrite <-Z.pow_add_r by (destruct Ho; lia); f_equal; lia).
    replace (2 ^ (20 - o) * 4294967296 - 1 + 2147483648)
      with (2147483647 + 2 ^ (20 - o) * 4294967296) by lia.
    rewrite Z.mod_add by lia. done.
  - rewrite u64_small by nia. rewrite Z.div_mul by lia. apply i32_small. lia.
Qed.

Definition pages (lo hi : Z) : nat := Z.to_nat ((hi - lo) / 4096).

Lemma pages_app lo mid hi :
  lo <= mid <= hi → lo mod 4096 = 0 → mid mod 4096 = 0 → hi mod 4096 = 0 →
  (pages lo mid + pages mid hi = pages lo hi)%nat.
Proof.
  intros Hle Hl Hm Hh. unfold pages.
  apply mod0_ex in Hl as [a ->]; [|lia]. apply mod0_ex in Hm as [c ->]; [|lia].
  apply mod0_ex in Hh as [d ->]; [|lia].
  replace (4096 * c - 4096 * a) with ((c - a) * 4096) by lia.
  replace (4096 * d - 4096 * c) with ((d - c) * 4096) by lia.
  replace (4096 * d - 4096 * a) with ((d - a) * 4096) by lia.
  rewrite !Z.div_mul by lia. lia.
Qed.

Lemma pages_blocks o lo k : valid_order o → 0 <= k →
  (Z.to_nat k <= pages lo (lo + k * bsz o))%nat.
Proof.
  intros Ho Hk. unfold pages. replace (lo + k * bsz o - lo) with (k * 2 ^ o * 4096)
    by (unfold bsz; lia).
  rewrite Z.div_mul by lia.
  assert (1 <= 2 ^ o) by (apply (Z.pow_le_mono_r 2 0); destruct Ho; lia). nia.
Qed.

Lemma page_aligned_of_block o x : valid_order o → x mod bsz o = 0 → x mod 4096 = 0.
Proof.
  intros Ho H. apply mod0_ex in H as [q ->]; [|apply bsz_pos, Ho].
  apply (mod_mul_iff _ _ (2 ^ o * q)); [lia|]. unfold bsz. lia.
Qed.

(** Where the two aligned addresses can lie. *)
Lemma align_cases o base next :
  valid_order o → base <= next →
  let s := bsz o in
  (align_up s base <= align_down s next ∧
     ∃ k, 0 <= k ∧ align_down s next = align_up s base + k * s) ∨
  (align_down s next = align_up s base - s ∧ align_down s next < base ∧
     next < align_up s base ∧ base < align_up s base).
Proof.
  intros Ho Hle s. pose proof (bsz_pos o (proj1 Ho)) as Hs. fold s in Hs.
  destruct (align_up_spec s base Hs) as [H1 H2]. destruct (align_down_spec s next Hs) as [H3 H4].
  apply mod0_ex in H2 as [p Hp]; [|done]. apply mod0_ex in H4 as [q Hq]; [|done].
  destruct (decide (p <= q)) as [Hpq|Hpq].
  - left. split; [nia|]. exists (q - p). split; lia.
  - right. assert (q = p - 1) by nia. subst q. nia.
Qed.

(** A region that contains a block boundary: the part below the first one and
    the part above the last one, by the smaller orders ([rec]), then [k] blocks. *)
Section parts.
Context (fuel : nat) (o base next k : Z) (Ho : valid_order o) (Hb : 0 < base <= next) (Hn : next + 2 ^ 30 < 2 ^ 64).
Context (rec : gmap Z Z → Z → Z → option (gmap Z Z)).
Abbreviation bal := (align_up (bsz o) base).
Abbreviation nal := (align_down (bsz o) next).
Context (Hbal : base <= bal < base + bsz o ∧ bal mod 4096 = 0 ∧ bal mod bsz o = 0).
Context (Hnal : next - bsz o < nal <= next ∧ nal mod 4096 = 0).
Context (Hk : 0 <= k) (Ek : nal = bal + k * bsz o).
Context (Hrec : ∀ m' f' lo hi, buddy_inv m' b f' → base ≠ bal ∨ next ≠ nal →
  base <= lo <= hi → hi <= next → lo mod 4096 = 0 → hi mod 4096 = 0 → hi - lo < bsz o →
  outside f' (λ x, lo <= x < hi) → (total f' + pages lo hi <= fuel)%nat →
  added_ok m' f' (λ x, lo <= x < hi) (pages lo hi) (rec m' lo hi)).

Lemma add_parts_spec m f :
  buddy_inv m b f → base mod 4096 = 0 → next mod 4096 = 0 →
  outside f (λ x, base <= x < next) → (total f + pages base next <= fuel)%nat →
  added_ok m f (λ x, base <= x < next) (pages base next)
    (m1 ← (if negb (base =? bal) then rec m base (if bal <? next then bal else next) else Some m);
     m2 ← (if negb (next =? nal) && (base <=? nal) then rec m1 (if base <? nal then nal else base) next else Some m1);
     _add_blocks fuel (Z.to_nat k) m2 b o bal (bsz o) 0).
Proof using All.
  intros Hi Hbm Hnm Hout Hfuel. pose proof (bsz_pos o (proj1 Ho)) as Hpos.
  pose proof (pages_app base bal next) as Hp1. pose proof (pages_app bal nal next) as Hp2.
  pose proof (pages_blocks o bal k Ho Hk) as Hpk. rewrite <-Ek in Hpk. destruct Hbal as (Hb1 & Hb2 & Hb3), Hnal as [Hn1 Hn2].
  assert (bal <= nal) as Hle by nia.
  eapply (added_weaken m f (λ x, base <= x < bal ∨ (nal <= x < next ∨ bal <= x < nal))
    _ (pages base bal + (pages nal next + Z.to_nat k))); [intros; lia|lia|].
  apply added_seq; [| |intros; lia|].
  - destruct (base =? bal) eqn:Eb; simpl.
    { eapply added_weaken; [|apply Nat.le_0_l|by apply added_none]. intros; simpl; lia. }
    assert ((if bal <? next then bal else next) = bal) as -> by (destruct (bal <? next) eqn:?; lia).
    apply Hrec; auto with lia; intros x ?; apply Hout; lia.
  - intros x Hx. apply Hout. lia.
  - intros m1 f1 Hi1 Hout1 Ht1.
    apply added_seq; [|intros x ?; apply Hout1; lia|intros; lia|].
    + destruct (next =? nal) eqn:En; simpl.
      { eapply added_weaken; [|apply Nat.le_0_l|by apply added_none]. intros; simpl; lia. }
      rewrite (proj2 (Z.leb_le base nal)) by lia.
      assert ((if base <? nal then nal else base) = nal) as -> by (destruct (base <? nal) eqn:?; lia).
      apply Hrec; auto with lia; intros x ?; apply Hout1; lia.
    + intros m2 f2 Hi2 Hout2 Ht2.
      eapply added_weaken; [|reflexivity|apply (add_blocks_spec fuel (Z.to_nat k) m2 f2 o bal 0)]; auto with lia.
      * intros x. rewrite Z2Nat.id by done. lia.
      * rewrite Z2Nat.id by done. intros x ?. apply Hout2. lia.
Qed.
End parts.

Lemma add_region_order_spec depth fuel o : valid_order o → (Z.to_nat (o + 1) < depth)%nat →
  ∀ m f base next, buddy_inv m b f → 0 < base <= next → next + 2 ^ 30 < 2 ^ 64 →
  base mod 4096 = 0 → next mod 4096 = 0 → next - base < 2 ^ 31 * bsz o →
  outside f (λ x, base <= x < next) → (total f + pages base next <= fuel)%nat →
  added_ok m f (λ x, base <= x < next) (pages base next)
    (_add_region_order_rec depth fuel m b o base next).
Proof.
  revert o. induction depth as [|depth IH]; intros o Ho Hd; [lia|].
  intros m f base next Hi Hb Hn Hbm Hnm Hsz Hout Hfuel.
  pose proof (bsz_max o Ho) as Hmax. pose proof (bsz_pos o (proj1 Ho)) as Hpos.
  cbn [_add_region_order_rec]. rewrite (proj2 (Z.ltb_ge o 0)) by apply Ho.
  rewrite blocksize_spec by done. rewrite align_up_code by (done || lia).
  rewrite align_down_code by (done || lia).
  destruct (align_up_spec (bsz o) base Hpos) as [Hbal1 Hbal2]. destruct (align_down_spec (bsz o) next Hpos) as [Hnal1 Hnal2].
  set (bal := align_up (bsz o) base) in *. set (nal := align_down (bsz o) next) in *.
  pose proof (page_aligned_of_block o bal Ho Hbal2) as Hbalp.
  pose proof (page_aligned_of_block o nal Ho Hnal2) as Hnalp.
  (* an unaligned end point means the order is positive *)
  assert (base ≠ bal ∨ next ≠ nal → 0 < o) as Hopos.
  { intros Hne. destruct (decide (o = 0)) as [->|]; [exfalso|destruct Ho; lia].
    unfold bal, nal, align_up, align_down in Hne. change (bsz 0) with 4096 in Hne.
    rewrite Hnm, Z.mod_opp_l_z in Hne; lia. }
  assert (∀ m' f' lo hi, buddy_inv m' b f' → base ≠ bal ∨ next ≠ nal →
    base <= lo <= hi → hi <= next → lo mod 4096 = 0 → hi mod 4096 = 0 → hi - lo < bsz o →
    outside f' (λ x, lo <= x < hi) → (total f' + pages lo hi <= fuel)%nat →
    added_ok m' f' (λ x, lo <= x < hi) (pages lo hi)
      (_add_region_order_rec depth fuel m' b (o - 1) lo hi)) as Hrec.
  { intros m' f' lo hi Hi' Hop%Hopos Hlo Hhi Hlm Hhm Hsmall Hout' Hf'.
    assert (bsz o = 2 * bsz (o - 1)) as Hdbl by (rewrite <-bsz_succ by lia; f_equal; lia).
    apply IH; auto with lia. auto with buddy. }
  pose proof (align_cases o base next Ho ltac:(lia)) as Hcases. cbv zeta in Hcases. fold bal nal in Hcases.
  destruct Hcases as [[Hle [k [Hk Ek]]]|(E1 & E2 & E3 & E4)].
  - assert (k < 2 ^ 31) by nia.
    assert (i32 (Z.shiftr (u64 (nal - bal)) o / MEMORY_PAGESIZE) = k) as ->.
    { replace (nal - bal) with (k * bsz o) by lia. apply nr_code; [done|lia]. }
    by apply (add_parts_spec fuel o base next k Ho Hb Hn (λ m lo hi, _add_region_order_rec depth fuel m b (o - 1) lo hi)).
  - (* both addresses inside one block *)
    assert (i32 (Z.shiftr (u64 (nal - bal)) o / MEMORY_PAGESIZE) = -1) as ->.
    { replace (nal - bal) with (-1 * bsz o) by lia. apply nr_code; [done|lia]. }
    rewrite (proj2 (Z.eqb_neq base bal)) by lia. simpl.
    rewrite (proj2 (Z.ltb_ge bal next)) by lia. rewrite (proj2 (Z.leb_gt base nal)) by lia.
    rewrite andb_false_r. simpl.
    destruct (Hrec m f base next) as (m' & f' & -> & ?); auto with lia.
    simpl. by exists m', f'.
Qed.

End region.
