(* ===== verification/BuddyTheorems.v ===== *)
(** * What the physical memory manager promises

    The contracts of the operations of kernel/physmem.c on one zone, the
    safety of every interleaving of client requests, and the operations on
    [phys_memory_t]. *)

From S2P Require Import Prelude PhysMem Buddy.

(** ** Lemmas for the contracts *)

Section contracts.
Context (b : Z).
Implicit Types (m : gmap Z Z) (f : Z → list Z) (o a x : Z).

(** The result of an allocation of order [o] from free lists [f]: NULL when
    no free block is large enough, or an aligned block of that order that
    was free and is not free any more. *)
Definition alloc_post f f' o r : Prop :=
  (r = 0 ∧ (∀ x, free_at f' x ↔ free_at f x) ∧ ∀ o', o <= o' <= 18 → f o' = []) ∨
  (blk_ok o r ∧ (∀ x, free_at f x ↔ free_at f' x ∨ in_blk o r x) ∧
   ∀ x, in_blk o r x → ¬ free_at f' x).

(** Orders below [o] untouched and nothing left above: there was nothing. *)
Lemma nothing_above m m' f f' o :
  buddy_inv m b f → buddy_inv m' b f' → valid_order o →
  (∀ x, free_at f' x ↔ free_at f x) → (∀ o', o' < o → f' o' = f o') →
  (∀ o', o <= o' <= 18 → f' o' = []) → ∀ o', o <= o' <= 18 → f o' = [].
Proof.
  intros Hi Hi' Ho Hset Hlow Hnil o' Ho'. destruct (f o') as [|a l] eqn:E; [done|].
  assert (valid_order o') as Hv by auto with buddy.
  assert (free_at f' a) as (o2 & a2 & Ho2 & Ha2 & Hx).
  { apply Hset. apply (node_free f o'); [done|]. rewrite E. set_solver. }
  destruct (decide (o2 < o)).
  - rewrite Hlow in Ha2 by done.
    destruct (wf_disj f (inv_wf _ _ _ Hi) o' a o2 a2 a) as [-> _]; auto;
      [rewrite E; set_solver|apply in_blk_self, Hv|lia].
  - rewrite Hnil in Ha2 by (destruct Ho2; lia). set_solver.
Qed.

Lemma buddy_alloc_spec m f o :
  buddy_inv m b f → valid_order o →
  ∃ r m' f', phys_mem_buddy_alloc m b o = Some (r, m') ∧ buddy_inv m' b f' ∧
    buddy_frame b f m m' ∧ alloc_post f f' o r.
Proof.
  intros Hi Ho. unfold phys_mem_buddy_alloc, MEMORY_PHYS_BUDDY_ORDER.
  rewrite (proj2 (Z.ltb_ge 18 o)) by apply Ho. unfold _split_buddy, MEMORY_PHYS_BUDDY_ORDER.
  destruct (split_buddy_spec b (S (Z.to_nat (18 - o))) m f o Hi Ho) as
    (m1 & f1 & -> & Hi1 & Hset & Hlow & Hfr & Hnil); [lia|]. simpl.
  rewrite (inv_head b m1 f1 o Hi1 Ho). destruct (f1 o) as [|a l] eqn:E.
  - exists 0, m1, f1. split_and!; [done..|]. left. split_and!; [done..|].
    eapply (nothing_above m m1 f f1); eauto.
  - assert (blk_ok o a) as Hok.
    { apply (wf_block _ (inv_wf _ _ _ Hi1)); [done|]. rewrite E. set_solver. }
    rewrite (proj2 (Z.eqb_neq a 0)) by (destruct Hok; lia).
    exists a, (m1.[head b o <- m1.@a].[a <- 0]), (<[o := l]> f1).
    split_and!; [done|by apply take_inv| |right; split_and!; [done|..]].
    + intros x Hh Hf. rewrite !rd_wr_ne; [by apply Hfr|..]; intros <-.
      * apply Hh. auto with buddy.
      * apply Hf, Hset. apply (node_free f1 o); [done|]. rewrite E. set_solver.
    + intros x. rewrite <-Hset. by apply free_at_tail.
    + intros x Hx Hf. by eapply (removed_disjoint f1 o a [] l); eauto; apply Hi1.
Qed.

Lemma buddy_free_spec fuel m f o a :
  buddy_inv m b f → valid_order o → blk_ok o a → outside b f (in_blk o a) →
  (total f + 1 < fuel)%nat →
  ∃ m' f', phys_mem_buddy_free fuel m b a o = Some m' ∧ buddy_inv m' b f' ∧
    (∀ x, free_at f' x ↔ free_at f x ∨ in_blk o a x) ∧
    (∀ x, ¬ in_heads b x → ¬ free_at f x → ¬ in_blk o a x → m'.@x = m.@x) ∧
    (total f' <= total f + 1)%nat.
Proof.
  intros Hi Ho Hok Hout Hf.
  destruct (insert_buddy_spec b (Z.to_nat (20 - o)) fuel o Ho ltac:(destruct Ho; lia) m f a)
    as (m' & f' & H1 & H2 & H3 & _ & H4 & H5); auto.
  exists m', f'. auto.
Qed.

(** Every free block has at least one page: a zone has at most as many free
    blocks as pages. *)
Lemma total_pages f lo n :
  buddy_wf f → lo mod 4096 = 0 → (∀ x, free_at f x → lo <= x < lo + 4096 * Z.of_nat n) →
  (total f <= n)%nat.
Proof.
  intros Hwf Hlo Hin.
  assert (total f = length (orders ≫= f)) as ->.
  { unfold total. generalize orders as os. induction os as [|o os IH]; [done|].
    rewrite fmap_cons, bind_cons, length_app. cbn. cbn in IH. lia. }
  assert (∀ o a, valid_order o → a ∈ f o → a ∈ (λ i, lo + 4096 * i) <$> seqZ 0 (Z.of_nat n)) as Hpg.
  { intros o a Ho Ha. pose proof (node_free f o a Ho Ha) as Hx%Hin.
    destruct (wf_block f Hwf o a Ho Ha) as (_ & _ & Hal%page_aligned_of_block); [|done].
    apply mod0_ex in Hal as [q ->]; [|lia]. apply mod0_ex in Hlo as [q' ->]; [|lia].
    apply list_elem_of_fmap. exists (q - q'). split; [lia|]. apply elem_of_seqZ. lia. }
  replace n with (length ((λ i, lo + 4096 * i) <$> seqZ 0 (Z.of_nat n)))
    by (rewrite length_fmap, length_seqZ; lia).
  apply submseteq_length, list.NoDup_submseteq.
  - assert (∀ o, o ∈ orders → valid_order o) as Hos by (intros o; by rewrite orders_spec).
    assert (NoDup orders) as Hnd by (apply (bool_decide_unpack _); by vm_compute).
    revert Hos Hnd. generalize orders as os. induction os as [|o os IH]; intros Hos Hnd; [constructor|].
    rewrite bind_cons. apply list.NoDup_cons in Hnd as [Hn Hnd]. apply list.NoDup_app.
    split_and!; [apply sorted_nodup, (wf_sorted f Hwf), Hos; set_solver| |apply IH; set_solver].
    intros a Ha (o' & Ha' & Ho')%list_elem_of_bind.
    assert (valid_order o ∧ valid_order o') as [Hv Hv'] by (split; apply Hos; set_solver).
    destruct (wf_disj f Hwf o a o' a a) as [-> _]; try done; apply in_blk_self; [apply Hv|apply Hv'].
  - intros a (o & Ha & Ho)%list_elem_of_bind. apply (Hpg o); [|done]. by apply orders_spec.
Qed.

End contracts.

(** ** More fuel never changes a result *)

Lemma insert_find_mono fuel fuel' m cur a r :
  (fuel <= fuel')%nat → _insert_find fuel m cur a = Some r →
  _insert_find fuel' m cur a = Some r.
Proof.
  revert fuel' cur. induction fuel as [|fuel IH]; intros [|fuel'] cur Hle; simpl; [done..|lia|].
  repeat case_match; auto. apply IH. lia.
Qed.

Lemma merge_loop_mono (ins ins' : gmap Z Z → Z → option (gmap Z Z)) fuel fuel' m cur s r :
  (∀ m a r, ins m a = Some r → ins' m a = Some r) → (fuel <= fuel')%nat →
  _merge_loop ins fuel m cur s = Some r → _merge_loop ins' fuel' m cur s = Some r.
Proof.
  intros Hins. revert fuel' m cur. induction fuel as [|fuel IH]; intros [|fuel'] m cur Hle;
    [done..|lia|]. cbn [_merge_loop]. case_match; [done|]. case_match; [|apply IH; lia].
  rewrite !bind_Some. intros (m1 & H1 & H2). exists m1. split; [by apply Hins|].
  case_match; [done|]. apply IH; [lia|done].
Qed.

Lemma insert_buddy_mono depth fuel fuel' m b a o r :
  (fuel <= fuel')%nat → _insert_buddy_rec depth fuel m b a o = Some r →
  _insert_buddy_rec depth fuel' m b a o = Some r.
Proof.
  intros Hle. revert m a o r. induction depth as [|depth IH]; intros m a o r; [done|].
  cbn [_insert_buddy_rec]. case_match; [done|]. rewrite !bind_Some.
  intros (cur & Hc & Hm). exists cur. split; [by eapply insert_find_mono|].
  unfold _merge_buddy in *. case_match; [done|].
  eapply merge_loop_mono; [|exact Hle|exact Hm]. simpl. intros. by apply IH.
Qed.

(** ** Clients of one zone

    A run interleaves allocations, releases of held blocks and writes of the
    clients into the blocks they hold. *)

#[global] Instance in_blk_dec o a x : Decision (in_blk o a x).
Proof. unfold in_blk. apply _. Defined.

Section clients.
Context (b : Z).

(** The held blocks (order and address) beside the memory. *)
Inductive zstep : gmap Z Z * list (Z * Z) → gmap Z Z * list (Z * Z) → Prop :=
  | zalloc m held o r m' :
      valid_order o → phys_mem_buddy_alloc m b o = Some (r, m') → r ≠ 0 →
      zstep (m, held) (m', (o, r) :: held)
  | zalloc_null m held o m' :
      valid_order o → phys_mem_buddy_alloc m b o = Some (0, m') →
      zstep (m, held) (m', held)
  | zfree m held held' o a fuel m' :
      held ≡ₚ (o, a) :: held' → phys_mem_buddy_free fuel m b a o = Some m' →
      zstep (m, held) (m', held')
  | zuse m held o a x v :
      (o, a) ∈ held → in_blk o a x → zstep (m, held) (m.[x <- v], held).

Definition held_at (held : list (Z * Z)) (x : Z) : Prop :=
  ∃ p, p ∈ held ∧ in_blk p.1 p.2 x.

(** The held blocks that contain an address. *)
Definition holders (held : list (Z * Z)) (x : Z) : list (Z * Z) :=
  filter (λ p, in_blk p.1 p.2 x) held.

Record zone_safe (f0 : Z → list Z) (s : gmap Z Z * list (Z * Z)) (f : Z → list Z) : Prop := {
  zs_inv : buddy_inv s.1 b f;
  zs_set x : free_at f0 x ↔ free_at f x ∨ held_at s.2 x;
  zs_disj x : held_at s.2 x → ¬ free_at f x;
  zs_heads x : held_at s.2 x → ¬ in_heads b x;
  zs_one x : (length (holders s.2 x) <= 1)%nat;
  zs_ok o a : (o, a) ∈ s.2 → valid_order o ∧ blk_ok o a;
}.

Lemma held_at_cons p held x :
  held_at (p :: held) x ↔ in_blk p.1 p.2 x ∨ held_at held x.
Proof. unfold held_at. set_solver. Qed.

Lemma holders_none held x : ¬ held_at held x → holders held x = [].
Proof.
  intros Hn. destruct (holders held x) as [|p l] eqn:E; [done|].
  assert (p ∈ holders held x) as Hp by (rewrite E; set_solver).
  apply list_elem_of_filter in Hp as [Hx Hp]. destruct Hn. by exists p.
Qed.

Lemma zone_safe_step f0 s s' f :
  zone_safe f0 s f → zstep s s' → ∃ f', zone_safe f0 s' f'.
Proof.
  intros Hs Hstep. destruct Hs as [Hi Hset Hdj Hh Hone Hok].
  inversion Hstep as [m held o r m' Ho Ha Hr|m held o m' Ho Ha
    |m held held' o a fuel m' Hp Hf|m held o a x v Hin Hx]; subst; simpl in *.
  - destruct (buddy_alloc_spec b m f o Hi Ho) as (r1 & m1 & f1 & Ha' & Hi1 & _ & [(-> & _)|(Hrok & Hset1 & Hdj1)]);
      [congruence|]. assert (r1 = r) as -> by congruence. assert (m1 = m') as -> by congruence.
    exists f1. split; simpl; [done|..].
    + intros x. rewrite held_at_cons, Hset, Hset1. simpl. tauto.
    + intros x [Hx|Hx]%held_at_cons; [by apply Hdj1|]. intros Hf.
      apply (Hdj x Hx). apply Hset1. by left.
    + intros x [Hx|Hx]%held_at_cons; [|by apply Hh]. apply (inv_sep _ _ _ Hi), Hset1. by right.
    + intros x. unfold holders. rewrite filter_cons. case_decide as Hx; [|apply Hone].
      fold (holders held x). rewrite holders_none; [simpl; lia|].
      intros Hh'. apply (Hdj x Hh'), Hset1. by right.
    + intros o' a' [[= -> ->]|Hin]%elem_of_cons; [done|by apply Hok].
  - destruct (buddy_alloc_spec b m f o Hi Ho) as (r1 & m1 & f1 & Ha' & Hi1 & _ & [(-> & Hset1 & _)|(Hrok & _)]).
    + assert (m1 = m') as -> by congruence. exists f1.
      split; simpl; auto; intros x; rewrite ?Hset1; auto.
    + assert (r1 = 0) as -> by congruence. destruct Hrok. lia.
  - destruct (Hok o a) as [Ho Haok]; [rewrite Hp; set_solver|].
    assert (∀ x, held_at held x ↔ in_blk o a x ∨ held_at held' x) as Hcons.
    { intros x. unfold held_at. setoid_rewrite Hp. set_solver. }
    set (fuel' := (fuel + total f + 2)%nat).
    destruct (buddy_free_spec b fuel' m f o a) as (m1 & f1 & Hf' & Hi1 & Hset1 & _); auto.
    { intros x Hx. split; [apply Hdj|apply Hh]; apply Hcons; by left. } { lia. }
    assert (m1 = m') as ->.
    { unfold phys_mem_buddy_free, _insert_buddy in *.
      eapply (insert_buddy_mono _ _ fuel') in Hf; [congruence|lia]. }
    assert (∀ x, in_blk o a x → ¬ held_at held' x) as Hnot.
    { intros x Hx Hheld. specialize (Hone x). unfold holders in Hone. rewrite Hp in Hone.
      rewrite filter_cons_True in Hone by done. simpl in Hone.
      destruct Hheld as (q & Hq & Hqx).
      assert (q ∈ filter (λ p, in_blk p.1 p.2 x) held') as Hin by (by apply list_elem_of_filter).
      destruct (filter _ held'); [set_solver|simpl in Hone; lia]. }
    exists f1. split; simpl; [done|..].
    + intros x. rewrite Hset, Hset1, Hcons. tauto.
    + intros x Hx. rewrite Hset1. intros [Hfr|Hb]; [|by eapply Hnot].
      apply (Hdj x); [|done]. apply Hcons. by right.
    + intros x Hx. apply Hh, Hcons. by right.
    + intros x. specialize (Hone x). unfold holders in *. rewrite Hp, filter_cons in Hone.
      case_decide; simpl in *; lia.
    + intros o' a' Hin. apply Hok. rewrite Hp. set_solver.
  - assert (held_at held x) as Hheld by (by exists (o, a)).
    exists f. split; simpl; auto. apply inv_wr_outside; auto.
Qed.

End clients.

(** ** [phys_mem_alloc] and [phys_mem_free] *)

(** The heads of the zone that a request names. *)
Definition zone_base (m : gmap Z Z) (mem zone domain : Z) : option Z :=
  if (MEMORY_ZONE_DMA =? zone) || (MEMORY_ZONE_KERNEL =? zone) then
    Some (czone_heads mem zone)
  else if MEMORY_ZONE_NUMA_AWARE =? zone then
    if domain <=? m.@(phys_max_domain mem)
    then Some (zone_heads (m.@(phys_numazones mem)) domain) else None
  else None.

(** The scalar fields of [phys_memory_t] outside the zones. *)
Definition phys_fields (mem x : Z) : Prop :=
  x = phys_p2v mem ∨ x = phys_max_domain mem ∨ x = phys_numazones mem ∨ x = phys_lock mem.

Record phys_inv (m : gmap Z Z) (mem zone domain hb : Z) (f : Z → list Z) : Prop := {
  pi_inv : buddy_inv m hb f;
  pi_zone : zone_base m mem zone domain = Some hb;
  pi_unlocked : m.@(phys_lock mem) = 0;
  pi_fields x : phys_fields mem x → ¬ in_heads hb x ∧ ¬ free_at f x;
  pi_p2v x : free_at f x → 0 <= m.@(phys_p2v mem) < x;
}.

Section phys.
Context (mem zone domain hb : Z).
Implicit Types (m : gmap Z Z) (f : Z → list Z).

(** The zone's memory may change under the lock, the fields do not. *)
Lemma phys_inv_step m m' f f' :
  phys_inv m mem zone domain hb f → buddy_inv m' hb f' →
  (∀ x, free_at f' x → free_at f x) →
  (∀ x, phys_fields mem x → x ≠ phys_lock mem → m'.@x = m.@x) →
  m'.@(phys_lock mem) = 0 → phys_inv m' mem zone domain hb f'.
Proof.
  intros [Hi Hz Hu Hf Hp] Hi' Hsub Hfr Hl. split; [done| |done|..].
  - unfold zone_base in *. rewrite !(Hfr (phys_max_domain mem)), !(Hfr (phys_numazones mem));
      [done|unfold phys_fields, phys_numazones, phys_max_domain, phys_lock; lia..].
  - intros x Hx. specialize (Hf x Hx). naive_solver.
  - intros x Hx. rewrite (Hfr (phys_p2v mem)); [auto|unfold phys_fields, phys_p2v, phys_lock; lia..].
Qed.

Lemma zone_dispatch {A} m (k : Z → A) (d : A) :
  zone_base m mem zone domain = Some hb →
  (if (MEMORY_ZONE_DMA =? zone) || (MEMORY_ZONE_KERNEL =? zone) then k (czone_heads mem zone)
   else if MEMORY_ZONE_NUMA_AWARE =? zone then
     if domain <=? m.@(phys_max_domain mem)
     then k (zone_heads (m.@(phys_numazones mem)) domain) else d
   else d) = k hb.
Proof. unfold zone_base. intros. by repeat case_match; simplify_eq. Qed.

(** Taking the lock changes neither the zone nor the other fields. *)
Lemma phys_locked m f :
  phys_inv m mem zone domain hb f →
  buddy_inv (m.[phys_lock mem <- 1]) hb f ∧
  zone_base (m.[phys_lock mem <- 1]) mem zone domain = Some hb ∧
  spin_lock (phys_lock mem) m = Some (m.[phys_lock mem <- 1]).
Proof.
  intros [Hi Hz Hu Hf Hp]. destruct (Hf (phys_lock mem)) as [Hh Hnf]; [unfold phys_fields; tauto|].
  split_and!; [by apply inv_wr_outside| |unfold spin_lock; by rewrite Hu].
  unfold zone_base in *. rewrite !rd_wr_ne; [done|unfold phys_lock, phys_numazones, phys_max_domain; lia..].
Qed.

Lemma phys_alloc_spec m f o :
  phys_inv m mem zone domain hb f → valid_order o →
  ∃ r m' f', phys_mem_alloc m mem o zone domain = Some (r, m') ∧
    phys_inv m' mem zone domain hb f' ∧
    alloc_post f f' o (if r =? 0 then 0 else r + m.@(phys_p2v mem)) ∧
    m'.@(phys_p2v mem) = m.@(phys_p2v mem) ∧ (r = 0 ∨ 0 < r ∧ 0 <= m.@(phys_p2v mem)) ∧
    buddy_frame hb f m m'.
Proof.
  intros Hph Ho. destruct (phys_locked m f Hph) as (Hi1 & Hz1 & Hl).
  pose proof Hph as [Hi Hz Hu Hf Hp].
  assert (phys_fields mem (phys_lock mem) ∧ phys_fields mem (phys_p2v mem)) as [Hfl Hfp]
    by (unfold phys_fields; tauto).
  unfold phys_mem_alloc. rewrite Hl. simpl. set (m1 := m.[phys_lock mem <- 1]) in *.
  rewrite (zone_dispatch m1 (λ h, phys_mem_buddy_alloc m1 h o)) by done.
  destruct (buddy_alloc_spec hb m1 f o Hi1 Ho) as (r & m2 & f2 & -> & Hi2 & Hfr & Hpost). simpl.
  assert (∀ x, phys_fields mem x → x ≠ phys_lock mem → m2.@x = m.@x) as Hfields.
  { intros x Hx Hne. rewrite Hfr by (apply Hf; done). unfold m1. by apply rd_wr_ne. }
  assert (phys_p2v mem ≠ phys_lock mem) as Hne by (unfold phys_p2v, phys_lock; lia).
  assert (∀ x, free_at f2 x → free_at f x) as Hsub.
  { intros x Hx. destruct Hpost as [(_ & Hs & _)|(_ & Hs & _)]; apply Hs; auto. }
  exists (if negb (r =? 0) then u64 (r - m2.@(phys_p2v mem)) else r), (spin_unlock (phys_lock mem) m2), f2.
  assert (phys_inv (spin_unlock (phys_lock mem) m2) mem zone domain hb f2) as Hph2.
  { apply (phys_inv_step m _ f f2); auto; unfold spin_unlock; [|intros x ? ?; rewrite rd_wr_ne; auto|apply rd_wr_eq].
    apply inv_wr_outside; [done|by apply Hf|]. intros Hx. by apply (Hf _ Hfl), Hsub. }
  assert (if negb (r =? 0) then u64 (r - m2.@(phys_p2v mem)) = r - m.@(phys_p2v mem) ∧ 0 <= m.@(phys_p2v mem) < r else r = 0) as Hr.
  { destruct (r =? 0) eqn:E; simpl; [lia|]. rewrite Hfields by done.
    destruct Hpost as [(? & _)|((? & ? & _) & Hs & _)]; [lia|].
    assert (0 <= m.@(phys_p2v mem) < r) by (apply Hp, Hs; right; apply in_blk_self, Ho).
    pose proof (bsz_pos o (proj1 Ho)). split; [|lia]. apply u64_small. lia. }
  split_and!; [done..| |unfold spin_unlock; by rewrite rd_wr_ne, Hfields by done| |].
  - destruct (r =? 0) eqn:E; simpl in *; [by subst|]. destruct Hr as [-> Hr].
    rewrite (proj2 (Z.eqb_neq _ 0)) by lia. by replace (r - m.@(phys_p2v mem) + m.@(phys_p2v mem)) with r by lia.
  - destruct (r =? 0); simpl in *; lia.
  - intros x Hh Hx. unfold spin_unlock. rewrite rd_wr. case_decide as E; [by rewrite <-E, Hu|].
    rewrite Hfr by done. unfold m1. by apply rd_wr_ne.
Qed.

Lemma phys_free_spec fuel m f o a :
  phys_inv m mem zone domain hb f → valid_order o → 0 < a →
  blk_ok o (a + m.@(phys_p2v mem)) → 0 <= m.@(phys_p2v mem) →
  outside hb f (in_blk o (a + m.@(phys_p2v mem))) →
  (∀ x, phys_fields mem x → ¬ in_blk o (a + m.@(phys_p2v mem)) x) →
  (total f + 1 < fuel)%nat →
  ∃ m' f', phys_mem_free fuel m mem a o zone domain = Some m' ∧
    phys_inv m' mem zone domain hb f' ∧
    (∀ x, free_at f' x ↔ free_at f x ∨ in_blk o (a + m.@(phys_p2v mem)) x) ∧
    ∀ x, ¬ in_heads hb x → ¬ free_at f x → ¬ in_blk o (a + m.@(phys_p2v mem)) x → m'.@x = m.@x.
Proof.
  intros Hph Ho Ha Hok Hp0 Hout Hnf Hfuel. destruct (phys_locked m f Hph) as (Hi1 & Hz1 & Hl).
  pose proof Hph as [Hi Hz Hu Hf Hp].
  assert (phys_fields mem (phys_lock mem)) as Hfl by (unfold phys_fields; tauto).
  unfold phys_mem_free. rewrite Hl. simpl. set (m1 := m.[phys_lock mem <- 1]) in *.
  assert (m1.@(phys_p2v mem) = m.@(phys_p2v mem)) as ->
    by (apply rd_wr_ne; unfold phys_p2v, phys_lock; lia).
  rewrite (proj2 (Z.eqb_neq a 0)) by lia. simpl.
  rewrite u64_small by (destruct Hok as (? & ? & _); pose proof (bsz_pos o (proj1 Ho)); lia).
  set (blk := a + m.@(phys_p2v mem)) in *.
  rewrite (zone_dispatch m1 (λ h, phys_mem_buddy_free fuel m1 h blk o)) by done.
  destruct (buddy_free_spec hb fuel m1 f o blk) as (m2 & f2 & -> & Hi2 & Hset & Hfr & _); auto.
  simpl. exists (spin_unlock (phys_lock mem) m2), f2. split_and!; [done| |done|].
  2: { intros x Hh Hx Hb. unfold spin_unlock. rewrite rd_wr. case_decide as E; [by rewrite <-E, Hu|].
       rewrite Hfr by done. unfold m1. by apply rd_wr_ne. }
  assert (∀ x, phys_fields mem x → x ≠ phys_lock mem → m2.@x = m.@x) as Hfields.
  { intros x Hx Hne. rewrite Hfr by (try apply Hf; auto). unfold m1. by apply rd_wr_ne. }
  assert (∀ x, phys_fields mem x → ¬ free_at f2 x) as Hnf2.
  { intros x Hx. rewrite Hset. intros [?|?]; [by apply (Hf x Hx)|by apply (Hnf x Hx)]. }
  unfold spin_unlock. split; [|..].
  - apply inv_wr_outside; auto. by apply Hf.
  - unfold zone_base in *. rewrite !rd_wr_ne, !(Hfields (phys_max_domain mem)), !(Hfields (phys_numazones mem));
      [done|unfold phys_fields, phys_numazones, phys_max_domain, phys_lock; lia..].
  - apply rd_wr_eq.
  - intros x Hx. split; [by apply Hf|by apply Hnf2].
  - intros x. rewrite rd_wr_ne, Hfields by (unfold phys_fields, phys_p2v, phys_lock; lia).
    rewrite Hset. intros [?|Hx]; [auto|]. unfold in_blk, blk in *. lia.
Qed.

End phys.

(** ** A concrete zone

    One free block of two pages at 2 MiB in the DMA zone of a
    [phys_memory_t] at 4096. *)

Definition ex_mem : Z := 4096.
Definition ex_b : Z := czone_heads ex_mem MEMORY_ZONE_DMA.
Definition ex_f (o : Z) : list Z := if decide (o = 1) then [0x200000] else [].
Definition ex_m : gmap Z Z := ∅.[head ex_b 1 <- 0x200000].

Lemma ex_free_at x : free_at ex_f x ↔ 0x200000 <= x < 0x202000.
Proof.
  unfold free_at, ex_f. split.
  - intros (o & a & _ & Ha & Hx). case_decide; [|set_solver]. subst.
    apply list_elem_of_singleton in Ha as ->. unfold in_blk, bsz in Hx. lia.
  - intros Hx. exists 1, 0x200000. split_and!; [split; lia|case_decide; set_solver|].
    unfold in_blk, bsz. lia.
Qed.

Lemma ex_inv : buddy_inv ex_m ex_b ex_f.
Proof.
  split.
  - split.
    + intros o a _. unfold ex_f. case_decide; [|set_solver].
      intros ->%list_elem_of_singleton. subst. by vm_compute.
    + intros o _. unfold ex_f. case_decide; repeat constructor.
    + intros o a o' a' x _ _. unfold ex_f. repeat case_decide; subst; set_solver.
  - intros o Ho. unfold ex_f, ex_m. case_decide.
    + subst. simpl. by vm_compute.
    + simpl. rewrite rd_wr_ne; [done|]. intros E%head_inj. lia.
  - intros x Hx%ex_free_at. unfold in_heads, ex_b, czone_heads, sizeof_zone, ex_mem, MEMORY_ZONE_DMA. lia.
Qed.

Lemma ex_phys : phys_inv ex_m ex_mem MEMORY_ZONE_DMA 0 ex_b ex_f.
Proof.
  split; [apply ex_inv|done|done|..].
  - intros x Hx. rewrite ex_free_at. unfold phys_fields, phys_p2v, phys_max_domain,
      phys_numazones, phys_lock, in_heads, ex_b, czone_heads, sizeof_zone, ex_mem, MEMORY_ZONE_DMA in *. lia.
  - intros x Hx%ex_free_at. assert (ex_m.@(phys_p2v ex_mem) = 0) as -> by done. lia.
Qed.

(** ** Properties *)

(** C1: [phys_mem_buddy_alloc] always returns.  On a well-formed zone it
    returns NULL only when no free block of the requested order or larger
    exists; otherwise it returns an aligned block of exactly the requested
    order that was free, the bytes that stay free are exactly the others,
    the zone stays well formed, and no memory outside the zone's heads and
    free blocks is written. *)
Theorem phys_mem_buddy_alloc_correct (m : gmap Z Z) (b : Z) (f : Z → list Z) (o : Z) :
  buddy_inv m b f → valid_order o →
  ∃ r m' f', phys_mem_buddy_alloc m b o = Some (r, m') ∧ buddy_inv m' b f' ∧
    buddy_frame b f m m' ∧ alloc_post f f' o r.
Proof. apply buddy_alloc_spec. Qed.

Lemma phys_mem_buddy_alloc_witness :
  ∃ r m' f', phys_mem_buddy_alloc ex_m ex_b 0 = Some (r, m') ∧ buddy_inv m' ex_b f' ∧
    buddy_frame ex_b ex_f ex_m m' ∧ alloc_post ex_f f' 0 r.
Proof. apply (phys_mem_buddy_alloc_correct ex_m ex_b ex_f 0 ex_inv). split; lia. Defined.

(** C2: [phys_mem_buddy_free] of an aligned block outside the free set
    terminates (its loops and the mutual recursion of [_insert_buddy] and
    [_merge_buddy] need fuel for one more than the free blocks), adds exactly
    the bytes of the block to the free set whatever merging happens, keeps
    the zone well formed and writes nothing else. *)
Theorem phys_mem_buddy_free_correct (fuel : nat) (m : gmap Z Z) (b : Z)
    (f : Z → list Z) (o a : Z) :
  buddy_inv m b f → valid_order o → blk_ok o a → outside b f (in_blk o a) →
  (total f + 1 < fuel)%nat →
  ∃ m' f', phys_mem_buddy_free fuel m b a o = Some m' ∧ buddy_inv m' b f' ∧
    (∀ x, free_at f' x ↔ free_at f x ∨ in_blk o a x) ∧
    (∀ x, ¬ in_heads b x → ¬ free_at f x → ¬ in_blk o a x → m'.@x = m.@x) ∧
    (total f' <= total f + 1)%nat.
Proof. apply buddy_free_spec. Qed.

Lemma phys_mem_buddy_free_witness :
  ∃ m' f', phys_mem_buddy_free 5 ex_m ex_b 0x202000 1 = Some m' ∧ buddy_inv m' ex_b f' ∧
    (∀ x, free_at f' x ↔ free_at ex_f x ∨ in_blk 1 0x202000 x) ∧
    (∀ x, ¬ in_heads ex_b x → ¬ free_at ex_f x → ¬ in_blk 1 0x202000 x → m'.@x = ex_m.@x) ∧
    (total f' <= total ex_f + 1)%nat.
Proof.
  apply (phys_mem_buddy_free_correct 5 ex_m ex_b ex_f 1 0x202000 ex_inv).
  - split; lia.
  - by vm_compute.
  - intros x Hx. rewrite ex_free_at.
    unfold in_blk, bsz, in_heads, ex_b, czone_heads, sizeof_zone, ex_mem, MEMORY_ZONE_DMA in *. lia.
  - vm_compute. lia.
Defined.

(** C3: in every run of clients that allocate from a well-formed zone,
    release blocks they hold and write into blocks they hold, no byte is ever
    in two held blocks or both held and free, the held and free bytes
    together are exactly the initially free bytes, and the zone stays well
    formed. *)
Theorem buddy_clients_safe (b : Z) (m0 m : gmap Z Z) (f0 : Z → list Z) (held : list (Z * Z)) :
  buddy_inv m0 b f0 → rtc (zstep b) (m0, []) (m, held) →
  ∃ f, buddy_inv m b f ∧
    (∀ x, free_at f0 x ↔ free_at f x ∨ held_at held x) ∧
    (∀ x, held_at held x → ¬ free_at f x) ∧
    (∀ x, (length (holders held x) <= 1)%nat).
Proof.
  intros Hi Hrun.
  assert (∃ f, zone_safe b f0 (m, held) f) as [f Hs].
  { assert (∃ f, zone_safe b f0 (m0, []) f) as Hinit.
    { exists f0. split; simpl; auto; unfold held_at; set_solver by lia. }
    revert Hinit. induction Hrun as [|s1 s2 s3 Hstep _ IH]; [done|]. intros [f Hf].
    apply IH. by eapply zone_safe_step. }
  exists f. by destruct Hs.
Qed.

Lemma buddy_clients_safe_witness :
  ∃ f, buddy_inv (ex_m.[head ex_b 1 <- 0].[0x200000 <- 0].[0x200008 <- 7]) ex_b f ∧
    (∀ x, free_at ex_f x ↔ free_at f x ∨ held_at [(1, 0x200000)] x) ∧
    (∀ x, held_at [(1, 0x200000)] x → ¬ free_at f x) ∧
    (∀ x, (length (holders [(1, 0x200000)%Z] x) <= 1)%nat).
Proof.
  apply (buddy_clients_safe ex_b ex_m _ ex_f _ ex_inv).
  eapply rtc_l; [|eapply rtc_l; [|apply rtc_refl]].
  - apply (zalloc ex_b _ _ 1 0x200000); [split; lia|by vm_compute|lia].
  - apply (zuse ex_b _ _ 1 0x200000); [set_solver|by vm_compute].
Defined.

(** C25: [phys_mem_buddy_add_region] of a page-aligned region disjoint from
    the zone terminates and makes exactly the bytes [base, next) free, split
    into aligned blocks of decreasing order, although the block count of the
    empty middle part wraps around in 64 bits before it is cut to an [int]. *)
Theorem phys_mem_buddy_add_region_correct (fuel : nat) (m : gmap Z Z) (b : Z)
    (f : Z → list Z) (base next : Z) :
  buddy_inv m b f → 0 < base <= next → next < 2 ^ 61 →
  base mod 4096 = 0 → next mod 4096 = 0 →
  outside b f (λ x, base <= x < next) → (total f + pages base next <= fuel)%nat →
  ∃ m' f', phys_mem_buddy_add_region fuel m b base next = Some m' ∧
    buddy_inv m' b f' ∧ (∀ x, free_at f' x ↔ free_at f x ∨ base <= x < next) ∧
    (∀ x, ¬ in_heads b x → ¬ free_at f x → ¬ (base <= x < next) → m'.@x = m.@x) ∧
    (total f' <= total f + pages base next)%nat.
Proof.
  intros. apply (add_region_order_spec b 20 fuel 18); try (done || lia). unfold bsz. lia.
Qed.

Lemma phys_mem_buddy_add_region_witness :
  ∃ m' f', phys_mem_buddy_add_region 20 ex_m ex_b 0x203000 0x20d000 = Some m' ∧
    buddy_inv m' ex_b f' ∧
    (∀ x, free_at f' x ↔ free_at ex_f x ∨ 0x203000 <= x < 0x20d000) ∧
    (∀ x, ¬ in_heads ex_b x → ¬ free_at ex_f x → ¬ (0x203000 <= x < 0x20d000) →
       m'.@x = ex_m.@x) ∧
    (total f' <= total ex_f + pages 0x203000 0x20d000)%nat.
Proof.
  apply (phys_mem_buddy_add_region_correct 20 ex_m ex_b ex_f 0x203000 0x20d000 ex_inv);
    [lia|lia|done|done| |vm_compute; lia].
  intros x Hx. rewrite ex_free_at.
  unfold in_heads, ex_b, czone_heads, sizeof_zone, ex_mem, MEMORY_ZONE_DMA. lia.
Defined.

(** C26: [phys_mem_alloc] releases its lock and returns 0 or the physical
    address (virtual minus [p2v]) of a free block of the zone, and handing
    that address back to [phys_mem_free] with the same order, zone and domain
    restores the zone's free bytes exactly. *)
Theorem phys_mem_alloc_free_roundtrip (m : gmap Z Z) (mem zone domain hb : Z)
    (f : Z → list Z) (o : Z) :
  phys_inv m mem zone domain hb f → valid_order o →
  ∃ r m1 f1, phys_mem_alloc m mem o zone domain = Some (r, m1) ∧
    phys_inv m1 mem zone domain hb f1 ∧
    alloc_post f f1 o (if r =? 0 then 0 else r + m.@(phys_p2v mem)) ∧
    (r ≠ 0 → ∃ n, ∀ fuel, (n <= fuel)%nat → ∃ m2 f2,
       phys_mem_free fuel m1 mem r o zone domain = Some m2 ∧
       phys_inv m2 mem zone domain hb f2 ∧ ∀ x, free_at f2 x ↔ free_at f x).
Proof.
  intros Hph Ho. destruct (phys_alloc_spec mem zone domain hb m f o Hph Ho)
    as (r & m1 & f1 & Ha & Hph1 & Hpost & Hp & Hr0 & _).
  exists r, m1, f1. split_and!; [done..|]. intros Hr. exists (total f1 + 2)%nat.
  intros fuel Hfuel. rewrite (proj2 (Z.eqb_neq r 0)) in Hpost by done.
  destruct Hr0 as [?|[Hr0 Hp0]]; [done|].
  destruct Hpost as [(? & _)|(Hok & Hs & Hd)]; [lia|].
  rewrite <-Hp in *.
  destruct (phys_free_spec mem zone domain hb fuel m1 f1 o r) as (m2 & f2 & Hfree & Hph2 & Hset & _);
    try done; try lia.
  - intros x Hx. split; [by apply Hd|].
    apply (inv_sep _ _ _ (pi_inv _ _ _ _ _ _ Hph)), Hs. by right.
  - intros x Hx Hin. apply (pi_fields _ _ _ _ _ _ Hph x Hx), Hs. by right.
  - exists m2, f2. split_and!; [done..|]. intros x. by rewrite Hset, Hs.
Qed.

Lemma phys_mem_alloc_free_witness :
  ∃ r m1 f1, phys_mem_alloc ex_m ex_mem 0 MEMORY_ZONE_DMA 0 = Some (r, m1) ∧
    phys_inv m1 ex_mem MEMORY_ZONE_DMA 0 ex_b f1 ∧
    alloc_post ex_f f1 0 (if r =? 0 then 0 else r + ex_m.@(phys_p2v ex_mem)) ∧
    (r ≠ 0 → ∃ n, ∀ fuel, (n <= fuel)%nat → ∃ m2 f2,
       phys_mem_free fuel m1 ex_mem r 0 MEMORY_ZONE_DMA 0 = Some m2 ∧
       phys_inv m2 ex_mem MEMORY_ZONE_DMA 0 ex_b f2 ∧ ∀ x, free_at f2 x ↔ free_at ex_f x).
Proof.
  apply (phys_mem_alloc_free_roundtrip ex_m ex_mem MEMORY_ZONE_DMA 0 ex_b ex_f 0 ex_phys).
  split; lia.
Defined.

(** A 128 MiB machine: one usable map entry from address 0. *)
Definition map_128M : gmap Z Z := ∅.[sysmap_base 0x8800 0 <- 0].[sysmap_len 0x8800 0 <- 0x8000000].

(** The first page of each of the DMA and the kernel zone after start-up. *)
Definition boot_two_allocs (o : Z) : option (Z * Z) :=
  m ← phys_memory_init 100 map_128M 0x68000 1 0x8800 0x100000000;
  '(p, m) ← phys_mem_alloc m 0x68000 o MEMORY_ZONE_DMA 0;
  '(q, _) ← phys_mem_alloc m 0x68000 o MEMORY_ZONE_KERNEL 0;
  Some (p, q).

(** [phys_memory_init] gives the part of a region that spans the 16 MiB
    boundary to the DMA and to the kernel zone alike: on a machine with
    128 MiB the first allocation from either zone returns the same page,
    at every order up to 8. *)
Theorem phys_memory_init_zones_overlap (o : Z) :
  0 <= o <= 8 → ∃ p, p ≠ 0 ∧ boot_two_allocs o = Some (p, p).
Proof.
  intros Ho. assert (o ∈ seqZ 0 9) as Hin by (apply elem_of_seqZ; lia).
  assert (forallb (λ o, match boot_two_allocs o with
            | Some (p, q) => negb (p =? 0) && (p =? q) | None => false end) (seqZ 0 9) = true)
    as H by by vm_compute.
  rewrite List.forallb_forall in H. apply list_elem_of_In, H in Hin.
  destruct (boot_two_allocs o) as [[p q]|]; [|done].
  apply andb_prop in Hin as [Hp ->%Z.eqb_eq]. exists q. split; [by intros ->|done].
Qed.

Lemma phys_memory_init_zones_overlap_witness : ∃ p, p ≠ 0 ∧ boot_two_allocs 0 = Some (p, p).
Proof. apply (phys_memory_init_zones_overlap 0). lia. Defined.
