(* ===== verification/KString.v ===== *)
(** * C strings and byte copies

    The string functions of kernel/kernel.c, which lib/string.c repeats word
    for word for user programs, and the byte copies of asm.S, on the byte
    cells of the shared memory.  A [char] is signed, so its value is in
    [-128, 127]; [None] is a loop that runs past its fuel, as on a string
    without its NUL.  [cstr m p l] says that the string at [p] is [l]. *)

From S2P Require Import Prelude.

(** ** asm.S *)

(** [rep movsb] with the direction flag clear. *)
Fixpoint kmemcpy (n : nat) (m : gmap Z Z) (dst src : Z) : gmap Z Z :=
  match n with
  | O => m
  | S n => kmemcpy n (m.[dst <- m.@src]) (dst + 1) (src + 1)
  end.

(** [rep movsb] with the direction flag set. *)
Fixpoint movsb_down (n : nat) (m : gmap Z Z) (dst src : Z) : gmap Z Z :=
  match n with
  | O => m
  | S n => movsb_down n (m.[dst <- m.@src]) (dst - 1) (src - 1)
  end.

Definition kmemmove (n : nat) (m : gmap Z Z) (dst src : Z) : gmap Z Z :=
  if dst <? src then kmemcpy n m dst src
  else movsb_down n m (dst + Z.of_nat n) (src + Z.of_nat n).

(** [repe cmpsb], then the byte difference in [%al] of a cleared [%rax]. *)
Fixpoint kmemcmp (n : nat) (m : gmap Z Z) (s1 s2 : Z) : Z :=
  match n with
  | O => 0
  | S n => if m.@s1 =? m.@s2 then kmemcmp n m (s1 + 1) (s2 + 1)
           else u8 (m.@s1 - m.@s2)
  end.

(** ** kernel.c *)

Fixpoint kstrlen_loop (fuel : nat) (m : gmap Z Z) (s n : Z) : option Z :=
  match fuel with
  | O => None
  | S fuel => if m.@s =? 0 then Some n else kstrlen_loop fuel m (s + 1) (u64 (n + 1))
  end.
Definition kstrlen (fuel : nat) (m : gmap Z Z) (s : Z) : option Z :=
  kstrlen_loop fuel m s 0.

Fixpoint kstrcmp_loop (fuel : nat) (m : gmap Z Z) (s1 s2 i : Z) : option Z :=
  match fuel with
  | O => None
  | S fuel =>
    if negb (m.@(s1 + i) =? 0) || negb (m.@(s2 + i) =? 0) then
      let diff := m.@(s1 + i) - m.@(s2 + i) in
      if negb (diff =? 0) then Some diff
      else kstrcmp_loop fuel m s1 s2 (u64 (i + 1))
    else Some 0
  end.
Definition kstrcmp (fuel : nat) (m : gmap Z Z) (s1 s2 : Z) : option Z :=
  kstrcmp_loop fuel m s1 s2 0.

Fixpoint kstrncmp_loop (fuel : nat) (m : gmap Z Z) (s1 s2 n i : Z) : option Z :=
  match fuel with
  | O => None
  | S fuel =>
    if (negb (m.@(s1 + i) =? 0) || negb (m.@(s2 + i) =? 0)) && (i <? n) then
      let diff := m.@(s1 + i) - m.@(s2 + i) in
      if negb (diff =? 0) then Some diff
      else kstrncmp_loop fuel m s1 s2 n (u64 (i + 1))
    else Some 0
  end.
Definition kstrncmp (fuel : nat) (m : gmap Z Z) (s1 s2 n : Z) : option Z :=
  kstrncmp_loop fuel m s1 s2 n 0.

(** Copy while [src[i]] is not NUL and [ok i]; the memory and the final [i]. *)
Fixpoint copy_loop (ok : Z → bool) (fuel : nat) (m : gmap Z Z) (dst src i : Z)
    : option (gmap Z Z * Z) :=
  match fuel with
  | O => None
  | S fuel =>
    if negb (m.@(src + i) =? 0) && ok i then
      copy_loop ok fuel (m.[dst + i <- m.@(src + i)]) dst src (u64 (i + 1))
    else Some (m, i)
  end.

Definition kstrcpy (fuel : nat) (m : gmap Z Z) (dst src : Z) : option (gmap Z Z) :=
  '(m, i) ← copy_loop (λ _, true) fuel m dst src 0;
  Some (m.[dst + i <- m.@(src + i)]).

(** [for ( ; i < n; i++ ) dst[i] = '\0'] *)
Fixpoint zero_fill (k : nat) (m : gmap Z Z) (dst i : Z) : gmap Z Z :=
  match k with
  | O => m
  | S k => zero_fill k (m.[dst + i <- 0]) dst (i + 1)
  end.

Definition kstrncpy (fuel : nat) (m : gmap Z Z) (dst src n : Z) : option (gmap Z Z) :=
  '(m, i) ← copy_loop (λ i, i <? n) fuel m dst src 0;
  Some (zero_fill (Z.to_nat (n - i)) m dst i).

Definition kstrlcpy (fuel : nat) (m : gmap Z Z) (dst src n : Z)
    : option (Z * gmap Z Z) :=
  '(m, i) ← copy_loop (λ i, i <? u64 (n - 1)) fuel m dst src 0;
  let m := m.[dst + i <- 0] in
  r ← kstrlen_loop fuel m (src + i) i;
  Some (r, m).

(** ** lib/string.c: the same bodies under the names of the C library *)

Definition strlen := kstrlen.
Definition strcmp := kstrcmp.
Definition strncmp := kstrncmp.
Definition strcpy := kstrcpy.
Definition strncpy := kstrncpy.
Definition strlcpy := kstrlcpy.

(** ** Strings in memory *)

Fixpoint bytes_at (m : gmap Z Z) (p : Z) (l : list Z) : Prop :=
  match l with
  | [] => True
  | c :: l => m.@p = c ∧ bytes_at m (p + 1) l
  end.

Definition cstr (m : gmap Z Z) (p : Z) (l : list Z) : Prop :=
  bytes_at m p (l ++ [0]) ∧ 0 ∉ l.

Lemma bytes_at_lookup m p l :
  bytes_at m p l ↔ ∀ i c, l !! i = Some c → m.@(p + Z.of_nat i) = c.
Proof.
  revert p. induction l as [|c l IH]; intros p; simpl; [split; intros; done|].
  rewrite IH. split.
  - intros [Hc Hl] [|i] c'; simpl; intros E.
    + simplify_eq. f_equal. lia.
    + replace (p + Z.of_nat (S i)) with (p + 1 + Z.of_nat i) by lia. by apply Hl.
  - intros H. split; [apply (H 0%nat c eq_refl) || (rewrite <-(H 0%nat c eq_refl); f_equal; lia)|].
    intros i c' E. rewrite <-(H (S i) c' E). f_equal. lia.
Qed.

Lemma bytes_at_app m p l1 l2 :
  bytes_at m p (l1 ++ l2) ↔ bytes_at m p l1 ∧ bytes_at m (p + Z.of_nat (length l1)) l2.
Proof.
  revert p. induction l1 as [|c l1 IH]; intros p; simpl.
  - replace (p + Z.of_nat 0) with p by lia. tauto.
  - rewrite IH. replace (p + 1 + Z.of_nat (length l1)) with (p + Z.of_nat (S (length l1))) by lia.
    tauto.
Qed.

Lemma bytes_at_frame m m' p l :
  (∀ x, p <= x < p + Z.of_nat (length l) → m'.@x = m.@x) → bytes_at m p l → bytes_at m' p l.
Proof.
  rewrite !bytes_at_lookup. intros H Hb i c Hi. rewrite H; [by apply Hb|].
  apply lookup_lt_Some in Hi. lia.
Qed.

Lemma cstr_cons m p c l : cstr m p (c :: l) ↔ m.@p = c ∧ c ≠ 0 ∧ cstr m (p + 1) l.
Proof. unfold cstr. simpl. rewrite not_elem_of_cons. naive_solver. Qed.

Lemma cstr_nil m p : cstr m p [] ↔ m.@p = 0.
Proof. unfold cstr. simpl. set_solver. Qed.

Lemma cstr_frame m m' p l :
  (∀ x, p <= x <= p + Z.of_nat (length l) → m'.@x = m.@x) → cstr m p l → cstr m' p l.
Proof.
  intros H [Hb Hn]. split; [|done]. eapply bytes_at_frame; [|done].
  intros x Hx. apply H. rewrite length_app in Hx. simpl in Hx. lia.
Qed.

Lemma cstr_app m p l1 l2 :
  cstr m p (l1 ++ l2) ↔ bytes_at m p l1 ∧ 0 ∉ l1 ∧ cstr m (p + Z.of_nat (length l1)) l2.
Proof. unfold cstr. rewrite <-app_assoc, bytes_at_app, not_elem_of_app. tauto. Qed.

(** The byte after a prefix of a string: the next character or the NUL. *)
Lemma cstr_at m p l i :
  cstr m p l → (i <= length l)%nat → m.@(p + Z.of_nat i) = default 0 (l !! i).
Proof.
  intros [Hb _] Hi. rewrite bytes_at_lookup in Hb. destruct (l !! i) as [c|] eqn:E; simpl.
  - apply Hb. by apply lookup_app_l_Some.
  - apply lookup_ge_None in E. apply Hb. rewrite lookup_app_r by done.
    by replace (i - length l)%nat with 0%nat by lia.
Qed.

Lemma cstr_nz (l : list Z) (i : nat) c : 0 ∉ l → l !! i = Some c → c ≠ 0.
Proof. intros H E ->. apply H. by eapply list_elem_of_lookup_2. Qed.

Lemma cstr_functional m p l l' : cstr m p l → cstr m p l' → l = l'.
Proof.
  revert p l'. induction l as [|c l IH]; intros p [|c' l']; try rewrite !cstr_nil;
    try rewrite !cstr_cons; [done|naive_solver..|].
  intros (? & ? & Hl) (? & ? & Hl'). f_equal; [congruence|eauto].
Qed.

(** ** Loops against the string they read *)

Lemma kstrlen_loop_spec m l fuel p n :
  cstr m p l → 0 <= n → n + Z.of_nat (length l) < 2 ^ 64 → (length l < fuel)%nat →
  kstrlen_loop fuel m p n = Some (n + Z.of_nat (length l)).
Proof.
  revert p n fuel. induction l as [|c l IH]; intros p n [|fuel] Hs Hn Hb Hf; simpl in *; try lia.
  - apply cstr_nil in Hs. rewrite Hs. simpl. f_equal. lia.
  - apply cstr_cons in Hs as (Hc & Hc0 & Hs). rewrite Hc, (proj2 (Z.eqb_neq c 0)) by done.
    rewrite u64_small, IH by (done || lia). f_equal. lia.
Qed.

(** Where two strings differ first, as a signed character difference. *)
Fixpoint str_diff (l1 l2 : list Z) : Z :=
  match l1, l2 with
  | [], [] => 0
  | c1 :: _, [] => c1
  | [], c2 :: _ => - c2
  | c1 :: l1, c2 :: l2 => if c1 =? c2 then str_diff l1 l2 else c1 - c2
  end.

Lemma str_diff_0 l1 l2 : 0 ∉ l1 → 0 ∉ l2 → str_diff l1 l2 = 0 ↔ l1 = l2.
Proof.
  revert l2. induction l1 as [|c1 l1 IH]; intros [|c2 l2]; simpl;
    rewrite ?not_elem_of_cons; [done|intros; split; [lia|done]..|].
  intros [? ?] [? ?]. destruct (Z.eqb_spec c1 c2) as [->|Hne].
  - rewrite IH by done. naive_solver.
  - split; [lia|naive_solver].
Qed.

(** The state of [kstrcmp] after [i] equal characters. *)
Lemma kstrcmp_loop_spec m p1 p2 l1 l2 fuel i :
  cstr m (p1 + i) l1 → cstr m (p2 + i) l2 → 0 <= i → i + Z.of_nat (length l1) < 2 ^ 64 →
  (length l1 < fuel)%nat → kstrcmp_loop fuel m p1 p2 i = Some (str_diff l1 l2).
Proof.
  revert i l2 fuel. induction l1 as [|c1 l1 IH]; intros i l2 [|fuel] H1 H2 Hi Hb Hf;
    simpl in *; try lia.
  - apply cstr_nil in H1. rewrite H1. simpl. destruct l2 as [|c2 l2].
    + apply cstr_nil in H2. by rewrite H2.
    + apply cstr_cons in H2 as (Hc & Hc0 & _). rewrite Hc, (proj2 (Z.eqb_neq c2 0)) by done.
      simpl. rewrite (proj2 (Z.eqb_neq _ 0)) by lia. done.
  - apply cstr_cons in H1 as (Hc & Hc0 & H1). rewrite Hc, (proj2 (Z.eqb_neq c1 0)) by done. simpl.
    destruct l2 as [|c2 l2].
    + apply cstr_nil in H2. rewrite H2, (proj2 (Z.eqb_neq _ 0)) by lia. simpl. f_equal. lia.
    + apply cstr_cons in H2 as (Hc2 & Hc20 & H2). rewrite Hc2.
      destruct (Z.eqb_spec c1 c2) as [->|Hne].
      * rewrite Z.sub_diag, u64_small by lia. simpl. apply IH; try (done || lia);
          by rewrite Z.add_assoc.
      * rewrite (proj2 (Z.eqb_neq _ 0)) by lia. done.
Qed.

Lemma copy_loop_spec ok m dst src fuel k :
  (∀ i, 0 <= i < Z.of_nat k → m.@(src + i) ≠ 0 ∧ ok i = true) →
  m.@(src + Z.of_nat k) = 0 ∨ ok (Z.of_nat k) = false →
  (∀ i j, 0 <= i <= Z.of_nat k → 0 <= j < Z.of_nat k → src + i ≠ dst + j) →
  Z.of_nat k < 2 ^ 64 → (k < fuel)%nat →
  ∃ m', copy_loop ok fuel m dst src 0 = Some (m', Z.of_nat k) ∧
    (∀ i, 0 <= i < Z.of_nat k → m'.@(dst + i) = m.@(src + i)) ∧
    (∀ x, ¬ (dst <= x < dst + Z.of_nat k) → m'.@x = m.@x).
Proof.
  intros Hgo Hstop Hdj Hk Hf.
  assert (∀ j m1 fuel1, (j <= k)%nat → (k < j + fuel1)%nat →
    (∀ i, 0 <= i < Z.of_nat j → m1.@(dst + i) = m.@(src + i)) →
    (∀ x, ¬ (dst <= x < dst + Z.of_nat j) → m1.@x = m.@x) →
    ∃ m', copy_loop ok fuel1 m1 dst src (Z.of_nat j) = Some (m', Z.of_nat k) ∧
      (∀ i, 0 <= i < Z.of_nat k → m'.@(dst + i) = m.@(src + i)) ∧
      (∀ x, ¬ (dst <= x < dst + Z.of_nat k) → m'.@x = m.@x)) as Hloop.
  { intros j m1 fuel1. remember (k - j)%nat as d eqn:Ed.
    revert j m1 fuel1 Ed. induction d as [|d IH]; intros j m1 [|fuel1] Ed Hj Hf1 Hc Hfr; try lia;
      simpl; assert (m1.@(src + Z.of_nat j) = m.@(src + Z.of_nat j)) as ->
        by (apply Hfr; intros ?; apply (Hdj (Z.of_nat j) (src + Z.of_nat j - dst)); lia).
    - assert (j = k) as -> by lia. exists m1. split_and!; [|done..].
      destruct Hstop as [->| ->]; [done|by rewrite andb_false_r].
    - destruct (Hgo (Z.of_nat j)) as [Hnz ->]; [lia|].
      rewrite (proj2 (Z.eqb_neq _ 0)) by done. simpl.
      rewrite u64_small by lia. replace (Z.of_nat j + 1) with (Z.of_nat (S j)) by lia.
      apply IH; try lia.
      + intros i Hi. destruct (decide (i = Z.of_nat j)) as [->|]; [by rewrite rd_wr_eq|].
        rewrite rd_wr_ne by lia. apply Hc. lia.
      + intros x Hx. rewrite rd_wr_ne by lia. apply Hfr. lia. }
  destruct (Hloop 0%nat m fuel) as (m' & E & ?); try lia. by exists m'.
Qed.

Lemma zero_fill_spec k m dst i x :
  (zero_fill k m dst i).@x =
  if decide (dst + i <= x < dst + i + Z.of_nat k) then 0 else m.@x.
Proof.
  revert m i. induction k as [|k IH]; intros m i; simpl.
  - case_decide; [lia|done].
  - rewrite IH, rd_wr. repeat case_decide; (done || lia).
Qed.

Lemma kmemcpy_spec n m dst src x :
  (∀ i j, 0 <= i < Z.of_nat n → 0 <= j < Z.of_nat n → src + i ≠ dst + j) →
  (kmemcpy n m dst src).@x =
  if decide (dst <= x < dst + Z.of_nat n) then m.@(src + (x - dst)) else m.@x.
Proof.
  revert m dst src. induction n as [|n IH]; intros m dst src Hdj; simpl.
  - case_decide; [lia|done].
  - rewrite IH by (intros i j ? ?; specialize (Hdj (i + 1) (j + 1)); lia).
    destruct (decide (x = dst)) as [->|].
    + rewrite decide_False, decide_True by lia. rewrite rd_wr_eq. f_equal. lia.
    + case_decide as H1; case_decide as H2; try lia; rewrite rd_wr_ne; try done.
      * f_equal. lia.
      * intros E. apply (Hdj (x - dst) 0); lia.
Qed.

(** *** Overlapping copies *)

(** Upwards with the destination below the source. *)
Lemma kmemcpy_forward n m dst src x :
  dst < src →
  (kmemcpy n m dst src).@x =
  if decide (dst <= x < dst + Z.of_nat n) then m.@(src + (x - dst)) else m.@x.
Proof.
  revert m dst src. induction n as [|n IH]; intros m dst src Hlt; simpl.
  - case_decide; [lia|done].
  - rewrite IH by lia. destruct (decide (x = dst)) as [->|].
    + rewrite decide_False, decide_True by lia. rewrite rd_wr_eq. f_equal. lia.
    + case_decide as H1; case_decide as H2; try lia; rewrite rd_wr_ne by lia; [f_equal; lia|done].
Qed.

(** Downwards with the destination above the source. *)
Lemma movsb_down_spec n m dst src x :
  src < dst →
  (movsb_down n m dst src).@x =
  if decide (dst - Z.of_nat n < x <= dst) then m.@(src - (dst - x)) else m.@x.
Proof.
  revert m dst src. induction n as [|n IH]; intros m dst src Hlt; simpl.
  - case_decide; [lia|done].
  - rewrite IH by lia. destruct (decide (x = dst)) as [->|].
    + rewrite decide_False, decide_True by lia. rewrite rd_wr_eq. f_equal. lia.
    + case_decide as H1; case_decide as H2; try lia; rewrite rd_wr_ne by lia; [f_equal; lia|done].
Qed.

(** ** Properties *)

(** [kstrcmp] (and [strcmp]) terminates on any two strings and returns
    the signed difference of the first characters that differ, 0 exactly when
    the strings are equal; it reads no further than the shorter string. *)
Theorem kstrcmp_correct (m : gmap Z Z) (p1 p2 : Z) (l1 l2 : list Z) (fuel : nat) :
  cstr m p1 l1 → cstr m p2 l2 → Z.of_nat (length l1) < 2 ^ 64 → (length l1 < fuel)%nat →
  ∃ d, kstrcmp fuel m p1 p2 = Some d ∧ d = str_diff l1 l2 ∧ (d = 0 ↔ l1 = l2).
Proof.
  intros H1 H2 Hb Hf. exists (str_diff l1 l2). split_and!; [|done|].
  - apply kstrcmp_loop_spec; rewrite ?Z.add_0_r; (done || lia).
  - apply str_diff_0; [apply H1|apply H2].
Qed.

Definition str_ex : gmap Z Z :=
  ∅.[100 <- 100].[101 <- 101].[102 <- 118].[200 <- 100].[201 <- 101].[202 <- 115].

Lemma kstrcmp_witness :
  ∃ d, kstrcmp 9 str_ex 100 200 = Some d ∧ d = str_diff [100; 101; 118] [100; 101; 115] ∧
    (d = 0 ↔ [100; 101; 118] = [100; 101; 115]).
Proof.
  apply (kstrcmp_correct str_ex 100 200 [100; 101; 118] [100; 101; 115] 9);
    [split; [by vm_compute|set_solver]..|simpl; lia|simpl; lia].
Defined.

(** [kstrlcpy] (and [strlcpy]) into a buffer of [n > 0] bytes disjoint
    from the source writes the first [n - 1] characters of the source (all of
    it when it fits) and the terminating NUL, touches nothing else, so never
    overruns the buffer, and returns the full length of the source. *)
Theorem kstrlcpy_correct (m : gmap Z Z) (dst src n : Z) (l : list Z) (fuel : nat) :
  cstr m src l → 0 < n < 2 ^ 63 → Z.of_nat (length l) < 2 ^ 63 → (length l < fuel)%nat →
  (∀ i j, 0 <= i <= Z.of_nat (length l) → 0 <= j < n → src + i ≠ dst + j) →
  ∃ m', kstrlcpy fuel m dst src n = Some (Z.of_nat (length l), m') ∧
    cstr m' dst (take (Z.to_nat (n - 1)) l) ∧
    ∀ x, ¬ (dst <= x < dst + n) → m'.@x = m.@x.
Proof.
  intros Hs Hn Hl Hf Hdj. set (k := length (take (Z.to_nat (n - 1)) l)).
  assert (Z.of_nat k <= n - 1 ∧ (k <= length l)%nat) as [Hk Hkl]
    by (unfold k; rewrite length_take; lia).
  assert (u64 (n - 1) = n - 1) as En by (apply u64_small; lia).
  destruct (copy_loop_spec (λ i, i <? u64 (n - 1)) m dst src fuel k) as (m1 & E & Hc & Hfr); try lia.
  { intros i Hi. replace (src + i) with (src + Z.of_nat (Z.to_nat i)) by lia.
    rewrite (cstr_at m src l) by (done || lia).
    destruct (lookup_lt_is_Some_2 l (Z.to_nat i)) as [c Ec]; [lia|].
    rewrite Ec. split; [eapply (cstr_nz l); [apply Hs|done]|]. rewrite En. lia. }
  { destruct (decide (k = length l)) as [Ek|].
    - left. rewrite (cstr_at m src l) by (done || lia). by rewrite Ek, lookup_ge_None_2.
    - right. rewrite En. apply Z.ltb_ge.
      assert (k = Z.to_nat (n - 1) `min` length l)%nat by apply length_take. lia. }
  { intros i j ? ?. apply Hdj; lia. }
  unfold kstrlcpy. rewrite E. simpl.
  assert (cstr (m1.[dst + Z.of_nat k <- 0]) (src + Z.of_nat k) (drop k l)) as Hd.
  { apply (cstr_frame m).
    - intros x Hx. rewrite length_drop in Hx.
      rewrite rd_wr_ne, Hfr; [done|..]; intros ?.
      + apply (Hdj (x - src) (x - dst)); lia.
      + apply (Hdj (x - src) (Z.of_nat k)); lia.
    - rewrite <-(take_drop k l) in Hs. apply cstr_app in Hs as (_ & _ & Hs).
      by rewrite length_take, Nat.min_l in Hs by lia. }
  rewrite (kstrlen_loop_spec _ _ _ _ _ Hd) by (rewrite ?length_drop; lia). simpl.
  exists (m1.[dst + Z.of_nat k <- 0]). split_and!.
  - rewrite length_drop. repeat f_equal. lia.
  - split; [|intros Hin; apply Hs; by eapply elem_of_take in Hin as (? & ? & _);
      eapply list_elem_of_lookup_2].
    apply bytes_at_app. fold k. split; [|by simpl; rewrite rd_wr_eq].
    apply bytes_at_lookup. intros i c Hi. assert (i < k)%nat by (by apply lookup_lt_Some in Hi).
    rewrite rd_wr_ne, Hc by lia. rewrite (cstr_at m src l) by (done || lia).
    apply lookup_take_Some in Hi as [-> _]. done.
  - intros x Hx. rewrite rd_wr_ne by lia. apply Hfr. lia.
Qed.

Lemma kstrlcpy_witness :
  ∃ m', kstrlcpy 9 str_ex 300 100 3 = Some (Z.of_nat (length [100; 101; 118]), m') ∧
    cstr m' 300 (take (Z.to_nat (3 - 1)) [100; 101; 118]) ∧
    ∀ x, ¬ (300 <= x < 300 + 3) → m'.@x = str_ex.@x.
Proof.
  apply (kstrlcpy_correct str_ex 300 100 3 [100; 101; 118] 9);
    [split; [by vm_compute|set_solver]|simpl; lia..].
Defined.

(** [kmemmove] with the destination above the source copies the bytes 1
    to [n] instead of 0 to [n - 1]: the first destination byte keeps its old
    value, and the byte after the destination range is overwritten. *)
Theorem kmemmove_up_off_by_one (n : nat) (m : gmap Z Z) (dst src : Z) :
  src < dst → (0 < n)%nat →
  (kmemmove n m dst src).@dst = m.@dst ∧
  (kmemmove n m dst src).@(dst + Z.of_nat n) = m.@(src + Z.of_nat n).
Proof.
  intros Hlt Hn. unfold kmemmove. rewrite (proj2 (Z.ltb_ge dst src)) by lia.
  assert (∀ k m' d s x, d - Z.of_nat k >= x ∨ d < x → (movsb_down k m' d s).@x = m'.@x) as Hout.
  { induction k as [|k IH]; intros m' d s x Hx; simpl; [done|].
    rewrite IH by lia. apply rd_wr_ne. lia. }
  split; [apply Hout; lia|]. destruct n as [|n]; [lia|]. cbn [movsb_down].
  rewrite Hout by lia. by rewrite rd_wr_eq.
Qed.

Lemma kmemmove_witness :
  (kmemmove 3 str_ex 101 100).@101 = str_ex.@101 ∧
  (kmemmove 3 str_ex 101 100).@(101 + Z.of_nat 3) = str_ex.@(100 + Z.of_nat 3).
Proof. apply (kmemmove_up_off_by_one 3 str_ex 101 100); lia. Defined.
