(* ===== verification/Strfmt.v ===== *)
(** * Formatted output: kernel/strfmt.c

    [kvsnprintf] formats into a scratch buffer [tmpstr] taken from the stack
    and copies it to the caller's buffer.  Both buffers, the format string and
    the strings printed by [%s] are byte cells of the shared memory; the
    variadic arguments are the list of the 64-bit argument slots that
    [va_arg] takes one by one, and [None] is a [va_arg] past the last
    argument or a loop past its fuel.  The small digit buffers of the number
    conversions are lists. *)

From S2P Require Import Prelude KString.

Definition STRFMT_MOD_NONE : Z := 0.
Definition STRFMT_MOD_LONG : Z := 1.
Definition STRFMT_MOD_LONGLONG : Z := 2.

Record strfmt_format := {
  zero : Z;
  pad : Z;
  prec : Z;
  mod_ : Z;
  spec : Z;
}.

(** [while ( *format >= '0' && *format <= '9' )] accumulating into an [int]. *)
Fixpoint digits_loop (fuel : nat) (m : gmap Z Z) (format acc : Z) : option (Z * Z) :=
  match fuel with
  | O => None
  | S fuel =>
    if (48 <=? m.@format) && (m.@format <=? 57) then
      digits_loop fuel m (format + 1) (i32 (i32 (acc * 10) + (m.@format - 48)))
    else Some (acc, format)
  end.

(** The return value, the new format pointer and the parsed record. *)
Definition _parse_format (fuel : nat) (m : gmap Z Z) (formatp : Z) (strfmt : strfmt_format)
    : option (Z * Z * strfmt_format) :=
  let format := formatp in
  if negb (37 =? m.@format) then Some (-1, formatp, strfmt) else
  let format := format + 1 in
  let '(zero, format) := if 48 =? m.@format then (1, format + 1) else (0, format) in
  '(pad, format) ←
    (if (49 <=? m.@format) && (m.@format <=? 57)
     then digits_loop fuel m (format + 1) (m.@format - 48)
     else Some (0, format));
  '(prec, format) ←
    (if 46 =? m.@format then digits_loop fuel m (format + 1) 0 else Some (0, format));
  let '(mod_, format) :=
    if 108 =? m.@format then
      if 108 =? m.@(format + 1) then (STRFMT_MOD_LONGLONG, format + 2)
      else (STRFMT_MOD_LONG, format + 1)
    else (STRFMT_MOD_NONE, format) in
  let '(spec, format) :=
    if negb (m.@format =? 0) then (m.@format, format + 1) else (0, format) in
  Some (0, format, Build_strfmt_format zero pad prec mod_ spec).

(** [va_arg]: the next argument slot. *)
Definition va_arg (ap : list Z) : option (Z * list Z) :=
  match ap with v :: ap => Some (v, ap) | [] => None end.

(** The guarded store [if ( (size_t)pos + 1 < size ) str[pos] = c]. *)
Definition put (m : gmap Z Z) (str size pos c : Z) : gmap Z Z :=
  if u64 (pos + 1) <? size then m.[str + pos <- c] else m.

(** A loop of such stores; the memory and the advanced [pos]. *)
Fixpoint put_list (m : gmap Z Z) (str size pos : Z) (l : list Z) : gmap Z Z * Z :=
  match l with
  | [] => (m, pos)
  | c :: l => put_list (put m str size pos c) str size (pos + 1) l
  end.

Definition _output_percent (m : gmap Z Z) (str size : Z) : Z * gmap Z Z :=
  (1, if negb (str =? 0) && (1 <? size) then m.[str <- 37] else m).

Definition _output_char (m : gmap Z Z) (str size : Z) (ap : list Z)
    : option (Z * gmap Z Z * list Z) :=
  '(v, ap) ← va_arg ap;
  Some (1, if negb (str =? 0) && (1 <? size) then m.[str <- i8 v] else m, ap).

(** The digits of a decimal number, least significant first. *)
Fixpoint dec_loop (fuel : nat) (q : Z) (buf : list Z) : option (list Z) :=
  match fuel with
  | O => None
  | S fuel =>
    if q =? 0 then Some buf
    else dec_loop fuel (Z.quot q 10) (buf ++ [i8 (Z.rem q 10 + 48)])
  end.

(** The contents of [buf] before it is output backwards. *)
Definition dec_buf (val : Z) : option (list Z) :=
  let '(sign, val) := if val <? 0 then (-1, i64 (val * -1)) else (1, val) in
  buf ← dec_loop 20 val [];
  let buf := if (length buf =? 0)%nat then buf ++ [48] else buf in
  Some (if sign <? 0 then buf ++ [45] else buf).

(** The padding, the precision zeros and the digits in reading order. *)
Definition padding (strfmt : strfmt_format) (ptr : Z) : list Z :=
  if (prec strfmt <? pad strfmt) && (ptr <? pad strfmt) then
    replicate (Z.to_nat (Z.min (i32 (pad strfmt - prec strfmt)) (pad strfmt - ptr)))
      (if negb (zero strfmt =? 0) then 48 else 32)
  else [].
Definition precision (strfmt : strfmt_format) (ptr : Z) : list Z :=
  if ptr <? prec strfmt then replicate (Z.to_nat (prec strfmt - ptr)) 48 else [].

Definition _output_digits (m : gmap Z Z) (str size : Z) (strfmt : strfmt_format)
    (buf : list Z) : Z * gmap Z Z :=
  let ptr := Z.of_nat (length buf) in
  let '(m, pos) := put_list m str size 0 (padding strfmt ptr) in
  let '(m, pos) := put_list m str size pos (precision strfmt ptr) in
  let '(m, pos) := put_list m str size pos (reverse buf) in
  (pos, m).

Definition _output_decimal (m : gmap Z Z) (str size : Z) (strfmt : strfmt_format)
    (ap : list Z) : option (Z * gmap Z Z * list Z) :=
  '(v, ap) ← va_arg ap;
  let val := if (mod_ strfmt =? STRFMT_MOD_LONG) || (mod_ strfmt =? STRFMT_MOD_LONGLONG)
             then i64 v else i32 v in
  buf ← dec_buf val;
  let '(pos, m) := _output_digits m str size strfmt buf in
  Some (pos, m, ap).

(** The digits of a hexadecimal number, least significant first. *)
Fixpoint hex_loop (fuel : nat) (q cap : Z) (buf : list Z) : option (list Z) :=
  match fuel with
  | O => None
  | S fuel =>
    if q =? 0 then Some buf
    else
      let r := Z.land q 0xf in
      let c := if r <? 10 then r + 48
               else if negb (cap =? 0) then r + 65 - 10 else r + 97 - 10 in
      hex_loop fuel (Z.shiftr q 4) cap (buf ++ [c])
  end.

Definition hex_buf (val cap : Z) : option (list Z) :=
  buf ← hex_loop 17 val cap [];
  Some (if (length buf =? 0)%nat then buf ++ [48] else buf).

Definition _output_hexdecimal (m : gmap Z Z) (str size : Z) (strfmt : strfmt_format)
    (ap : list Z) (cap : Z) : option (Z * gmap Z Z * list Z) :=
  '(v, ap) ← va_arg ap;
  let val := if (mod_ strfmt =? STRFMT_MOD_LONG) || (mod_ strfmt =? STRFMT_MOD_LONGLONG)
             then u64 v else u32 v in
  buf ← hex_buf val cap;
  let '(pos, m) := _output_digits m str size strfmt buf in
  Some (pos, m, ap).

Definition _output_pointer (m : gmap Z Z) (str size : Z) (strfmt : strfmt_format)
    (ap : list Z) : option (Z * gmap Z Z * list Z) :=
  '(v, ap) ← va_arg ap;
  buf ← hex_buf (u64 v) 0;
  let '(pos, m) := _output_digits m str size strfmt buf in
  Some (pos, m, ap).

(** The characters of ["(null)"]. *)
Definition null_str : list Z := [40; 110; 117; 108; 108; 41].

Fixpoint string_loop (fuel : nat) (m : gmap Z Z) (str size s pos : Z)
    : option (Z * gmap Z Z) :=
  match fuel with
  | O => None
  | S fuel =>
    if m.@(s + pos) =? 0 then Some (pos, m)
    else string_loop fuel (put m str size pos (m.@(s + pos))) str size s (pos + 1)
  end.

Definition _output_string (fuel : nat) (m : gmap Z Z) (str size : Z) (ap : list Z)
    : option (Z * gmap Z Z * list Z) :=
  '(s, ap) ← va_arg ap;
  '(pos, m) ← (if s =? 0 then
                 let '(m, pos) := put_list m str size 0 null_str in Some (pos, m)
               else string_loop fuel m str size s 0);
  Some (pos, m, ap).

Definition _output (fuel : nat) (m : gmap Z Z) (str size : Z) (strfmt : strfmt_format)
    (ap : list Z) : option (Z * gmap Z Z * list Z) :=
  if spec strfmt =? 37 then
    let '(ret, m) := _output_percent m str size in Some (ret, m, ap)
  else if spec strfmt =? 115 then _output_string fuel m str size ap
  else if spec strfmt =? 99 then _output_char m str size ap
  else if spec strfmt =? 100 then _output_decimal m str size strfmt ap
  else if spec strfmt =? 120 then _output_hexdecimal m str size strfmt ap 0
  else if spec strfmt =? 88 then _output_hexdecimal m str size strfmt ap 1
  else if spec strfmt =? 112 then _output_pointer m str size strfmt ap
  else Some (0, m, ap).

(** The loop of [kvsnprintf]: the memory and the final [pos]. *)
Fixpoint kvsnprintf_loop (fuel : nat) (m : gmap Z Z) (tmpstr size format : Z)
    (strfmt : strfmt_format) (ap : list Z) (pos : Z) : option (gmap Z Z * Z) :=
  match fuel with
  | O => None
  | S fuel =>
    if m.@format =? 0 then Some (m, pos)
    else if 37 =? m.@format then
      '(_, format, strfmt) ← _parse_format fuel m format strfmt;
      '(n, m, ap) ←
        (if pos <? size then _output fuel m (tmpstr + pos) (size - pos) strfmt ap
         else _output fuel m 0 0 strfmt ap);
      kvsnprintf_loop fuel m tmpstr size format strfmt ap (pos + n)
    else
      kvsnprintf_loop fuel (put m tmpstr size pos (m.@format)) tmpstr size
        (format + 1) strfmt ap (pos + 1)
  end.

(** [tmpstr] is what [alloca(size)] returned. *)
Definition kvsnprintf (fuel : nat) (m : gmap Z Z) (tmpstr str size format : Z) (ap : list Z)
    : option (Z * gmap Z Z) :=
  if tmpstr =? 0 then Some (-1, m) else
  '(m, pos) ← kvsnprintf_loop fuel m tmpstr size format
                (Build_strfmt_format 0 0 0 0 0) ap 0;
  let m := if u64 (pos + 1) <? size then m.[tmpstr + pos <- 0] else m in
  let m := m.[tmpstr + (size - 1) <- 0] in
  let m := kmemcpy (Z.to_nat size) m str tmpstr in
  Some (i32 pos, m).

Definition ksnprintf := kvsnprintf.

(** [kprintf] of kernel/kernel.c: the calls [dev->write(dev, buf, ret)] made on
    the list of console devices ([next] at offset 8), with the formatted text
    in the 2048-byte [buf]. *)
Fixpoint kprintf_loop (fuel : nat) (m : gmap Z Z) (dev buf ret : Z) : option (list (Z * Z * Z)) :=
  match fuel with
  | O => None
  | S fuel =>
    if dev =? 0 then Some []
    else calls ← kprintf_loop fuel m (m.@(dev + 8)) buf ret; Some ((dev, buf, ret) :: calls)
  end.

Definition kprintf (fuel : nat) (m : gmap Z Z) (console_dev tmpstr buf format : Z) (ap : list Z)
    : option (list (Z * Z * Z) * gmap Z Z) :=
  '(ret, m) ← kvsnprintf fuel m tmpstr buf 2048 format ap;
  calls ← kprintf_loop fuel m (m.@console_dev) buf ret;
  Some (calls, m).

(** ** The reference: what a format and its arguments mean

    [parse_l] reads one conversion from a list of characters; [renders m prot
    fmt ap out] relates a format and its arguments to the complete text they
    describe, with no buffer in sight.  The strings of [%s] are read from
    [m] and lie in the region [prot]. *)

Fixpoint digits_l (acc : Z) (l : list Z) : Z * list Z :=
  match l with
  | c :: l' => if (48 <=? c) && (c <=? 57) then digits_l (i32 (i32 (acc * 10) + (c - 48))) l'
               else (acc, l)
  | [] => (acc, [])
  end.

Definition hd0 (l : list Z) : Z := default 0 (head l).

(** The conversion after the [%]. *)
Definition parse_l (l : list Z) : strfmt_format * list Z :=
  let '(zero, l) := if 48 =? hd0 l then (1, tail l) else (0, l) in
  let '(pad, l) := if (49 <=? hd0 l) && (hd0 l <=? 57)
                   then digits_l (hd0 l - 48) (tail l) else (0, l) in
  let '(prec, l) := if 46 =? hd0 l then digits_l 0 (tail l) else (0, l) in
  let '(mod_, l) := if 108 =? hd0 l then
                      if 108 =? hd0 (tail l) then (STRFMT_MOD_LONGLONG, tail (tail l))
                      else (STRFMT_MOD_LONG, tail l)
                    else (STRFMT_MOD_NONE, l) in
  (Build_strfmt_format zero pad prec mod_ (hd0 l), tail l).

Definition is_long (f : strfmt_format) : bool :=
  (mod_ f =? STRFMT_MOD_LONG) || (mod_ f =? STRFMT_MOD_LONGLONG).

(** A number with its padding. *)
Definition number (f : strfmt_format) (buf : list Z) : list Z :=
  let ptr := Z.of_nat (length buf) in padding f ptr ++ precision f ptr ++ reverse buf.

Inductive conv (m : gmap Z Z) (prot : Z → Prop) (f : strfmt_format) :
    list Z → list Z → list Z → Prop :=
  | conv_percent ap : spec f = 37 → conv m prot f ap [37] ap
  | conv_null ap : spec f = 115 → conv m prot f (0 :: ap) null_str ap
  | conv_string p l ap :
      spec f = 115 → p ≠ 0 → cstr m p l →
      (∀ x, p <= x <= p + Z.of_nat (length l) → prot x) → conv m prot f (p :: ap) l ap
  | conv_char v ap : spec f = 99 → conv m prot f (v :: ap) [i8 v] ap
  | conv_decimal v buf ap :
      spec f = 100 → dec_buf (if is_long f then i64 v else i32 v) = Some buf →
      conv m prot f (v :: ap) (number f buf) ap
  | conv_hex v buf ap :
      spec f = 120 → hex_buf (if is_long f then u64 v else u32 v) 0 = Some buf →
      conv m prot f (v :: ap) (number f buf) ap
  | conv_HEX v buf ap :
      spec f = 88 → hex_buf (if is_long f then u64 v else u32 v) 1 = Some buf →
      conv m prot f (v :: ap) (number f buf) ap
  | conv_pointer v buf ap :
      spec f = 112 → hex_buf (u64 v) 0 = Some buf →
      conv m prot f (v :: ap) (number f buf) ap
  | conv_other ap :
      spec f ∉ [37; 115; 99; 100; 120; 88; 112] → conv m prot f ap [] ap.

Inductive renders (m : gmap Z Z) (prot : Z → Prop) : list Z → list Z → list Z → Prop :=
  | renders_nil ap : renders m prot [] ap []
  | renders_char c fmt ap out :
      c ≠ 37 → renders m prot fmt ap out → renders m prot (c :: fmt) ap (c :: out)
  | renders_conv fmt f fmt' ap ap' out out' :
      parse_l fmt = (f, fmt') → conv m prot f ap out ap' →
      renders m prot fmt' ap' out' → renders m prot (37 :: fmt) ap (out ++ out').

(** ** Stores into the buffer *)

Lemma put_list_pos m str size pos l : (put_list m str size pos l).2 = pos + Z.of_nat (length l).
Proof. revert m pos. induction l as [|c l IH]; intros m pos; simpl; [lia|]. rewrite IH. lia. Qed.

Lemma put_list_app m str size pos l1 l2 :
  put_list m str size pos (l1 ++ l2) =
  let '(m, pos) := put_list m str size pos l1 in put_list m str size pos l2.
Proof. revert m pos. induction l1 as [|c l1 IH]; intros m pos; simpl; [done|]. apply IH. Qed.

Lemma put_small m str size pos c :
  0 <= pos < 2 ^ 63 → put m str size pos c = if pos + 1 <? size then m.[str + pos <- c] else m.
Proof. intros H. unfold put. by rewrite u64_small by lia. Qed.

(** Formatting at [tmpstr + pos] with the remaining size is formatting at [pos]. *)
Lemma put_list_shift m str size pos k l :
  0 <= pos → 0 <= k → pos + k + Z.of_nat (length l) < 2 ^ 63 →
  (put_list m (str + pos) (size - pos) k l).1 = (put_list m str size (pos + k) l).1.
Proof.
  revert m k. induction l as [|c l IH]; intros m k Hp Hk Hb; simpl in *; [done|].
  rewrite !put_small by lia. rewrite IH by lia. rewrite !Z.add_assoc.
  by replace (k + 1 <? size - pos) with (pos + k + 1 <? size) by lia.
Qed.

Lemma put_list_full m str size pos l :
  size <= pos + 1 → 0 <= pos → pos + Z.of_nat (length l) < 2 ^ 63 →
  (put_list m str size pos l).1 = m.
Proof.
  revert m pos. induction l as [|c l IH]; intros m pos Hs Hp Hb; simpl in *; [done|].
  rewrite put_small by lia. rewrite (proj2 (Z.ltb_ge (pos + 1) size)) by lia. apply IH; lia.
Qed.

Lemma put_list_rd m str size pos l x :
  0 <= pos → pos + Z.of_nat (length l) < 2 ^ 63 →
  (put_list m str size pos l).1.@x =
  if decide (str + pos <= x < str + Z.min (pos + Z.of_nat (length l)) (size - 1))
  then default 0 (l !! Z.to_nat (x - str - pos)) else m.@x.
Proof.
  revert m pos. induction l as [|c l IH]; intros m pos Hp Hb; simpl in *.
  - rewrite decide_False by lia. done.
  - rewrite IH by lia. rewrite put_small by lia. destruct (decide (x = str + pos)) as [->|].
    + rewrite decide_False by lia. destruct (Z.ltb_spec (pos + 1) size).
      * rewrite decide_True, rd_wr_eq by lia.
        by replace (Z.to_nat (str + pos - str - pos)) with 0%nat by lia.
      * by rewrite decide_False by lia.
    + assert (∀ b : bool, (if b then m.[str + pos <- c] else m).@x = m.@x) as ->
        by (intros []; [by apply rd_wr_ne|done]).
      case_decide; case_decide; try lia; try done.
      replace (Z.to_nat (x - str - pos)) with (S (Z.to_nat (x - str - (pos + 1)))) by lia. done.
Qed.

Lemma put_list_frame m str size pos l x :
  0 <= pos → pos + Z.of_nat (length l) < 2 ^ 63 → ¬ (str <= x < str + size) →
  (put_list m str size pos l).1.@x = m.@x.
Proof. intros. rewrite put_list_rd by done. rewrite decide_False by lia. done. Qed.

(** ** Parsing in memory is parsing of the list *)

(** The format pointer has moved from the string [l] at [p] to its end part
    [l'] at [p']. *)
Definition moved (m : gmap Z Z) (p : Z) (l : list Z) (p' : Z) (l' : list Z) : Prop :=
  cstr m p' l' ∧ p' + Z.of_nat (length l') = p + Z.of_nat (length l) ∧ (length l' <= length l)%nat.

Lemma moved_refl m p l : cstr m p l → moved m p l p l.
Proof. unfold moved. auto with lia. Qed.

Lemma moved_trans m p l p' l' p'' l'' :
  moved m p l p' l' → moved m p' l' p'' l'' → moved m p l p'' l''.
Proof. unfold moved. intros (? & ? & ?) (? & ? & ?). split_and!; (done || lia). Qed.

Lemma hd0_cstr m p l : cstr m p l → m.@p = hd0 l.
Proof. destruct l; [by intros H%cstr_nil|by intros (H & _)%cstr_cons]. Qed.

Lemma moved_tail m p l : cstr m p l → m.@p ≠ 0 → moved m p l (p + 1) (tail l).
Proof.
  destruct l as [|c l]; [by intros H%cstr_nil|]. intros (_ & _ & H)%cstr_cons _.
  unfold moved. simpl. split_and!; (done || lia).
Qed.

Lemma digits_loop_spec m l fuel p acc :
  cstr m p l → (length l < fuel)%nat →
  ∃ p', digits_loop fuel m p acc = Some ((digits_l acc l).1, p') ∧
    moved m p l p' (digits_l acc l).2.
Proof.
  revert p acc fuel. induction l as [|c l IH]; intros p acc [|fuel] Hs Hf; simpl in *; try lia.
  - pose proof (proj1 (cstr_nil _ _) Hs) as ->. simpl. exists p. by split; [|apply moved_refl].
  - rewrite (hd0_cstr _ _ _ Hs). change (hd0 (c :: l)) with c. destruct ((48 <=? c) && (c <=? 57)) eqn:E.
    + assert (moved m p (c :: l) (p + 1) l) as Hm.
      { apply (moved_tail _ _ (c :: l)); [done|]. rewrite (hd0_cstr _ _ _ Hs). change (hd0 (c :: l)) with c. lia. }
      destruct (IH (p + 1) (i32 (i32 (acc * 10) + (c - 48))) fuel) as (p' & -> & Hm');
        [apply Hm|lia|]. exists p'. split; [done|]. by eapply moved_trans.
    + exists p. by split; [|apply moved_refl].
Qed.

(** One step of the pointer, when the character is the expected one. *)
Lemma moved_step m p0 l0 p l (b : bool) :
  moved m p0 l0 p l → (b = true → hd0 l ≠ 0) →
  moved m p0 l0 (if b then p + 1 else p) (if b then tail l else l).
Proof.
  intros Hm Hb. destruct b; [|done]. eapply moved_trans; [done|]. apply moved_tail; [apply Hm|].
  rewrite (hd0_cstr _ _ l) by apply Hm. auto.
Qed.

Lemma moved_digits m p0 l0 fuel p l (b : bool) (a a0 : Z) :
  moved m p0 l0 p l → (length l0 < fuel)%nat → (b = true → hd0 l ≠ 0) →
  ∃ p', (if b then digits_loop fuel m (p + 1) a else Some (a0, p)) =
      Some ((if b then digits_l a (tail l) else (a0, l)).1, p') ∧
    moved m p0 l0 p' (if b then digits_l a (tail l) else (a0, l)).2.
Proof.
  intros Hm Hf Hb. destruct b; [|by exists p].
  pose proof (moved_step _ _ _ _ _ true Hm Hb) as Hm1. cbn in Hm1.
  destruct (digits_loop_spec m (tail l) fuel (p + 1) a) as (p' & E & Hm');
    [apply Hm1|destruct Hm1; lia|]. exists p'. split; [done|]. by eapply moved_trans.
Qed.

(** The conversion character, or the end of the format. *)
Lemma parse_last m p0 l0 p l z pd pc md :
  moved m p0 l0 p l →
  ∃ p', (let '(spec, format) := if negb (m.@p =? 0) then (m.@p, p + 1) else (0, p) in
         Some (0, format, Build_strfmt_format z pd pc md spec)) =
      Some (0, p', Build_strfmt_format z pd pc md (hd0 l)) ∧
    moved m p0 l0 p' (tail l).
Proof.
  intros Hm. rewrite (hd0_cstr _ _ l) by apply Hm. destruct (Z.eqb_spec (hd0 l) 0) as [E|E]; simpl.
  - rewrite E. exists p. split; [done|]. destruct l as [|c l]; [done|]. exfalso.
    destruct Hm as ((_ & Hc & _)%cstr_cons & _). done.
  - exists (p + 1). split; [done|]. by apply (moved_step _ _ _ _ _ true).
Qed.

Lemma parse_format_spec m p fmt fuel f0 :
  cstr m p (37 :: fmt) → (length fmt < fuel)%nat →
  ∃ p', _parse_format fuel m p f0 = Some (0, p', (parse_l fmt).1) ∧
    moved m (p + 1) fmt p' (parse_l fmt).2.
Proof.
  intros Hs Hf. unfold _parse_format. rewrite (hd0_cstr _ _ _ Hs). change (hd0 (37 :: fmt)) with 37. cbn [negb Z.eqb Pos.eqb].
  apply cstr_cons in Hs as (_ & _ & Hs). pose proof (moved_refl _ _ _ Hs) as Hm.
  unfold parse_l. rewrite (hd0_cstr _ _ _ Hs). simpl.
  set (z := 48 =? hd0 fmt). assert (z = true → hd0 fmt ≠ 0) as Hz by (unfold z; lia).
  pose proof (moved_step _ _ _ _ _ z Hm Hz) as Hm1.
  replace (if z then (1, p + 1 + 1) else (0, p + 1))
    with (if z then 1 else 0, if z then p + 1 + 1 else p + 1) by by destruct z.
  replace (if z then (1, tail fmt) else (0, fmt))
    with (if z then 1 else 0, if z then tail fmt else fmt) by by destruct z.
  clearbody z. set (p1 := if z then p + 1 + 1 else p + 1) in *.
  set (l1 := if z then tail fmt else fmt) in *. clearbody p1 l1.
  rewrite (hd0_cstr _ _ l1) by apply Hm1.
  set (b1 := (49 <=? hd0 l1) && (hd0 l1 <=? 57)).
  destruct (moved_digits m (p + 1) fmt fuel p1 l1 b1 (hd0 l1 - 48) 0) as (p2 & -> & Hm2);
    [done..|unfold b1; lia|]. simpl.
  destruct (if b1 then _ else _) as [pd l2]. clear b1. simpl in *.
  rewrite (hd0_cstr _ _ l2) by apply Hm2. set (b2 := 46 =? hd0 l2).
  destruct (moved_digits m (p + 1) fmt fuel p2 l2 b2 0 0) as (p3 & -> & Hm3);
    [done..|unfold b2; lia|]. simpl.
  destruct (if b2 then _ else _) as [pc l3]. clear b2. simpl in *.
  rewrite (hd0_cstr _ _ l3) by apply Hm3. destruct (Z.eqb_spec 108 (hd0 l3)) as [E3|E3].
  - pose proof (moved_step _ _ _ _ _ true Hm3) as Hm4. cbn in Hm4.
    specialize (Hm4 ltac:(lia)). rewrite (hd0_cstr _ _ (tail l3)) by apply Hm4.
    destruct (Z.eqb_spec 108 (hd0 (tail l3))) as [E4|E4].
    + pose proof (moved_step _ _ _ _ _ true Hm4) as Hm5. cbn in Hm5.
      specialize (Hm5 ltac:(lia)). replace (p3 + 1 + 1) with (p3 + 2) in Hm5 by lia.
      by apply parse_last.
    + by apply parse_last.
  - by apply parse_last.
Qed.

(** ** One conversion stores its text *)

(** The text [out] stored by a conversion at [str]. *)
Definition stored (m : gmap Z Z) (str size : Z) (out ap' : list Z) : option (Z * gmap Z Z * list Z) :=
  Some (Z.of_nat (length out), (put_list m str size 0 out).1, ap').

Lemma output_digits_spec m str size f buf :
  _output_digits m str size f buf =
  (Z.of_nat (length (number f buf)), (put_list m str size 0 (number f buf)).1).
Proof.
  unfold _output_digits, number. rewrite !put_list_app.
  set (ptr := Z.of_nat (length buf)).
  pose proof (put_list_pos m str size 0 (padding f ptr)) as H1.
  destruct (put_list m str size 0 (padding f ptr)) as [m1 pos1]. simpl in H1.
  pose proof (put_list_pos m1 str size pos1 (precision f ptr)) as H2.
  destruct (put_list m1 str size pos1 (precision f ptr)) as [m2 pos2] eqn:E2. simpl in H2.
  pose proof (put_list_pos m2 str size pos2 (reverse buf)) as H3.
  destruct (put_list m2 str size pos2 (reverse buf)) as [m3 pos3] eqn:E3. simpl in H3.
  simpl. f_equal; [rewrite !length_app; lia|].
  by rewrite put_list_app, E2, E3.
Qed.

Lemma string_loop_spec m str size s l fuel pos :
  cstr m (s + pos) l → 0 <= pos → pos + Z.of_nat (length l) < 2 ^ 63 →
  (∀ x, s + pos <= x <= s + pos + Z.of_nat (length l) → ¬ (str <= x < str + size)) →
  (length l < fuel)%nat →
  string_loop fuel m str size s pos =
  Some (pos + Z.of_nat (length l), (put_list m str size pos l).1).
Proof.
  revert m pos fuel. induction l as [|c l IH]; intros m pos [|fuel] Hs Hp Hb Hd Hf; simpl in *; try lia.
  - apply cstr_nil in Hs. rewrite Hs. simpl. by replace (pos + Z.of_nat 0) with pos by lia.
  - apply cstr_cons in Hs as (Hc & Hc0 & Hs). rewrite Hc, (proj2 (Z.eqb_neq c 0)) by done.
    rewrite IH; [| |lia|lia| |lia].
    + by replace (pos + 1 + Z.of_nat (length l)) with (pos + Z.of_nat (S (length l))) by lia.
    + replace (s + (pos + 1)) with (s + pos + 1) by lia.
      apply (cstr_frame m); [|done]. intros x Hx. rewrite put_small by lia.
      destruct (Z.ltb_spec (pos + 1) size); [|done]. apply rd_wr_ne.
      intros <-. apply (Hd (str + pos)); lia.
    + intros x Hx. apply Hd. lia.
Qed.

Lemma output_one m str size c :
  str ≠ 0 ∨ size <= 1 →
  (if negb (str =? 0) && (1 <? size) then m.[str <- c] else m) = (put_list m str size 0 [c]).1.
Proof.
  intros H. simpl. rewrite put_small by lia. rewrite !Z.add_0_r, Z.add_0_l.
  destruct (Z.eqb_spec str 0), (Z.ltb_spec 1 size); simpl; try done. lia.
Qed.

Lemma output_conv m prot f ap out ap' fuel str size :
  conv m prot f ap out ap' → str ≠ 0 ∨ size <= 1 →
  Z.of_nat (length out) < 2 ^ 63 → (length out < fuel)%nat →
  (∀ x, prot x → ¬ (str <= x < str + size)) →
  _output fuel m str size f ap = stored m str size out ap'.
Proof.
  intros Hc Hstr Hb Hf Hprot. unfold _output, stored.
  destruct Hc as [ap E|ap E|p l ap E Hp Hs Hpr|v ap E|v buf ap E Hd|v buf ap E Hd|v buf ap E Hd
    |v buf ap E Hd|ap E]; try (rewrite E; cbn [Z.eqb Pos.eqb]).
  - unfold _output_percent. by rewrite output_one.
  - unfold _output_string. cbn [va_arg mbind option_bind Z.eqb].
    pose proof (put_list_pos m str size 0 null_str) as Hpos.
    by destruct (put_list m str size 0 null_str); simpl in *; subst.
  - unfold _output_string. cbn [va_arg mbind option_bind]. rewrite (proj2 (Z.eqb_neq p 0)) by done.
    erewrite string_loop_spec; [done|by rewrite Z.add_0_r|lia|lia| |lia].
    intros x Hx. apply Hprot, Hpr. lia.
  - unfold _output_char. cbn [va_arg mbind option_bind]. by rewrite output_one.
  - unfold _output_decimal. cbn [va_arg mbind option_bind]. fold (is_long f). rewrite Hd.
    cbn [mbind option_bind]. by rewrite output_digits_spec.
  - unfold _output_hexdecimal. cbn [va_arg mbind option_bind]. fold (is_long f). rewrite Hd.
    cbn [mbind option_bind]. by rewrite output_digits_spec.
  - unfold _output_hexdecimal. cbn [va_arg mbind option_bind]. fold (is_long f). rewrite Hd.
    cbn [mbind option_bind]. by rewrite output_digits_spec.
  - unfold _output_pointer. cbn [va_arg mbind option_bind]. rewrite Hd.
    cbn [mbind option_bind]. by rewrite output_digits_spec.
  - rewrite !not_elem_of_cons in E. destruct E as (?&?&?&?&?&?&?&_).
    by repeat (rewrite (proj2 (Z.eqb_neq (spec f) _)) by done).
Qed.

(** ** The whole format *)

Lemma conv_frame m m' prot f ap out ap' :
  (∀ x, prot x → m'.@x = m.@x) → conv m prot f ap out ap' → conv m' prot f ap out ap'.
Proof.
  intros H. destruct 1; try by econstructor.
  apply conv_string; auto. eapply cstr_frame; [|done]. auto.
Qed.

Lemma renders_frame m m' prot fmt ap out :
  (∀ x, prot x → m'.@x = m.@x) → renders m prot fmt ap out → renders m' prot fmt ap out.
Proof.
  intros H. induction 1; [constructor|by constructor|]. econstructor; [done| |done].
  by eapply conv_frame.
Qed.

(** Formatting at the current position, within the buffer or past its end. *)
Lemma output_at m prot f ap out ap' fuel tmp size pos :
  conv m prot f ap out ap' → 0 < tmp → 0 <= pos →
  pos + Z.of_nat (length out) < 2 ^ 63 → (length out < fuel)%nat →
  (∀ x, prot x → ¬ (tmp <= x < tmp + size)) →
  (if pos <? size then _output fuel m (tmp + pos) (size - pos) f ap
   else _output fuel m 0 0 f ap) =
  Some (Z.of_nat (length out), (put_list m tmp size pos out).1, ap').
Proof.
  intros Hc Ht Hp Hb Hf Hprot. destruct (Z.ltb_spec pos size).
  - rewrite (output_conv m prot f ap out ap'); [|done|lia|lia|done|].
    + unfold stored. rewrite put_list_shift by lia. by rewrite Z.add_0_r.
    + intros x Hx Hin. apply (Hprot x Hx). lia.
  - rewrite (output_conv m prot f ap out ap'); [|done|lia|lia|done|intros; lia].
    unfold stored. by rewrite !put_list_full by lia.
Qed.

Lemma kvsnprintf_loop_spec prot fuel m tmp size p fmt f0 ap out pos :
  renders m prot fmt ap out → cstr m p fmt → 0 < tmp → 0 <= pos →
  pos + Z.of_nat (length out) < 2 ^ 63 → (length fmt + length out < fuel)%nat →
  (∀ x, prot x → ¬ (tmp <= x < tmp + size)) →
  (∀ x, p <= x <= p + Z.of_nat (length fmt) → ¬ (tmp <= x < tmp + size)) →
  kvsnprintf_loop fuel m tmp size p f0 ap pos = Some (put_list m tmp size pos out).
Proof.
  revert m p fmt f0 ap out pos.
  induction fuel as [|fuel IH]; intros m p fmt0 f0 ap0 out0 pos Hr Hs Ht Hp Hb Hf Hprot Hfmt; [lia|].
  simpl. destruct Hr as [ap|c fmt ap out Hc Hr|fmt f fmt' ap ap' out out' Hparse Hc Hr].
  - apply cstr_nil in Hs. by rewrite Hs.
  - apply cstr_cons in Hs as (Hc1 & Hc0 & Hs). simpl in *.
    rewrite Hc1, (proj2 (Z.eqb_neq c 0)), (proj2 (Z.eqb_neq 37 c)) by done.
    assert (∀ x, ¬ (tmp <= x < tmp + size) → (put m tmp size pos c).@x = m.@x) as Hfr.
    { intros x Hx. by rewrite <-(put_list_frame m tmp size pos [c] x) by (simpl; lia). }
    apply (IH _ _ fmt); try (done || lia).
    + eapply renders_frame; [|done]. auto.
    + eapply cstr_frame; [|done]. intros x Hx. apply Hfr, Hfmt. lia.
    + intros x Hx. apply Hfmt. lia.
  - pose proof Hs as (Hc1 & _)%cstr_cons. rewrite Hc1. cbn [Z.eqb Pos.eqb].
    rewrite length_app in Hb, Hf. simpl in Hf.
    destruct (parse_format_spec m p fmt fuel f0 Hs) as (p' & Ep & Hm); [lia|].
    rewrite Ep, Hparse in *. cbn [mbind option_bind fst snd] in *. destruct Hm as (Hs' & Hend & Hlen).
    rewrite (output_at m prot f ap out ap') by (done || lia). cbn [mbind option_bind].
    assert (∀ x, ¬ (tmp <= x < tmp + size) → (put_list m tmp size pos out).1.@x = m.@x) as Hfr
      by (intros; apply put_list_frame; (done || lia)).
    rewrite put_list_app. pose proof (put_list_pos m tmp size pos out) as Hpos.
    destruct (put_list m tmp size pos out) as [m1 pos1]. simpl in *. subst pos1.
    apply (IH _ _ fmt'); try (done || lia).
    + eapply renders_frame; [|done]. auto.
    + eapply cstr_frame; [|done]. intros x Hx. apply Hfr, Hfmt. lia.
    + intros x Hx. apply Hfmt. lia.
Qed.

(** ** Numbers

    The digit loops against reading a number back. *)

Definition read_digits (base : Z) (digit : Z → Z) (l : list Z) : Z :=
  foldl (λ a c, a * base + digit c) 0 l.
Definition dec_digit (c : Z) : Z := c - 48.
Definition hex_digit (c : Z) : Z :=
  if c <? 65 then c - 48 else if c <? 97 then c - 65 + 10 else c - 97 + 10.
(** A signed decimal number in reading order. *)
Definition read_dec (l : list Z) : Z :=
  match l with
  | 45 :: l => - read_digits 10 dec_digit l
  | l => read_digits 10 dec_digit l
  end.

Lemma read_digits_snoc base digit l c :
  read_digits base digit (l ++ [c]) = read_digits base digit l * base + digit c.
Proof. unfold read_digits. by rewrite foldl_app. Qed.

(** Both digit loops append the digits of [q], whatever the base. *)
Section digit_loop.
Context (base : Z) (digit char : Z → Z) (loop : nat → Z → list Z → option (list Z)).
Context (Hbase : 2 <= base) (Hdig : ∀ r, 0 <= r < base → digit (char r) = r).
Context (Hloop0 : ∀ fuel buf, loop (S fuel) 0 buf = Some buf).
Context (HloopS : ∀ fuel q buf, 0 < q →
  loop (S fuel) q buf = loop fuel (q / base) (buf ++ [char (q mod base)])).

Lemma digit_loop_spec k fuel q buf :
  0 <= q < base ^ Z.of_nat k → (k < fuel)%nat →
  ∃ d, loop fuel q buf = Some (buf ++ d) ∧ (length d <= k)%nat ∧
    read_digits base digit (reverse d) = q ∧ (q ≠ 0 → d ≠ []) ∧
    Forall (λ c, ∃ r, 0 <= r < base ∧ c = char r) d.
Proof using Hbase Hdig Hloop0 HloopS.
  revert fuel q buf. induction k as [|k IH]; intros [|fuel] q buf Hq Hf; try lia.
  - assert (q = 0) as -> by (simpl in Hq; lia). exists []. rewrite app_nil_r.
    split_and!; [apply Hloop0|simpl; lia|done|done|done].
  - destruct (decide (q = 0)) as [->|].
    { exists []. rewrite app_nil_r. split_and!; [apply Hloop0|simpl; lia|done|done|done]. }
    rewrite HloopS by lia. pose proof (Z.mod_pos_bound q base ltac:(lia)).
    assert (0 <= q / base < base ^ Z.of_nat k) as Hq'.
    { split; [apply Z.div_pos; lia|]. apply Z.div_lt_upper_bound; [lia|].
      rewrite <-Z.pow_succ_r, <-Nat2Z.inj_succ by lia. lia. }
    destruct (IH fuel (q / base) (buf ++ [char (q mod base)]) Hq') as (d & -> & Hl & Hv & _ & Hd); [lia|].
    exists (char (q mod base) :: d). rewrite <-app_assoc. simpl. split_and!; [done|lia| |done|eauto].
    rewrite reverse_cons, read_digits_snoc, Hv, Hdig by done.
    pose proof (Z.div_mod q base). lia.
Qed.
End digit_loop.

Lemma dec_loop_spec k fuel q buf :
  0 <= q < 10 ^ Z.of_nat k → (k < fuel)%nat →
  ∃ d, dec_loop fuel q buf = Some (buf ++ d) ∧ (length d <= k)%nat ∧
    read_digits 10 dec_digit (reverse d) = q ∧ (q ≠ 0 → d ≠ []) ∧
    Forall (λ c, ∃ r, 0 <= r < 10 ∧ c = i8 (r + 48)) d.
Proof.
  apply (digit_loop_spec 10 dec_digit (λ r, i8 (r + 48))); [lia| |done|].
  - intros r Hr. unfold dec_digit, i8. rewrite Z.mod_small; lia.
  - intros fu q' b Hq. simpl. rewrite (proj2 (Z.eqb_neq q' 0)) by lia.
    by rewrite Z.quot_div_nonneg, Z.rem_mod_nonneg by lia.
Qed.

Definition hex_char (cap r : Z) : Z :=
  if r <? 10 then r + 48 else if negb (cap =? 0) then r + 65 - 10 else r + 97 - 10.

Lemma hex_loop_spec cap k fuel q buf :
  0 <= q < 16 ^ Z.of_nat k → (k < fuel)%nat →
  ∃ d, hex_loop fuel q cap buf = Some (buf ++ d) ∧ (length d <= k)%nat ∧
    read_digits 16 hex_digit (reverse d) = q ∧ (q ≠ 0 → d ≠ []) ∧
    Forall (λ c, ∃ r, 0 <= r < 16 ∧ c = hex_char cap r) d.
Proof.
  apply (digit_loop_spec 16 hex_digit (hex_char cap) (λ f q b, hex_loop f q cap b)); [lia| |done|].
  - intros r Hr. unfold hex_digit, hex_char.
    destruct (Z.ltb_spec r 10), (Z.eqb_spec cap 0); simpl; repeat case_match; lia.
  - intros fu q' b Hq. simpl. rewrite (proj2 (Z.eqb_neq q' 0)) by lia.
    change 15 with (2 ^ 4 - 1). rewrite land_ones_mod, Z.shiftr_div_pow2 by lia. done.
Qed.

Lemma kvsnprintf_spec (prot : Z → Prop) (fuel : nat) (m : gmap Z Z)
    (tmp str size p : Z) (fmt ap out : list Z) :
  renders m prot fmt ap out → cstr m p fmt →
  0 < tmp → 0 < size < 2 ^ 31 → Z.of_nat (length out) < 2 ^ 31 →
  (length fmt + length out < fuel)%nat →
  (∀ x, prot x → ¬ (tmp <= x < tmp + size)) →
  (∀ x, p <= x <= p + Z.of_nat (length fmt) → ¬ (tmp <= x < tmp + size)) →
  (∀ x, str <= x < str + size → ¬ (tmp <= x < tmp + size)) →
  ∃ m', kvsnprintf fuel m tmp str size p ap = Some (Z.of_nat (length out), m') ∧
    bytes_at m' str (take (Z.to_nat (size - 1)) out ++ [0]) ∧
    ∀ x, ¬ (str <= x < str + size) → ¬ (tmp <= x < tmp + size) → m'.@x = m.@x.
Proof.
  intros Hr Hs Ht Hsz Hb Hf Hprot Hfmt Hdj. unfold kvsnprintf.
  rewrite (proj2 (Z.eqb_neq tmp 0)) by lia.
  rewrite (kvsnprintf_loop_spec prot fuel m tmp size p fmt _ ap out 0) by (done || lia).
  pose proof (put_list_pos m tmp size 0 out) as Hpos.
  pose proof (λ x, put_list_rd m tmp size 0 out x ltac:(lia) ltac:(lia)) as Hrd.
  destruct (put_list m tmp size 0 out) as [m1 pos]. simpl in Hpos, Hrd. subst pos.
  cbn [mbind option_bind]. rewrite Z.add_0_l, i32_small, u64_small by lia.
  set (n := Z.of_nat (length out)) in *.
  set (m2 := if n + 1 <? size then m1.[tmp + n <- 0] else m1).
  exists (kmemcpy (Z.to_nat size) (m2.[tmp + (size - 1) <- 0]) str tmp).
  split; [done|].
  assert (∀ x, (kmemcpy (Z.to_nat size) (m2.[tmp + (size - 1) <- 0]) str tmp).@x =
    if decide (str <= x < str + size) then (m2.[tmp + (size - 1) <- 0]).@(tmp + (x - str))
    else (m2.[tmp + (size - 1) <- 0]).@x) as Hcp.
  { intros x. rewrite kmemcpy_spec; [by rewrite Z2Nat.id by lia|].
    intros i j ? ? ?. apply (Hdj (str + j)); lia. }
  assert (∀ x, m2.@x = if decide (n + 1 < size ∧ x = tmp + n) then 0 else m1.@x) as Hm2.
  { intros x. unfold m2. destruct (Z.ltb_spec (n + 1) size); rewrite ?rd_wr;
      repeat case_decide; (done || lia). }
  split.
  - apply bytes_at_lookup. intros i c Hi. rewrite Hcp.
    assert (Z.of_nat i <= Z.min n (size - 1)) as Hin.
    { apply lookup_lt_Some in Hi. rewrite length_app, length_take in Hi. simpl in Hi. lia. }
    rewrite decide_True, rd_wr, Hm2, Hrd by lia.
    apply lookup_app_Some in Hi as [Hi|[Hge Hi]].
    + apply lookup_take_Some in Hi as [Hi Hlt]. apply lookup_lt_Some in Hi as Hlt'.
      rewrite decide_False, decide_False, decide_True by lia.
      replace (Z.to_nat (tmp + (str + Z.of_nat i - str) - tmp - 0)) with i by lia. by rewrite Hi.
    + apply list_lookup_singleton_Some in Hi as [Hi <-]. rewrite length_take in *.
      repeat case_decide; (done || lia).
  - intros x H1 H2. rewrite Hcp, decide_False, rd_wr_ne, Hm2, Hrd by lia.
    by rewrite !decide_False by lia.
Qed.

(** ** Properties *)


(** The format ["n=%d"]. *)
Definition fmt_ex : gmap Z Z := ∅.[1000 <- 110].[1001 <- 61].[1002 <- 37].[1003 <- 100].

Lemma renders_ex : renders fmt_ex (λ _, False) [110; 61; 37; 100] [42] [110; 61; 52; 50].
Proof.
  apply renders_char; [done|]. apply renders_char; [done|].
  apply (renders_conv _ _ [100] (Build_strfmt_format 0 0 0 0 100) [] [42] [] [52; 50] []);
    [done| |constructor].
  change [52; 50] with (number (Build_strfmt_format 0 0 0 0 100) [50; 52]).
  by apply conv_decimal.
Qed.


(** the decimal conversion is exact for every [long long] but the
    smallest: the digits fit the 25-byte buffer, and reading them back gives
    the number. *)
Theorem dec_buf_roundtrip (val : Z) :
  - 2 ^ 63 < val < 2 ^ 63 →
  ∃ buf, dec_buf val = Some buf ∧ (length buf <= 25)%nat ∧ read_dec (reverse buf) = val.
Proof.
  intros Hv. unfold dec_buf.
  assert ((if val <? 0 then (-1, i64 (val * -1)) else (1, val)) =
    (if val <? 0 then -1 else 1, Z.abs val)) as ->.
  { destruct (Z.ltb_spec val 0); f_equal; [|lia]. unfold i64. rewrite Z.mod_small; lia. }
  destruct (dec_loop_spec 19 20 (Z.abs val) []) as (d & -> & Hl & Hr & Hnz & Hd); [lia..|].
  simpl. set (e := if (length d =? 0)%nat then d ++ [48] else d).
  assert ((length e <= 20)%nat ∧ read_digits 10 dec_digit (reverse e) = Z.abs val ∧
    ∃ c l, reverse e = c :: l ∧ c ≠ 45) as (He1 & He2 & c & l & He3 & Hc).
  { unfold e. destruct d as [|c0 d0] eqn:Ed using rev_ind; simpl.
    - split_and!; [lia|simpl in *; done|]. by exists 48, [].
    - clear IHd0. rewrite length_app in *. simpl in *.
      replace (length d0 + 1 =? 0)%nat with false by (symmetry; apply Nat.eqb_neq; lia).
      rewrite length_app. simpl. split_and!; [lia|done|].
      rewrite reverse_snoc. exists c0, (reverse d0). split; [done|].
      apply Forall_app in Hd as [_ Hd]. apply Forall_singleton in Hd as (r & Hr' & ->).
      unfold i8. rewrite Z.mod_small; lia. }
  destruct (Z.ltb_spec val 0); cbn [Z.ltb Z.compare].
  - exists (e ++ [45]). split_and!; [done|rewrite length_app; simpl; lia|].
    rewrite reverse_snoc. simpl. rewrite He2. lia.
  - exists e. split_and!; [done|lia|]. rewrite He3 in *. unfold read_dec.
    repeat case_match; try congruence; rewrite He2; lia.
Qed.

Lemma dec_buf_witness :
  ∃ buf, dec_buf (-120) = Some buf ∧ (length buf <= 25)%nat ∧ read_dec (reverse buf) = -120.
Proof. apply (dec_buf_roundtrip (-120)). lia. Defined.

(** The smallest [long long] is not printed as a number: negating it
    wraps around to itself, and the remainders of the division are negative,
    so characters below '0' are stored. *)
Theorem dec_buf_llong_min :
  dec_buf (- 2 ^ 63) = Some [40; 48; 40; 43; 41; 41; 44; 43; 40; 42; 45; 48; 46; 41; 45; 45; 46; 46; 39; 45].
Proof. vm_compute. reflexivity. Qed.

(** The hexadecimal conversions of [%x], [%X] and [%p] are exact: at most
    16 digits, the size of their buffer, which read back as the value. *)
Theorem hex_buf_roundtrip (val cap : Z) :
  0 <= val < 2 ^ 64 →
  ∃ buf, hex_buf val cap = Some buf ∧ (length buf <= 16)%nat ∧
    read_digits 16 hex_digit (reverse buf) = val.
Proof.
  intros Hv. unfold hex_buf.
  destruct (hex_loop_spec cap 16 17 val []) as (d & -> & Hl & Hr & Hnz & _); [lia..|]. simpl.
  destruct d as [|c d]; simpl; [|by exists (c :: d)]. exists [48]. split_and!; [done|simpl; lia|].
  simpl in Hr. by rewrite <-Hr.
Qed.

Lemma hex_buf_witness :
  ∃ buf, hex_buf 0xdeadbeef 0 = Some buf ∧ (length buf <= 16)%nat ∧
    read_digits 16 hex_digit (reverse buf) = 0xdeadbeef.
Proof. apply (hex_buf_roundtrip 0xdeadbeef 0). lia. Defined.

(** A number is printed with exactly the width the format asks for: the
    largest of the field width, the precision and the digits needed. *)
Theorem number_width (f : strfmt_format) (buf : list Z) :
  0 <= pad f < 2 ^ 31 → 0 <= prec f < 2 ^ 31 →
  Z.of_nat (length (number f buf)) = Z.max (pad f) (Z.max (prec f) (Z.of_nat (length buf))).
Proof.
  intros Hp Hc. unfold number, padding, precision. rewrite !length_app, length_reverse.
  rewrite i32_small by lia.
  destruct (Z.ltb_spec (prec f) (pad f)), (Z.ltb_spec (Z.of_nat (length buf)) (pad f)),
    (Z.ltb_spec (Z.of_nat (length buf)) (prec f)); simpl; rewrite ?length_replicate; lia.
Qed.

Lemma number_width_witness :
  Z.of_nat (length (number (Build_strfmt_format 1 8 4 0 100) [50; 52])) =
  Z.max 8 (Z.max 4 (Z.of_nat (length [50; 52]))).
Proof. apply (number_width (Build_strfmt_format 1 8 4 0 100) [50; 52]); simpl; lia. Defined.

(** [kprintf] hands its console devices the length [kvsnprintf] returns,
    not the length of what is in its buffer: when the text has more than 2047
    characters every device is told to read past the end of the 2048-byte
    buffer. *)
Theorem kprintf_overread (prot : Z → Prop) (fuel : nat) (m : gmap Z Z)
    (cons tmp buf p dev : Z) (fmt ap out : list Z) :
  renders m prot fmt ap out → cstr m p fmt →
  0 < tmp → 2048 < Z.of_nat (length out) < 2 ^ 31 → (length fmt + length out < fuel)%nat →
  (∀ x, prot x → ¬ (tmp <= x < tmp + 2048)) →
  (∀ x, p <= x <= p + Z.of_nat (length fmt) → ¬ (tmp <= x < tmp + 2048)) →
  (∀ x, buf <= x < buf + 2048 → ¬ (tmp <= x < tmp + 2048)) →
  (∀ x, x = cons ∨ x = dev + 8 → ¬ (tmp <= x < tmp + 2048) ∧ ¬ (buf <= x < buf + 2048)) →
  m.@cons = dev → dev ≠ 0 → m.@(dev + 8) = 0 →
  ∃ n m', kprintf fuel m cons tmp buf p ap = Some ([(dev, buf, n)], m') ∧ 2048 < n.
Proof.
  intros Hr Hs Ht Hb Hf Hprot Hfmt Hdj Hc Hd Hd0 Hn. exists (Z.of_nat (length out)).
  destruct (kvsnprintf_spec prot fuel m tmp buf 2048 p fmt ap out) as (m' & E & _ & Hfr);
    try (done || lia).
  exists m'. split; [|lia]. unfold kprintf. rewrite E. simpl.
  assert (m'.@cons = dev ∧ m'.@(dev + 8) = 0) as [-> Hn'].
  { split; rewrite Hfr; auto; apply Hc; auto. }
  destruct fuel as [|[|fuel]]; [lia..|]. simpl. rewrite (proj2 (Z.eqb_neq dev 0)) by done.
  by rewrite Hn'.
Qed.

(** The format ["%3000d"] and one console device at 3000. *)
Definition wide_ex : gmap Z Z :=
  ∅.[1000 <- 37].[1001 <- 51].[1002 <- 48].[1003 <- 48].[1004 <- 48].[1005 <- 100].[2000 <- 3000].
Definition wide_fmt : strfmt_format := Build_strfmt_format 0 3000 0 0 100.

Lemma kprintf_overread_witness :
  ∃ n m', kprintf (Z.to_nat 4000) wide_ex 2000 10000 20000 1000 [0] = Some ([(3000, 20000, n)], m') ∧
    2048 < n.
Proof.
  apply (kprintf_overread (λ _, False) (Z.to_nat 4000) wide_ex 2000 10000 20000 1000 3000
    [37; 51; 48; 48; 48; 100] [0] (number wide_fmt [48] ++ [])).
  - apply (renders_conv _ _ _ wide_fmt [] [0] []); [done|by apply conv_decimal|constructor].
  - split; [by vm_compute|set_solver].
  - lia.
  - vm_compute. done.
  - apply Nat.ltb_lt. by vm_compute.
  - done.
  - simpl. lia.
  - lia.
  - lia.
  - done.
  - done.
  - done.
Defined.
