(* ===== verification/CMonad.v ===== *)
(** * A monad for C code over the shared memory

    Most of the kernel's functions read and write structures through
    pointers, call each other, fail [kassert] or loop.  Such a function is an
    [M A]: from a memory to its result and the new memory, or to [Panic] (a
    failed [kassert] or a call of [panic]) or [Hang] (a loop that exhausts
    its fuel, or a spin on a lock that is held). *)

From S2P Require Import Prelude.

Inductive outcome (A : Type) : Type :=
  | Ok (a : A) (m : gmap Z Z)
  | Panic
  | Hang.
Arguments Ok {A} a m.
Arguments Panic {A}.
Arguments Hang {A}.

Definition M (A : Type) : Type := gmap Z Z → outcome A.

#[export] Instance M_ret : MRet M := λ A a m, Ok a m.
#[export] Instance M_bind : MBind M := λ A B k c m,
  match c m with Ok a m' => k a m' | Panic => Panic | Hang => Hang end.

Definition panic {A} : M A := λ _, Panic.
Definition hang {A} : M A := λ _, Hang.
Definition kassert (b : bool) : M unit := if b then mret tt else panic.

(** Reading and writing a scalar. *)
Definition ld (a : Z) : M Z := λ m, Ok (m.@a) m.
Definition st (a v : Z) : M unit := λ m, Ok tt (m.[a <- v]).

(** A function that is given as a transformer of the memory. *)
Definition lift {A} (f : gmap Z Z → option (A * gmap Z Z)) : M A := λ m,
  match f m with Some (a, m') => Ok a m' | None => Hang end.
Definition lift_ {A : Type} (f : gmap Z Z → option (gmap Z Z)) : M unit := λ m,
  match f m with Some m' => Ok tt m' | None => Hang end.
(** A function that only reads. *)
Definition peek {A} (f : gmap Z Z → option A) : M A := λ m,
  match f m with Some a => Ok a m | None => Hang end.

Definition lock (l : Z) : M unit := lift_ (A := unit) (spin_lock l).
Definition unlock (l : Z) : M unit := λ m, Ok tt (spin_unlock l m).
Definition memset0 (b len : Z) : M unit := λ m, Ok tt (kmemset0 b len m).

(** [do k times], the index counting up from [i]. *)
Fixpoint for_up (k : nat) (i : Z) (body : Z → M unit) : M unit :=
  match k with
  | O => mret tt
  | S k => body i ≫= λ _, for_up k (i + 1) body
  end.

(** ** Running *)

Lemma bind_ok {A B} (c : M A) (k : A → M B) m a m' :
  c m = Ok a m' → (c ≫= k) m = k a m'.
Proof. unfold mbind, M_bind. by intros ->. Qed.

Lemma bind_ld {B} (k : Z → M B) m a : (ld a ≫= k) m = k (m.@a) m.
Proof. done. Qed.
Lemma bind_st {B} (k : unit → M B) m a v : (st a v ≫= k) m = k tt (m.[a <- v]).
Proof. done. Qed.
Lemma bind_ret {A B} (x : A) (k : A → M B) m : (mret x ≫= k) m = k x m.
Proof. done. Qed.
Lemma bind_assoc {A B C} (c : M A) (k : A → M B) (k' : B → M C) m :
  ((c ≫= k) ≫= k') m = (c ≫= λ a, k a ≫= k') m.
Proof. unfold mbind, M_bind. by destruct (c m). Qed.

(** Two runs with the same first part. *)
Lemma bind_ext {A B} (c c' : M A) (k k' : A → M B) m :
  c m = c' m → (∀ a m', k a m' = k' a m') → (c ≫= k) m = (c' ≫= k') m.
Proof. intros E H. unfold mbind, M_bind. rewrite E. destruct (c' m); [apply H|done..]. Qed.

(** Run the reads and writes at the head of a program. *)
Ltac mrun := repeat first [rewrite bind_ld|rewrite bind_st|rewrite bind_ret|rewrite bind_assoc].

(** ** Postconditions

    [wp c m Q]: the run of [c] on [m] returns, in a state that [Q] accepts. *)
Definition wp {A} (c : M A) (m : gmap Z Z) (Q : A → gmap Z Z → Prop) : Prop :=
  ∃ a m', c m = Ok a m' ∧ Q a m'.

Lemma wp_mono {A} (c : M A) m (Q Q' : A → gmap Z Z → Prop) :
  wp c m Q → (∀ a m', Q a m' → Q' a m') → wp c m Q'.
Proof. intros (a & m' & E & H) HQ. exists a, m'. auto. Qed.
Lemma wp_bind {A B} (c : M A) (k : A → M B) m Q :
  wp c m (λ a m', wp (k a) m' Q) → wp (c ≫= k) m Q.
Proof. intros (a & m' & E & b & m'' & E' & H). exists b, m''. by rewrite (bind_ok _ _ _ _ _ E). Qed.
Lemma wp_unbind {A B} (c : M A) (k : A → M B) m Q :
  wp (c ≫= k) m Q → wp c m (λ a m', wp (k a) m' Q).
Proof.
  unfold wp, mbind, M_bind. intros (b & m'' & E & H). destruct (c m) as [a m'| |]; [|done..].
  exists a, m'. split; [done|]. by exists b, m''.
Qed.
Lemma wp_ret {A} (a : A) m (Q : A → gmap Z Z → Prop) : Q a m → wp (mret a) m Q.
Proof. intros. by exists a, m. Qed.
Lemma wp_ld a m Q : Q (m.@a) m → wp (ld a) m Q.
Proof. intros. by exists (m.@a), m. Qed.
Lemma wp_st a v m Q : Q tt (m.[a <- v]) → wp (st a v) m Q.
Proof. intros. by exists tt, (m.[a <- v]). Qed.
Lemma wp_kassert b m Q : b = true → Q tt m → wp (kassert b) m Q.
Proof. intros -> ?. by exists tt, m. Qed.
Lemma wp_if {A} (b : bool) (c c' : M A) m Q :
  (b = true → wp c m Q) → (b = false → wp c' m Q) → wp (if b then c else c') m Q.
Proof. destruct b; auto. Qed.

(** Run to the first call of a function. *)
Ltac wpstep := match goal with
  | |- wp (mbind _ _) _ _ => apply wp_bind
  | |- wp (ld _) _ _ => apply wp_ld
  | |- wp (st _ _) _ _ => apply wp_st
  | |- wp (mret _) _ _ => apply wp_ret
  | |- wp (kassert _) _ _ => apply wp_kassert
  end; cbv beta.
Ltac wprun := repeat wpstep.
(** Use the specification [H] of the call at the head. *)
Tactic Notation "wpcall" uconstr(H) := eapply wp_mono; [eapply H|cbv beta].

(** The result of a run, for concrete examples. *)
Definition result {A} (o : outcome A) : option A :=
  match o with Ok a _ => Some a | _ => None end.
Definition is_panic {A} (o : outcome A) : bool :=
  match o with Panic => true | _ => false end.
Definition is_hang {A} (o : outcome A) : bool :=
  match o with Hang => true | _ => false end.
