(* ===== verification/Tree.v ===== *)
(** * Binary trees: kernel/tree.c

    Nodes are linked through memory: [left] at offset 0, [right] at 8 and
    [data] at 16.  The tree functions take the address of the pointer cell
    they work on, as in the source.  The comparison callbacks are arguments;
    [btree_add] and [btree_delete] hand them the data pointer of the new node
    and the tree node itself, [btree_search] and [btree_traverse] the data
    pointer of the node. *)

From S2P Require Import Prelude CMonad.

Definition node_left (n : Z) : Z := n.
Definition node_right (n : Z) : Z := n + 8.
Definition node_data (n : Z) : Z := n + 16.

Fixpoint btree_add (comp : Z → Z → M Z) (allowdup : Z) (fuel : nat) (t n : Z) : M Z :=
  match fuel with
  | O => hang
  | S fuel =>
    tv ← ld t;
    if tv =? 0 then
      _ ← st t n;
      _ ← st (node_left n) 0;
      _ ← st (node_right n) 0;
      mret 0
    else
      d ← ld (node_data n);
      ret ← comp d tv;
      if (allowdup =? 0) && (0 =? ret) then mret (-1)
      else if 0 <? ret then btree_add comp allowdup fuel (node_right tv) n
      else btree_add comp allowdup fuel (node_left tv) n
  end.

(** [while ( NULL != *x ) x = &( *x)->right] *)
Fixpoint rightmost (fuel : nat) (x : Z) : M Z :=
  match fuel with
  | O => hang
  | S fuel =>
    xv ← ld x;
    if xv =? 0 then mret x else rightmost fuel (node_right xv)
  end.

Fixpoint btree_delete (comp : Z → Z → M Z) (fuel : nat) (t n : Z) : M Z :=
  match fuel with
  | O => hang
  | S fuel =>
    tv ← ld t;
    if tv =? 0 then mret 0
    else if n =? tv then
      l ← ld (node_left n);
      r ← ld (node_right n);
      _ ← (if negb (l =? 0) && negb (r =? 0) then
             _ ← st t l;
             x ← rightmost fuel (node_left n);
             r ← ld (node_right n);
             st x r
           else if negb (l =? 0) then st t l
           else if negb (r =? 0) then st t r
           else st t 0);
      mret n
    else
      d ← ld (node_data n);
      c ← comp d tv;
      if 0 <? c then btree_delete comp fuel (node_right tv) n
      else btree_delete comp fuel (node_left tv) n
  end.

Fixpoint btree_search (cond : Z → Z → M Z) (data : Z) (fuel : nat) (n : Z) : M Z :=
  match fuel with
  | O => hang
  | S fuel =>
    if n =? 0 then mret 0
    else
      d ← ld (node_data n);
      ret ← cond d data;
      if 0 =? ret then mret n
      else if 0 <? ret then
        r ← ld (node_right n); btree_search cond data fuel r
      else
        l ← ld (node_left n); btree_search cond data fuel l
  end.

Fixpoint btree_traverse (func : Z → Z → M Z) (data : Z) (fuel : nat) (n : Z) : M Z :=
  match fuel with
  | O => hang
  | S fuel =>
    if n =? 0 then mret 0
    else
      l ← ld (node_left n);
      ret ← btree_traverse func data fuel l;
      if negb (0 =? ret) then mret ret
      else
        d ← ld (node_data n);
        ret ← func d data;
        if negb (0 =? ret) then mret ret
        else
          r ← ld (node_right n);
          ret ← btree_traverse func data fuel r;
          if negb (0 =? ret) then mret ret else mret 0
  end.

(** ** Trees in memory *)

Inductive tree := Leaf | Node (p : Z) (l r : tree).

(** [tree_at m c t]: the pointer cell [c] holds the root of [t]. *)
Fixpoint tree_at (m : gmap Z Z) (c : Z) (t : tree) : Prop :=
  match t with
  | Leaf => m.@c = 0
  | Node p l r => m.@c = p ∧ p ≠ 0 ∧ tree_at m (node_left p) l ∧ tree_at m (node_right p) r
  end.

Fixpoint inorder (t : tree) : list Z :=
  match t with
  | Leaf => []
  | Node p l r => inorder l ++ p :: inorder r
  end.

Fixpoint height (t : tree) : nat :=
  match t with
  | Leaf => O
  | Node _ l r => S (Nat.max (height l) (height r))
  end.

(** The link cells of the nodes. *)
Fixpoint tcells (t : tree) : list Z :=
  match t with
  | Leaf => []
  | Node p l r => node_left p :: node_right p :: tcells l ++ tcells r
  end.

(** Search order on keys: equal keys to the left. *)
Fixpoint bst (key : Z → Z) (t : tree) : Prop :=
  match t with
  | Leaf => True
  | Node p l r =>
      (∀ q, q ∈ inorder l → key q <= key p) ∧ (∀ q, q ∈ inorder r → key p < key q) ∧
      bst key l ∧ bst key r
  end.

(** Reference insertion and deletion. *)
Fixpoint tree_add (key : Z → Z) (n : Z) (t : tree) : tree :=
  match t with
  | Leaf => Node n Leaf Leaf
  | Node p l r => if key p <? key n then Node p l (tree_add key n r)
                  else Node p (tree_add key n l) r
  end.

Fixpoint hang_right (t r : tree) : tree :=
  match t with
  | Leaf => r
  | Node p l r' => Node p l (hang_right r' r)
  end.

Fixpoint tree_del (key : Z → Z) (n : Z) (t : tree) : tree :=
  match t with
  | Leaf => Leaf
  | Node p l r =>
      if decide (p = n) then hang_right l r
      else if key p <? key n then Node p l (tree_del key n r)
      else Node p (tree_del key n l) r
  end.

Lemma tree_at_frame m m' c t :
  (∀ x, x = c ∨ x ∈ tcells t → m'.@x = m.@x) → tree_at m c t → tree_at m' c t.
Proof.
  revert c. induction t as [|p l IHl r IHr]; intros c H; simpl; [by rewrite H by auto|].
  intros (Hc & Hp & Hl & Hr). rewrite H by auto. simpl in H.
  split_and!; [done|done|apply IHl|apply IHr]; try done; intros x [->|Hx]; apply H;
    rewrite !elem_of_cons, elem_of_app; auto.
Qed.

Lemma tree_at_wr m c t a v :
  a ≠ c → a ∉ tcells t → tree_at m c t → tree_at (m.[a <- v]) c t.
Proof. intros Hc Ha. apply tree_at_frame. intros x [->|Hx]; apply rd_wr_ne; congruence. Qed.

(** ** Facts on the reference operations *)

Lemma inorder_hang_right l r : inorder (hang_right l r) = inorder l ++ inorder r.
Proof. induction l as [|p l IHl r' IHr]; simpl; [done|]. by rewrite IHr, <-app_assoc. Qed.

Lemma hang_right_leaf t : hang_right t Leaf = t.
Proof. induction t as [|p l IHl r IHr]; simpl; [done|]. by rewrite IHr. Qed.

Lemma elem_of_add key n t q : q ∈ inorder (tree_add key n t) ↔ q = n ∨ q ∈ inorder t.
Proof.
  induction t as [|p l IHl r IHr]; simpl; [set_solver|].
  case_match; simpl; rewrite !elem_of_app, !elem_of_cons; rewrite ?IHl, ?IHr; naive_solver.
Qed.

Lemma bst_add key n t : bst key t → bst key (tree_add key n t).
Proof.
  induction t as [|p l IHl r IHr]; simpl; [set_solver|].
  intros (Hl & Hr & Hbl & Hbr). destruct (Z.ltb_spec (key p) (key n)); simpl;
    split_and!; auto; intros q [->|Hq]%elem_of_add; auto; lia.
Qed.

Lemma bst_hang_right key l r :
  (∀ p q, p ∈ inorder l → q ∈ inorder r → key p < key q) →
  bst key l → bst key r → bst key (hang_right l r).
Proof.
  induction l as [|p l IHl r' IHr]; simpl; [done|]. intros H (Hl & Hr & Hbl & Hbr) Hb.
  split_and!; [done| |done|].
  - intros q. rewrite inorder_hang_right, elem_of_app. intros [?|?]; [auto|].
    apply H; set_solver.
  - apply IHr; [|done..]. intros. apply H; set_solver.
Qed.

Lemma elem_of_del key n t q : q ∈ inorder (tree_del key n t) → q ∈ inorder t.
Proof.
  induction t as [|p l IHl r IHr]; simpl; [done|].
  case_decide; [rewrite inorder_hang_right; set_solver|].
  case_match; simpl; rewrite !elem_of_app, !elem_of_cons; naive_solver.
Qed.

Lemma bst_del key n t : bst key t → bst key (tree_del key n t).
Proof.
  induction t as [|p l IHl r IHr]; simpl; [done|]. intros (Hl & Hr & Hbl & Hbr).
  case_decide as E.
  - apply bst_hang_right; [|done..]. intros a b Ha Hb. specialize (Hl a Ha). specialize (Hr b Hb). lia.
  - case_match; simpl; split_and!; auto; intros q Hq%elem_of_del; auto.
Qed.

(** The node is found where the keys lead, and leaves the traversal. *)
Lemma inorder_del key n t :
  bst key t → n ∈ inorder t →
  ∃ l1 l2, inorder t = l1 ++ n :: l2 ∧ inorder (tree_del key n t) = l1 ++ l2.
Proof.
  induction t as [|p l IHl r IHr]; simpl; [set_solver|]. intros (Hl & Hr & Hbl & Hbr) Hn.
  case_decide as E.
  { subst. exists (inorder l), (inorder r). by rewrite inorder_hang_right. }
  destruct (Z.ltb_spec (key p) (key n)) as [Hlt|Hge]; simpl.
  - destruct IHr as (l1 & l2 & -> & ->); [done| |].
    { rewrite elem_of_app, elem_of_cons in Hn. destruct Hn as [Hn|[?|?]]; [|congruence|done].
      specialize (Hl n Hn). lia. }
    exists (inorder l ++ p :: l1), l2. by rewrite <-!app_assoc.
  - destruct IHl as (l1 & l2 & -> & ->); [done| |].
    { rewrite elem_of_app, elem_of_cons in Hn. destruct Hn as [?|[?|Hn]]; [done|congruence|].
      specialize (Hr n Hn). lia. }
    exists l1, (l2 ++ p :: inorder r). by rewrite <-!app_assoc.
Qed.

(** ** The code against the reference *)

(** Cells of a tree hanging off [c] that nothing else shares. *)
Definition owned (c : Z) (t : tree) : Prop := NoDup (c :: tcells t).

Lemma owned_node c p l r :
  owned c (Node p l r) →
  owned (node_left p) l ∧ owned (node_right p) r ∧ c ≠ node_left p ∧ c ≠ node_right p ∧
  c ∉ tcells l ∧ c ∉ tcells r ∧
  (∀ x, x = node_left p ∨ x ∈ tcells l → x ≠ node_right p ∧ x ∉ tcells r).
Proof.
  unfold owned. simpl. rewrite !list.NoDup_cons, !not_elem_of_cons, list.NoDup_app, !not_elem_of_app.
  intros ((? & ? & ? & ?) & (? & ? & ?) & (? & ?) & ? & Hdj & ?).
  split_and!; auto; [rewrite list.NoDup_cons; auto..|].
  intros x [->|Hx]; [auto|]. split; [congruence|]. intros Hx'. by apply (Hdj x).
Qed.

Section spec.
Context (comp : Z → Z → M Z) (key : Z → Z).
Implicit Types (m : gmap Z Z) (t : tree).

(** In the memory [m], [comp] orders the new node [n] against the nodes of
    [t] by their keys. *)
Definition comp_ok m n t : Prop :=
  ∀ q, q ∈ inorder t → ∃ v, comp (m.@(node_data n)) q m = Ok v m ∧
    (0 < v ↔ key q < key n) ∧ (v = 0 ↔ key q = key n).

Lemma comp_ok_sub m n t t' : (∀ q, q ∈ inorder t' → q ∈ inorder t) → comp_ok m n t → comp_ok m n t'.
Proof. unfold comp_ok. eauto. Qed.

Definition fresh n c t : Prop :=
  n ≠ 0 ∧ ∀ x, x = c ∨ x ∈ tcells t → x ≠ node_left n ∧ x ≠ node_right n.

(** What an update of the tree at [c] may write. *)
Definition tree_frame n c t m m' : Prop :=
  ∀ x, x ≠ c → x ∉ tcells t → x ≠ node_left n → x ≠ node_right n → m'.@x = m.@x.

(** Rebuilding a node after one of its subtrees changed. *)
Lemma rebuild_right n c p l r r' m m' :
  tree_at m c (Node p l r) → owned c (Node p l r) → fresh n c (Node p l r) →
  tree_at m' (node_right p) r' → tree_frame n (node_right p) r m m' →
  tree_at m' c (Node p l r') ∧ tree_frame n c (Node p l r) m m'.
Proof.
  intros (Hc & Hp & Hl & Hr) Hown [Hn0 Hfresh] Hr' Hfr.
  apply owned_node in Hown as (Hol & Hor & H1 & H2 & H3 & H4 & Hdj). simpl in Hfresh.
  split; [simpl; split_and!; [|done| |done]|].
  - rewrite Hfr; [done|done|done|apply Hfresh; auto..].
  - eapply tree_at_frame; [|done]. intros x Hx. destruct (Hdj x Hx).
    apply Hfr; [done|done|apply Hfresh; set_solver..].
  - intros x Hx1 Hx2 Hx3 Hx4. simpl in Hx2. apply Hfr; set_solver.
Qed.

Lemma rebuild_left n c p l r l' m m' :
  tree_at m c (Node p l r) → owned c (Node p l r) → fresh n c (Node p l r) →
  tree_at m' (node_left p) l' → tree_frame n (node_left p) l m m' →
  tree_at m' c (Node p l' r) ∧ tree_frame n c (Node p l r) m m'.
Proof.
  intros (Hc & Hp & Hl & Hr) Hown [Hn0 Hfresh] Hl' Hfr.
  apply owned_node in Hown as (Hol & Hor & H1 & H2 & H3 & H4 & Hdj). simpl in Hfresh.
  split; [simpl; split_and!; [|done|done|]|].
  - rewrite Hfr; [done|done|done|apply Hfresh; auto..].
  - eapply tree_at_frame; [|done]. intros x Hx.
    apply Hfr; [| |apply Hfresh; set_solver..]; intros Hx';
      (destruct (Hdj x) as [? ?]; [auto|]; destruct Hx; congruence).
  - intros x Hx1 Hx2 Hx3 Hx4. simpl in Hx2. apply Hfr; set_solver.
Qed.

Lemma fresh_node n c p l r :
  fresh n c (Node p l r) → fresh n (node_left p) l ∧ fresh n (node_right p) r.
Proof. intros [? H]. simpl in H. split; (split; [done|]); intros x Hx; apply H; set_solver. Qed.

Lemma btree_add_ok m c t n allowdup fuel :
  tree_at m c t → owned c t → fresh n c t → comp_ok m n t →
  (height t < fuel)%nat → allowdup ≠ 0 ∨ (∀ q, q ∈ inorder t → key q ≠ key n) →
  ∃ m', btree_add comp allowdup fuel c n m = Ok 0 m' ∧ tree_at m' c (tree_add key n t) ∧
    tree_frame n c t m m'.
Proof.
  revert c fuel. induction t as [|p l IHl r IHr]; intros c [|fuel] Ht Hown Hfresh Hcomp Hf Hdup;
    simpl in Hf; try lia; cbn [btree_add]; mrun.
  - simpl in Ht. rewrite Ht. simpl. mrun.
    destruct Hfresh as [Hn0 Hfr]. destruct (Hfr c) as [? ?]; [auto|].
    assert (node_left n ≠ node_right n) by (unfold node_left, node_right; lia).
    eexists. split; [done|]. split.
    + simpl. rewrite !rd_wr_ne, rd_wr_eq by done. split_and!; [done|done| |].
      * rewrite rd_wr_ne by done. apply rd_wr_eq.
      * apply rd_wr_eq.
    + intros x ? ? ? ?. by rewrite !rd_wr_ne by congruence.
  - pose proof Ht as (Hc & Hp & Htl & Htr). rewrite Hc, (proj2 (Z.eqb_neq p 0)) by done. mrun.
    destruct (Hcomp p) as (v & Hv & Hlt & Heq); [simpl; set_solver|].
    erewrite bind_ok by done. apply fresh_node in Hfresh as Hfr'. destruct Hfr' as [Hfl Hfrr].
    apply owned_node in Hown as Hown'. destruct Hown' as (Hol & Hor & _).
    assert ((allowdup =? 0) && (0 =? v) = false) as ->.
    { destruct Hdup as [?|Hd]; [lia|]. specialize (Hd p ltac:(simpl; set_solver)). lia. }
    destruct (Z.ltb_spec 0 v) as [Hpos|Hneg]; simpl.
    + rewrite (proj2 (Z.ltb_lt (key p) (key n))) by tauto.
      destruct (IHr (node_right p) fuel) as (m' & E & Ht' & Hfr); [done..| |lia| |].
      { eapply comp_ok_sub; [|done]. simpl. set_solver. }
      { destruct Hdup as [|Hd]; [auto|]. right. intros q Hq. apply Hd. simpl. set_solver. }
      exists m'. split; [done|]. by eapply rebuild_right.
    + rewrite (proj2 (Z.ltb_ge (key p) (key n))) by lia.
      destruct (IHl (node_left p) fuel) as (m' & E & Ht' & Hfr); [done..| |lia| |].
      { eapply comp_ok_sub; [|done]. simpl. set_solver. }
      { destruct Hdup as [|Hd]; [auto|]. right. intros q Hq. apply Hd. simpl. set_solver. }
      exists m'. split; [done|]. by eapply rebuild_left.
Qed.

Lemma btree_add_dup m c t n fuel q :
  tree_at m c t → bst key t → comp_ok m n t → (height t < fuel)%nat →
  q ∈ inorder t → key q = key n → btree_add comp 0 fuel c n m = Ok (-1) m.
Proof.
  revert c fuel. induction t as [|p l IHl r IHr]; intros c [|fuel] Ht Hb Hcomp Hf Hq Hk;
    simpl in Hf, Hq; try lia; [set_solver|]. cbn [btree_add]. mrun.
  pose proof Ht as (Hc & Hp & Htl & Htr). rewrite Hc, (proj2 (Z.eqb_neq p 0)) by done. mrun.
  destruct (Hcomp p) as (v & Hv & Hlt & Heq); [simpl; set_solver|]. erewrite bind_ok by done.
  destruct Hb as (Hl & Hr & Hbl & Hbr). rewrite elem_of_app, elem_of_cons in Hq.
  destruct (Z.eqb_spec 0 v) as [|Hv0]; [done|]. simpl.
  destruct (Z.ltb_spec 0 v).
  - apply IHr; [done|done| |lia| |done].
    + eapply comp_ok_sub; [|done]. simpl. set_solver.
    + destruct Hq as [Hq|[->|?]]; [|lia|done]. specialize (Hl q Hq). lia.
  - apply IHl; [done|done| |lia| |done].
    + eapply comp_ok_sub; [|done]. simpl. set_solver.
    + destruct Hq as [?|[->|Hq]]; [done|lia|]. specialize (Hr q Hq). lia.
Qed.

(** The cell reached by going right until NULL. *)
Fixpoint rcell (c : Z) (t : tree) : Z :=
  match t with
  | Leaf => c
  | Node p _ r => rcell (node_right p) r
  end.

Lemma rcell_in c t : rcell c t = c ∨ rcell c t ∈ tcells t.
Proof.
  revert c. induction t as [|p l IHl r IHr]; intros c; simpl; [auto|].
  destruct (IHr (node_right p)) as [->|H]; set_solver.
Qed.

Lemma rightmost_spec m c t fuel :
  tree_at m c t → (height t < fuel)%nat → rightmost fuel c m = Ok (rcell c t) m.
Proof.
  revert c fuel. induction t as [|p l IHl r IHr]; intros c [|fuel] Ht Hf; simpl in *; try lia; mrun.
  - by rewrite Ht.
  - destruct Ht as (-> & Hp & _ & Hr). rewrite (proj2 (Z.eqb_neq p 0)) by done.
    apply IHr; [done|lia].
Qed.

Lemma hang_right_at m c c' l r :
  tree_at m c l → tree_at m c' r → NoDup (c :: tcells l ++ tcells r) →
  tree_at (m.[rcell c l <- m.@c']) c (hang_right l r).
Proof.
  revert c. induction l as [|p ll IHl lr IHr]; intros c Hl Hr Hnd; simpl in *.
  - rewrite list.NoDup_cons in Hnd. destruct Hnd as [Hc _].
    destruct r as [|q rl rr]; simpl in *; rewrite rd_wr_eq; [done|].
    destruct Hr as (? & ? & ? & ?). split_and!; [done|done|apply tree_at_wr; set_solver..].
  - destruct Hl as (Hc & Hp & Hll & Hlr).
    rewrite !list.NoDup_cons, !not_elem_of_cons, !not_elem_of_app in Hnd.
    destruct Hnd as ((H1 & H2 & (H3 & H4) & H5) & (H6 & (H7 & H8) & H9) & ((H10 & H11) & H12) & Hnd).
    apply list.NoDup_app in Hnd as (Hnd1 & Hdj1 & Hnd2).
    apply list.NoDup_app in Hnd1 as (Hnd3 & Hdj2 & Hnd4).
    pose proof (rcell_in (node_right p) lr) as Hrc.
    split_and!; [|done| |].
    + rewrite rd_wr_ne; [done|]. intros E. rewrite E in Hrc. by destruct Hrc.
    + apply tree_at_wr; [|intros ?|done].
      * intros E. rewrite E in Hrc. by destruct Hrc.
      * destruct Hrc as [E|?]; [by rewrite E in *|]. by eapply Hdj2.
    + apply IHr; [done..|]. rewrite list.NoDup_cons, not_elem_of_app, list.NoDup_app.
      split_and!; auto. intros x Hx. apply Hdj1. set_solver.
Qed.

(** The four cases of unlinking the root [n] are one. *)
Lemma unlink_spec m c n l r fuel :
  tree_at m c (Node n l r) → owned c (Node n l r) → (height l < fuel)%nat →
  ∃ m', (if negb (m.@(node_left n) =? 0) && negb (m.@(node_right n) =? 0) then
           _ ← st c (m.@(node_left n));
           x ← rightmost fuel (node_left n);
           r ← ld (node_right n);
           st x r
         else if negb (m.@(node_left n) =? 0) then st c (m.@(node_left n))
         else if negb (m.@(node_right n) =? 0) then st c (m.@(node_right n))
         else st c 0) m = Ok tt m' ∧
    tree_at m' c (hang_right l r) ∧
    ∀ x, x ≠ c → x ∉ tcells l → m'.@x = m.@x.
Proof.
  intros (Hc & Hn & Hl & Hr) Hown Hf. unfold owned in Hown. simpl in Hown.
  pose proof Hown as Hown0. apply owned_node in Hown0 as (Hol & Hor & H1 & H2 & H3 & H4 & Hdj).
  destruct l as [|pl ll lr].
  - simpl in Hl. rewrite Hl. simpl. exists (m.[c <- m.@(node_right n)]). split_and!.
    + destruct (Z.eqb_spec (m.@(node_right n)) 0) as [E|]; simpl; [by rewrite E|done].
    + destruct r as [|pr rl rr]; simpl in *; rewrite rd_wr_eq; [done|].
      destruct Hr as (? & ? & ? & ?). split_and!; [done|done|apply tree_at_wr; set_solver..].
    + intros x Hx _. by apply rd_wr_ne.
  - pose proof Hl as (Hl0 & Hpl & _). rewrite Hl0, (proj2 (Z.eqb_neq pl 0)) by done. simpl.
    set (m1 := m.[c <- pl]).
    assert (tree_at m1 (node_left n) (Node pl ll lr)) as Hl1 by by apply tree_at_wr.
    assert (tree_at m1 (node_right n) r) as Hr1 by by apply tree_at_wr.
    assert (tree_at m1 c (Node pl ll lr)) as Hlc.
    { simpl in Hl1 |- *. destruct Hl1 as (_ & ? & ? & ?). unfold m1. by rewrite rd_wr_eq. }
    destruct r as [|pr rl rr].
    + simpl in Hr. rewrite Hr. simpl. exists m1. rewrite hang_right_leaf.
      split; [done|]. split; [exact Hlc|].
      intros x Hx _. by apply rd_wr_ne.
    + pose proof Hr as (Hr0 & Hpr & _). rewrite Hr0, (proj2 (Z.eqb_neq pr 0)) by done.
      cbn [negb andb]. mrun. erewrite bind_ok; [|by apply rightmost_spec]. mrun.
      eexists. split; [done|].
      change (rcell (node_left n) (Node pl ll lr)) with (rcell c (Node pl ll lr)). split.
      * apply (hang_right_at m1 c (node_right n) (Node pl ll lr) (Node pr rl rr)); [done..|].
        rewrite list.NoDup_cons in Hown |- *. rewrite !list.NoDup_cons in Hown. set_solver.
      * intros x Hx Hx'. rewrite rd_wr_ne; [by apply rd_wr_ne|]. intros E. apply Hx'.
        rewrite <-E. simpl. destruct (rcell_in (node_right pl) lr) as [->|?]; set_solver.
Qed.

Lemma btree_delete_ok m c t n fuel :
  tree_at m c t → owned c t → comp_ok m n t → bst key t → n ∈ inorder t →
  (height t < fuel)%nat →
  ∃ m', btree_delete comp fuel c n m = Ok n m' ∧ tree_at m' c (tree_del key n t) ∧
    ∀ x, x ≠ c → x ∉ tcells t → m'.@x = m.@x.
Proof.
  revert c fuel. induction t as [|p l IHl r IHr]; intros c [|fuel] Ht Hown Hcomp Hb Hn Hf;
    simpl in Hf, Hn; try lia; [set_solver|]. cbn [btree_delete tree_del]. mrun.
  pose proof Ht as (Hc & Hp & Htl & Htr). rewrite Hc, (proj2 (Z.eqb_neq p 0)) by done.
  destruct Hb as (Hl & Hr & Hbl & Hbr).
  apply owned_node in Hown as Hown'. destruct Hown' as (Hol & Hor & H1 & H2 & H3 & H4 & Hdj).
  destruct (decide (p = n)) as [->|Hne].
  { rewrite Z.eqb_refl. mrun.
    destruct (unlink_spec m c n l r fuel) as (m' & E & Ht' & Hfr); [done|done|lia|].
    erewrite bind_ok by done. exists m'. split_and!; [done|done|].
    intros x Hx Hx'. apply Hfr; [done|]. simpl in Hx'. set_solver. }
  rewrite (proj2 (Z.eqb_neq n p)) by done. mrun.
  destruct (Hcomp p) as (v & Hv & Hlt & Heq); [simpl; set_solver|]. erewrite bind_ok by done.
  rewrite elem_of_app, elem_of_cons in Hn.
  destruct (Z.ltb_spec 0 v) as [Hpos|Hneg].
  - rewrite (proj2 (Z.ltb_lt (key p) (key n))) by tauto.
    destruct (IHr (node_right p) fuel) as (m' & E & Ht' & Hfr); [done|done| |done| |lia|].
    { eapply comp_ok_sub; [|done]. simpl. set_solver. }
    { destruct Hn as [Hn|[?|?]]; [|congruence|done]. specialize (Hl n Hn). lia. }
    exists m'. split_and!; [done| |intros x ? Hx; apply Hfr; simpl in Hx; set_solver].
    simpl. split_and!; [by rewrite Hfr|done| |done].
    eapply tree_at_frame; [|done]. intros x Hx. destruct (Hdj x Hx). by apply Hfr.
  - rewrite (proj2 (Z.ltb_ge (key p) (key n))) by lia.
    destruct (IHl (node_left p) fuel) as (m' & E & Ht' & Hfr); [done|done| |done| |lia|].
    { eapply comp_ok_sub; [|done]. simpl. set_solver. }
    { destruct Hn as [?|[?|Hn]]; [done|congruence|]. specialize (Hr n Hn). lia. }
    exists m'. split_and!; [done| |intros x ? Hx; apply Hfr; simpl in Hx; set_solver].
    simpl. split_and!; [by rewrite Hfr|done|done|].
    eapply tree_at_frame; [|done]. intros x Hx. apply Hfr; intros Hx';
      (destruct (Hdj x) as [? ?]; [auto|]; destruct Hx; congruence).
Qed.

End spec.

(** ** Searching

    [v q] is what [cond] answers at the node [q]: 0 for a hit, positive to go
    right, negative to go left; [leads v t] says that a hit is never on the
    other side. *)

Fixpoint leads (v : Z → Z) (t : tree) : Prop :=
  match t with
  | Leaf => True
  | Node p l r =>
      (0 < v p → ∀ q, q ∈ inorder l → v q ≠ 0) ∧ (v p < 0 → ∀ q, q ∈ inorder r → v q ≠ 0) ∧
      leads v l ∧ leads v r
  end.

Definition search_result (v : Z → Z) (t : tree) (q : Z) : Prop :=
  (q ≠ 0 ∧ q ∈ inorder t ∧ v q = 0) ∨ (q = 0 ∧ ∀ p, p ∈ inorder t → v p ≠ 0).

Lemma btree_search_ok cond data v m c t fuel :
  tree_at m c t → leads v t → (height t < fuel)%nat →
  (∀ q, q ∈ inorder t → cond (m.@(node_data q)) data m = Ok (v q) m) →
  ∃ q, btree_search cond data fuel (m.@c) m = Ok q m ∧ search_result v t q.
Proof.
  revert c fuel. induction t as [|p l IHl r IHr]; intros c [|fuel] Ht Hld Hf Hcond;
    simpl in Hf; try lia; cbn [btree_search].
  - simpl in Ht. rewrite Ht. exists 0. split; [done|]. right. set_solver.
  - destruct Ht as (-> & Hp & Htl & Htr). destruct Hld as (Hgt & Hlt & Hll & Hlr).
    rewrite (proj2 (Z.eqb_neq p 0)) by done. mrun.
    erewrite bind_ok by (apply Hcond; simpl; set_solver).
    destruct (Z.eqb_spec 0 (v p)) as [E|Hne].
    { exists p. split; [done|]. left. simpl. set_solver. }
    destruct (Z.ltb_spec 0 (v p)); mrun.
    + destruct (IHr (node_right p) fuel) as (q & E & Hq); [done|done|lia| |].
      { intros q Hq. apply Hcond. simpl. set_solver. }
      exists q. split; [done|]. destruct Hq as [(? & ? & ?)|(-> & Hno)].
      * left. simpl. set_solver.
      * right. split; [done|]. intros q. simpl. rewrite elem_of_app, elem_of_cons.
        intros [?|[->|?]]; auto.
    + destruct (IHl (node_left p) fuel) as (q & E & Hq); [done|done|lia| |].
      { intros q Hq. apply Hcond. simpl. set_solver. }
      exists q. split; [done|]. destruct Hq as [(? & ? & ?)|(-> & Hno)].
      * left. simpl. set_solver.
      * right. split; [done|]. intros q. simpl. rewrite elem_of_app, elem_of_cons.
        intros [?|[->|?]]; auto. apply Hlt; [lia|done].
Qed.

(** ** Properties *)

(** C17: [btree_add] with a comparison that orders nodes by a key terminates on
    any search tree and, with enough fuel for the height, either refuses a
    key that is already there (when duplicates are not allowed), changing
    nothing, or links the node in and keeps a search tree of exactly the old
    nodes and the new one, writing only the tree's own links. *)
Theorem btree_add_correct (comp : Z → Z → M Z) (key : Z → Z) (m : gmap Z Z) (c n allowdup : Z)
    (t : tree) (fuel : nat) :
  tree_at m c t → owned c t → bst key t → fresh n c t → comp_ok comp key m n t →
  (height t < fuel)%nat →
  (allowdup = 0 ∧ (∃ q, q ∈ inorder t ∧ key q = key n) ∧
     btree_add comp allowdup fuel c n m = Ok (-1) m) ∨
  (∃ m' t', btree_add comp allowdup fuel c n m = Ok 0 m' ∧ tree_at m' c t' ∧ bst key t' ∧
     (∀ q, q ∈ inorder t' ↔ q = n ∨ q ∈ inorder t) ∧ tree_frame n c t m m').
Proof.
  intros Ht Hown Hb Hfr Hc Hf.
  assert (allowdup ≠ 0 ∨ (∀ q, q ∈ inorder t → key q ≠ key n) ∨
    allowdup = 0 ∧ ∃ q, q ∈ inorder t ∧ key q = key n) as [Hd|[Hd|[-> (q & Hq & Hk)]]].
  { destruct (decide (allowdup = 0)); [right|by left].
    destruct (decide (Exists (λ q, key q = key n) (inorder t))) as [He|He].
    - right. split; [done|]. apply Exists_exists in He as (q & ? & ?). eauto.
    - left. intros q Hq Hk. apply He, Exists_exists. eauto. }
  1, 2: right; destruct (btree_add_ok comp key m c t n allowdup fuel) as (m' & E & Ht' & Hfr');
    [by auto..|]; exists m', (tree_add key n t); split_and!;
    [done|done|by apply bst_add|intros q; apply elem_of_add|done].
  left. split_and!; [done|by exists q|]. by eapply btree_add_dup.
Qed.

(** Nodes 1000, 2000 and 3000 with the keys 50, 30 and 70 behind their data
    pointers, the root in the cell 8, and the unlinked node 4000 (key 60). *)
Definition tree_ex : gmap Z Z :=
  ∅.[8 <- 1000].[1000 <- 2000].[1008 <- 3000]
   .[1016 <- 5001].[2016 <- 5002].[3016 <- 5003].[4016 <- 5004]
   .[5001 <- 50].[5002 <- 30].[5003 <- 70].[5004 <- 60].
Definition tree_ex_t : tree := Node 1000 (Node 2000 Leaf Leaf) (Node 3000 Leaf Leaf).
Definition key_ex (q : Z) : Z := tree_ex.@(tree_ex.@(node_data q)).
(** Compare the value at the data pointer with that of the node. *)
Definition comp_ex (d q : Z) : M Z :=
  a ← ld d; qd ← ld (node_data q); b ← ld qd; mret (a - b).

Lemma comp_ok_ex n : comp_ok comp_ex key_ex tree_ex n tree_ex_t.
Proof.
  intros q _. exists (key_ex n - key_ex q). unfold comp_ex. mrun.
  split; [done|]. lia.
Qed.

Lemma bst_ex : bst key_ex tree_ex_t.
Proof.
  simpl. split_and!; try done; intros q Hq;
  first [by apply elem_of_nil in Hq|apply list_elem_of_singleton in Hq as ->; by vm_compute].
Qed.

Lemma btree_add_witness :
  (0 = 0 ∧ (∃ q, q ∈ inorder tree_ex_t ∧ key_ex q = key_ex 4000) ∧
     btree_add comp_ex 0 5 8 4000 tree_ex = Ok (-1) tree_ex) ∨
  (∃ m' t', btree_add comp_ex 0 5 8 4000 tree_ex = Ok 0 m' ∧ tree_at m' 8 t' ∧ bst key_ex t' ∧
     (∀ q, q ∈ inorder t' ↔ q = 4000 ∨ q ∈ inorder tree_ex_t) ∧
     tree_frame 4000 8 tree_ex_t tree_ex m').
Proof.
  apply (btree_add_correct comp_ex key_ex tree_ex 8 4000 0 tree_ex_t 5).
  - by vm_compute.
  - unfold owned. simpl. apply (bool_decide_unpack _). by vm_compute.
  - apply bst_ex.
  - split; [done|]. simpl. unfold node_left, node_right. intros x Hx.
    rewrite !elem_of_cons, elem_of_nil in Hx. lia.
  - apply comp_ok_ex.
  - simpl. lia.
Defined.

(** C18: [btree_delete] of a node of a search tree terminates, returns that
    node, removes exactly it from the in-order sequence (the order of all
    the others is kept), leaves a search tree and writes only the tree's own
    links. *)
Theorem btree_delete_correct (comp : Z → Z → M Z) (key : Z → Z) (m : gmap Z Z) (c n : Z)
    (t : tree) (fuel : nat) :
  tree_at m c t → owned c t → bst key t → comp_ok comp key m n t → n ∈ inorder t →
  (height t < fuel)%nat →
  ∃ m' t' l1 l2, btree_delete comp fuel c n m = Ok n m' ∧ tree_at m' c t' ∧ bst key t' ∧
    inorder t = l1 ++ n :: l2 ∧ inorder t' = l1 ++ l2 ∧
    ∀ x, x ≠ c → x ∉ tcells t → m'.@x = m.@x.
Proof.
  intros Ht Hown Hb Hc Hn Hf.
  destruct (btree_delete_ok comp key m c t n fuel) as (m' & E & Ht' & Hfr); [done..|].
  destruct (inorder_del key n t) as (l1 & l2 & E1 & E2); [done..|].
  exists m', (tree_del key n t), l1, l2. split_and!; try done. by apply bst_del.
Qed.

Lemma btree_delete_witness :
  ∃ m' t' l1 l2, btree_delete comp_ex 5 8 1000 tree_ex = Ok 1000 m' ∧ tree_at m' 8 t' ∧
    bst key_ex t' ∧ inorder tree_ex_t = l1 ++ 1000 :: l2 ∧ inorder t' = l1 ++ l2 ∧
    ∀ x, x ≠ 8 → x ∉ tcells tree_ex_t → m'.@x = tree_ex.@x.
Proof.
  apply (btree_delete_correct comp_ex key_ex tree_ex 8 1000 tree_ex_t 5).
  - by vm_compute.
  - unfold owned. simpl. apply (bool_decide_unpack _). by vm_compute.
  - apply bst_ex.
  - apply comp_ok_ex.
  - simpl. set_solver.
  - simpl. lia.
Defined.
