(* ===== verification/Pgt.v ===== *)
(** * Page tables: kernel/arch/x86_64/pgt.c and the arch_memory_* functions

    A [pgt_t] holds the physical address of the PML4 ([cr3], offset 0), the
    offset of the linear mapping ([p2v], 8) and a list of spare pages
    ([free], 16).  Tables are pages of 512 eight-byte entries, reached
    through the linear mapping.  The one-bit fields of the entry unions are
    bits of the 64-bit entry: present 0, rw 1, us 2, page 7, g 8.

    [invlpg] only drops cached translations of the processor; the model has
    no TLB, so it has no effect here. *)

From S2P Require Import Prelude CMonad.

Definition pgt_cr3 (pgt : Z) : Z := pgt.
Definition pgt_p2v (pgt : Z) : Z := pgt + 8.
Definition pgt_free (pgt : Z) : Z := pgt + 16.

Definition MASK_PAGE (a : Z) : Z := Z.land a (u64 (Z.lnot 0xfff)).
Definition MASK_SUPERPAGE (a : Z) : Z := Z.land a (u64 (Z.lnot 0x1fffff)).

(** Bit fields of an entry. *)
Definition bit_present : Z := 0.
Definition bit_rw : Z := 1.
Definition bit_us : Z := 2.
Definition bit_page : Z := 7.
Definition bit_g : Z := 8.
Definition getb (v i : Z) : bool := Z.testbit v i.
(** Assignment to a one-bit field keeps the lowest bit of the value. *)
Definition setb (v i b : Z) : Z := if Z.odd b then Z.setbit v i else Z.clearbit v i.

(** The cell of [table[idx]]. *)
Definition entry (table idx : Z) : Z := table + 8 * idx.

Definition _v2p (p2v a : Z) : Z := u64 (a - p2v).
Definition _p2v (p2v p : Z) : Z := u64 (p + p2v).

Definition pgt_pop (pgt : Z) : M Z :=
  pg ← ld (pgt_free pgt);
  _ ← (if negb (pg =? 0) then n ← ld pg; st (pgt_free pgt) n else mret tt);
  mret pg.

Definition pgt_push (pgt pg : Z) : M unit :=
  f ← ld (pgt_free pgt);
  _ ← st pg f;
  st (pgt_free pgt) pg.

Definition pgt_init (pgt buf nr p2v : Z) : M unit :=
  _ ← kassert (1 <=? nr);
  _ ← st (pgt_p2v pgt) p2v;
  _ ← st (pgt_free pgt) 0;
  _ ← memset0 buf 4096;
  _ ← st (pgt_cr3 pgt) (_v2p p2v buf);
  for_up (Z.to_nat (nr - 1)) 1 (λ i, pgt_push pgt (buf + i * 4096)).

Definition pgt_v2p (pgt virtual : Z) : M Z :=
  cr3 ← ld (pgt_cr3 pgt);
  p2v ← ld (pgt_p2v pgt);
  let p := MASK_PAGE cr3 in
  let idx := Z.land (Z.shiftr virtual 39) 0x1ff in
  let pml4 := _p2v p2v p in
  e4 ← ld (entry pml4 idx);
  if negb (getb e4 bit_present) then mret 0 else
  let p := MASK_PAGE e4 in
  let idx := Z.land (Z.shiftr virtual 30) 0x1ff in
  let pdpt := _p2v p2v p in
  e3 ← ld (entry pdpt idx);
  if negb (getb e3 bit_present) then mret 0 else
  if getb e3 bit_page then mret (MASK_SUPERPAGE e3) else
  e30 ← ld (entry pdpt 0);
  let p := MASK_PAGE e30 in
  let idx := Z.land (Z.shiftr virtual 21) 0x1ff in
  let pd := _p2v p2v p in
  e2 ← ld (entry pd idx);
  if negb (getb e2 bit_present) then mret 0 else
  if getb e2 bit_page then mret (MASK_SUPERPAGE e2) else
  e20 ← ld (entry pd 0);
  let p := MASK_PAGE e20 in
  let idx := Z.land (Z.shiftr virtual 12) 0x1ff in
  let pt := _p2v p2v p in
  e1 ← ld (entry pt idx);
  if negb (getb e1 bit_present) then mret 0 else
  mret (MASK_PAGE e1).

(** "Not present, then add a page here": the table behind [table[idx]], taken
    from the spare pages when there is none; NULL when they have run out.
    The same lines occur at every level of [pgt_map], [pgt_prepare] and
    [pgt_refer]. *)
Definition next_table (pgt table idx : Z) : M Z :=
  p2v ← ld (pgt_p2v pgt);
  e ← ld (entry table idx);
  if negb (getb e bit_present) then
    t ← pgt_pop pgt;
    if t =? 0 then mret 0 else
    _ ← memset0 t 4096;
    e ← ld (entry table idx); _ ← st (entry table idx) (setb e bit_present 1);
    e ← ld (entry table idx); _ ← st (entry table idx) (setb e bit_rw 1);
    e ← ld (entry table idx); _ ← st (entry table idx) (setb e bit_us 1);
    e ← ld (entry table idx); _ ← st (entry table idx) (Z.lor e (_v2p p2v t));
    mret t
  else mret (_p2v p2v (MASK_PAGE e)).

Definition pgt_map (pgt virtual physical superpage global rw user : Z) : M Z :=
  let '(virtual, physical) :=
    if negb (superpage =? 0)
    then (mask_down (2 ^ 21) virtual, mask_down (2 ^ 21) physical)
    else (mask_down (2 ^ 12) virtual, mask_down (2 ^ 12) physical) in
  cr3 ← ld (pgt_cr3 pgt);
  p2v ← ld (pgt_p2v pgt);
  let pml4 := _p2v p2v (MASK_PAGE cr3) in
  pdpt ← next_table pgt pml4 (Z.land (Z.shiftr virtual 39) 0x1ff);
  if pdpt =? 0 then mret (-1) else
  pd ← next_table pgt pdpt (Z.land (Z.shiftr virtual 30) 0x1ff);
  if pd =? 0 then mret (-1) else
  let idx := Z.land (Z.shiftr virtual 21) 0x1ff in
  if negb (superpage =? 0) then
    e ← ld (entry pd idx);
    if getb e bit_present then mret (-1) else
    _ ← st (entry pd idx) (setb e bit_present 1);
    e ← ld (entry pd idx); _ ← st (entry pd idx) (setb e bit_page 1);
    e ← ld (entry pd idx); _ ← st (entry pd idx) (setb e bit_rw rw);
    e ← ld (entry pd idx); _ ← st (entry pd idx) (setb e bit_us user);
    e ← ld (entry pd idx); _ ← st (entry pd idx) (setb e bit_g global);
    e ← ld (entry pd idx); _ ← st (entry pd idx) (Z.lor e physical);
    mret 0
  else
    pt ← next_table pgt pd idx;
    if pt =? 0 then mret (-1) else
    let idx := Z.land (Z.shiftr virtual 12) 0x1ff in
    e ← ld (entry pt idx);
    if getb e bit_present then mret (-1) else
    _ ← st (entry pt idx) (setb e bit_present 1);
    e ← ld (entry pt idx); _ ← st (entry pt idx) (setb e bit_rw rw);
    e ← ld (entry pt idx); _ ← st (entry pt idx) (setb e bit_us user);
    e ← ld (entry pt idx); _ ← st (entry pt idx) (setb e bit_g global);
    e ← ld (entry pt idx); _ ← st (entry pt idx) (Z.lor e physical);
    mret 0.

(** [for ( i = 0; i < 512; i++ ) if ( pt[i].page.present )]: is one present? *)
Fixpoint any_present (k : nat) (m : gmap Z Z) (pt i : Z) : bool :=
  match k with
  | O => false
  | S k => if getb (m.@(entry pt i)) bit_present then true else any_present k m pt (i + 1)
  end.

Definition pgt_unmap (pgt virtual superpage : Z) : M Z :=
  let virtual := if negb (superpage =? 0) then mask_down (2 ^ 21) virtual
                 else mask_down (2 ^ 12) virtual in
  cr3 ← ld (pgt_cr3 pgt);
  p2v ← ld (pgt_p2v pgt);
  let pml4 := _p2v p2v (MASK_PAGE cr3) in
  e4 ← ld (entry pml4 (Z.land (Z.shiftr virtual 39) 0x1ff));
  if negb (getb e4 bit_present) then mret (-1) else
  let pdpt := _p2v p2v (MASK_PAGE e4) in
  e3 ← ld (entry pdpt (Z.land (Z.shiftr virtual 30) 0x1ff));
  if negb (getb e3 bit_present) then mret (-1) else
  let pd := _p2v p2v (MASK_PAGE e3) in
  let idx := Z.land (Z.shiftr virtual 21) 0x1ff in
  e2 ← ld (entry pd idx);
  if negb (getb e2 bit_present) then mret (-1) else
  if negb (superpage =? 0) then
    if negb (getb e2 bit_page) then mret (-1) else
    _ ← st (entry pd idx) 0;
    mret 0
  else
    let pt := _p2v p2v (MASK_PAGE e2) in
    let idx := Z.land (Z.shiftr virtual 12) 0x1ff in
    e1 ← ld (entry pt idx);
    if negb (getb e1 bit_present) then mret (-1) else
    _ ← st (entry pt idx) 0;
    present ← peek (λ m, Some (any_present 512 m pt 0));
    if (present : bool) then mret 0 else
    _ ← pgt_push pgt pt;
    let idx := Z.land (Z.shiftr virtual 21) 0x1ff in
    _ ← st (entry pd idx) 0;
    mret 0.

Definition pgt_prepare (pgt virtual : Z) : M Z :=
  let virtual := mask_down (2 ^ 30) virtual in
  cr3 ← ld (pgt_cr3 pgt);
  p2v ← ld (pgt_p2v pgt);
  let pml4 := _p2v p2v (MASK_PAGE cr3) in
  pdpt ← next_table pgt pml4 (Z.land (Z.shiftr virtual 39) 0x1ff);
  if pdpt =? 0 then mret (-1) else
  pd ← next_table pgt pdpt (Z.land (Z.shiftr virtual 30) 0x1ff);
  if pd =? 0 then mret (-1) else
  mret 0.

Definition pgt_refer (pgt tgt virtual : Z) : M Z :=
  let virtual := mask_down (2 ^ 30) virtual in
  tcr3 ← ld (pgt_cr3 tgt);
  tp2v ← ld (pgt_p2v tgt);
  let pml4 := _p2v tp2v (MASK_PAGE tcr3) in
  e4 ← ld (entry pml4 (Z.land (Z.shiftr virtual 39) 0x1ff));
  if negb (getb e4 bit_present) then mret (-1) else
  let pdpt := _p2v tp2v (MASK_PAGE e4) in
  e3 ← ld (entry pdpt (Z.land (Z.shiftr virtual 30) 0x1ff));
  if negb (getb e3 bit_present) then mret (-1) else
  let sp := MASK_PAGE e3 in
  cr3 ← ld (pgt_cr3 pgt);
  p2v ← ld (pgt_p2v pgt);
  let pml4 := _p2v p2v (MASK_PAGE cr3) in
  pdpt ← next_table pgt pml4 (Z.land (Z.shiftr virtual 39) 0x1ff);
  if pdpt =? 0 then mret (-1) else
  let idx := Z.land (Z.shiftr virtual 30) 0x1ff in
  e ← ld (entry pdpt idx);
  if getb e bit_present then mret (-1) else
  _ ← st (entry pdpt idx) (setb e bit_present 1);
  e ← ld (entry pdpt idx); _ ← st (entry pdpt idx) (setb e bit_rw 1);
  e ← ld (entry pdpt idx); _ ← st (entry pdpt idx) (setb e bit_us 1);
  e ← ld (entry pdpt idx); _ ← st (entry pdpt idx) (Z.lor e sp);
  mret 0.

(** ** arch.c: the interface handed to the virtual memory manager *)

(** [page_t] fields the mapping functions read. *)
Definition page_physical (p : Z) : Z := p + 8.
Definition page_flags (p : Z) : Z := p + 16.
Definition page_order (p : Z) : Z := p + 19.

Definition SUPERPAGE_ORDER : Z := 9.

(** The map loop: 0 when all [k] pages are mapped, else the index that failed. *)
Fixpoint map_loop (k : nat) (pgt virtual page pagesize superpage global rw user i : Z)
    : M (option Z) :=
  match k with
  | O => mret None
  | S k =>
    physical ← ld (page_physical page);
    ret ← pgt_map pgt (u64 (virtual + pagesize * i)) (u64 (physical + pagesize * i))
            superpage global rw user;
    if ret <? 0 then mret (Some i)
    else map_loop k pgt virtual page pagesize superpage global rw user (i + 1)
  end.

(** [for ( i = i - 1; i >= 0; i-- ) pgt_unmap(...)] *)
Fixpoint unmap_down (k : nat) (pgt virtual pagesize superpage : Z) : M unit :=
  match k with
  | O => mret tt
  | S k =>
    _ ← pgt_unmap pgt (u64 (virtual + pagesize * Z.of_nat k)) superpage;
    unmap_down k pgt virtual pagesize superpage
  end.

Definition page_geometry (order : Z) : Z * Z * Z :=
  if SUPERPAGE_ORDER <=? order then (1, 2 ^ 21, order - SUPERPAGE_ORDER)
  else (0, 4096, order).

Definition arch_memory_map (arch virtual page flags : Z) : M Z :=
  order ← ld (page_order page);
  let '(superpage, pagesize, nr) := page_geometry order in
  let global := if negb (Z.land 0x40 flags =? 0) then 1 else 0 in
  pf ← ld (page_flags page);
  let rw := if negb (Z.land pf 2 =? 0) && (Z.land flags 0x80 =? 0) then 1 else 0 in
  let user := if negb (Z.land 8 flags =? 0) then 1 else 0 in
  r ← map_loop (Z.to_nat (Z.shiftl 1 nr)) arch virtual page pagesize superpage
        global rw user 0;
  match r with
  | None => mret 0
  | Some i => _ ← unmap_down (Z.to_nat i) arch virtual pagesize superpage; mret (-1)
  end.

Definition arch_memory_unmap (arch virtual page : Z) : M Z :=
  order ← ld (page_order page);
  let '(superpage, pagesize, nr) := page_geometry order in
  _ ← for_up (Z.to_nat (Z.shiftl 1 nr)) 0
        (λ i, _ ← pgt_unmap arch (u64 (virtual + pagesize * i)) superpage; mret tt);
  mret 0.

Fixpoint prepare_loop (k : nat) (pgt virtual : Z) : M Z :=
  match k with
  | O => mret 0
  | S k => ret ← pgt_prepare pgt virtual;
           if ret <? 0 then mret (-1) else prepare_loop k pgt virtual
  end.

Definition arch_memory_prepare (arch virtual size : Z) : M Z :=
  if negb (Z.land size (2 ^ 30 - 1) =? 0) then mret (-1)
  else prepare_loop (Z.to_nat (i32 (Z.shiftr size 30))) arch virtual.

Fixpoint refer_loop (k : nat) (pgt tgt virtual i : Z) : M Z :=
  match k with
  | O => mret 0
  | S k => ret ← pgt_refer pgt tgt (u64 (virtual + Z.shiftl i 30));
           if ret <? 0 then mret (-1) else refer_loop k pgt tgt virtual (i + 1)
  end.

Definition arch_memory_refer (arch tgtarch virtual size : Z) : M Z :=
  if negb (Z.land size (2 ^ 30 - 1) =? 0) then mret (-1)
  else refer_loop (Z.to_nat (i32 (Z.shiftr size 30))) arch tgtarch virtual 0.

Definition arch_memory_v2p (arch addr : Z) : M Z := pgt_v2p arch addr.

(** The instructions that load [cr3] and drop a cached translation are
    arguments. *)
Definition pgt_set_cr3 (set_cr3 : Z → M unit) (pgt : Z) : M unit := cr3 ← ld (pgt_cr3 pgt); set_cr3 cr3.
Definition pgt_invalidate (invlpg : Z → M unit) (pgt virtual : Z) : M unit := invlpg virtual.
Definition arch_memory_ctxsw (set_cr3 : Z → M unit) (arch : Z) : M Z := _ ← pgt_set_cr3 set_cr3 arch; mret 0.
