(* ===== verification/PgtTheorems.v ===== *)
(** * Page tables: the hardware walk and the invariant

    [walk] is the processor's translation: four levels of tables, 2 MiB and
    1 GiB pages, permissions combined over the levels.  [pgt_inv] says that a
    [pgt_t] is a tree of distinct table pages with a separate list of spare
    pages.  The lemmas show what each operation of [Pgt] does to the walk. *)

From S2P Require Import Prelude CMonad Pgt.

(** The 9-bit index into the table of level [l] (4 is the PML4). *)
Definition pshift (l : nat) : Z := 9 * Z.of_nat l + 3.
Definition pidx (l : nat) (v : Z) : Z := Z.land (Z.shiftr v (pshift l)) 0x1ff.

(** The address of the frame in a leaf entry of level [l]. *)
Definition frame_of (l : nat) (e : Z) : Z := Z.land e (2 ^ 52 - 1) - Z.land e (2 ^ pshift l - 1).

(** A translation: physical address, writable, user, level of the leaf. *)
Definition translation : Type := Z * bool * bool * nat.

Fixpoint walk (l : nat) (m : gmap Z Z) (p2v tbl v : Z) : option translation :=
  match l with
  | O => None
  | S l' =>
    let e := m.@(entry tbl (pidx l v)) in
    if getb e bit_present then
      if (l =? 1)%nat || ((l <=? 3)%nat && getb e bit_page) then
        Some (frame_of l e + v mod 2 ^ pshift l, getb e bit_rw, getb e bit_us, l)
      else
        '(a, rw, us, k) ← walk l' m p2v (_p2v p2v (MASK_PAGE e)) v;
        Some (a, rw && getb e bit_rw, us && getb e bit_us, k)
    else None
  end.

(** ** Entries *)

(** Flag bits in front of a page-aligned address. *)
Lemma testbit_low f p i :
  0 <= p → p mod 4096 = 0 → 0 <= i < 12 → Z.testbit (Z.lor f p) i = Z.testbit f i.
Proof.
  intros Hp Hm Hi. rewrite Z.lor_spec.
  assert (Z.testbit p i = false) as ->; [|by rewrite orb_false_r].
  rewrite <-(Z.mod_pow2_bits_low p 12) by lia. change (2 ^ 12) with 4096. rewrite Hm.
  apply Z.bits_0.
Qed.

Lemma land_low f p : 0 <= f < 4096 → p mod 4096 = 0 → Z.land f p = 0.
Proof.
  intros Hf Hm. apply Z.bits_inj'. intros i Hi. rewrite Z.land_spec, Z.bits_0.
  destruct (decide (i < 12)).
  - rewrite <-(Z.mod_pow2_bits_low p 12) by lia. change (2 ^ 12) with 4096.
    rewrite Hm, Z.bits_0. apply andb_false_r.
  - rewrite <-(Z.mod_small f (2 ^ 12)), Z.mod_pow2_bits_high by lia. done.
Qed.

Lemma lor_add f p : 0 <= f < 4096 → p mod 4096 = 0 → Z.lor f p = f + p.
Proof.
  intros Hf Hm. pose proof (land_low f p Hf Hm) as Hl.
  rewrite <-Z.lxor_lor by done. symmetry. by apply Z.add_nocarry_lxor.
Qed.

Lemma MASK_PAGE_entry f p :
  0 <= f < 4096 → 0 <= p → p + f < 2 ^ 64 → p mod 4096 = 0 → MASK_PAGE (Z.lor f p) = p.
Proof.
  intros Hf Hp Hb Hm. rewrite lor_add by done. unfold MASK_PAGE. change 0xfff with (2 ^ 12 - 1).
  rewrite land_u64_lnot by lia. change (2 ^ 12) with 4096.
  rewrite Z.add_mod, Hm, Z.add_0_r, Z.mod_mod, Z.mod_small by lia. lia.
Qed.

(** The entry that points to the table [c]. *)
Definition ptr (p2v c : Z) : Z := Z.lor 7 (c - p2v).

(** Where a table page may lie. *)
Definition page_ok (p2v a : Z) : Prop :=
  a mod 4096 = 0 ∧ p2v mod 4096 = 0 ∧ 0 <= p2v < a ∧ a < 2 ^ 48.

Lemma ptr_facts p2v c :
  page_ok p2v c →
  (c - p2v) mod 4096 = 0 ∧ _p2v p2v (MASK_PAGE (ptr p2v c)) = c ∧
  getb (ptr p2v c) bit_present = true ∧ getb (ptr p2v c) bit_rw = true ∧
  getb (ptr p2v c) bit_us = true ∧ getb (ptr p2v c) bit_page = false.
Proof.
  intros (Hc & Hp & Hlt & Hb).
  assert ((c - p2v) mod 4096 = 0) as Hm by (rewrite Zminus_mod, Hc, Hp; done).
  split; [done|]. unfold ptr, getb, bit_present, bit_rw, bit_us, bit_page.
  rewrite MASK_PAGE_entry, !testbit_low by lia. split_and!; try done.
  unfold _p2v. rewrite u64_small; lia.
Qed.

Lemma ptr_inj p2v c c' : page_ok p2v c → page_ok p2v c' → ptr p2v c = ptr p2v c' → c = c'.
Proof.
  intros Hc Hc' E. destruct (ptr_facts p2v c Hc) as (_ & <- & _).
  destruct (ptr_facts p2v c' Hc') as (_ & <- & _). by rewrite E.
Qed.

(** Entries of page-aligned tables never share a cell. *)
Lemma entry_inj a a' i i' :
  a mod 4096 = 0 → a' mod 4096 = 0 → 0 <= i < 512 → 0 <= i' < 512 →
  entry a i = entry a' i' → a = a' ∧ i = i'.
Proof.
  intros Ha Ha' Hi Hi'. unfold entry. apply mod0_ex in Ha as [q ->]; [|lia].
  apply mod0_ex in Ha' as [q' ->]; [|lia]. lia.
Qed.

Lemma pidx_range l v : 0 <= pidx l v < 512.
Proof.
  unfold pidx. change 0x1ff with (2 ^ 9 - 1). rewrite land_ones_mod by lia.
  apply Z.mod_pos_bound. lia.
Qed.

(** Addresses of one page agree on the indices of its level and above. *)
Lemma pidx_div l v : pidx l v = (v / 2 ^ pshift l) mod 512.
Proof.
  unfold pidx. change 0x1ff with (2 ^ 9 - 1). rewrite land_ones_mod by lia.
  rewrite Z.shiftr_div_pow2 by (unfold pshift; lia). done.
Qed.

Lemma div_split l v :
  0 <= v → v / 2 ^ pshift l = 512 * (v / 2 ^ pshift (S l)) + pidx l v.
Proof.
  intros Hv. rewrite pidx_div. replace (2 ^ pshift (S l)) with (2 ^ pshift l * 512).
  - rewrite <-Z.div_div by (try lia; unfold pshift; lia). apply Z.div_mod. lia.
  - unfold pshift. change 512 with (2 ^ 9). rewrite <-Z.pow_add_r by lia. f_equal. lia.
Qed.

Definition same_page (l : nat) (v v' : Z) : Prop := v / 2 ^ pshift l = v' / 2 ^ pshift l.

Lemma same_page_idx l v v' :
  0 <= v → 0 <= v' → same_page l v v' ↔ pidx l v = pidx l v' ∧ same_page (S l) v v'.
Proof.
  intros Hv Hv'. unfold same_page. rewrite (div_split l v), (div_split l v') by done.
  pose proof (pidx_range l v). pose proof (pidx_range l v'). lia.
Qed.

Lemma same_page_top v v' : 0 <= v < 2 ^ 48 → 0 <= v' < 2 ^ 48 → same_page 5 v v'.
Proof. intros. unfold same_page. change (pshift 5) with 48. rewrite !Z.div_small by lia. done. Qed.

(** ** The invariant *)

Section pgt.
Context (pgt p2v root : Z).
Implicit Types (m : gmap Z Z) (P : gmap Z nat) (fl : list Z).

(** A leaf: any entry of a PT, a superpage entry of a PD. *)
Definition leaf (l : nat) (e : Z) : Prop := l = 1%nat ∨ (l = 2%nat ∧ getb e bit_page = true).

(** [P] gives the table pages in use and their levels, [fl] the spare pages. *)
Record pgt_inv m P fl : Prop := {
  gi_p2v : m.@(pgt_p2v pgt) = p2v;
  gi_cr3 : _p2v p2v (MASK_PAGE (m.@(pgt_cr3 pgt))) = root;
  gi_root : P !! root = Some 4%nat;
  gi_page a l : P !! a = Some l → page_ok p2v a ∧ (1 <= l <= 4)%nat;
  gi_absent a l i : P !! a = Some l → 0 <= i < 512 →
    getb (m.@(entry a i)) bit_present = false → m.@(entry a i) = 0;
  gi_child a l i : P !! a = Some l → 0 <= i < 512 →
    getb (m.@(entry a i)) bit_present = true →
    leaf l (m.@(entry a i)) ∨
    ∃ l' c, l = S l' ∧ P !! c = Some l' ∧ m.@(entry a i) = ptr p2v c;
  gi_inj a i l a' i' l' c : P !! a = Some (S l) → P !! a' = Some (S l') →
    P !! c = Some l → P !! c = Some l' → 0 <= i < 512 → 0 <= i' < 512 →
    m.@(entry a i) = ptr p2v c → m.@(entry a' i') = ptr p2v c → a = a' ∧ i = i';
  gi_free : chain 0 m (pgt_free pgt) fl;
  gi_nodup : NoDup fl;
  gi_spare a : a ∈ fl → page_ok p2v a ∧ P !! a = None;
  gi_struct x a : x = pgt_cr3 pgt ∨ x = pgt_p2v pgt ∨ x = pgt_free pgt →
    is_Some (P !! a) ∨ a ∈ fl → ¬ (a <= x < a + 4096);
}.

(** The table of level [l] on the way to [v]. *)
Inductive reach m P : nat → Z → Z → Prop :=
  | reach_root v : reach m P 4 v root
  | reach_next l v a c :
      reach m P (S l) v a → P !! a = Some (S l) → P !! c = Some l →
      m.@(entry a (pidx (S l) v)) = ptr p2v c → reach m P l v c.

Lemma reach_level m P fl l v a : pgt_inv m P fl → reach m P l v a → P !! a = Some l.
Proof. intros Hi. destruct 1; [apply Hi|done]. Qed.

(** Only one way leads to a table. *)
Lemma reach_same m P fl l v v' a :
  pgt_inv m P fl → reach m P l v a → reach m P l v' a →
  0 <= v < 2 ^ 48 → 0 <= v' < 2 ^ 48 → same_page (S l) v v'.
Proof.
  intros Hi Hr. revert v'. induction Hr as [v|l v a c Hr IH Ha Hc He]; intros v' Hr' Hv Hv'.
  - by apply same_page_top.
  - inversion Hr' as [? E1|l0 v0 a' c0 Hra' Ha' Hc' He']; subst.
    + exfalso. pose proof (gi_root _ _ _ Hi). rewrite Hc in *. simplify_eq.
      apply reach_level with (fl := fl) in Hr; [|done].
      by destruct (gi_page _ _ _ Hi _ _ Hr) as [_ ?]; lia.
    + destruct (gi_inj _ _ _ Hi a (pidx (S l) v) l a' (pidx (S l) v') l c) as [-> Hidx];
        [done..|apply pidx_range|apply pidx_range|done|done|].
      apply same_page_idx; [lia..|]. split; [done|]. by apply IH.
Qed.

Lemma reach_fun m P fl l v a a' :
  pgt_inv m P fl → reach m P l v a → reach m P l v a' → a = a'.
Proof.
  intros Hi Hr. revert a'. induction Hr as [v|l v a c Hr IH Ha Hc He]; intros a' Hr'.
  - inversion Hr' as [|l0 v0 a0 c0 Hr0 Ha0]; subst; [done|]. exfalso.
    destruct (gi_page _ _ _ Hi _ _ Ha0). lia.
  - inversion Hr' as [? E|l0 v0 a0 c0 Hr0 Ha0 Hc0 He0]; subst.
    + exfalso. destruct (gi_page _ _ _ Hi _ _ Ha). lia.
    + assert (a = a0) as <- by by apply IH.
      apply (ptr_inj p2v); [by eapply (gi_page _ _ _ Hi)..|]. congruence.
Qed.

(** A step of the walk through a pointer entry keeps the permissions. *)
Lemma walk_ptr l m a v c :
  page_ok p2v c → m.@(entry a (pidx (S (S l)) v)) = ptr p2v c →
  walk (S (S l)) m p2v a v = walk (S l) m p2v c v.
Proof.
  intros Hc He. destruct (ptr_facts p2v c Hc) as (_ & Hn & H1 & H2 & H3 & H4).
  remember (S l) as k eqn:Ek. cbn [walk]. rewrite He, H1, H2, H3, H4, Hn.
  replace (S k =? 1)%nat with false by (subst; done). rewrite andb_false_r. simpl.
  destruct (walk k m p2v c v) as [[[[? ?] ?] ?]|]; simpl; [by rewrite !andb_true_r|done].
Qed.

Lemma walk_reach m P fl l v a :
  pgt_inv m P fl → reach m P l v a → walk 4 m p2v root v = walk l m p2v a v.
Proof.
  intros Hi Hr. induction Hr as [v|l v a c Hr IH Ha Hc He]; [done|]. rewrite IH.
  destruct (gi_page _ _ _ Hi _ _ Hc) as [Hok Hl]. destruct l as [|l]; [lia|]. by apply walk_ptr.
Qed.

(** Memories that differ in one entry of a table give the same walks off the
    way through that entry. *)
Definition agree_but m m' P t i : Prop :=
  ∀ a l j, P !! a = Some l → 0 <= j < 512 → (a, j) ≠ (t, i) → m'.@(entry a j) = m.@(entry a j).

Lemma walk_agree m m' P fl t i lt v k a :
  pgt_inv m P fl → agree_but m m' P t i → P !! t = Some lt →
  ¬ (reach m P lt v t ∧ pidx lt v = i) → reach m P k v a →
  walk k m' p2v a v = walk k m p2v a v.
Proof.
  intros Hi Hag Ht Hno. revert a. induction k as [|k IH]; intros a Hr; [done|].
  pose proof (reach_level _ _ _ _ _ _ Hi Hr) as Ha.
  assert (m'.@(entry a (pidx (S k) v)) = m.@(entry a (pidx (S k) v))) as E.
  { apply (Hag a (S k)); [done|apply pidx_range|]. intros [= -> Hidx]. apply Hno.
    rewrite Ha in Ht. by injection Ht as <-. }
  destruct (getb (m.@(entry a (pidx (S k) v))) bit_present) eqn:Ep;
    [|cbn [walk]; by rewrite E, Ep].
  destruct (gi_child _ _ _ Hi a (S k) (pidx (S k) v)) as [Hlf|(l' & c & [= <-] & Hc & He)];
    [done|apply pidx_range|done| |].
  - cbn [walk]. rewrite E, Ep. destruct Hlf as [[= ->]|[[= ->] ->]]; simpl; by rewrite ?orb_true_r.
  - destruct (gi_page _ _ _ Hi _ _ Hc) as [Hok Hl]. destruct k as [|k]; [lia|].
    rewrite !(walk_ptr _ _ a v c) by (done || congruence). apply IH. by eapply reach_next.
Qed.

(** With no entry changed. *)
Lemma walk_same m m' P fl v :
  pgt_inv m P fl → (∀ a l j, P !! a = Some l → 0 <= j < 512 → m'.@(entry a j) = m.@(entry a j)) →
  walk 4 m' p2v root v = walk 4 m p2v root v.
Proof.
  intros Hi Hag. apply (walk_agree m m' P fl root (-1) 4); [done| |apply Hi| |constructor].
  - intros a l j Ha Hj _. eauto.
  - intros [_ E]. pose proof (pidx_range 4 v). lia.
Qed.

Lemma walk_absent l m a v : m.@(entry a (pidx l v)) = 0 → walk l m p2v a v = None.
Proof. destruct l; [done|]. cbn [walk]. by intros ->. Qed.

(** ** Growing the tree by a table *)

Lemma ptr_nonzero c : page_ok p2v c → ptr p2v c ≠ 0.
Proof.
  intros Hc E. destruct (ptr_facts p2v c Hc) as (_ & _ & H & _). rewrite E in H. done.
Qed.

(** Where the cells of tables, spare pages and the structure lie. *)
Lemma cell_in_page a j : 0 <= j < 512 → a <= entry a j < a + 4096.
Proof. unfold entry. lia. Qed.

Lemma pages_apart a a' x :
  a mod 4096 = 0 → a' mod 4096 = 0 → a <= x < a + 4096 → a' <= x < a' + 4096 → a = a'.
Proof.
  intros Ha Ha'. apply mod0_ex in Ha as [q ->]; [|lia]. apply mod0_ex in Ha' as [q' ->]; [|lia].
  lia.
Qed.

(** The operations stay within the page table: its pages and its list head. *)
Definition outside P fl (x : Z) : Prop :=
  x ≠ pgt_free pgt ∧ ∀ a, is_Some (P !! a) ∨ a ∈ fl → ¬ (a <= x < a + 4096).
Definition stays m P fl m' P' fl' : Prop :=
  (∀ x, outside P fl x → m'.@x = m.@x) ∧
  (∀ a, is_Some (P' !! a) ∨ a ∈ fl' → is_Some (P !! a) ∨ a ∈ fl).

Lemma stays_refl m P fl : stays m P fl m P fl.
Proof. split; auto. Qed.

Lemma stays_outside m P fl m' P' fl' x : stays m P fl m' P' fl' → outside P fl x → outside P' fl' x.
Proof. intros [_ H] [H1 H2]. split; [done|]. eauto. Qed.

Lemma stays_trans m P fl m1 P1 fl1 m2 P2 fl2 :
  stays m P fl m1 P1 fl1 → stays m1 P1 fl1 m2 P2 fl2 → stays m P fl m2 P2 fl2.
Proof.
  intros H1 H2. split; [|intros a Ha; by apply H1, H2]. intros x Hx.
  rewrite (proj1 H2) by (by eapply stays_outside). by apply H1.
Qed.

Lemma stays_entry m P fl t l i e :
  P !! t = Some l → 0 <= i < 512 → stays m P fl (m.[entry t i <- e]) P fl.
Proof.
  intros Ht Hi. split; [|done]. intros x [_ Hx]. apply rd_wr_ne. intros <-.
  apply (Hx t); [by left; eauto|]. by apply cell_in_page.
Qed.

(** The memory after [next_table] took the spare page [c] for [table[idx]]. *)
Definition grown m t i c : gmap Z Z → Prop := λ m', ∀ x,
  m'.@x = if decide (x = entry t i) then ptr p2v c
          else if decide (c <= x < c + 4096) then 0
          else if decide (x = pgt_free pgt) then m.@c else m.@x.

Lemma stays_grown m P fl t l i c m' :
  P !! t = Some (S l) → 0 <= i < 512 → grown m t i c m' →
  stays m P (c :: fl) m' (<[c := l]> P) fl.
Proof.
  intros Ht Hi Hg. split.
  - intros x [Hx1 Hx2]. rewrite Hg, !decide_False; [done|done| |].
    + apply Hx2. set_solver.
    + intros ->. apply (Hx2 t); [by left; eauto|]. by apply cell_in_page.
  - intros a [Ha|Ha]; [|set_solver]. destruct (decide (a = c)) as [->|Hne]; [set_solver|].
    left. by rewrite lookup_insert_ne in Ha.
Qed.

Lemma next_table_present m P fl t i l c :
  pgt_inv m P fl → P !! t = Some (S l) → P !! c = Some l → m.@(entry t i) = ptr p2v c →
  next_table pgt t i m = Ok c m.
Proof.
  intros Hi Ht Hc He. unfold next_table. mrun. rewrite (gi_p2v _ _ _ Hi), He.
  destruct (gi_page _ _ _ Hi c l Hc) as [Hok _].
  destruct (ptr_facts p2v c Hok) as (_ & Hn & -> & _). simpl. by rewrite Hn.
Qed.

Lemma next_table_empty m P t i :
  pgt_inv m P [] → m.@(entry t i) = 0 → next_table pgt t i m = Ok 0 m.
Proof.
  intros Hi He. unfold next_table, pgt_pop. mrun. rewrite He. simpl. mrun.
  pose proof (gi_free _ _ _ Hi) as Hf. simpl in Hf. rewrite Hf. simpl. mrun. done.
Qed.

Lemma next_table_fresh m P fl t i l c :
  pgt_inv m P (c :: fl) → P !! t = Some (S l) → 0 <= i < 512 → m.@(entry t i) = 0 →
  ∃ m', next_table pgt t i m = Ok c m' ∧ grown m t i c m'.
Proof.
  intros Hi Ht Hidx He.
  destruct (gi_page _ _ _ Hi t _ Ht) as [Htok _].
  destruct (gi_spare _ _ _ Hi c) as [Hcok Hcn]; [set_solver|].
  destruct (ptr_facts p2v c Hcok) as (Hcm & _).
  pose proof (gi_free _ _ _ Hi) as (Hf & Hc0 & _). simpl in Hf.
  pose proof (cell_in_page t i Hidx) as Hcell.
  assert (¬ (c <= entry t i < c + 4096)) as Hapart.
  { intros Hin. assert (c = t) as -> by (apply (pages_apart c t (entry t i)); [apply Hcok|apply Htok|done..]).
    congruence. }
  assert (entry t i ≠ pgt_free pgt) as Hne.
  { intros E. apply (gi_struct _ _ _ Hi (pgt_free pgt) t); [auto|left; eauto|]. by rewrite <-E. }
  unfold next_table, pgt_pop. mrun. rewrite (gi_p2v _ _ _ Hi), He. simpl. mrun. rewrite Hf.
  rewrite (proj2 (Z.eqb_neq c 0)) by done. simpl. mrun.
  rewrite (proj2 (Z.eqb_neq c 0)) by done.
  unfold memset0. erewrite bind_ok by done. mrun.
  assert ((kmemset0 c 4096 (m.[pgt_free pgt <- m.@c])).@(entry t i) = 0) as E0.
  { rewrite rd_kmemset0, decide_False, rd_wr_ne by done. done. }
  rewrite !rd_wr_eq, E0. eexists. split; [done|]. intros x. rewrite !rd_wr.
  unfold _v2p. rewrite u64_small by (destruct Hcok as (? & ? & ? & ?); lia).
  change (setb (setb (setb 0 bit_present 1) bit_rw 1) bit_us 1) with 7. fold (ptr p2v c).
  destruct (decide (x = entry t i)) as [->|Hx]; [by rewrite decide_True|].
  rewrite !decide_False by congruence. rewrite rd_kmemset0. case_decide; [done|].
  rewrite rd_wr. repeat case_decide; congruence.
Qed.

(** What stays and what is new. *)
Lemma grown_old m P fl t i l c m' a k j :
  pgt_inv m P (c :: fl) → P !! t = Some (S l) → 0 <= i < 512 → grown m t i c m' →
  P !! a = Some k → 0 <= j < 512 → (a, j) ≠ (t, i) → m'.@(entry a j) = m.@(entry a j).
Proof.
  intros Hi Ht Hidx Hg Ha Hj Hne.
  destruct (gi_page _ _ _ Hi a _ Ha) as [Haok _]. destruct (gi_page _ _ _ Hi t _ Ht) as [Htok _].
  destruct (gi_spare _ _ _ Hi c) as [Hcok Hcn]; [set_solver|].
  pose proof (cell_in_page a j Hj) as Hcell. rewrite Hg.
  case_decide as H; [|case_decide as H2; [|case_decide as H3; [|done]]]; exfalso.
  - destruct (entry_inj a t j i (proj1 Haok) (proj1 Htok) Hj Hidx H) as [-> ->]. done.
  - assert (c = a) as -> by (apply (pages_apart c a (entry a j)); [apply Hcok|apply Haok|done..]).
    congruence.
  - apply (gi_struct _ _ _ Hi (pgt_free pgt) a); [auto|left; eauto|]. by rewrite <-H3.
Qed.

Lemma grown_new m P fl t i l c m' j :
  pgt_inv m P (c :: fl) → P !! t = Some (S l) → 0 <= i < 512 → grown m t i c m' →
  0 <= j < 512 → m'.@(entry c j) = 0.
Proof.
  intros Hi Ht Hidx Hg Hj. pose proof (cell_in_page c j Hj).
  destruct (gi_page _ _ _ Hi t _ Ht) as [Htok _].
  destruct (gi_spare _ _ _ Hi c) as [Hcok Hcn]; [set_solver|].
  rewrite Hg, decide_False, decide_True; [done|done|]. intros E.
  destruct (entry_inj c t j i (proj1 Hcok) (proj1 Htok) Hj Hidx E) as [-> _]. congruence.
Qed.

(** An entry that points to a page outside the tree is no entry of the tree. *)
Lemma no_stray m P fl a l i c :
  pgt_inv m P fl → page_ok p2v c → P !! c = None → P !! a = Some (S l) → (1 <= l)%nat →
  0 <= i < 512 → m.@(entry a i) ≠ ptr p2v c.
Proof.
  intros Hi Hc Hcn Ha Hl Hidx E. destruct (ptr_facts p2v c Hc) as (_ & _ & H1 & _ & _ & H2).
  destruct (gi_child _ _ _ Hi a (S l) i) as [[?|[_ ?]]|(l' & c' & _ & Hc' & E')];
    [done|done|by rewrite E|lia|congruence|].
  assert (c = c') as <-; [|congruence]. apply (ptr_inj p2v); [done| |congruence].
  by eapply (gi_page _ _ _ Hi).
Qed.

Section grown.
Context (m : gmap Z Z) (P : gmap Z nat) (fl : list Z) (t i : Z) (l : nat) (c : Z) (m' : gmap Z Z).
Context (Hi : pgt_inv m P (c :: fl)) (Ht : P !! t = Some (S l)) (Hl : (1 <= l)%nat) (Hidx : 0 <= i < 512).
Context (He : m.@(entry t i) = 0) (Hg : grown m t i c m').

Lemma grown_page : page_ok p2v c ∧ P !! c = None.
Proof using Hi Ht Hl Hidx He Hg. apply (gi_spare _ _ _ Hi). set_solver. Qed.

Lemma grown_ne a : is_Some (P !! a) → c ≠ a.
Proof using Hi Ht Hl Hidx He Hg. destruct grown_page as [_ Hcn]. intros [? ?] ->. congruence. Qed.

Lemma grown_entry : m'.@(entry t i) = ptr p2v c.
Proof using Hi Ht Hl Hidx He Hg. by rewrite Hg, decide_True. Qed.

Lemma grown_struct x : x = pgt_cr3 pgt ∨ x = pgt_p2v pgt ∨ x = pgt_free pgt →
  m'.@x = if decide (x = pgt_free pgt) then m.@c else m.@x.
Proof using Hi Ht Hl Hidx He Hg.
  intros Hx. rewrite Hg, decide_False, decide_False; [done|..].
  - apply (gi_struct _ _ _ Hi x c); [done|right; set_solver].
  - intros ->. apply (gi_struct _ _ _ Hi (entry t i) t); [done|left; eauto|by apply cell_in_page].
Qed.

Lemma grown_lookup a k : <[c:=l]> P !! a = Some k → (a = c ∧ k = l) ∨ (a ≠ c ∧ P !! a = Some k).
Proof using Hi Ht Hl Hidx He Hg. intros [[<- <-]|[? ?]]%lookup_insert_Some; auto. Qed.

(** The new page is reached through one entry only. *)
Lemma grown_only b n q : P !! b = Some (S n) → (1 <= n)%nat → 0 <= q < 512 →
  m'.@(entry b q) = ptr p2v c → (b, q) = (t, i).
Proof using Hi Ht Hl Hidx He Hg.
  destruct grown_page as [Hcok Hcn]. intros Hb Hn Hq Eq. destruct (decide ((b, q) = (t, i))) as [?|Hne]; [done|].
  rewrite (grown_old m P fl t i l c m' b (S n) q) in Eq by done. by destruct (no_stray m P (c :: fl) b n q c).
Qed.

(** Pointers to the other pages are where they were. *)
Lemma grown_back b n q c0 : page_ok p2v c0 → c0 ≠ c → P !! b = Some n → 0 <= q < 512 →
  m'.@(entry b q) = ptr p2v c0 → m.@(entry b q) = ptr p2v c0.
Proof using Hi Ht Hl Hidx He Hg.
  intros Hok Hne Hb Hq Eq. destruct (decide ((b, q) = (t, i))) as [[= -> ->]|Hn].
  - rewrite grown_entry in Eq. apply (ptr_inj p2v) in Eq; [congruence|apply grown_page|done].
  - by rewrite (grown_old m P fl t i l c m' b n q) in Eq.
Qed.

Lemma grown_inj a j k a' j' k' c0 :
  <[c:=l]> P !! a = Some (S k) → <[c:=l]> P !! a' = Some (S k') →
  <[c:=l]> P !! c0 = Some k → <[c:=l]> P !! c0 = Some k' → 0 <= j < 512 → 0 <= j' < 512 →
  m'.@(entry a j) = ptr p2v c0 → m'.@(entry a' j') = ptr p2v c0 → a = a' ∧ j = j'.
Proof using Hi Ht Hl Hidx He Hg.
  intros Ha Ha' Hc0 Hc0' Hj Hj' E E'. destruct grown_page as [Hcok _].
  assert (page_ok p2v c0) as Hok0.
  { apply grown_lookup in Hc0 as [[-> _]|[_ Hc0]]; [done|by eapply (gi_page _ _ _ Hi)]. }
  pose proof (ptr_nonzero c0 Hok0) as Hnz. pose proof (grown_new m P fl t i l c m') as Hnew.
  pose proof grown_only as Honly. apply grown_lookup in Ha as [[-> _]|[_ Ha]]; [by rewrite Hnew in E|].
  apply grown_lookup in Ha' as [[-> _]|[_ Ha']]; [by rewrite Hnew in E'|].
  destruct (decide (c0 = c)) as [->|Hne0].
  - rewrite lookup_insert, decide_True in Hc0, Hc0' by done. simplify_eq.
    assert ((a, j) = (t, i)) by (eapply Honly; eauto).
    assert ((a', j') = (t, i)) by (eapply Honly; eauto). by simplify_eq.
  - rewrite lookup_insert_ne in Hc0, Hc0' by done.
    eapply (gi_inj _ _ _ Hi a j k a' j' k' c0); eauto; eapply grown_back; eauto.
Qed.

(** The other spare pages stay linked. *)
Lemma grown_free : chain 0 m' (pgt_free pgt) fl.
Proof using Hi Ht Hl Hidx He Hg.
  destruct grown_page as [Hcok Hcn]. destruct (gi_page _ _ _ Hi t _ Ht) as [Htok _].
  pose proof (gi_free _ _ _ Hi) as (_ & Hc0 & Hch). rewrite Z.add_0_r in Hch.
  pose proof (gi_nodup _ _ _ Hi) as [Hcf Hnd]%list.NoDup_cons.
  pose proof grown_struct as Hst. destruct fl as [|p fl']; simpl in Hch |- *; rewrite Hst, decide_True by auto; [done|].
  destruct Hch as (Hp & Hp0 & Hch). split_and!; [done|done|].
  eapply chain_frame; [|done]. intros x Hx.
  assert (∃ q, q ∈ p :: fl' ∧ x = q) as (q & Hq & ->).
  { unfold cells in Hx. apply elem_of_cons in Hx as [->|Hx]; [exists p; split; [set_solver|lia]|].
    apply list_elem_of_fmap in Hx as (q & -> & Hq). exists q. split; [set_solver|lia]. }
  destruct (gi_spare _ _ _ Hi q) as [Hqok Hqn]; [set_solver|]. rewrite Hg, !decide_False; [done|..].
  - intros ->. apply (gi_struct _ _ _ Hi (pgt_free pgt) (pgt_free pgt)); [auto|right; set_solver|lia].
  - intros Hin. assert (c = q) as -> by (apply (pages_apart c q q); [apply Hcok|apply Hqok|done|lia]). set_solver.
  - intros Eq. assert (t = q) as -> by
      (apply (pages_apart t q q); [apply Htok|apply Hqok|rewrite Eq; by apply cell_in_page|lia]). congruence.
Qed.

(** A present entry of the grown tree is a leaf or leads to a page of it. *)
Lemma grown_child a k j : <[c:=l]> P !! a = Some k → 0 <= j < 512 → getb (m'.@(entry a j)) bit_present = true →
  leaf k (m'.@(entry a j)) ∨ ∃ l' c', k = S l' ∧ <[c:=l]> P !! c' = Some l' ∧ m'.@(entry a j) = ptr p2v c'.
Proof using Hi Ht Hl Hidx He Hg.
  pose proof (grown_new m P fl t i l c m') as Hnew. intros [[-> ->]|[_ Ha]]%grown_lookup Hj Hp; [by rewrite Hnew in Hp|].
  destruct (decide ((a, j) = (t, i))) as [[= -> ->]|Hne].
  - right. exists l, c. rewrite lookup_insert. split_and!; [congruence|by rewrite decide_True|apply grown_entry].
  - rewrite (grown_old m P fl t i l c m' a k j) in * by done.
    destruct (gi_child _ _ _ Hi a k j) as [?|(l' & c' & ? & Hc' & ?)]; [done..|by left|].
    right. exists l', c'. rewrite lookup_insert_ne by (apply grown_ne; eauto). done.
Qed.

Lemma grown_inv : pgt_inv m' (<[c := l]> P) fl.
Proof using Hi Ht Hl Hidx He Hg.
  destruct grown_page as [Hcok Hcn]. destruct (gi_page _ _ _ Hi t _ Ht) as [_ Htl].
  destruct (ptr_facts p2v c Hcok) as (_ & _ & Hpp & _). pose proof (gi_nodup _ _ _ Hi) as [Hcf Hnd]%list.NoDup_cons. split.
  - rewrite grown_struct, decide_False by (auto || unfold pgt_p2v, pgt_free; lia). apply Hi.
  - rewrite grown_struct, decide_False by (auto || unfold pgt_cr3, pgt_free; lia). apply Hi.
  - rewrite lookup_insert_ne by (apply grown_ne; rewrite (gi_root _ _ _ Hi); eauto). apply Hi.
  - intros a k [[-> ->]|[_ Ha]]%grown_lookup; [split; [done|lia]|by apply Hi].
  - intros a k j [[-> ->]|[_ Ha]]%grown_lookup Hj Hp; [by apply (grown_new m P fl t i l c m')|].
    destruct (decide ((a, j) = (t, i))) as [[= -> ->]|Hne]; [rewrite grown_entry in Hp; congruence|].
    rewrite (grown_old m P fl t i l c m' a k j) in * by done. by eapply (gi_absent _ _ _ Hi).
  - apply grown_child.
  - apply grown_inj.
  - apply grown_free.
  - done.
  - intros a Ha. destruct (gi_spare _ _ _ Hi a) as [Haok Han]; [set_solver|]. split; [done|].
    rewrite lookup_insert_ne; [done|]. set_solver.
  - intros x a Hx Ha. apply (gi_struct _ _ _ Hi x a Hx).
    destruct Ha as [[k [[-> ->]|[_ Ha]]%grown_lookup]|Ha]; [right; set_solver|left; eauto|right; set_solver].
Qed.
End grown.

(** Ways through the tree survive when pointer entries do. *)
Lemma reach_mono m P m' P' k v a :
  P ⊆ P' → (∀ b n j c, P !! b = Some n → 0 <= j < 512 → P !! c = Some (pred n) →
    m.@(entry b j) = ptr p2v c → m'.@(entry b j) = ptr p2v c) →
  reach m P k v a → reach m' P' k v a.
Proof.
  intros Hsub Hptr. induction 1 as [v|l v a c Hr IH Ha Hc He]; [constructor|].
  apply (reach_next m' P' l v a c); [done|by eapply lookup_weaken..|].
  apply (Hptr a (S l)); [done|apply pidx_range|done|done].
Qed.

(** The new table is empty, so no walk changes. *)
Lemma grown_walk m P fl t i l c m' v :
  pgt_inv m P (c :: fl) → P !! t = Some (S l) → (1 <= l)%nat → 0 <= i < 512 →
  m.@(entry t i) = 0 → grown m t i c m' →
  walk 4 m' p2v root v = walk 4 m p2v root v.
Proof.
  intros Hi Ht Hl Hidx He Hg.
  destruct (gi_spare _ _ _ Hi c) as [Hcok Hcn]; [set_solver|].
  assert (∀ k a, reach m P k v a → walk k m' p2v a v = walk k m p2v a v) as H; [|apply H; constructor].
  induction k as [|k IH]; intros a Hr; [done|].
  pose proof (reach_level _ _ _ _ _ _ Hi Hr) as Ha.
  destruct (decide ((a, pidx (S k) v) = (t, i))) as [[= -> Hpi]|Hne].
  - rewrite Ha in Ht. injection Ht as ->. rewrite (walk_absent (S l) m t v) by by rewrite Hpi.
    destruct l as [|l]; [lia|].
    rewrite (walk_ptr _ _ t v c); [|done|by rewrite Hpi, Hg, decide_True].
    apply walk_absent. eapply grown_new; eauto using pidx_range.
  - assert (m'.@(entry a (pidx (S k) v)) = m.@(entry a (pidx (S k) v))) as E
      by (apply (grown_old m P fl t i l c m' a (S k)); auto using pidx_range).
    destruct (getb (m.@(entry a (pidx (S k) v))) bit_present) eqn:Ep; [|cbn [walk]; by rewrite E, Ep].
    destruct (gi_child _ _ _ Hi a (S k) (pidx (S k) v)) as [Hlf|(l' & c' & [= <-] & Hc & He')];
      [done|apply pidx_range|done| |].
    + cbn [walk]. rewrite E, Ep. destruct Hlf as [[= ->]|[[= ->] ->]]; simpl; by rewrite ?orb_true_r.
    + destruct (gi_page _ _ _ Hi _ _ Hc) as [Hok Hl']. destruct k as [|k]; [lia|].
      rewrite !(walk_ptr _ _ a v c') by (done || congruence). apply IH. by eapply reach_next.
Qed.

(** [next_table] on the way to [v]: out of spare pages, or one level down
    with every translation unchanged. *)
Lemma next_table_spec m P fl t l v :
  pgt_inv m P fl → reach m P (S l) v t → (1 <= l)%nat →
  ¬ (l = 1%nat ∧ getb (m.@(entry t (pidx 2 v))) bit_present = true ∧
     getb (m.@(entry t (pidx 2 v))) bit_page = true) →
  (fl = [] ∧ next_table pgt t (pidx (S l) v) m = Ok 0 m) ∨
  ∃ c m' P' fl', next_table pgt t (pidx (S l) v) m = Ok c m' ∧ c ≠ 0 ∧ pgt_inv m' P' fl' ∧
    reach m' P' l v c ∧ (length fl <= length fl' + 1)%nat ∧
    (∀ v', walk 4 m' p2v root v' = walk 4 m p2v root v') ∧ stays m P fl m' P' fl'.
Proof.
  intros Hi Hr Hl Hns. pose proof (reach_level _ _ _ _ _ _ Hi Hr) as Ht.
  pose proof (pidx_range (S l) v) as Hidx.
  destruct (getb (m.@(entry t (pidx (S l) v))) bit_present) eqn:Ep.
  - destruct (gi_child _ _ _ Hi t (S l) (pidx (S l) v)) as [[?|[E ?]]|(l' & c & [= <-] & Hc & He)];
      [done|done|done|lia| |].
    { exfalso. injection E as ->. by apply Hns. }
    right. exists c, m, P, fl. split_and!; [by eapply next_table_present| |done| |lia|done|apply stays_refl].
    + destruct (gi_page _ _ _ Hi c l Hc) as [(_ & _ & ? & _) _]. lia.
    + by eapply reach_next.
  - pose proof (gi_absent _ _ _ Hi t (S l) (pidx (S l) v) Ht Hidx Ep) as He.
    destruct fl as [|c fl]; [left; split; [done|by eapply next_table_empty]|]. right.
    destruct (next_table_fresh m P fl t (pidx (S l) v) l c) as (m' & E & Hg); [done..|].
    destruct (gi_spare _ _ _ Hi c) as [Hcok Hcn]; [set_solver|].
    exists c, m', (<[c := l]> P), fl.
    split_and!; [done|destruct Hcok as (_ & _ & ? & _); lia|by eapply grown_inv| |simpl; lia| |by eapply stays_grown].
    + assert (P ⊆ <[c:=l]> P) as Hsub by by apply insert_subseteq.
      apply (reach_next m' _ l v t c); [|by eapply lookup_weaken| |].
      * eapply (reach_mono m P); [done| |done]. intros b n j c0 Hb Hj Hc0 Eb.
        rewrite (grown_old m P fl t (pidx (S l) v) l c m' b n j); [done..|].
        intros [= -> ->]. rewrite He in Eb. symmetry in Eb.
        by apply ptr_nonzero in Eb; [|by eapply (gi_page _ _ _ Hi)].
      * by rewrite lookup_insert, decide_True.
      * by rewrite Hg, decide_True.
    + intros v'. by eapply grown_walk.
Qed.

(** ** Installing a leaf *)

Lemma reach_along m P fl l v v' a :
  pgt_inv m P fl → reach m P l v a → 0 <= v → 0 <= v' → same_page (S l) v v' → reach m P l v' a.
Proof.
  intros Hi Hr. revert v'. induction Hr as [v|l v a c Hr IH Ha Hc He]; intros v' Hv Hv' Hs; [constructor|].
  apply same_page_idx in Hs as [Hidx Hs]; [|done..].
  apply (reach_next m P l v' a c); [by apply IH|done|done|by rewrite <-Hidx].
Qed.

(** [e] maps the page of [v] at level [l] to [phys]. *)
Lemma leaf_walk l m a v f phys :
  (l = 1%nat ∨ l = 2%nat ∧ Z.testbit f 7 = true) → 0 <= f < 4096 → Z.testbit f 0 = true →
  0 <= phys < 2 ^ 51 → phys mod 2 ^ pshift l = 0 →
  m.@(entry a (pidx l v)) = Z.lor f phys →
  walk l m p2v a v = Some (phys + v mod 2 ^ pshift l, Z.testbit f 1, Z.testbit f 2, l).
Proof.
  intros Hl Hf Hf0 Hp Hm He.
  assert (phys mod 4096 = 0) as Hm12.
  { destruct Hl as [->|[-> _]]; [done|]. change (pshift 2) with 21 in Hm.
    apply mod0_ex in Hm as [q ->]; [|lia]. replace (2 ^ 21 * q) with ((512 * q) * 4096) by lia.
    by apply Z.mod_mul. }
  assert (frame_of l (Z.lor f phys) = phys) as Hfr.
  { unfold frame_of. rewrite lor_add by done. rewrite !land_ones_mod by (unfold pshift; lia).
    assert (4096 <= 2 ^ pshift l) as Hle.
    { change 4096 with (2 ^ 12). apply Z.pow_le_mono_r; [lia|].
      destruct Hl as [->|[-> _]]; unfold pshift; lia. }
    rewrite (Z.mod_small _ (2 ^ 52)) by lia.
    rewrite Z.add_mod, Hm, Z.add_0_r, Z.mod_mod, Z.mod_small by lia. lia. }
  destruct Hl as [->|[-> H7]]; cbn [walk]; rewrite He; unfold getb, bit_present, bit_rw, bit_us, bit_page;
    rewrite !testbit_low, Hf0 by lia; [|rewrite H7]; simpl; by rewrite Hfr.
Qed.

(** A leaf entry is not a pointer. *)
Lemma leaf_not_ptr m P fl l c e :
  pgt_inv m P fl → P !! c = Some (pred l) →
  (getb e bit_present = true → leaf l e) → e ≠ ptr p2v c.
Proof.
  intros Hi Hc Hlf ->. destruct (gi_page _ _ _ Hi c _ Hc) as [Hcok Hcl].
  destruct (ptr_facts p2v c Hcok) as (_ & _ & H1 & _ & _ & H7).
  destruct (Hlf H1) as [->|[_ ?]]; [simpl in Hcl; lia|congruence].
Qed.

(** Writing a leaf or an absent entry keeps the invariant. *)
Lemma set_leaf_inv m P fl t l i e :
  pgt_inv m P fl → P !! t = Some l → 0 <= i < 512 →
  (getb e bit_present = false → e = 0) → (getb e bit_present = true → leaf l e) →
  pgt_inv (m.[entry t i <- e]) P fl.
Proof.
  intros Hi Ht Hidx Habs Hlf.
  destruct (gi_page _ _ _ Hi t _ Ht) as [Htok _].
  pose proof (cell_in_page t i Hidx) as Hcell.
  assert (∀ a k j, P !! a = Some k → 0 <= j < 512 → (a, j) ≠ (t, i) →
    (m.[entry t i <- e]).@(entry a j) = m.@(entry a j)) as Hold.
  { intros a k j Ha Hj Hne. apply rd_wr_ne. intros E.
    destruct (gi_page _ _ _ Hi a _ Ha) as [Haok _].
    destruct (entry_inj t a i j (proj1 Htok) (proj1 Haok) Hidx Hj E) as [-> ->]. done. }
  assert (∀ x, x = pgt_cr3 pgt ∨ x = pgt_p2v pgt ∨ x = pgt_free pgt →
    (m.[entry t i <- e]).@x = m.@x) as Hst.
  { intros x Hx. apply rd_wr_ne. intros <-. apply (gi_struct _ _ _ Hi (entry t i) t); eauto. }
  assert (∀ b n j c, P !! b = Some (S n) → P !! c = Some n → 0 <= j < 512 →
    (m.[entry t i <- e]).@(entry b j) = ptr p2v c → m.@(entry b j) = ptr p2v c) as Hback.
  { intros b n j c Hb Hc Hj E. destruct (decide ((b, j) = (t, i))) as [[= -> ->]|Hne];
      [|by rewrite (Hold b (S n) j) in E].
    exfalso. rewrite rd_wr_eq in E. rewrite Ht in Hb. injection Hb as ->.
    by apply (leaf_not_ptr m P fl (S n) c e). }
  split; try (apply Hi).
  - rewrite Hst by auto. apply Hi.
  - rewrite Hst by auto. apply Hi.
  - intros a k j Ha Hj. destruct (decide ((a, j) = (t, i))) as [[= -> ->]|Hne].
    + by rewrite rd_wr_eq.
    + rewrite (Hold a k j) by done. by eapply (gi_absent _ _ _ Hi).
  - intros a k j Ha Hj. destruct (decide ((a, j) = (t, i))) as [[= -> ->]|Hne].
    + rewrite rd_wr_eq. left. assert (k = l) as -> by congruence. auto.
    + rewrite (Hold a k j) by done. by apply (gi_child _ _ _ Hi).
  - intros a j k a' j' k' c Ha Ha' Hc Hc' Hj Hj' E E'. eapply (gi_inj _ _ _ Hi a j k a' j' k' c); eauto.
  - eapply chain_frame; [|apply Hi]. intros x Hx. unfold cells in Hx.
    apply elem_of_cons in Hx as [->|Hx]; [by apply Hst; auto|].
    apply list_elem_of_fmap in Hx as (q & -> & Hq). rewrite Z.add_0_r.
    apply rd_wr_ne. intros <-. destruct (gi_spare _ _ _ Hi _ Hq) as [Hqok Hqn].
    assert (t = entry t i) as E by (apply (pages_apart t (entry t i) (entry t i));
      [apply Htok|apply Hqok|done|lia]). rewrite <-E in Hqn. congruence.
Qed.

#[local] Instance same_page_dec l v v' : Decision (same_page l v v').
Proof. unfold same_page. apply _. Defined.

(** All translations before and after the page of [v] was mapped at level [l]. *)
Definition mapped_walks (l : nat) m m' v phys (rw us : bool) : Prop :=
  ∀ v', 0 <= v' < 2 ^ 48 →
  if decide (same_page l v v') then
    walk 4 m p2v root v' = None ∧
    walk 4 m' p2v root v' = Some (phys + v' mod 2 ^ pshift l, rw, us, l)
  else walk 4 m' p2v root v' = walk 4 m p2v root v'.

Lemma install_walk m P fl t l v f phys m' :
  pgt_inv m P fl → reach m P l v t → 0 <= v < 2 ^ 48 → m.@(entry t (pidx l v)) = 0 →
  (l = 1%nat ∨ l = 2%nat ∧ Z.testbit f 7 = true) → 0 <= f < 4096 → Z.testbit f 0 = true →
  0 <= phys < 2 ^ 51 → phys mod 2 ^ pshift l = 0 → phys mod 4096 = 0 →
  m' = m.[entry t (pidx l v) <- Z.lor f phys] →
  pgt_inv m' P fl ∧ mapped_walks l m m' v phys (Z.testbit f 1) (Z.testbit f 2).
Proof.
  intros Hi Hr Hv He Hl Hf Hf0 Hp Hm Hm12 Em'. pose proof (reach_level _ _ _ _ _ _ Hi Hr) as Ht.
  assert (pgt_inv m' P fl) as Hi'.
  { subst m'. apply (set_leaf_inv m P fl t l); [done|done|apply pidx_range|..];
      unfold getb, bit_present; rewrite testbit_low, Hf0 by lia; [done|]. intros _.
    destruct Hl as [?|[? ?]]; [by left|right]. unfold getb, bit_page. by rewrite testbit_low by lia. }
  split; [done|]. intros v' Hv'. case_decide as Hs.
  - pose proof Hs as [Hidx Hs']%same_page_idx; [|lia..].
    assert (reach m' P l v' t) as Hr'.
    { apply (reach_mono m P); [done| |by eapply reach_along; eauto; lia].
      intros b n j c Hb Hj Hc E. subst m'. rewrite rd_wr_ne; [done|]. intros E'.
      rewrite <-E', He in E. symmetry in E.
      apply ptr_nonzero in E; [done|by eapply (gi_page _ _ _ Hi)]. }
    rewrite (walk_reach m' P fl l v' t) by done. split.
    + rewrite (walk_reach m P fl l v' t) by (done || by eapply reach_along; eauto; lia).
      apply walk_absent. by rewrite <-Hidx.
    + apply leaf_walk; try done. subst m'. rewrite <-Hidx. apply rd_wr_eq.
  - apply (walk_agree m m' P fl t (pidx l v) l); [done| |done| |constructor].
    + intros a k j Ha Hj Hne. subst m'. apply rd_wr_ne. intros E.
      destruct (gi_page _ _ _ Hi a _ Ha) as [Haok _]. destruct (gi_page _ _ _ Hi t _ Ht) as [Htok _].
      destruct (entry_inj t a (pidx l v) j (proj1 Htok) (proj1 Haok) (pidx_range l v) Hj E) as [<- <-].
      done.
    + intros [Hr' Hidx]. apply Hs, same_page_idx; [lia..|]. split; [done|].
      by apply (reach_same m P fl l v v' t).
Qed.

(** The tables down to the PD. *)
Lemma map_to_pd m P fl v :
  pgt_inv m P fl →
  ∃ m' P' fl', pgt_inv m' P' fl' ∧ (∀ v', walk 4 m' p2v root v' = walk 4 m p2v root v') ∧
  stays m P fl m' P' fl' ∧
  (((length fl < 2)%nat ∧ ∀ k : Z → M Z,
      (pdpt ← next_table pgt root (pidx 4 v);
       if pdpt =? 0 then mret (-1) else
       pd ← next_table pgt pdpt (pidx 3 v);
       if pd =? 0 then mret (-1) else k pd) m = Ok (-1) m') ∨
   ∃ pd, reach m' P' 2 v pd ∧ (length fl <= length fl' + 2)%nat ∧ ∀ k : Z → M Z,
      (pdpt ← next_table pgt root (pidx 4 v);
       if pdpt =? 0 then mret (-1) else
       pd ← next_table pgt pdpt (pidx 3 v);
       if pd =? 0 then mret (-1) else k pd) m = k pd m').
Proof.
  intros Hi. destruct (next_table_spec m P fl root 3 v Hi) as [(-> & E)|(c & m1 & P1 & fl1 & E & Hc & Hi1 & Hr1 & Hl1 & Hw1 & Hs1)];
    [constructor|lia|lia| |].
  { exists m, P, []. split_and!; [done|done|apply stays_refl|]. left. split; [simpl; lia|]. intros k.
    by rewrite (bind_ok _ _ _ _ _ E). }
  destruct (next_table_spec m1 P1 fl1 c 2 v Hi1 Hr1) as [(-> & E2)|(d & m2 & P2 & fl2 & E2 & Hd & Hi2 & Hr2 & Hl2 & Hw2 & Hs2)];
    [lia|lia| |].
  { exists m1, P1, []. split_and!; [done..|]. left. split; [simpl in *; lia|]. intros k.
    rewrite (bind_ok _ _ _ _ _ E), (proj2 (Z.eqb_neq c 0)) by done. by rewrite (bind_ok _ _ _ _ _ E2). }
  exists m2, P2, fl2. split_and!; [done|intros v'; by rewrite Hw2, Hw1|by eapply stays_trans|]. right. exists d.
  split_and!; [done|lia|]. intros k.
  rewrite (bind_ok _ _ _ _ _ E), (proj2 (Z.eqb_neq c 0)) by done.
  by rewrite (bind_ok _ _ _ _ _ E2), (proj2 (Z.eqb_neq d 0)) by done.
Qed.

(** The flags of a leaf entry. *)
Definition leaf_flags (page rw us g : Z) : Z :=
  setb (setb (setb (setb (setb 0 bit_present 1) bit_page page) bit_rw rw) bit_us us) bit_g g.

Lemma leaf_flags_spec page rw us g :
  page = 0 ∨ page = 1 →
  0 <= leaf_flags page rw us g < 4096 ∧ Z.testbit (leaf_flags page rw us g) 0 = true ∧
  Z.testbit (leaf_flags page rw us g) 1 = Z.odd rw ∧
  Z.testbit (leaf_flags page rw us g) 2 = Z.odd us ∧
  Z.testbit (leaf_flags page rw us g) 7 = Z.odd page.
Proof.
  unfold leaf_flags, setb. intros [-> | ->]; destruct (Z.odd rw), (Z.odd us), (Z.odd g);
    by vm_compute.
Qed.

Definition map_outcome (l : nat) m m' v phys (rw us : bool) ret : Prop :=
  (ret = -1 ∧ ∀ v', walk 4 m' p2v root v' = walk 4 m p2v root v') ∨
  (ret = 0 ∧ mapped_walks l m m' v phys rw us).

Lemma mask_facts k x :
  0 <= k < 64 → 0 <= x < 2 ^ 64 →
  mask_down (2 ^ k) x mod 2 ^ k = 0 ∧ mask_down (2 ^ k) x / 2 ^ k = x / 2 ^ k ∧
  0 <= mask_down (2 ^ k) x <= x.
Proof.
  intros Hk Hx. rewrite mask_down_spec by lia. pose proof (Z.mod_pos_bound x (2 ^ k)).
  pose proof (Z.mod_le x (2 ^ k)).
  assert (x - x mod 2 ^ k = x / 2 ^ k * 2 ^ k) as E by (pose proof (Z.div_mod x (2 ^ k)); lia).
  split_and!; [|rewrite E; apply Z.div_mul; lia|lia|lia].
  rewrite E. apply Z.mod_mul. lia.
Qed.

Lemma mapped_walks_same l m0 m m' v va phys rw us :
  (∀ v', same_page l va v' ↔ same_page l v v') →
  (∀ v', walk 4 m p2v root v' = walk 4 m0 p2v root v') →
  mapped_walks l m m' va phys rw us → mapped_walks l m0 m' v phys rw us.
Proof.
  intros Hs Hw H v' Hv'. specialize (H v' Hv'). rewrite Hw in H.
  destruct (decide (same_page l va v')) as [Hd|Hd], (decide (same_page l v v')) as [Hd'|Hd'];
    by rewrite ?Hs in Hd.
Qed.

(** The aligned address selects the same page. *)
Lemma mask_same l v :
  0 <= v < 2 ^ 48 → (l <= 4)%nat → 0 <= mask_down (2 ^ pshift l) v < 2 ^ 48 ∧
  ∀ v', same_page l (mask_down (2 ^ pshift l) v) v' ↔ same_page l v v'.
Proof.
  intros Hv Hl. destruct (mask_facts (pshift l) v) as (_ & E & ?); [unfold pshift; lia|lia|].
  split; [lia|]. intros v'. unfold same_page. by rewrite E.
Qed.

Lemma pgt_map_super m P fl v phys g rw us :
  pgt_inv m P fl → 0 <= v < 2 ^ 48 → 0 <= phys < 2 ^ 51 →
  ∃ ret m' P' fl', pgt_map pgt v phys 1 g rw us m = Ok ret m' ∧
    (pgt_inv m' P' fl' ∧ stays m P fl m' P' fl') ∧
    map_outcome 2 m m' v (phys - phys mod 2 ^ 21) (Z.odd rw) (Z.odd us) ret.
Proof.
  intros Hi Hv Hp. unfold pgt_map. cbn [negb Z.eqb].
  destruct (mask_same 2 v Hv) as (Hva & Hsame); [lia|]. change (pshift 2) with 21 in *.
  destruct (mask_facts 21 phys) as (Hp1 & Hp2 & Hp3); [lia..|].
  rewrite <-(mask_down_spec 21 phys) by lia.
  set (va := mask_down (2 ^ 21) v) in *. set (pa := mask_down (2 ^ 21) phys) in *.
  mrun. rewrite (gi_p2v _ _ _ Hi), (gi_cr3 _ _ _ Hi).
  change (Z.land (Z.shiftr va 39) 0x1ff) with (pidx 4 va).
  change (Z.land (Z.shiftr va 30) 0x1ff) with (pidx 3 va).
  change (Z.land (Z.shiftr va 21) 0x1ff) with (pidx 2 va).
  destruct (map_to_pd m P fl va Hi) as (m1 & P1 & fl1 & Hi1 & Hw1 & Hs1 & [[_ E]|(pd & Hr & _ & E)]);
    rewrite E; clear E; [by exists (-1), m1, P1, fl1; split_and!; [..|left]|].
  mrun. destruct (getb (m1.@(entry pd (pidx 2 va))) bit_present) eqn:Ep;
    [by exists (-1), m1, P1, fl1; split_and!; [..|left]|].
  mrun. pose proof (reach_level _ _ _ _ _ _ Hi1 Hr) as Hpd.
  pose proof (gi_absent _ _ _ Hi1 pd 2 _ Hpd (pidx_range 2 va) Ep) as E0. rewrite E0.
  rewrite !rd_wr_eq, !wr_wr. fold (leaf_flags 1 rw us g).
  destruct (leaf_flags_spec 1 rw us g) as (Hf & H0 & H1 & H2 & H7); [by right|].
  destruct (install_walk m1 P1 fl1 pd 2 va (leaf_flags 1 rw us g) pa
      (m1.[entry pd (pidx 2 va) <- Z.lor (leaf_flags 1 rw us g) pa]) Hi1 Hr Hva E0) as (Hi2 & Hw2);
    [by right|done|done|lia|done| |done|].
  { apply mod0_ex in Hp1 as [q ->]; [|lia]. replace (2 ^ 21 * q) with (512 * q * 4096) by lia.
    by apply Z.mod_mul. }
  eexists 0, _, P1, fl1. split_and!; [done|done| |].
  { eapply stays_trans; [done|]. eapply stays_entry; [done|apply pidx_range]. }
  right. split; [done|].
  rewrite H1, H2 in Hw2. by eapply mapped_walks_same.
Qed.

Lemma same_page_up j v v' k : same_page j v v' → (j <= k)%nat → pidx k v = pidx k v'.
Proof.
  unfold same_page. intros H Hk. rewrite !pidx_div.
  replace (2 ^ pshift k) with (2 ^ pshift j * 2 ^ (9 * (Z.of_nat k - Z.of_nat j)))
    by (rewrite <-Z.pow_add_r by (unfold pshift; lia); f_equal; unfold pshift; lia).
  by rewrite <-!Z.div_div, H by (unfold pshift; lia).
Qed.

Lemma walk_level l m a v t : walk l m p2v a v = Some t → (t.2 <= l)%nat.
Proof.
  revert a t. induction l as [|l IH]; intros a t; [done|]. cbn [walk].
  destruct (getb _ bit_present); [|done]. destruct (_ || _); [intros [= <-]; simpl; lia|].
  destruct (walk l m p2v _ v) as [[[[? ?] ?] ?]|] eqn:E; simpl; [|done]. intros [= <-].
  apply IH in E. simpl in *. lia.
Qed.

Lemma walk_below l m a v t :
  getb (m.@(entry a (pidx (S (S l)) v))) bit_page = false →
  walk (S (S l)) m p2v a v = Some t → (t.2 <= S l)%nat.
Proof.
  intros Hp. remember (S l) as k eqn:Ek. cbn [walk].
  destruct (getb _ bit_present); [|done]. rewrite Hp, andb_false_r, orb_false_r.
  replace (S k =? 1)%nat with false by (subst; done).
  destruct (walk k m p2v _ v) as [[[[? ?] ?] ?]|] eqn:E; simpl; [|done]. intros [= <-].
  by apply walk_level in E.
Qed.

(** The addresses of a 2 MiB page agree on being inside a superpage. *)
Lemma walk_super_same l m a v v' t :
  same_page 2 v v' → walk l m p2v a v = Some t → t.2 = 2%nat →
  ∃ t', walk l m p2v a v' = Some t' ∧ t'.2 = 2%nat.
Proof.
  intros Hs. revert a t. induction l as [|l IH]; intros a t; [done|]. cbn [walk].
  destruct (decide (l = 0%nat)) as [->|Hl].
  { destruct (getb _ bit_present); simpl; [|done]. by intros [= <-]. }
  rewrite <-(same_page_up 2 v v' (S l)) by (done || lia).
  destruct (getb _ bit_present); [|done]. destruct (_ || _); [intros [= <-]; eauto|].
  destruct (walk l m p2v _ v) as [[[[? ?] ?] ?]|] eqn:E; simpl; [|done]. intros [= <-] E2.
  destruct (IH _ _ E E2) as ([[[? ?] ?] ?] & -> & E3). eauto.
Qed.

Lemma walk_none_same l m a v v' :
  same_page 1 v v' → walk l m p2v a v = None → walk l m p2v a v' = None.
Proof.
  intros Hs. revert a. induction l as [|l IH]; intros a; [done|]. cbn [walk].
  rewrite <-(same_page_up 1 v v' (S l)) by (done || lia).
  destruct (getb _ bit_present); [|done]. destruct (_ || _); [done|].
  destruct (walk l m p2v _ v) as [[[[? ?] ?] ?]|] eqn:E; simpl; [done|]. by rewrite (IH _ E).
Qed.

Lemma pgt_map_page m P fl v phys g rw us :
  pgt_inv m P fl → 0 <= v < 2 ^ 48 → 0 <= phys < 2 ^ 51 → walk 4 m p2v root v = None →
  ∃ ret m' P' fl', pgt_map pgt v phys 0 g rw us m = Ok ret m' ∧
    (pgt_inv m' P' fl' ∧ stays m P fl m' P' fl') ∧
    map_outcome 1 m m' v (phys - phys mod 2 ^ 12) (Z.odd rw) (Z.odd us) ret ∧
    ((3 <= length fl)%nat → ret = 0 ∧ (length fl <= length fl' + 3)%nat).
Proof.
  intros Hi Hv Hp Hnone. unfold pgt_map. cbn [negb Z.eqb].
  destruct (mask_same 1 v Hv) as (Hva & Hsame); [lia|]. change (pshift 1) with 12 in *.
  destruct (mask_facts 12 phys) as (Hp1 & Hp2 & Hp3); [lia..|].
  rewrite <-(mask_down_spec 12 phys) by lia.
  set (va := mask_down (2 ^ 12) v) in *. set (pa := mask_down (2 ^ 12) phys) in *.
  mrun. rewrite (gi_p2v _ _ _ Hi), (gi_cr3 _ _ _ Hi).
  change (Z.land (Z.shiftr va 39) 0x1ff) with (pidx 4 va).
  change (Z.land (Z.shiftr va 30) 0x1ff) with (pidx 3 va).
  change (Z.land (Z.shiftr va 21) 0x1ff) with (pidx 2 va).
  change (Z.land (Z.shiftr va 12) 0x1ff) with (pidx 1 va).
  assert (walk 4 m p2v root va = None) as Hnone'.
  { apply (walk_none_same 4 m root v); [by apply Hsame|done]. }
  destruct (map_to_pd m P fl va Hi) as (m1 & P1 & fl1 & Hi1 & Hw1 & Hs1 & [[Hlen E]|(pd & Hr & Hlen & E)]);
    rewrite E; clear E; [exists (-1), m1, P1, fl1; split_and!; [done|done|done|by left|lia]|].
  destruct (next_table_spec m1 P1 fl1 pd 1 va Hi1 Hr) as
    [(-> & E)|(pt & m2 & P2 & fl2 & E & Hpt & Hi2 & Hr2 & Hl2 & Hw2 & Hs2)]; [lia| | |].
  { intros (_ & Ep & Eg). rewrite <-Hw1, (walk_reach m1 P1 fl1 2 va pd) in Hnone' by done.
    cbn [walk] in Hnone'. rewrite Ep, Eg in Hnone'. done. }
  { rewrite (bind_ok _ _ _ _ _ E). exists (-1), m1, P1, []. split_and!; [done|done|done|by left|].
    simpl in Hlen. lia. }
  rewrite (bind_ok _ _ _ _ _ E), (proj2 (Z.eqb_neq pt 0)) by done. mrun.
  pose proof (reach_level _ _ _ _ _ _ Hi2 Hr2) as Hpt1.
  rewrite <-Hw1, <-Hw2, (walk_reach m2 P2 fl2 1 va pt) in Hnone' by done. cbn [walk] in Hnone'.
  destruct (getb (m2.@(entry pt (pidx 1 va))) bit_present) eqn:Ep; [done|]. mrun.
  pose proof (gi_absent _ _ _ Hi2 pt 1 _ Hpt1 (pidx_range 1 va) Ep) as E0. rewrite E0.
  rewrite !rd_wr_eq, !wr_wr.
  change (setb (setb (setb (setb 0 bit_present 1) bit_rw rw) bit_us us) bit_g g)
    with (leaf_flags 0 rw us g).
  destruct (leaf_flags_spec 0 rw us g) as (Hf & H0 & H1 & H2 & H7); [by left|].
  destruct (install_walk m2 P2 fl2 pt 1 va (leaf_flags 0 rw us g) pa
    (m2.[entry pt (pidx 1 va) <- Z.lor (leaf_flags 0 rw us g) pa]) Hi2 Hr2 Hva E0) as (Hi3 & Hw3);
    [by left|done|done|lia|done|done|done|].
  eexists 0, _, P2, fl2. split_and!; [done|done| | |split; [done|lia]].
  { eapply stays_trans; [done|]. eapply stays_trans; [done|]. eapply stays_entry; [done|apply pidx_range]. }
  right. split; [done|].
  rewrite H1, H2 in Hw3. eapply mapped_walks_same; [done| |done]. intros v'. by rewrite Hw2, Hw1.
Qed.

(** ** Clearing a leaf *)

Definition unmapped_walks (l : nat) m m' v : Prop :=
  ∀ v', 0 <= v' < 2 ^ 48 →
  walk 4 m' p2v root v' =
  if decide (same_page l v v') then None else walk 4 m p2v root v'.

Lemma clear_walk m P fl t l v :
  pgt_inv m P fl → reach m P l v t → 0 <= v < 2 ^ 48 →
  leaf l (m.@(entry t (pidx l v))) →
  pgt_inv (m.[entry t (pidx l v) <- 0]) P fl ∧ reach (m.[entry t (pidx l v) <- 0]) P l v t ∧
  (∀ k a, k ≠ l → reach m P k v a → reach (m.[entry t (pidx l v) <- 0]) P k v a) ∧
  unmapped_walks l m (m.[entry t (pidx l v) <- 0]) v.
Proof.
  intros Hi Hr Hv Hlf. pose proof (reach_level _ _ _ _ _ _ Hi Hr) as Ht.
  set (m' := m.[entry t (pidx l v) <- 0]).
  assert (pgt_inv m' P fl) as Hi' by (apply (set_leaf_inv m P fl t l); [done|done|apply pidx_range|done|done]).
  assert (∀ k v' a, reach m P k v' a → reach m' P k v' a) as Hmono.
  { intros k v' a. apply (reach_mono m P); [done|]. intros b n j c Hb Hj Hc E. unfold m'.
    rewrite rd_wr_ne; [done|]. intros E'. destruct (gi_page _ _ _ Hi b _ Hb) as [Hbok _].
    destruct (gi_page _ _ _ Hi t _ Ht) as [Htok _].
    destruct (entry_inj t b (pidx l v) j (proj1 Htok) (proj1 Hbok) (pidx_range l v) Hj E') as [<- <-].
    rewrite Ht in Hb. injection Hb as <-. by apply (leaf_not_ptr m P fl l c _ Hi Hc) in E. }
  split_and!; [done|auto|auto|]. intros v' Hv'. case_decide as Hs.
  - pose proof Hs as [Hidx Hs']%same_page_idx; [|lia..].
    rewrite (walk_reach m' P fl l v' t Hi') by (eapply Hmono, reach_along; eauto; lia).
    apply walk_absent. unfold m'. rewrite <-Hidx. apply rd_wr_eq.
  - apply (walk_agree m m' P fl t (pidx l v) l); [done| |done| |constructor].
    + intros a k j Ha Hj Hne. apply rd_wr_ne. intros E.
      destruct (gi_page _ _ _ Hi a _ Ha) as [Haok _]. destruct (gi_page _ _ _ Hi t _ Ht) as [Htok _].
      destruct (entry_inj t a (pidx l v) j (proj1 Htok) (proj1 Haok) (pidx_range l v) Hj E) as [<- <-].
      done.
    + intros [Hr' Hidx]. apply Hs, same_page_idx; [lia..|]. split; [done|].
      by apply (reach_same m P fl l v v' t).
Qed.

(** A present entry above the PT level that is no superpage leads down. *)
Lemma reach_down m P fl l v t :
  pgt_inv m P fl → reach m P (S l) v t → (1 <= l)%nat →
  getb (m.@(entry t (pidx (S l) v))) bit_present = true →
  ¬ leaf (S l) (m.@(entry t (pidx (S l) v))) →
  reach m P l v (_p2v p2v (MASK_PAGE (m.@(entry t (pidx (S l) v))))) ∧
  P !! _p2v p2v (MASK_PAGE (m.@(entry t (pidx (S l) v)))) = Some l ∧
  m.@(entry t (pidx (S l) v)) = ptr p2v (_p2v p2v (MASK_PAGE (m.@(entry t (pidx (S l) v))))).
Proof.
  intros Hi Hr Hl Hp Hnl. pose proof (reach_level _ _ _ _ _ _ Hi Hr) as Ht.
  destruct (gi_child _ _ _ Hi t (S l) (pidx (S l) v)) as [?|(l' & c & [= <-] & Hc & He)];
    [done|apply pidx_range|done|done|].
  destruct (gi_page _ _ _ Hi c _ Hc) as [Hcok _].
  destruct (ptr_facts p2v c Hcok) as (_ & E & _). rewrite He, E. split_and!; [|done|done].
  by apply (reach_next m P l v t c).
Qed.

Lemma pgt_unmap_super m P fl v :
  pgt_inv m P fl → 0 <= v < 2 ^ 48 →
  ∃ ret m', pgt_unmap pgt v 1 m = Ok ret m' ∧ (pgt_inv m' P fl ∧ stays m P fl m' P fl) ∧
    ((ret = -1 ∧ m' = m ∧ ∀ t, walk 4 m p2v root v = Some t → t.2 ≠ 2%nat) ∨
     (ret = 0 ∧ unmapped_walks 2 m m' v)).
Proof.
  intros Hi Hv. unfold pgt_unmap. cbn [negb Z.eqb].
  destruct (mask_same 2 v Hv) as (Hva & Hsame); [lia|]. change (pshift 2) with 21 in *.
  set (va := mask_down (2 ^ 21) v) in *. mrun. rewrite (gi_p2v _ _ _ Hi), (gi_cr3 _ _ _ Hi).
  change (Z.land (Z.shiftr va 39) 0x1ff) with (pidx 4 va).
  change (Z.land (Z.shiftr va 30) 0x1ff) with (pidx 3 va).
  change (Z.land (Z.shiftr va 21) 0x1ff) with (pidx 2 va).
  assert ((∀ t, walk 4 m p2v root va = Some t → t.2 ≠ 2%nat) →
    ∃ ret m', Ok (-1) m = Ok ret m' ∧ (pgt_inv m' P fl ∧ stays m P fl m' P fl) ∧
    ((ret = -1 ∧ m' = m ∧ ∀ t, walk 4 m p2v root v = Some t → t.2 ≠ 2%nat) ∨
     (ret = 0 ∧ unmapped_walks 2 m m' v))) as Hfail.
  { intros Hno. exists (-1), m. split_and!; [done|done|apply stays_refl|]. left. split_and!; [done|done|].
    intros t Et E2. assert (same_page 2 v va) as Hs by (symmetry; by apply Hsame).
    destruct (walk_super_same 4 m root v va t Hs Et E2) as (t' & Et' & E2'). by eapply Hno. }
  destruct (getb (m.@(entry root (pidx 4 va))) bit_present) eqn:E4;
    [|apply Hfail; cbn [walk]; by rewrite E4]. cbn [negb]. mrun.
  destruct (reach_down m P fl 3 va root Hi) as (Hr3 & _ & _); [constructor|lia|done|by intros [?|[? _]]|].
  set (pdpt := _p2v p2v (MASK_PAGE (m.@(entry root (pidx 4 va))))) in *.
  destruct (getb (m.@(entry pdpt (pidx 3 va))) bit_present) eqn:E3;
    [|apply Hfail; rewrite (walk_reach m P fl 3 va pdpt) by done; cbn [walk]; by rewrite E3].
  cbn [negb]. mrun.
  destruct (reach_down m P fl 2 va pdpt Hi) as (Hr2 & _ & _); [done|lia|done|by intros [?|[? _]]|].
  set (pd := _p2v p2v (MASK_PAGE (m.@(entry pdpt (pidx 3 va))))) in *.
  destruct (getb (m.@(entry pd (pidx 2 va))) bit_present) eqn:E2;
    [|apply Hfail; rewrite (walk_reach m P fl 2 va pd) by done; cbn [walk]; by rewrite E2].
  cbn [negb].
  destruct (getb (m.@(entry pd (pidx 2 va))) bit_page) eqn:E2p; cycle 1.
  { apply Hfail. intros t. rewrite (walk_reach m P fl 2 va pd) by done.
    intros ?%walk_below; [lia|done]. }
  cbn [negb]. mrun.
  destruct (clear_walk m P fl pd 2 va Hi Hr2 Hva) as (Hi' & _ & _ & Hw); [by right|].
  eexists 0, _. split_and!; [done|done| |].
  { apply (stays_entry _ _ _ pd 2); [by apply (reach_level m P fl 2 va pd)|apply pidx_range]. }
  right. split; [done|]. intros v' Hv'.
  rewrite Hw by done. by rewrite (decide_ext _ _ _ _ (Hsame v')).
Qed.

(** ** Giving back an empty PT *)

Lemma any_present_false k m pt i :
  any_present k m pt i = false →
  ∀ j, i <= j < i + Z.of_nat k → getb (m.@(entry pt j)) bit_present = false.
Proof.
  revert i. induction k as [|k IH]; intros i H j Hj; [lia|]. cbn [any_present] in H.
  destruct (getb (m.@(entry pt i)) bit_present) eqn:E; [done|].
  destruct (decide (j = i)) as [->|]; [done|]. apply (IH (i + 1)); [done|lia].
Qed.

(** The memory after the table [c] behind [entry t i] went to the spare pages. *)
Definition shrunk m t i c : gmap Z Z :=
  m.[c <- m.@(pgt_free pgt)].[pgt_free pgt <- c].[entry t i <- 0].

Lemma stays_shrunk m P fl t lt i c :
  P !! t = Some lt → is_Some (P !! c) → 0 <= i < 512 →
  stays m P fl (shrunk m t i c) (delete c P) (c :: fl).
Proof.
  intros Ht Hc Hi. split.
  - intros x [Hx1 Hx2]. unfold shrunk.
    assert (x ≠ entry t i) by (intros ->; apply (Hx2 t); [by left; eauto|by apply cell_in_page]).
    assert (x ≠ c) by (intros ->; apply (Hx2 c); [by left|lia]).
    by rewrite !rd_wr_ne.
  - intros a [Ha|Ha]; [left; by apply lookup_delete_is_Some in Ha as [_ ?]|].
    apply elem_of_cons in Ha as [->|?]; auto.
Qed.

Section shrink.
Context m P fl (t i c : Z) (l : nat).
Context (Hi : pgt_inv m P fl) (Ht : P !! t = Some (S l)) (Hc : P !! c = Some l).
Context (Hidx : 0 <= i < 512) (He : m.@(entry t i) = ptr p2v c) (Hl : (l < 4)%nat).
Context (Hempty : ∀ j, 0 <= j < 512 → m.@(entry c j) = 0).

Lemma shrunk_apart : t ≠ c ∧ entry t i ≠ c ∧ entry t i ≠ pgt_free pgt ∧ c ≠ pgt_free pgt.
Proof using All.
  destruct (gi_page _ _ _ Hi t _ Ht) as [Htok _]. destruct (gi_page _ _ _ Hi c _ Hc) as [Hcok _].
  pose proof (cell_in_page t i Hidx). assert (t ≠ c) as Htc.
  { intros ->. rewrite Hc in Ht. injection Ht. lia. }
  split_and!; [done|..].
  - intros E. apply Htc. apply (pages_apart t c (entry t i)); [apply Htok|apply Hcok|done|lia].
  - intros E. apply (gi_struct _ _ _ Hi (pgt_free pgt) t); [auto|left; eauto|]. by rewrite <-E.
  - intros E. apply (gi_struct _ _ _ Hi (pgt_free pgt) c); [auto|left; eauto|]. lia.
Qed.

Lemma shrunk_old a k j :
  P !! a = Some k → a ≠ c → 0 <= j < 512 → (a, j) ≠ (t, i) →
  (shrunk m t i c).@(entry a j) = m.@(entry a j).
Proof using All.
  intros Ha Hac Hj Hne. destruct (gi_page _ _ _ Hi t _ Ht) as [Htok _].
  destruct (gi_page _ _ _ Hi c _ Hc) as [Hcok _]. destruct (gi_page _ _ _ Hi a _ Ha) as [Haok _].
  pose proof (cell_in_page a j Hj) as Hcell. unfold shrunk. rewrite !rd_wr_ne; [done|..].
  - intros E. apply Hac. apply (pages_apart a c (entry a j)); [apply Haok|apply Hcok|done|lia].
  - intros E. apply (gi_struct _ _ _ Hi (pgt_free pgt) a); [auto|left; eauto|]. by rewrite E.
  - intros E. destruct (entry_inj t a i j (proj1 Htok) (proj1 Haok) Hidx Hj E) as [<- <-]. done.
Qed.

(** Only [entry t i] led to [c]. *)
Lemma shrunk_child a k j c' :
  P !! a = Some (S k) → 0 <= j < 512 → (a, j) ≠ (t, i) → P !! c' = Some k →
  m.@(entry a j) = ptr p2v c' → c' ≠ c.
Proof using All.
  intros Ha Hj Hne Hc' E ->. assert (k = l) as -> by congruence. apply Hne.
  by destruct (gi_inj _ _ _ Hi a j l t i l c Ha Ht Hc Hc Hj Hidx E He) as [-> ->].
Qed.

Lemma shrunk_free : chain 0 (shrunk m t i c) (pgt_free pgt) (c :: fl).
Proof using All.
  destruct shrunk_apart as (Htc & H1 & H2 & H3).
  destruct (gi_page _ _ _ Hi t _ Ht) as [Htok _]. destruct (gi_page _ _ _ Hi c _ Hc) as [Hcok _].
  assert (∀ q, q ∈ fl → (shrunk m t i c).@q = m.@q) as Hfl.
  { intros q Hq. destruct (gi_spare _ _ _ Hi _ Hq) as [Hqok Hqn]. unfold shrunk. rewrite !rd_wr_ne; [done|..].
    - congruence.
    - intros <-. apply (gi_struct _ _ _ Hi (pgt_free pgt) (pgt_free pgt)); [auto|auto|lia].
    - intros <-. assert (t = entry t i) as E by (apply (pages_apart t (entry t i) (entry t i));
        [apply Htok|apply Hqok|by apply cell_in_page|lia]). rewrite <-E in Hqn. congruence. }
  simpl. unfold shrunk at 1. rewrite rd_wr_ne, rd_wr_eq by done.
  split_and!; [done|destruct Hcok as (_ & _ & ? & _); lia|]. rewrite Z.add_0_r.
  assert ((shrunk m t i c).@c = m.@(pgt_free pgt)) as Hhd
    by (unfold shrunk; by rewrite !rd_wr_ne, rd_wr_eq by congruence).
  pose proof (gi_free _ _ _ Hi) as Hch. destruct fl as [|p fl']; simpl in Hch |- *; rewrite Hhd; [done|].
  destruct Hch as (Hp & Hp0 & Hch). split_and!; [done|done|].
  eapply chain_frame; [|done]. intros x Hx. unfold cells in Hx.
  apply elem_of_cons in Hx as [->|Hx]; [rewrite Z.add_0_r; apply Hfl; set_solver|].
  apply list_elem_of_fmap in Hx as (q & -> & Hq). rewrite Z.add_0_r. apply Hfl. set_solver.
Qed.

Lemma shrunk_inv : pgt_inv (shrunk m t i c) (delete c P) (c :: fl).
Proof using All.
  destruct shrunk_apart as (Htc & H1 & H2 & H3).
  destruct (gi_page _ _ _ Hi t _ Ht) as [Htok _]. destruct (gi_page _ _ _ Hi c _ Hc) as [Hcok _].
  assert (∀ x, x = pgt_cr3 pgt ∨ x = pgt_p2v pgt → (shrunk m t i c).@x = m.@x) as Hst.
  { intros x Hx. assert (x ≠ pgt_free pgt) by (unfold pgt_cr3, pgt_p2v, pgt_free in *; lia).
    unfold shrunk. rewrite !rd_wr_ne; [done|..]; [|congruence|].
    - intros <-. apply (gi_struct _ _ _ Hi c c); [tauto|left; eauto|lia].
    - intros <-. apply (gi_struct _ _ _ Hi (entry t i) t); [tauto|left; eauto|by apply cell_in_page]. }
  assert (∀ a k, delete c P !! a = Some k → a ≠ c ∧ P !! a = Some k) as Hlk.
  { intros a k Hk. apply lookup_delete_Some in Hk as [? ?]. auto. }
  assert ((shrunk m t i c).@(entry t i) = 0) as Hti by (unfold shrunk; by rewrite rd_wr_eq).
  split.
  - rewrite Hst by auto. apply Hi.
  - rewrite Hst by auto. apply Hi.
  - rewrite lookup_delete_ne; [apply Hi|]. intros ->. pose proof (gi_root _ _ _ Hi). 
    rewrite Hc in *. simplify_eq. lia.
  - intros a k [_ Ha]%Hlk. by apply Hi.
  - intros a k j [Hac Ha]%Hlk Hj. destruct (decide ((a, j) = (t, i))) as [[= -> ->]|Hne]; [by rewrite Hti|].
    rewrite (shrunk_old a k j) by done. by eapply (gi_absent _ _ _ Hi).
  - intros a k j [Hac Ha]%Hlk Hj. destruct (decide ((a, j) = (t, i))) as [[= -> ->]|Hne]; [by rewrite Hti|].
    rewrite (shrunk_old a k j) by done. intros Hp.
    destruct (gi_child _ _ _ Hi a k j) as [?|(k' & c' & -> & Hc' & E)]; [done..|by left|].
    right. exists k', c'. split_and!; [done| |done].
    rewrite lookup_delete_ne; [done|]. intros <-. by eapply (shrunk_child a k' j c).
  - intros a j k a' j' k' c' [Hac Ha]%Hlk [Hac' Ha']%Hlk [_ Hc']%Hlk [_ Hc'']%Hlk Hj Hj' E E'.
    assert (page_ok p2v c') as Hok by by eapply (gi_page _ _ _ Hi).
    pose proof (ptr_nonzero c' Hok) as Hnz.
    destruct (decide ((a, j) = (t, i))) as [[= -> ->]|Hne]; [congruence|].
    destruct (decide ((a', j') = (t, i))) as [[= -> ->]|Hne']; [congruence|].
    rewrite (shrunk_old a (S k) j) in E by done. rewrite (shrunk_old a' (S k') j') in E' by done.
    by eapply (gi_inj _ _ _ Hi a j k a' j' k' c').
  - apply shrunk_free.
  - apply list.NoDup_cons. split; [|apply Hi]. intros Hin.
    destruct (gi_spare _ _ _ Hi _ Hin). congruence.
  - intros a [->|Ha]%elem_of_cons.
    + split; [done|]. by rewrite lookup_delete, decide_True.
    + destruct (gi_spare _ _ _ Hi _ Ha). split; [done|]. apply lookup_delete_None. auto.
  - intros x a Hx Ha. apply (gi_struct _ _ _ Hi x a Hx).
    destruct Ha as [[k [_ Ha]%Hlk]|[->|Ha]%elem_of_cons]; [left; eauto|left; eauto|by right].
Qed.

(** The table was empty, so no walk changes. *)
Lemma shrunk_walk v : walk 4 (shrunk m t i c) p2v root v = walk 4 m p2v root v.
Proof using All.
  destruct (gi_page _ _ _ Hi c _ Hc) as [Hcok Hcl].
  assert (∀ k a, reach m P k v a → a ≠ c →
    walk k (shrunk m t i c) p2v a v = walk k m p2v a v) as H.
  2: { apply H; [constructor|]. intros E. rewrite <-E, (gi_root _ _ _ Hi) in Hc. simplify_eq. lia. }
  induction k as [|k IH]; intros a Hr Hac; [done|].
  pose proof (reach_level _ _ _ _ _ _ Hi Hr) as Ha.
  destruct (decide ((a, pidx (S k) v) = (t, i))) as [[= -> Hpi]|Hne].
  - rewrite Ht in Ha. injection Ha as <-.
    rewrite walk_absent by (rewrite Hpi; unfold shrunk; apply rd_wr_eq).
    destruct l as [|l']; [lia|]. rewrite (walk_ptr _ _ t v c) by (done || by rewrite Hpi).
    symmetry. apply walk_absent, Hempty, pidx_range.
  - pose proof (shrunk_old a (S k) (pidx (S k) v) Ha Hac (pidx_range _ _) Hne) as E.
    destruct (getb (m.@(entry a (pidx (S k) v))) bit_present) eqn:Ep; [|cbn [walk]; by rewrite E, Ep].
    destruct (gi_child _ _ _ Hi a (S k) (pidx (S k) v)) as [Hlf|(l' & c' & [= <-] & Hc' & He')];
      [done|apply pidx_range|done| |].
    + cbn [walk]. rewrite E, Ep. destruct Hlf as [[= ->]|[[= ->] ->]]; simpl; by rewrite ?orb_true_r.
    + destruct (gi_page _ _ _ Hi _ _ Hc') as [Hok Hl']. destruct k as [|k]; [lia|].
      rewrite !(walk_ptr _ _ a v c') by (done || congruence). apply IH; [by eapply reach_next|].
      apply (shrunk_child a (S k) (pidx (S (S k)) v)); auto using pidx_range.
Qed.
End shrink.

(** A walk that does not end at a superpage finds a table in the directory. *)
Lemma no_superpage m P fl va v pd :
  pgt_inv m P fl → 0 <= va < 2 ^ 48 → 0 <= v < 2 ^ 48 → same_page 1 va v → reach m P 2 va pd →
  getb (m.@(entry pd (pidx 2 va))) bit_present = true → (∀ t, walk 4 m p2v root v = Some t → t.2 ≠ 2%nat) →
  getb (m.@(entry pd (pidx 2 va))) bit_page = false.
Proof.
  intros Hi Hva Hv Hsv Hr2 E2 Hns. destruct (getb _ bit_page) eqn:E2p; [|done]. exfalso.
  assert (reach m P 2 v pd) as Hrv.
  { apply (reach_along m P fl 2 va v pd); [done|done|lia|lia|].
    apply same_page_idx in Hsv as [_ Hsv]; [|lia..]. by apply same_page_idx in Hsv as [_ ?]; [|lia..]. }
  rewrite (same_page_up 1 va v 2) in E2, E2p by (done || lia).
  eapply Hns; [rewrite (walk_reach m P fl 2 v pd) by done; cbn [walk]; by rewrite E2, E2p|done].
Qed.

(** The entry of the page cleared: the page is not mapped any more, and when
    this was the last entry of its table, the table can be given back. *)
Lemma unmap_leaf m P fl va v pd pt :
  pgt_inv m P fl → 0 <= va < 2 ^ 48 → (∀ v', same_page 1 va v' ↔ same_page 1 v v') →
  reach m P 2 va pd → reach m P 1 va pt → P !! pt = Some 1%nat → m.@(entry pd (pidx 2 va)) = ptr p2v pt →
  let m1 := m.[entry pt (pidx 1 va) <- 0] in
  (pgt_inv m1 P fl ∧ stays m P fl m1 P fl ∧ unmapped_walks 1 m m1 v) ∧
  (any_present 512 m1 pt 0 = false → let m2 := shrunk m1 pd (pidx 2 va) pt in
   pgt_inv m2 (delete pt P) (pt :: fl) ∧ stays m P fl m2 (delete pt P) (pt :: fl) ∧ unmapped_walks 1 m m2 v).
Proof.
  intros Hi Hva Hsame Hr2 Hr1 Hpt Hptr m1.
  destruct (clear_walk m P fl pt 1 va Hi Hr1 Hva) as (Hi' & _ & _ & Hw); [by left|]. fold m1 in Hi', Hw.
  assert (stays m P fl m1 P fl) as Hst by (apply (stays_entry m P fl pt 1); [done|apply pidx_range]).
  assert (unmapped_walks 1 m m1 v) as Hw1.
  { intros v' Hv'. rewrite Hw by done. by rewrite (decide_ext _ _ _ _ (Hsame v')). }
  split; [done|]. intros Eany m2. pose proof (reach_level _ _ _ _ _ _ Hi Hr2) as Hpd.
  assert (m1.@(entry pd (pidx 2 va)) = ptr p2v pt) as He.
  { rewrite <-Hptr. apply rd_wr_ne. intros E.
    destruct (entry_inj pt pd (pidx 1 va) (pidx 2 va)) as [Epp _];
      [by eapply (gi_page _ _ _ Hi)|by eapply (gi_page _ _ _ Hi)|apply pidx_range|apply pidx_range|done|].
    rewrite Epp, Hpd in Hpt. done. }
  assert (∀ j, 0 <= j < 512 → m1.@(entry pt j) = 0) as Hzero.
  { intros j Hj. apply (gi_absent _ _ _ Hi' pt 1); [done|done|].
    apply (any_present_false 512 m1 pt 0 Eany). lia. }
  split_and!.
  - apply (shrunk_inv m1 P fl pd (pidx 2 va) pt 1); auto using pidx_range; lia.
  - apply (stays_trans _ _ _ m1 P fl); [done|].
    apply (stays_shrunk m1 P fl pd 2); [done|by eexists|apply pidx_range].
  - intros v' Hv'. rewrite (shrunk_walk m1 P fl pd (pidx 2 va) pt 1) by (auto using pidx_range; lia). by apply Hw1.
Qed.

Lemma pgt_unmap_page m P fl v :
  pgt_inv m P fl → 0 <= v < 2 ^ 48 →
  (∀ t, walk 4 m p2v root v = Some t → t.2 ≠ 2%nat) →
  ∃ ret m' P' fl', pgt_unmap pgt v 0 m = Ok ret m' ∧
    (pgt_inv m' P' fl' ∧ stays m P fl m' P' fl') ∧
    ((ret = -1 ∧ m' = m ∧ walk 4 m p2v root v = None) ∨ (ret = 0 ∧ unmapped_walks 1 m m' v)).
Proof.
  intros Hi Hv Hns. unfold pgt_unmap. cbn [negb Z.eqb].
  destruct (mask_same 1 v Hv) as (Hva & Hsame); [lia|]. change (pshift 1) with 12 in *.
  set (va := mask_down (2 ^ 12) v) in *. mrun. rewrite (gi_p2v _ _ _ Hi), (gi_cr3 _ _ _ Hi).
  change (Z.land (Z.shiftr va 39) 0x1ff) with (pidx 4 va).
  change (Z.land (Z.shiftr va 30) 0x1ff) with (pidx 3 va).
  change (Z.land (Z.shiftr va 21) 0x1ff) with (pidx 2 va).
  change (Z.land (Z.shiftr va 12) 0x1ff) with (pidx 1 va).
  assert (same_page 1 va v) as Hsv by by apply Hsame.
  assert (walk 4 m p2v root va = None → ∃ ret m' P' fl', Ok (-1) m = Ok ret m' ∧
    (pgt_inv m' P' fl' ∧ stays m P fl m' P' fl') ∧
    ((ret = -1 ∧ m' = m ∧ walk 4 m p2v root v = None) ∨ (ret = 0 ∧ unmapped_walks 1 m m' v))) as Hfail.
  { intros Hn. exists (-1), m, P, fl. split_and!; [done|done|apply stays_refl|]. left. split_and!; [done|done|].
    by eapply walk_none_same. }
  destruct (getb (m.@(entry root (pidx 4 va))) bit_present) eqn:E4; [|apply Hfail; cbn [walk]; by rewrite E4].
  cbn [negb]. mrun.
  destruct (reach_down m P fl 3 va root Hi) as (Hr3 & _ & _); [constructor|lia|done|by intros [?|[? _]]|].
  set (pdpt := _p2v p2v (MASK_PAGE (m.@(entry root (pidx 4 va))))) in *.
  destruct (getb (m.@(entry pdpt (pidx 3 va))) bit_present) eqn:E3;
    [|apply Hfail; rewrite (walk_reach m P fl 3 va pdpt) by done; cbn [walk]; by rewrite E3].
  cbn [negb]. mrun.
  destruct (reach_down m P fl 2 va pdpt Hi) as (Hr2 & _ & _); [done|lia|done|by intros [?|[? _]]|].
  set (pd := _p2v p2v (MASK_PAGE (m.@(entry pdpt (pidx 3 va))))) in *.
  destruct (getb (m.@(entry pd (pidx 2 va))) bit_present) eqn:E2;
    [|apply Hfail; rewrite (walk_reach m P fl 2 va pd) by done; cbn [walk]; by rewrite E2].
  cbn [negb].
  pose proof (no_superpage m P fl va v pd Hi Hva Hv Hsv Hr2 E2 Hns) as E2p.
  destruct (reach_down m P fl 1 va pd Hi) as (Hr1 & Hpt & Hptr); [done|lia|done| |].
  { intros [?|[_ ?]]; [done|congruence]. }
  set (pt := _p2v p2v (MASK_PAGE (m.@(entry pd (pidx 2 va))))) in *. mrun.
  destruct (getb (m.@(entry pt (pidx 1 va))) bit_present) eqn:E1;
    [|apply Hfail; rewrite (walk_reach m P fl 1 va pt) by done; cbn [walk]; by rewrite E1].
  cbn [negb]. mrun.
  destruct (unmap_leaf m P fl va v pd pt Hi Hva Hsame Hr2 Hr1 Hpt Hptr) as [(Hi1 & Hst1 & Hw1) Hempty].
  set (m1 := m.[entry pt (pidx 1 va) <- 0]) in *. unfold peek. erewrite bind_ok by done.
  destruct (any_present 512 m1 pt 0); [exists 0, m1, P, fl; split_and!; [done..|by right]|].
  unfold pgt_push. mrun. destruct (Hempty eq_refl) as (Hi2 & Hst2 & Hw2).
  exists 0, (shrunk m1 pd (pidx 2 va) pt), (delete pt P), (pt :: fl). split_and!; [done..|by right].
Qed.

(** ** Initialization *)

Lemma push_inv m P fl c :
  pgt_inv m P fl → page_ok p2v c → P !! c = None → c ∉ fl →
  (∀ x, x = pgt_cr3 pgt ∨ x = pgt_p2v pgt ∨ x = pgt_free pgt → ¬ (c <= x < c + 4096)) →
  pgt_inv (m.[c <- m.@(pgt_free pgt)].[pgt_free pgt <- c]) P (c :: fl).
Proof.
  intros Hi Hcok Hcn Hcf Hcs. set (m' := m.[c <- m.@(pgt_free pgt)].[pgt_free pgt <- c]).
  assert (∀ x, x ≠ c → x ≠ pgt_free pgt → m'.@x = m.@x) as Hfr
    by (intros; unfold m'; by rewrite !rd_wr_ne by congruence).
  assert (∀ a k j, P !! a = Some k → 0 <= j < 512 → m'.@(entry a j) = m.@(entry a j)) as Hold.
  { intros a k j Ha Hj. destruct (gi_page _ _ _ Hi a _ Ha) as [Haok _].
    pose proof (cell_in_page a j Hj). apply Hfr.
    - intros E. assert (a = c) as -> by (apply (pages_apart a c (entry a j));
        [apply Haok|apply Hcok|done|lia]). congruence.
    - intros E. apply (gi_struct _ _ _ Hi (pgt_free pgt) a); [auto|left; eauto|lia]. }
  assert (c ≠ pgt_free pgt) as Hne by (intros ->; apply (Hcs (pgt_free pgt)); auto; lia).
  split; try (apply Hi).
  - rewrite Hfr; [apply Hi| |unfold pgt_p2v, pgt_free; lia].
    intros E. apply (Hcs (pgt_p2v pgt)); [tauto|lia].
  - rewrite Hfr; [apply Hi| |unfold pgt_cr3, pgt_free; lia].
    intros E. apply (Hcs (pgt_cr3 pgt)); [tauto|lia].
  - intros a k j Ha Hj. rewrite (Hold a k j) by done. by eapply (gi_absent _ _ _ Hi).
  - intros a k j Ha Hj. rewrite (Hold a k j) by done. by apply (gi_child _ _ _ Hi).
  - intros a j k a' j' k' c' Ha Ha' Hc Hc' Hj Hj'. rewrite (Hold a (S k) j), (Hold a' (S k') j') by done.
    by apply (gi_inj _ _ _ Hi a j k a' j' k' c').
  - assert (m'.@c = m.@(pgt_free pgt)) as Hhd by (unfold m'; by rewrite rd_wr_ne, rd_wr_eq).
    simpl. unfold m' at 1. rewrite rd_wr_eq. split_and!; [done|destruct Hcok as (_ & _ & ? & _); lia|].
    rewrite Z.add_0_r. pose proof (gi_free _ _ _ Hi) as Hch.
    assert (∀ q, q ∈ fl → m'.@q = m.@q) as Hfl.
    { intros q Hq. apply Hfr; [congruence|]. intros ->.
      apply (gi_struct _ _ _ Hi (pgt_free pgt) (pgt_free pgt)); [auto|auto|lia]. }
    destruct fl as [|p fl']; simpl in Hch |- *; rewrite Hhd; [done|].
    destruct Hch as (Hp & Hp0 & Hch). split_and!; [done|done|].
    eapply chain_frame; [|done]. intros x Hx. unfold cells in Hx.
    apply elem_of_cons in Hx as [->|Hx]; [rewrite Z.add_0_r; apply Hfl; set_solver|].
    apply list_elem_of_fmap in Hx as (q & -> & Hq). rewrite Z.add_0_r. apply Hfl. set_solver.
  - apply list.NoDup_cons. split; [done|apply Hi].
  - intros a [->|Ha]%elem_of_cons; [done|by apply Hi].
  - intros x a Hx Ha. destruct Ha as [Ha|[->|Ha]%elem_of_cons]; [|by apply Hcs|];
      apply (gi_struct _ _ _ Hi x a Hx); auto.
Qed.

(** The pages [buf + 4096], ..., most recently pushed first. *)
Fixpoint spare_pages (k : nat) (buf : Z) : list Z :=
  match k with
  | O => []
  | S k => (buf + Z.of_nat (S k) * 4096) :: spare_pages k buf
  end.

Lemma elem_of_spare k buf a :
  a ∈ spare_pages k buf → ∃ i, 1 <= i <= Z.of_nat k ∧ a = buf + i * 4096.
Proof.
  induction k as [|k IH]; simpl; [set_solver|]. intros [->|Ha]%elem_of_cons.
  - exists (Z.of_nat (S k)). lia.
  - destruct (IH Ha) as (i & Hi & ->). exists i. lia.
Qed.

End pgt.

Section init.
Context (pgt p2v buf : Z) (n : nat).
Context (Hbuf : buf mod 4096 = 0) (Hp2v : p2v mod 4096 = 0) (Hlt : 0 <= p2v < buf).
Context (Htop : buf + (Z.of_nat n + 1) * 4096 <= 2 ^ 48).
Context (Hpgt : ∀ x, pgt <= x <= pgt + 16 → ¬ (buf <= x < buf + (Z.of_nat n + 1) * 4096)).

Lemma init_page i : 0 <= i <= Z.of_nat n → page_ok p2v (buf + i * 4096).
Proof using All.
  intros Hi. unfold page_ok. split_and!; [|done|lia|lia|lia].
  rewrite Z.mod_add by lia. done.
Qed.

Lemma init_push k m :
  (k <= n)%nat → pgt_inv pgt p2v buf m {[ buf := 4%nat ]} [] →
  ∃ m', for_up k 1 (λ i, pgt_push pgt (buf + i * 4096)) m = Ok tt m' ∧
    pgt_inv pgt p2v buf m' {[ buf := 4%nat ]} (spare_pages k buf) ∧
    ∀ j, 0 <= j < 512 → m'.@(entry buf j) = m.@(entry buf j).
Proof using All.
  intros Hk Hi.
  assert (∀ d j m1, (j + d = k)%nat → pgt_inv pgt p2v buf m1 {[ buf := 4%nat ]} (spare_pages j buf) →
    ∃ m', for_up d (Z.of_nat j + 1) (λ i, pgt_push pgt (buf + i * 4096)) m1 = Ok tt m' ∧
      pgt_inv pgt p2v buf m' {[ buf := 4%nat ]} (spare_pages k buf) ∧
      ∀ q, 0 <= q < 512 → m'.@(entry buf q) = m1.@(entry buf q)) as H; [|by apply (H k 0%nat m)].
  induction d as [|d IH]; intros j m1 Hj Hi1.
  { exists m1. replace j with k in * by lia. done. }
  cbn [for_up]. unfold pgt_push at 1. mrun.
  pose proof (init_page (Z.of_nat j + 1) ltac:(lia)) as Hok.
  set (c := buf + (Z.of_nat j + 1) * 4096) in *.
  destruct (IH (S j) (m1.[c <- m1.@(pgt_free pgt)].[pgt_free pgt <- c])) as (m' & E & Hi' & Hz); [lia| |].
  - simpl. replace (buf + Z.of_nat (S j) * 4096) with c by (unfold c; lia).
    apply push_inv; [done|done|apply lookup_singleton_ne; unfold c; lia| |].
    + intros (i & Hr & Ei)%elem_of_spare. unfold c in *. lia.
    + intros x Hx Hin. unfold pgt_cr3, pgt_p2v, pgt_free, c in *. apply (Hpgt x); lia.
  - exists m'. replace (Z.of_nat j + 1 + 1) with (Z.of_nat (S j) + 1) by lia.
    split_and!; [done|done|]. intros q Hq. rewrite Hz by done. pose proof (cell_in_page buf q Hq).
    rewrite !rd_wr_ne; [done|unfold c; lia|]. intros Eq. unfold pgt_free in *.
    apply (Hpgt (entry buf q)); lia.
Qed.

Lemma pgt_init_spec m :
  ∃ m', pgt_init pgt buf (Z.of_nat n + 1) p2v m = Ok tt m' ∧
    pgt_inv pgt p2v buf m' {[ buf := 4%nat ]} (spare_pages n buf) ∧
    ∀ v, walk 4 m' p2v buf v = None.
Proof using All.
  unfold pgt_init. rewrite (proj2 (Z.leb_le 1 _)) by lia. unfold kassert, memset0. mrun.
  erewrite bind_ok by done. mrun.
  set (m0 := (kmemset0 buf 4096 (m.[pgt_p2v pgt <- p2v].[pgt_free pgt <- 0])).[pgt_cr3 pgt <- _v2p p2v buf]).
  replace (Z.to_nat (Z.of_nat n + 1 - 1)) with n by lia.
  assert (∀ x, x = pgt_cr3 pgt ∨ x = pgt_p2v pgt ∨ x = pgt_free pgt → ¬ (buf <= x < buf + 4096)) as Hst.
  { intros x Hx Hin. unfold pgt_cr3, pgt_p2v, pgt_free in *. apply (Hpgt x); lia. }
  assert (∀ j, 0 <= j < 512 → m0.@(entry buf j) = 0) as Hzero.
  { intros j Hj. pose proof (cell_in_page buf j Hj). unfold m0. rewrite rd_wr_ne.
    - rewrite rd_kmemset0, decide_True; done.
    - intros E. apply (Hst (pgt_cr3 pgt)); [auto|lia]. }
  pose proof (init_page 0 ltac:(lia)) as Hok. rewrite Z.mul_0_l, Z.add_0_r in Hok.
  assert (pgt_inv pgt p2v buf m0 {[ buf := 4%nat ]} []) as Hi0.
  { assert (∀ a l, ({[ buf := 4%nat ]} : gmap Z nat) !! a = Some l → a = buf ∧ l = 4%nat) as Hs
      by (intros a l [-> ->]%lookup_singleton_Some; done).
    split.
    - unfold m0. rewrite rd_wr_ne by (unfold pgt_cr3, pgt_p2v; lia).
      rewrite rd_kmemset0, decide_False by auto. rewrite rd_wr_ne, rd_wr_eq; [done|].
      unfold pgt_free, pgt_p2v. lia.
    - unfold m0. rewrite rd_wr_eq. unfold _v2p, _p2v. rewrite (u64_small (buf - p2v)) by lia.
      replace (MASK_PAGE (buf - p2v)) with (buf - p2v); [rewrite u64_small; lia|].
      symmetry. rewrite <-(Z.lor_0_l (buf - p2v)) at 1. destruct (ptr_facts p2v buf Hok) as (? & _).
      apply MASK_PAGE_entry; lia.
    - by rewrite lookup_singleton, decide_True.
    - intros a l [-> ->]%Hs. split; [done|lia].
    - intros a l i [-> ->]%Hs Hi. rewrite Hzero by done. done.
    - intros a l i [-> ->]%Hs Hi. rewrite Hzero by done. done.
    - intros a i l a' i' l' c [-> Hl]%Hs [-> _]%Hs [-> Hl2]%Hs. lia.
    - simpl. unfold m0. rewrite rd_wr_ne by (unfold pgt_cr3, pgt_free; lia).
      rewrite rd_kmemset0, decide_False by auto. apply rd_wr_eq.
    - constructor.
    - set_solver.
    - intros x a Hx [[l [-> _]%Hs]|Ha]; [by apply Hst|set_solver]. }
  destruct (init_push n m0 ltac:(lia) Hi0) as (m' & E & Hi' & Hz). exists m'. split_and!; [done|done|].
  intros v. apply walk_absent. rewrite Hz by apply pidx_range. apply Hzero, pidx_range.
Qed.
End init.

(** ** Examples of page tables *)

(** An empty page table at 64 with eight pages at 0x10000 and no offset. *)
Definition pgt_ex : gmap Z Z :=
  match pgt_init 64 0x10000 8 0 ∅ with Ok _ m => m | _ => ∅ end.

Lemma pgt_ex_inv :
  pgt_inv 64 0 0x10000 pgt_ex {[ 0x10000 := 4%nat ]} (spare_pages 7 0x10000) ∧
  ∀ v, walk 4 pgt_ex 0 0x10000 v = None.
Proof.
  destruct (pgt_init_spec 64 0 0x10000 7) with (m := (∅ : gmap Z Z)) as (m' & E & Hi & Hw);
    [done|done|lia|lia|lia|].
  unfold pgt_ex. change 8 with (Z.of_nat 7 + 1). by rewrite E.
Qed.

(** After [c], what a look at the memory gives. *)
Definition after {A} (c : M A) (m : gmap Z Z) (f : gmap Z Z → Z) : option (A * Z) :=
  match c m with Ok a m' => Some (a, f m') | _ => None end.

(** ** Properties *)

(** [pgt_init] builds a well-formed page table that translates nothing,
    with all pages but the first as spare table pages. *)
Theorem pgt_init_correct (pgt p2v buf : Z) (n : nat) (m : gmap Z Z) :
  buf mod 4096 = 0 → p2v mod 4096 = 0 → 0 <= p2v < buf →
  buf + (Z.of_nat n + 1) * 4096 <= 2 ^ 48 →
  (∀ x, pgt <= x <= pgt + 16 → ¬ (buf <= x < buf + (Z.of_nat n + 1) * 4096)) →
  ∃ m', pgt_init pgt buf (Z.of_nat n + 1) p2v m = Ok tt m' ∧
    pgt_inv pgt p2v buf m' {[ buf := 4%nat ]} (spare_pages n buf) ∧
    ∀ v, walk 4 m' p2v buf v = None.
Proof. intros. by apply pgt_init_spec. Qed.

Lemma pgt_init_witness :
  ∃ m', pgt_init 64 0x10000 (Z.of_nat 7 + 1) 0 ∅ = Ok tt m' ∧
    pgt_inv 64 0 0x10000 m' {[ 0x10000 := 4%nat ]} (spare_pages 7 0x10000) ∧
    ∀ v, walk 4 m' 0 0x10000 v = None.
Proof. apply (pgt_init_correct 64 0 0x10000 7 ∅); [done|done|lia|lia|lia]. Defined.

(** C4: [pgt_map] of a 4 KiB page on an untranslated address always returns;
    with three spare pages it succeeds.  On success the processor translates
    exactly the addresses of that page to the frame, with the permissions
    asked for, and every other address as before; on failure (no spare page)
    every translation is as before.  The page table stays well formed. *)
Theorem pgt_map_page_correct (pgt p2v root : Z) (m : gmap Z Z) (P : gmap Z nat) (fl : list Z)
    (v phys g rw us : Z) :
  pgt_inv pgt p2v root m P fl → 0 <= v < 2 ^ 48 → 0 <= phys < 2 ^ 51 →
  walk 4 m p2v root v = None →
  ∃ ret m' P' fl', pgt_map pgt v phys 0 g rw us m = Ok ret m' ∧
    (pgt_inv pgt p2v root m' P' fl' ∧ stays pgt m P fl m' P' fl') ∧
    map_outcome p2v root 1 m m' v (phys - phys mod 2 ^ 12) (Z.odd rw) (Z.odd us) ret ∧
    ((3 <= length fl)%nat → ret = 0 ∧ (length fl <= length fl' + 3)%nat).
Proof. apply pgt_map_page. Qed.

Lemma pgt_map_page_witness :
  ∃ ret m' P' fl', pgt_map 64 0x40201000 0x777000 0 0 1 1 pgt_ex = Ok ret m' ∧
    (pgt_inv 64 0 0x10000 m' P' fl' ∧ stays 64 pgt_ex {[ 0x10000 := 4%nat ]} (spare_pages 7 0x10000) m' P' fl') ∧
    map_outcome 0 0x10000 1 pgt_ex m' 0x40201000 (0x777000 - 0x777000 mod 2 ^ 12)
      (Z.odd 1) (Z.odd 1) ret ∧
    ((3 <= length (spare_pages 7 0x10000))%nat →
     ret = 0 ∧ (length (spare_pages 7 0x10000) <= length fl' + 3)%nat).
Proof.
  apply (pgt_map_page_correct 64 0 0x10000 pgt_ex {[ 0x10000 := 4%nat ]} (spare_pages 7 0x10000));
    [apply pgt_ex_inv|lia|lia|apply pgt_ex_inv].
Defined.

(** [pgt_map] of a 2 MiB page either fails and leaves every translation as
    it was (a table or page is already there, or no spare page is left), or
    maps exactly the 2 MiB of the superpage to the frame with the permissions
    asked for.  The page table stays well formed. *)
Theorem pgt_map_superpage_correct (pgt p2v root : Z) (m : gmap Z Z) (P : gmap Z nat)
    (fl : list Z) (v phys g rw us : Z) :
  pgt_inv pgt p2v root m P fl → 0 <= v < 2 ^ 48 → 0 <= phys < 2 ^ 51 →
  ∃ ret m' P' fl', pgt_map pgt v phys 1 g rw us m = Ok ret m' ∧
    (pgt_inv pgt p2v root m' P' fl' ∧ stays pgt m P fl m' P' fl') ∧
    map_outcome p2v root 2 m m' v (phys - phys mod 2 ^ 21) (Z.odd rw) (Z.odd us) ret.
Proof. apply pgt_map_super. Qed.

Lemma pgt_map_superpage_witness :
  ∃ ret m' P' fl', pgt_map 64 0x40201000 0x777000 1 0 1 0 pgt_ex = Ok ret m' ∧
    (pgt_inv 64 0 0x10000 m' P' fl' ∧ stays 64 pgt_ex {[ 0x10000 := 4%nat ]} (spare_pages 7 0x10000) m' P' fl') ∧
    map_outcome 0 0x10000 2 pgt_ex m' 0x40201000 (0x777000 - 0x777000 mod 2 ^ 21)
      (Z.odd 1) (Z.odd 0) ret.
Proof.
  apply (pgt_map_superpage_correct 64 0 0x10000 pgt_ex {[ 0x10000 := 4%nat ]}
    (spare_pages 7 0x10000)); [apply pgt_ex_inv|lia|lia].
Defined.



(** [pgt_v2p] does not translate what [pgt_map] has mapped: below the PDPT
    it reads entry 0 of the tables instead of the entry of the address.  With
    one page mapped at 0x40201000 the processor translates the address, and
    [pgt_v2p] returns NULL. *)
Theorem pgt_v2p_misses_mapping :
  after (_ ← pgt_map 64 0x40201000 0x777000 0 0 1 1; pgt_v2p 64 0x40201000) pgt_ex
    (λ m, from_option (λ t, t.1.1.1) 0 (walk 4 m 0 0x10000 0x40201000)) = Some (0, 0x777000).
Proof. vm_compute. reflexivity. Qed.

(** [pgt_map] of a 4 KiB page inside a mapped 2 MiB page does not notice
    the superpage: it succeeds, writes the new entry into the mapped frame
    as if it were a page table (here the second entry at 0x600008), and the
    translation of the address is still that of the superpage. *)
Theorem pgt_map_inside_superpage_corrupts :
  after (_ ← pgt_map 64 0x40200000 0x600000 1 0 1 1; pgt_map 64 0x40201000 0x777000 0 0 1 1) pgt_ex
    (λ m, m.@0x600008) = Some (0, 0x777007) ∧
  after (_ ← pgt_map 64 0x40200000 0x600000 1 0 1 1; pgt_map 64 0x40201000 0x777000 0 0 1 1) pgt_ex
    (λ m, from_option (λ t, t.1.1.1) 0 (walk 4 m 0 0x10000 0x40201000)) = Some (0, 0x601000).
Proof. vm_compute. split; reflexivity. Qed.

(** [arch_memory_prepare] of several GiB prepares the first one again and
    again: after preparing [0, 2 GiB) a table that refers to the second GiB
    finds nothing there. *)
Theorem arch_memory_prepare_only_first :
  result ((_ ← pgt_init 2048 0x20000 8 0; _ ← arch_memory_prepare 64 0 0x80000000;
           arch_memory_refer 2048 64 0 0x80000000) pgt_ex) = Some (-1) ∧
  result ((_ ← pgt_init 2048 0x20000 8 0; _ ← arch_memory_prepare 64 0 0x80000000;
           arch_memory_refer 2048 64 0 0x40000000) pgt_ex) = Some 0.
Proof. vm_compute. split; reflexivity. Qed.
