(* ===== verification/PgtRange.v ===== *)
(** * Ranges of pages: [arch_memory_map] and [arch_memory_unmap]

    A [page_t] of order [o] stands for [2 ^ o] pages, or [2 ^ (o - 9)]
    superpages, that are mapped one after the other and unmapped again when
    one of them cannot be mapped.  The theorems lift the ones on single pages
    to the whole range, the roll back included. *)

From S2P Require Import Prelude CMonad Pgt PgtTheorems.

Section range.
Context (pgt p2v root : Z).
Implicit Types (m : gmap Z Z) (P : gmap Z nat) (fl : list Z).
Notation inv := (pgt_inv pgt p2v root).
Notation stay := (stays pgt).
Notation walks m v := (walk 4 m p2v root v).

(** The level of the leaf for the [superpage] argument. *)
Definition leaf_level (sp : Z) : nat := if sp =? 0 then 1 else 2.
Definition leaf_size (sp : Z) : Z := 2 ^ pshift (leaf_level sp).

Context (sp : Z) (Hsp : sp = 0 ∨ sp = 1).
Notation l := (leaf_level sp).
Notation s := (leaf_size sp).

Lemma leaf_size_pos : 4096 <= s.
Proof using Hsp. unfold leaf_size, leaf_level, pshift. destruct Hsp as [-> | ->]; simpl; lia. Qed.

Lemma map_level m P fl v phys g rw us :
  inv m P fl → 0 <= v < 2 ^ 48 → 0 <= phys < 2 ^ 51 → (sp = 0 → walks m v = None) →
  ∃ ret m' P' fl', pgt_map pgt v phys sp g rw us m = Ok ret m' ∧
    (inv m' P' fl' ∧ stay m P fl m' P' fl') ∧
    map_outcome p2v root l m m' v (phys - phys mod s) (Z.odd rw) (Z.odd us) ret ∧
    (sp = 0 → (3 <= length fl)%nat → ret = 0 ∧ (length fl <= length fl' + 3)%nat).
Proof using Hsp.
  intros Hi Hv Hp Hn. unfold leaf_size, leaf_level. destruct Hsp as [-> | ->]; cbn [Z.eqb].
  - destruct (pgt_map_page pgt p2v root m P fl v phys g rw us) as (r & m' & P' & fl' & E & ? & ? & ?);
      eauto. exists r, m', P', fl'. auto.
  - destruct (pgt_map_super pgt p2v root m P fl v phys g rw us) as (r & m' & P' & fl' & E & ? & ?);
      [done..|]. exists r, m', P', fl'. split_and!; [done|naive_solver..|lia].
Qed.

Lemma unmap_level m P fl v t :
  inv m P fl → 0 <= v < 2 ^ 48 → walks m v = Some t → t.2 = l →
  ∃ m' P' fl', pgt_unmap pgt v sp m = Ok 0 m' ∧ (inv m' P' fl' ∧ stay m P fl m' P' fl') ∧ unmapped_walks p2v root l m m' v.
Proof using Hsp.
  intros Hi Hv Ht Hl. unfold leaf_level in *. destruct Hsp as [-> | ->]; cbn [Z.eqb] in *.
  - destruct (pgt_unmap_page pgt p2v root m P fl v) as (r & m' & P' & fl' & E & Hi' & [(_ & _ & ?)|[-> ?]]);
      [done|done| |congruence|eauto 10].
    intros t'. rewrite Ht. intros [= <-]. lia.
  - destruct (pgt_unmap_super pgt p2v root m P fl v) as (r & m' & E & Hi' & [(_ & _ & Hno)|[-> ?]]);
      [done|done| |eauto 10]. by destruct (Hno t Ht).
Qed.

(** The range of [k] pages at [v] was untranslated in [m] and is mapped in [m']. *)
Definition range_mapped (k : Z) m m' v phys (rw us : bool) : Prop :=
  ∀ v', 0 <= v' < 2 ^ 48 →
  if decide (v <= v' < v + k * s) then
    walks m v' = None ∧ walks m' v' = Some (phys + (v' - v), rw, us, l)
  else walks m' v' = walks m v'.

Context (v phys : Z) (n : nat).
Context (Hv : 0 <= v) (Hvs : v mod s = 0) (Hvt : v + Z.of_nat n * s <= 2 ^ 48).
Context (Hp : 0 <= phys) (Hps : phys mod s = 0) (Hpt : phys + Z.of_nat n * s <= 2 ^ 51).

Lemma page_index i v' :
  0 <= v' → same_page l (v + s * i) v' ↔ v + i * s <= v' < v + (i + 1) * s.
Proof using All.
  intros Hv'. pose proof leaf_size_pos as Hs. unfold same_page. fold s.
  apply mod0_ex in Hvs as [q E]; [|lia]. rewrite E.
  replace (s * q + s * i) with ((q + i) * s) by lia. rewrite Z.div_mul by lia.
  pose proof (Z.div_mod v' s). pose proof (Z.mod_pos_bound v' s). split; intros H'; [nia|].
  apply Z.le_antisymm; [apply Z.div_le_lower_bound; nia|].
  apply Z.lt_succ_r, Z.div_lt_upper_bound; nia.
Qed.

Lemma page_offset i v' :
  0 <= i → same_page l (v + s * i) v' → 0 <= v' →
  phys + s * i - (phys + s * i) mod s + v' mod s = phys + (v' - v).
Proof using All.
  intros Hi Hsame Hv'. pose proof leaf_size_pos as Hs. apply page_index in Hsame; [|done].
  rewrite (Z.mul_comm s i), Z.mod_add, Hps by lia.
  apply mod0_ex in Hvs as [q E]; [|lia].
  replace v' with (v' - v - i * s + (q + i) * s) at 1 by lia.
  rewrite Z.mod_add, Z.mod_small by lia. lia.
Qed.

(** One more page. *)
Lemma range_mapped_S i m m1 m2 rw us :
  0 <= i → range_mapped i m m1 v phys rw us →
  mapped_walks p2v root l m1 m2 (v + s * i) (phys + s * i - (phys + s * i) mod s) rw us →
  range_mapped (i + 1) m m2 v phys rw us.
Proof using All.
  intros Hi H1 H2 v' Hv'. specialize (H1 v' Hv'). specialize (H2 v' Hv').
  pose proof leaf_size_pos. pose proof (page_index i v' ltac:(lia)) as Hpi.
  destruct (decide (same_page l (v + s * i) v')) as [Hs|Hs]; pose proof Hs as Hs'; rewrite Hpi in Hs'.
  - rewrite decide_False in H1 by lia. rewrite decide_True by nia. destruct H2 as [H2 H3].
    rewrite page_offset in H3 by (done || lia). split; congruence.
  - rewrite H2. destruct (decide (v <= v' < v + i * s)).
    + by rewrite decide_True by lia.
    + by rewrite decide_False by nia.
Qed.

Lemma range_unmapped_S i m m1 m2 rw us :
  0 <= i → range_mapped (i + 1) m m1 v phys rw us →
  unmapped_walks p2v root l m1 m2 (v + s * i) → range_mapped i m m2 v phys rw us.
Proof using All.
  intros Hi H1 H2 v' Hv'. specialize (H1 v' Hv'). specialize (H2 v' Hv').
  pose proof leaf_size_pos. pose proof (page_index i v' ltac:(lia)) as Hpi.
  destruct (decide (same_page l (v + s * i) v')) as [Hs|Hs]; rewrite Hpi in Hs; rewrite H2.
  - rewrite decide_True in H1 by nia. rewrite decide_False by lia. by destruct H1.
  - destruct (decide (v <= v' < v + (i + 1) * s)).
    + by rewrite decide_True by lia.
    + by rewrite decide_False by nia.
Qed.

Lemma map_loop_spec page g rw us k i m0 m P fl :
  inv m P fl → m.@(page_physical page) = phys → outside pgt P fl (page_physical page) → (i + k <= n)%nat → range_mapped (Z.of_nat i) m0 m v phys (Z.odd rw) (Z.odd us) →
  (sp = 0 → ∀ j, (i <= j < n)%nat → walks m0 (v + s * Z.of_nat j) = None) →
  ∃ r m' P' fl', map_loop k pgt v page s sp g rw us (Z.of_nat i) m = Ok r m' ∧
    (inv m' P' fl' ∧ stay m P fl m' P' fl') ∧
    match r with
    | None => range_mapped (Z.of_nat (i + k)) m0 m' v phys (Z.odd rw) (Z.odd us)
    | Some j => ∃ c : nat, j = Z.of_nat c ∧ (c < i + k)%nat ∧
        range_mapped j m0 m' v phys (Z.odd rw) (Z.odd us)
    end ∧ (sp = 0 → (3 * k <= length fl)%nat → r = None).
Proof using All.
  pose proof leaf_size_pos as Hs.
  revert i m P fl. induction k as [|k IH]; intros i m P fl Hi Ep Hpo Hk Hr Hn.
  { exists None, m, P, fl. rewrite Nat.add_0_r. split_and!; [done|done|apply stays_refl|done|done]. }
  cbn [map_loop]. mrun. rewrite Ep. rewrite !u64_small by nia.
  destruct (map_level m P fl (v + s * Z.of_nat i) (phys + s * Z.of_nat i) g rw us)
    as (ret & m1 & P1 & fl1 & E & [Hi1 Hst] & Hout & Hlen); [done|nia|nia| |].
  { intros E0. specialize (Hr (v + s * Z.of_nat i) ltac:(nia)).
    rewrite decide_False in Hr by lia. rewrite Hr. apply Hn; [done|lia]. }
  rewrite (bind_ok _ _ _ _ _ E). destruct Hout as [[-> Hw]|[-> Hw]]; cbn [Z.ltb Z.compare].
  - exists (Some (Z.of_nat i)), m1, P1, fl1. split_and!; [done|done|done| |].
    + exists i. split_and!; [done|lia|]. intros v' Hv'. rewrite Hw. by apply Hr.
    + intros E0 Hl. destruct (Hlen E0); [lia|done].
  - destruct (IH (S i) m1 P1 fl1) as (r & m2 & P2 & fl2 & E2 & [Hi2 Hst2] & Hr2 & Hl2);
      [done|by rewrite (proj1 Hst)|by eapply stays_outside|lia| |intros; apply Hn; [done|lia]|].
    { rewrite Nat2Z.inj_succ. eapply range_mapped_S; [lia|done|done]. }
    replace (Z.of_nat i + 1) with (Z.of_nat (S i)) by lia.
    exists r, m2, P2, fl2. rewrite <-Nat.add_succ_comm.
    split_and!; [done|done|by eapply stays_trans|done|].
    intros E0 Hl. apply Hl2; [done|]. destruct (Hlen E0); lia.
Qed.

(** The roll back restores every translation. *)
Lemma unmap_down_spec k m0 m P fl rw us :
  inv m P fl → (k <= n)%nat → range_mapped (Z.of_nat k) m0 m v phys rw us →
  ∃ m' P' fl', unmap_down k pgt v s sp m = Ok tt m' ∧
    (inv m' P' fl' ∧ stay m P fl m' P' fl') ∧
    ∀ v', 0 <= v' < 2 ^ 48 → walks m' v' = walks m0 v'.
Proof using All.
  pose proof leaf_size_pos as Hs.
  revert m P fl. induction k as [|k IH]; intros m P fl Hi Hk Hr.
  { exists m, P, fl. split_and!; [done|done|apply stays_refl|]. intros v' Hv'. specialize (Hr v' Hv').
    by rewrite decide_False in Hr by lia. }
  cbn [unmap_down]. rewrite u64_small by nia. rewrite Nat2Z.inj_succ in Hr.
  pose proof (Hr (v + s * Z.of_nat k) ltac:(nia)) as Ht. rewrite decide_True in Ht by nia.
  destruct Ht as [_ Ht].
  edestruct (unmap_level m P fl) as (m1 & P1 & fl1 & E & [Hi1 Hst] & Hw); [done| |exact Ht|done|]; [nia|].
  rewrite (bind_ok _ _ _ _ _ E).
  destruct (IH m1 P1 fl1) as (m2 & P2 & fl2 & E2 & [Hi2 Hst2] & Hw2); [done|lia| |].
  { by eapply range_unmapped_S; [lia|..]. }
  exists m2, P2, fl2. split_and!; [done|done|by eapply stays_trans|done].
Qed.

Lemma unmap_up_spec k i m0 m P fl rw us :
  inv m P fl → (i + k <= n)%nat →
  (∀ v', 0 <= v' < 2 ^ 48 → v + Z.of_nat i * s <= v' < v + Z.of_nat n * s →
     ∃ a, walks m v' = Some (a, rw, us, l)) →
  (∀ v', 0 <= v' < 2 ^ 48 → walks m v' =
     if decide (v <= v' < v + Z.of_nat i * s) then None else walks m0 v') →
  ∃ m' P' fl', for_up k (Z.of_nat i)
      (λ i, _ ← pgt_unmap pgt (u64 (v + s * i)) sp; mret tt) m = Ok tt m' ∧
    (inv m' P' fl' ∧ stay m P fl m' P' fl') ∧
    ∀ v', 0 <= v' < 2 ^ 48 → walks m' v' =
      if decide (v <= v' < v + Z.of_nat (i + k) * s) then None else walks m0 v'.
Proof using All.
  pose proof leaf_size_pos as Hs.
  revert i m P fl. induction k as [|k IH]; intros i m P fl Hi Hk Hr Hw0.
  { rewrite Nat.add_0_r. exists m, P, fl. split_and!; [done|done|apply stays_refl|done]. }
  cbn [for_up]. rewrite u64_small by nia.
  destruct (Hr (v + s * Z.of_nat i)) as [a Ht]; [nia|nia|].
  edestruct (unmap_level m P fl) as (m1 & P1 & fl1 & E & [Hi1 Hst] & Hw); [done| |exact Ht|done|]; [nia|].
  rewrite bind_assoc, (bind_ok _ _ _ _ _ E). mrun.
  replace (Z.of_nat i + 1) with (Z.of_nat (S i)) by lia. rewrite <-Nat.add_succ_comm.
  destruct (IH (S i) m1 P1 fl1) as (m2 & P2 & fl2 & E2 & [Hi2 Hst2] & Hw2); [done|lia|..];
    [..|exists m2, P2, fl2; split_and!; [done|done|by eapply stays_trans|done]];
    intros v' Hv'; [intros Hin|]; rewrite Hw by done;
    pose proof (page_index (Z.of_nat i) v' ltac:(lia)) as Hpi;
    destruct (decide (same_page l (v + s * Z.of_nat i) v')) as [Hsm|Hsm]; rewrite Hpi in Hsm.
  - lia.
  - apply Hr; [done|lia].
  - by rewrite decide_True by nia.
  - rewrite Hw0 by done. destruct (decide (v <= v' < v + Z.of_nat i * s)).
    + by rewrite decide_True by lia.
    + by rewrite decide_False by nia.
Qed.
End range.

(** ** Properties *)

(** What a page of order [o] covers, and the size of its leaves. *)
Definition span (o : Z) : Z := 2 ^ (12 + o).
Definition superpage_of (o : Z) : Z := if SUPERPAGE_ORDER <=? o then 1 else 0.

Lemma page_geometry_eq o :
  0 <= o → ∃ n : nat, page_geometry o = (superpage_of o, leaf_size (superpage_of o), Z.log2 (Z.of_nat n)) ∧
    Z.to_nat (Z.shiftl 1 (Z.log2 (Z.of_nat n))) = n ∧ Z.of_nat n * leaf_size (superpage_of o) = span o ∧
    (superpage_of o = 0 → Z.of_nat n = 2 ^ o).
Proof.
  intros Ho. unfold page_geometry, superpage_of, span.
  destruct (Z.leb_spec SUPERPAGE_ORDER o) as [H|H]; unfold SUPERPAGE_ORDER in *.
  - exists (Z.to_nat (2 ^ (o - 9))). rewrite Z2Nat.id, Z.log2_pow2 by lia.
    split_and!; [done|by rewrite Z.shiftl_1_l| |done].
    change (leaf_size 1) with (2 ^ 21). rewrite <-Z.pow_add_r by lia. f_equal. lia.
  - exists (Z.to_nat (2 ^ o)). rewrite Z2Nat.id, Z.log2_pow2 by lia.
    split_and!; [done|by rewrite Z.shiftl_1_l| |done].
    change (leaf_size 0) with (2 ^ 12). rewrite <-Z.pow_add_r by lia. f_equal. lia.
Qed.

Lemma superpage_of_01 o : superpage_of o = 0 ∨ superpage_of o = 1.
Proof. unfold superpage_of. destruct (_ <=? _); auto. Qed.

Lemma arch_memory_map_spec (pgt p2v root : Z) (m : gmap Z Z) (P : gmap Z nat) (fl : list Z)
    (v page flags o phys : Z) :
  pgt_inv pgt p2v root m P fl →
  m.@(page_order page) = o → m.@(page_physical page) = phys → 0 <= o →
  outside pgt P fl (page_physical page) →
  0 <= v → v mod leaf_size (superpage_of o) = 0 → v + span o <= 2 ^ 48 →
  0 <= phys → phys mod leaf_size (superpage_of o) = 0 → phys + span o <= 2 ^ 51 →
  (o < 9 → ∀ v', v <= v' < v + span o → walk 4 m p2v root v' = None) →
  ∃ ret m' P' fl', arch_memory_map pgt v page flags m = Ok ret m' ∧
    (pgt_inv pgt p2v root m' P' fl' ∧ stays pgt m P fl m' P' fl') ∧
    ((ret = -1 ∧ ∀ v', 0 <= v' < 2 ^ 48 → walk 4 m' p2v root v' = walk 4 m p2v root v') ∨
     (ret = 0 ∧ ∀ v', 0 <= v' < 2 ^ 48 →
        if decide (v <= v' < v + span o) then
          walk 4 m p2v root v' = None ∧
          walk 4 m' p2v root v' =
            Some (phys + (v' - v),
                  negb (Z.land (m.@(page_flags page)) 2 =? 0) && (Z.land flags 0x80 =? 0),
                  negb (Z.land 8 flags =? 0), leaf_level (superpage_of o))
        else walk 4 m' p2v root v' = walk 4 m p2v root v')) ∧
    (o < 9 → 3 * 2 ^ o <= Z.of_nat (length fl) → ret = 0).
Proof.
  intros Hi Eo Ep Ho Hout Hv Hvs Hvt Hp Hps Hpt Hn.
  destruct (page_geometry_eq o Ho) as (n & Eg & En & Es & E2).
  assert (superpage_of o = 0 ↔ o < 9) as Hsp0.
  { unfold superpage_of, SUPERPAGE_ORDER. destruct (Z.leb_spec 9 o); lia. }
  unfold arch_memory_map. mrun. rewrite Eo, Eg. mrun.
  match goal with |- context [map_loop _ _ _ _ _ _ ?g' ?rw' ?us' _] =>
    set (g := g'); set (rw := rw'); set (us := us') end.
  replace (_ && _) with (Z.odd rw) by (unfold rw; by destruct (_ && _)).
  replace (negb (Z.land 8 flags =? 0)) with (Z.odd us) by (unfold us; by destruct (Z.land 8 flags =? 0)).
  rewrite En. pose proof (leaf_size_pos _ (superpage_of_01 o)) as Hs.
  destruct (map_loop_spec pgt p2v root _ (superpage_of_01 o) v phys n) with
    (page := page) (g := g) (rw := rw) (us := us) (k := n) (i := 0%nat) (m0 := m) (m := m) (P := P) (fl := fl)
    as (r & m1 & P1 & fl1 & E & [Hi1 Hst] & Hr & Hlen); try (done || lia).
  { intros v' Hv'. by rewrite decide_False by lia. }
  { intros E0 j Hj. apply Hn; [lia|]. nia. }
  change (Z.of_nat 0) with 0 in E. rewrite (bind_ok _ _ _ _ _ E). destruct r as [j|].
  - destruct Hr as (c & -> & Hc & Hr). rewrite Nat2Z.id.
    destruct (unmap_down_spec pgt p2v root _ (superpage_of_01 o) v phys n) with
      (k := c) (m0 := m) (m := m1) (P := P1) (fl := fl1) (rw := Z.odd rw) (us := Z.odd us)
      as (m2 & P2 & fl2 & E' & [Hi2 Hst2] & Hw); try (done || lia).
    rewrite (bind_ok _ _ _ _ _ E'). exists (-1), m2, P2, fl2. split_and!; [done|done|by eapply stays_trans|by left|].
    intros Ho9 Hl. exfalso. enough (Some (Z.of_nat c) = None) by done. apply Hlen; [lia|].
    rewrite <-E2 in Hl by lia. lia.
  - exists 0, m1, P1, fl1. split_and!; [done|done|done| |done]. right. split; [done|].
    intros v' Hv'. specialize (Hr v' Hv'). cbn [Nat.add] in Hr. by rewrite Es in Hr.
Qed.

(** C12: [arch_memory_map] of a [page_t] of any order maps all of its range or
    nothing.  On success the [2 ^ (12 + order)] bytes at the address, none of
    which was translated before, lead to the frames of the page one to one,
    with the permissions of the page and the flags; on failure the pages
    that were already mapped are unmapped again and every translation is as
    before.  No other address is touched either way, and with three spare
    pages for each 4 KiB page the call succeeds. *)
Theorem arch_memory_map_correct (pgt p2v root : Z) (m : gmap Z Z) (P : gmap Z nat) (fl : list Z)
    (v page flags o phys : Z) :
  pgt_inv pgt p2v root m P fl →
  m.@(page_order page) = o → m.@(page_physical page) = phys → 0 <= o →
  outside pgt P fl (page_physical page) →
  0 <= v → v mod leaf_size (superpage_of o) = 0 → v + span o <= 2 ^ 48 →
  0 <= phys → phys mod leaf_size (superpage_of o) = 0 → phys + span o <= 2 ^ 51 →
  (o < 9 → ∀ v', v <= v' < v + span o → walk 4 m p2v root v' = None) →
  ∃ ret m' P' fl', arch_memory_map pgt v page flags m = Ok ret m' ∧
    (pgt_inv pgt p2v root m' P' fl' ∧ stays pgt m P fl m' P' fl') ∧
    ((ret = -1 ∧ ∀ v', 0 <= v' < 2 ^ 48 → walk 4 m' p2v root v' = walk 4 m p2v root v') ∨
     (ret = 0 ∧ ∀ v', 0 <= v' < 2 ^ 48 →
        if decide (v <= v' < v + span o) then
          walk 4 m p2v root v' = None ∧
          walk 4 m' p2v root v' =
            Some (phys + (v' - v),
                  negb (Z.land (m.@(page_flags page)) 2 =? 0) && (Z.land flags 0x80 =? 0),
                  negb (Z.land 8 flags =? 0), leaf_level (superpage_of o))
        else walk 4 m' p2v root v' = walk 4 m p2v root v')) ∧
    (o < 9 → 3 * 2 ^ o <= Z.of_nat (length fl) → ret = 0).
Proof. apply arch_memory_map_spec. Qed.

(** A page of order 1 with frame 0x776000 beside the example page table. *)
Definition pgt_page_ex : gmap Z Z :=
  pgt_ex.[page_order 512 <- 1].[page_physical 512 <- 0x776000].[page_flags 512 <- 2].

(** What others write does not disturb the page table. *)
Lemma pgt_inv_frame pgt p2v root m m' P fl :
  pgt_inv pgt p2v root m P fl →
  (∀ x, x = pgt_cr3 pgt ∨ x = pgt_p2v pgt ∨ x = pgt_free pgt ∨
        (∃ a, (is_Some (P !! a) ∨ a ∈ fl) ∧ a <= x < a + 4096) → m'.@x = m.@x) →
  pgt_inv pgt p2v root m' P fl ∧ ∀ v, walk 4 m' p2v root v = walk 4 m p2v root v.
Proof.
  intros Hi Hf.
  assert (∀ b l i, P !! b = Some l → 0 <= i < 512 → m'.@(entry b i) = m.@(entry b i)) as Hold.
  { intros b l i Hb Hr. apply Hf. do 3 right. exists b. split; [by left; eauto|].
    by apply cell_in_page. }
  split; [|intros v; eapply walk_same; eauto].
  destruct Hi as [I1 I2 I3 I4 I5 I6 I7 I8 I9 I10 I11]. constructor; try done.
  - rewrite Hf; auto.
  - rewrite Hf; auto.
  - intros b l i Hb Hr. rewrite (Hold b l i) by done. by apply (I5 b l i).
  - intros b l i Hb Hr. rewrite (Hold b l i) by done. by apply (I6 b l i).
  - intros b i l b' i' l' c Hb Hb' Hcl Hcl' Hr Hr'.
    rewrite (Hold b (S l) i), (Hold b' (S l') i') by done. by apply (I7 b i l b' i' l' c).
  - eapply chain_frame; [|done]. intros x. unfold cells. rewrite elem_of_cons.
    intros [->|Hy]; [apply Hf; auto|]. apply list_elem_of_fmap in Hy as (q & -> & Hq).
    apply Hf. do 3 right. exists q. split; [by right|lia].
Qed.

Lemma pgt_inv_other pgt p2v root m P fl a x :
  pgt_inv pgt p2v root m P fl → outside pgt P fl a → a ≠ pgt_cr3 pgt → a ≠ pgt_p2v pgt →
  pgt_inv pgt p2v root (m.[a <- x]) P fl ∧
  ∀ v, walk 4 (m.[a <- x]) p2v root v = walk 4 m p2v root v.
Proof.
  intros Hi [Hf Ha] Hc Hp. apply pgt_inv_frame; [done|].
  intros y [->|[->|[->|(b & Hb & Hy)]]]; apply rd_wr_ne; [done..|]. intros ->. by eapply Ha.
Qed.

Lemma pgt_page_ex_outside x :
  100 <= x < 1000 → outside 64 {[ 0x10000 := 4%nat ]} (spare_pages 7 0x10000) x.
Proof.
  intros Hx. split; [unfold pgt_free; lia|].
  intros b [[? [<- _]%lookup_singleton_Some]|Hb%elem_of_spare]; [lia|].
  destruct Hb as (i & ? & ->). lia.
Qed.

Lemma pgt_page_ex_inv :
  pgt_inv 64 0 0x10000 pgt_page_ex {[ 0x10000 := 4%nat ]} (spare_pages 7 0x10000) ∧
  ∀ v, walk 4 pgt_page_ex 0 0x10000 v = None.
Proof.
  destruct pgt_ex_inv as [Hi Hw]. unfold pgt_page_ex.
  destruct (pgt_inv_other 64 0 0x10000 _ _ _ (page_order 512) 1 Hi) as [H1 W1];
    [by apply pgt_page_ex_outside|done..|].
  destruct (pgt_inv_other 64 0 0x10000 _ _ _ (page_physical 512) 0x776000 H1) as [H2 W2];
    [by apply pgt_page_ex_outside|done..|].
  destruct (pgt_inv_other 64 0 0x10000 _ _ _ (page_flags 512) 2 H2) as [H3 W3];
    [by apply pgt_page_ex_outside|done..|].
  split; [done|]. intros v. by rewrite W3, W2, W1.
Qed.

Lemma arch_memory_map_witness :
  ∃ m' P' fl', arch_memory_map 64 0x40200000 512 8 pgt_page_ex = Ok 0 m' ∧
    pgt_inv 64 0 0x10000 m' P' fl' ∧
    walk 4 m' 0 0x10000 0x40201234 = Some (0x777234, true, true, 1%nat).
Proof.
  destruct (arch_memory_map_correct 64 0 0x10000 pgt_page_ex {[ 0x10000 := 4%nat ]}
    (spare_pages 7 0x10000) 0x40200000 512 8 1 0x776000) as (ret & m' & P' & fl' & E & [Hi _] & Hw & Hs);
    [apply pgt_page_ex_inv|by vm_compute|by vm_compute|lia|by apply pgt_page_ex_outside|lia|done|by vm_compute|lia|done|
     by vm_compute|intros _ v' _; apply pgt_page_ex_inv|].
  exists m', P', fl'. assert (ret = 0) as -> by (apply Hs; [lia|by vm_compute]).
  split_and!; [done|done|]. destruct Hw as [[? _]|[_ Hw]]; [done|].
  specialize (Hw 0x40201234 ltac:(lia)). rewrite decide_True in Hw by (vm_compute; intuition congruence).
  destruct Hw as [_ ->]. by vm_compute.
Defined.

Lemma arch_memory_unmap_spec (pgt p2v root : Z) (m : gmap Z Z) (P : gmap Z nat) (fl : list Z)
    (v page o : Z) (rw us : bool) :
  pgt_inv pgt p2v root m P fl → m.@(page_order page) = o → 0 <= o →
  0 <= v → v mod leaf_size (superpage_of o) = 0 → v + span o <= 2 ^ 48 →
  (∀ v', v <= v' < v + span o →
     ∃ a, walk 4 m p2v root v' = Some (a, rw, us, leaf_level (superpage_of o))) →
  ∃ m' P' fl', arch_memory_unmap pgt v page m = Ok 0 m' ∧
    (pgt_inv pgt p2v root m' P' fl' ∧ stays pgt m P fl m' P' fl') ∧
    ∀ v', 0 <= v' < 2 ^ 48 → walk 4 m' p2v root v' =
      if decide (v <= v' < v + span o) then None else walk 4 m p2v root v'.
Proof.
  intros Hi Eo Ho Hv Hvs Hvt Hm.
  destruct (page_geometry_eq o Ho) as (n & Eg & En & Es & _).
  unfold arch_memory_unmap. mrun. rewrite Eo, Eg, En.
  pose proof (leaf_size_pos _ (superpage_of_01 o)) as Hs.
  destruct (unmap_up_spec pgt p2v root _ (superpage_of_01 o) v 0 n) with
    (k := n) (i := 0%nat) (m0 := m) (m := m) (P := P) (fl := fl) (rw := rw) (us := us)
    as (m1 & P1 & fl1 & E & [Hi1 Hst] & Hw); try (done || lia).
  { intros v' Hv' Hin. apply Hm. lia. }
  { intros v' Hv'. by rewrite decide_False by lia. }
  change (Z.of_nat 0) with 0 in E. rewrite (bind_ok _ _ _ _ _ E). exists m1, P1, fl1.
  split_and!; [done|done|done|]. intros v' Hv'. rewrite Hw by done. cbn [Nat.add]. by rewrite Es.
Qed.

(** C13: [arch_memory_unmap] of a page whose range is mapped with its kind of
    leaf removes exactly that range from the translations; it is the inverse
    of a successful [arch_memory_map]. *)
Theorem arch_memory_unmap_correct (pgt p2v root : Z) (m : gmap Z Z) (P : gmap Z nat) (fl : list Z)
    (v page o : Z) (rw us : bool) :
  pgt_inv pgt p2v root m P fl → m.@(page_order page) = o → 0 <= o →
  0 <= v → v mod leaf_size (superpage_of o) = 0 → v + span o <= 2 ^ 48 →
  (∀ v', v <= v' < v + span o →
     ∃ a, walk 4 m p2v root v' = Some (a, rw, us, leaf_level (superpage_of o))) →
  ∃ m' P' fl', arch_memory_unmap pgt v page m = Ok 0 m' ∧
    (pgt_inv pgt p2v root m' P' fl' ∧ stays pgt m P fl m' P' fl') ∧
    ∀ v', 0 <= v' < 2 ^ 48 → walk 4 m' p2v root v' =
      if decide (v <= v' < v + span o) then None else walk 4 m p2v root v'.
Proof. apply arch_memory_unmap_spec. Qed.

Lemma arch_memory_unmap_witness :
  ∃ m1 m2 P' fl', arch_memory_map 64 0x40200000 512 8 pgt_page_ex = Ok 0 m1 ∧
    arch_memory_unmap 64 0x40200000 512 m1 = Ok 0 m2 ∧ pgt_inv 64 0 0x10000 m2 P' fl' ∧
    walk 4 m2 0 0x10000 0x40201234 = None.
Proof.
  destruct (arch_memory_map_correct 64 0 0x10000 pgt_page_ex {[ 0x10000 := 4%nat ]}
    (spare_pages 7 0x10000) 0x40200000 512 8 1 0x776000) as (ret & m1 & P1 & fl1 & E & [Hi _] & Hw & Hs);
    [apply pgt_page_ex_inv|by vm_compute|by vm_compute|lia|by apply pgt_page_ex_outside|lia|done|by vm_compute|lia|done|
     by vm_compute|intros _ v' _; apply pgt_page_ex_inv|].
  assert (ret = 0) as -> by (apply Hs; [lia|by vm_compute]).
  destruct Hw as [[? _]|[_ Hw]]; [done|]. change (span 1) with 8192 in *.
  assert (result (arch_memory_map 64 0x40200000 512 8 pgt_page_ex) = Some 0) as _ by by vm_compute.
  destruct (arch_memory_unmap_correct 64 0 0x10000 m1 P1 fl1 0x40200000 512 1 true true)
    as (m2 & P2 & fl2 & E2 & [Hi2 _] & Hw2); [done| |lia|lia|done|by vm_compute| |].
  { assert (match arch_memory_map 64 0x40200000 512 8 pgt_page_ex with
            | Ok _ m => m.@(page_order 512) | _ => 0 end = 1) as H by by vm_compute.
    by rewrite E in H. }
  { change (span 1) with 8192. intros v' Hv'. specialize (Hw v' ltac:(lia)).
    rewrite decide_True in Hw by lia. destruct Hw as [_ ->]. eexists.
    assert (pgt_page_ex.@(page_flags 512) = 2) as -> by by vm_compute. done. }
  exists m1, m2, P2, fl2. split_and!; [done|done|done|].
  rewrite Hw2 by lia. rewrite decide_True; [done|]. change (span 1) with 8192. lia.
Defined.
