(* ===== verification/Kmem.v ===== *)
(** * Kernel memory data: kernel/kmem.c, and the interfaces of the memory manager

    The virtual memory manager of kernel/memory.c works through two sets of
    function pointers: the architecture's page-table operations
    ([memory_arch_interfaces_t]) and the allocator of its own 64-byte records
    ([virt_memory_allocator_t]).  Both are classes here; their instances are
    the functions of arch.c and of kmem.c. *)

From S2P Require Import Prelude CMonad PhysMem KString Pgt.

(** [memory_arch_interfaces_t] *)
Class ArchMemory := {
  ifs_map : Z → Z → Z → Z → M Z;
  ifs_unmap : Z → Z → Z → M Z;
  ifs_prepare : Z → Z → Z → M Z;
  ifs_refer : Z → Z → Z → Z → M Z;
  ifs_copy : Z → Z → Z → Z → M Z;
}.

(** [virt_memory_allocator_t]: [alloc(vmem)] and [free(vmem, data)] *)
Class DataAllocator := {
  data_alloc : Z → M Z;
  data_free : Z → Z → M unit;
}.

Definition KERNEL_LMAP : Z := 0x100000000.

Definition arch_memory_copy (arch dst src size : Z) : M Z := λ m,
  Ok 0 (kmemcpy (Z.to_nat size) m (dst + KERNEL_LMAP) (src + KERNEL_LMAP)).

#[export] Instance arch_x86_64 : ArchMemory := {
  ifs_map := arch_memory_map;
  ifs_unmap := arch_memory_unmap;
  ifs_prepare := arch_memory_prepare;
  ifs_refer := arch_memory_refer;
  ifs_copy := arch_memory_copy;
}.

(** ** Fields of [virt_memory_t] and [memory_t] *)

Definition vmem_mem (vmem : Z) : Z := vmem.
Definition vmem_blocks (vmem : Z) : Z := vmem + 8.
Definition vmem_spec (vmem : Z) : Z := vmem + 16.
Definition vmem_flags (vmem : Z) : Z := vmem + 40.
Definition vmem_arch (vmem : Z) : Z := vmem + 48.
Definition sizeof_virt_memory : Z := 56.

Definition memory_phys (mem : Z) : Z := mem.
Definition memory_kmem (mem : Z) : Z := mem + 8.

Definition sizeof_data : Z := 64.

(** ** kmem.c *)

Definition kmem_data_alloc (vmem : Z) : M Z :=
  data ← ld (vmem_spec vmem);
  if data =? 0 then mret 0
  else
    next ← ld data;
    _ ← st (vmem_spec vmem) next;
    _ ← memset0 data sizeof_data;
    mret data.

Definition kmem_data_free (vmem data : Z) : M unit :=
  spec ← ld (vmem_spec vmem);
  _ ← st data spec;
  st (vmem_spec vmem) data.

#[export] Instance kmem_allocator : DataAllocator := {
  data_alloc := kmem_data_alloc;
  data_free := kmem_data_free;
}.

(** [data[i - 1].next = &data[i]] for [i] from 1 to [nr - 1]; the function
    pointers [kmem->allocator.alloc] and [free] are the instance above. *)
Definition kmem_init (kmem phys p2v : Z) : M Z :=
  data ← lift (λ m, phys_mem_alloc m phys 11 MEMORY_ZONE_KERNEL 0);
  if data =? 0 then mret (-1)
  else
    let data := u64 (data + p2v) in
    let nr := Z.shiftl MEMORY_PAGESIZE 9 / sizeof_data in
    _ ← for_up (Z.to_nat (nr - 1)) 1
          (λ i, st (data + (i - 1) * sizeof_data) (data + i * sizeof_data));
    _ ← st (data + (nr - 1) * sizeof_data) 0;
    _ ← st (vmem_spec kmem) data;
    _ ← st (vmem_flags kmem) 0;
    mret 0.
