(* ===== verification/KmemTheorems.v ===== *)
(** * What the interfaces of the memory manager promise

    The laws of [ArchMemory] and [DataAllocator] that the theorems on
    memory.c rely on, and the proofs that the page tables of pgt.c and the
    record list of kmem.c keep them. *)

From S2P Require Import Prelude CMonad Pgt PgtTheorems PgtRange Kmem.

(** ** The page-table interface *)

(** The address space [arch]: [ax_inv m σ] is its invariant, [ax_outside σ]
    the cells that belong to others, [ax_tr m v] the translation of [v] with
    the kind of page it goes through, [ax_kind o] the kind for order [o]. *)
Class ArchMemoryLaws `{!ArchMemory} (arch : Z) := {
  ax_state : Type;
  ax_inv : gmap Z Z → ax_state → Prop;
  ax_outside : ax_state → Z → Prop;
  ax_tr : gmap Z Z → Z → option (Z * bool * bool * nat);
  ax_kind : Z → nat;
  ax_frame_tr m m' σ : ax_inv m σ → (∀ x, (ax_outside σ x → False) → m'.@x = m.@x) →
    ax_inv m' σ ∧ ∀ v, ax_tr m' v = ax_tr m v;
  ax_map_tr m σ v page flags o phys :
    ax_inv m σ → m.@(page_order page) = o → m.@(page_physical page) = phys → 0 <= o →
    ax_outside σ (page_physical page) →
    0 <= v → v mod span o = 0 → v + span o <= 2 ^ 48 →
    0 <= phys → phys mod span o = 0 → phys + span o <= 2 ^ 51 →
    (∀ v', v <= v' < v + span o → ax_tr m v' = None) →
    ∃ ret m' σ', ifs_map arch v page flags m = Ok ret m' ∧ ax_inv m' σ' ∧
      (∀ x, ax_outside σ x → ax_outside σ' x ∧ m'.@x = m.@x) ∧
      ((ret = -1 ∧ ∀ v', 0 <= v' < 2 ^ 48 → ax_tr m' v' = ax_tr m v') ∨
       (ret = 0 ∧ ∀ v', 0 <= v' < 2 ^ 48 →
          ax_tr m' v' =
          if decide (v <= v' < v + span o) then
            Some (phys + (v' - v),
                  negb (Z.land (m.@(page_flags page)) 2 =? 0) && (Z.land flags 0x80 =? 0),
                  negb (Z.land 8 flags =? 0), ax_kind o)
          else ax_tr m v'));
  ax_unmap_tr m σ v page o rw us :
    ax_inv m σ → m.@(page_order page) = o → 0 <= o →
    0 <= v → v mod span o = 0 → v + span o <= 2 ^ 48 →
    (∀ v', v <= v' < v + span o → ∃ a, ax_tr m v' = Some (a, rw, us, ax_kind o)) →
    ∃ m' σ', ifs_unmap arch v page m = Ok 0 m' ∧ ax_inv m' σ' ∧
      (∀ x, ax_outside σ x → ax_outside σ' x ∧ m'.@x = m.@x) ∧
      ∀ v', 0 <= v' < 2 ^ 48 →
        ax_tr m' v' = if decide (v <= v' < v + span o) then None else ax_tr m v';
}.

(** The translation without the kind of page. *)
Section walk.
Context `{!ArchMemory} {arch : Z} {ArchMemoryLaws : ArchMemoryLaws arch}.

Definition ax_walk (m : gmap Z Z) (v : Z) : option (Z * bool * bool) := fst <$> ax_tr m v.

Lemma ax_frame m m' σ : ax_inv m σ → (∀ x, (ax_outside σ x → False) → m'.@x = m.@x) →
  ax_inv m' σ ∧ ∀ v, ax_walk m' v = ax_walk m v.
Proof.
  intros Hi Hf. destruct (ax_frame_tr m m' σ Hi Hf) as [Hi' Hw]. split; [done|]. intros v.
  unfold ax_walk. by rewrite Hw.
Qed.

Lemma ax_map m σ v page flags o phys :
  ax_inv m σ → m.@(page_order page) = o → m.@(page_physical page) = phys → 0 <= o →
  ax_outside σ (page_physical page) →
  0 <= v → v mod span o = 0 → v + span o <= 2 ^ 48 →
  0 <= phys → phys mod span o = 0 → phys + span o <= 2 ^ 51 →
  (∀ v', v <= v' < v + span o → ax_walk m v' = None) →
  ∃ ret m' σ', ifs_map arch v page flags m = Ok ret m' ∧ ax_inv m' σ' ∧
    (∀ x, ax_outside σ x → ax_outside σ' x ∧ m'.@x = m.@x) ∧
    ((ret = -1 ∧ ∀ v', 0 <= v' < 2 ^ 48 → ax_walk m' v' = ax_walk m v') ∨
     (ret = 0 ∧ ∀ v', 0 <= v' < 2 ^ 48 →
        ax_walk m' v' =
        if decide (v <= v' < v + span o) then
          Some (phys + (v' - v),
                negb (Z.land (m.@(page_flags page)) 2 =? 0) && (Z.land flags 0x80 =? 0),
                negb (Z.land 8 flags =? 0))
        else ax_walk m v')).
Proof.
  intros Hi Eo Ep Ho Hx Hv Hvs Hvt Hp Hps Hpt Hn.
  destruct (ax_map_tr m σ v page flags o phys) as (ret & m' & σ' & E & Hi' & Hst & Hw); try done.
  { intros v' Hv'. specialize (Hn v' Hv'). unfold ax_walk in Hn. by destruct (ax_tr m v'). }
  exists ret, m', σ'. split_and!; [done..|]. unfold ax_walk.
  destruct Hw as [[-> Hw]|[-> Hw]]; [left|right]; (split; [done|]); intros v' Hv'; rewrite Hw by done;
    [done|]. by case_decide.
Qed.
End walk.

Lemma span_leaf x o : 0 <= o → x mod span o = 0 → x mod leaf_size (superpage_of o) = 0.
Proof.
  intros Ho Hx. destruct (page_geometry_eq o Ho) as (n & _ & _ & Es & _).
  pose proof (leaf_size_pos _ (superpage_of_01 o)) as Hs. rewrite <-Es in Hx.
  destruct (decide (n = 0%nat)) as [->|Hn].
  { exfalso. change (Z.of_nat 0) with 0 in Es. rewrite Z.mul_0_l in Es.
    pose proof (Z.pow_pos_nonneg 2 (12 + o)). unfold span in Es. lia. }
  apply mod0_ex in Hx as [q ->]; [|nia].
  replace (Z.of_nat n * leaf_size (superpage_of o) * q)
    with (Z.of_nat n * q * leaf_size (superpage_of o)) by lia. apply Z.mod_mul. lia.
Qed.

(** The page tables of pgt.c. *)
#[export] Program Instance x86_64_laws (pgt p2v root : Z) : ArchMemoryLaws pgt := {
  ax_state := gmap Z nat * list Z;
  ax_inv m σ := pgt_inv pgt p2v root m σ.1 σ.2;
  ax_outside σ x := outside pgt σ.1 σ.2 x ∧ x ≠ pgt_cr3 pgt ∧ x ≠ pgt_p2v pgt;
  ax_tr m v := walk 4 m p2v root v;
  ax_kind o := leaf_level (superpage_of o);
}.
Next Obligation.
  intros pgt p2v root m m' [P fl] Hi Hf. cbn [fst snd] in *.
  destruct (pgt_inv_frame pgt p2v root m m' P fl) as [H1 H2]; [done| |done].
  intros x Hx. apply Hf. intros ((Hx1 & Hx2) & ? & ?).
  destruct Hx as [?|[?|[?|(a & Ha & ?)]]]; [done..|]. by apply (Hx2 a).
Qed.
Next Obligation.
  intros pgt p2v root m [P fl] v page flags o phys Hi Eo Ep Ho (Ha & _ & _) Hv Hvs Hvt Hp Hps Hpt Hn.
  cbn [fst snd] in *.
  destruct (arch_memory_map_spec pgt p2v root m P fl v page flags o phys)
    as (ret & m' & P' & fl' & E & [Hi' Hst] & Hw & _); try done; [by apply span_leaf..|].
  exists ret, m', (P', fl'). split_and!; [done|done| |].
  - intros x (Hx & ? & ?). split_and!; [by eapply stays_outside|done|done|by apply Hst].
  - destruct Hw as [[-> Hw]|[-> Hw]]; [left|right]; (split; [done|]); intros v' Hv';
      specialize (Hw v' Hv'); [by rewrite Hw|].
    destruct (decide (v <= v' < v + span o)); [|by rewrite Hw]. by destruct Hw as [_ ->].
Qed.
Next Obligation.
  intros pgt p2v root m [P fl] v page o rw us Hi Eo Ho Hv Hvs Hvt Hm. cbn [fst snd] in *.
  destruct (arch_memory_unmap_spec pgt p2v root m P fl v page o rw us)
    as (m' & P' & fl' & E & [Hi' Hst] & Hw); try done; [by apply span_leaf|].
  exists m', (P', fl'). split_and!; [done|done| |done].
  intros x (Hx & ? & ?). split_and!; [by eapply stays_outside|done|done|by apply Hst].
Qed.

(** ** The record interface *)

Definition in_rec (p x : Z) : Prop := p <= x < p + sizeof_data.

(** [da_inv m l]: the records of [l] are free.  Freeing a record writes to its
    first cell only: memory.c reads the other fields afterwards. *)
Class DataAllocatorLaws `{!DataAllocator} (vmem : Z) := {
  da_inv : gmap Z Z → list Z → Prop;
  da_apart m l p : da_inv m l → p ∈ l → 0 < p ∧ ¬ in_rec p (vmem_spec vmem);
  da_nodup m p l x : da_inv m (p :: l) → in_rec p x → ∀ q, q ∈ l → ¬ in_rec q x;
  da_distinct m l : da_inv m l → NoDup l ∧ ∀ p q x, p ∈ l → q ∈ l → in_rec p x → in_rec q x → p = q;
  da_frame m m' l : da_inv m l → (∀ p x, p ∈ l → in_rec p x → m'.@x = m.@x) →
    m'.@(vmem_spec vmem) = m.@(vmem_spec vmem) → da_inv m' l;
  da_alloc m p l : da_inv m (p :: l) → ∃ m', data_alloc vmem m = Ok p m' ∧ da_inv m' l ∧
    ∀ x, m'.@x = if decide (in_rec p x) then 0
                 else if decide (x = vmem_spec vmem) then m'.@x else m.@x;
  da_alloc_nil m : da_inv m [] → data_alloc vmem m = Ok 0 m;
  da_free m l p : da_inv m l → 0 < p → ¬ in_rec p (vmem_spec vmem) →
    (∀ q x, q ∈ l → in_rec q x → ¬ in_rec p x) →
    ∃ m', data_free vmem p m = Ok tt m' ∧ da_inv m' (p :: l) ∧
      ∀ x, x ≠ p → x ≠ vmem_spec vmem → m'.@x = m.@x;
}.

(** The record list of kmem.c. *)
Record kmem_recs (vmem : Z) (m : gmap Z Z) (l : list Z) : Prop := {
  kr_chain : chain 0 m (vmem_spec vmem) l;
  kr_nodup : NoDup l;
  kr_disjoint p q x : p ∈ l → q ∈ l → in_rec p x → in_rec q x → p = q;
  kr_pos p : p ∈ l → 0 < p;
  kr_spec p : p ∈ l → ¬ in_rec p (vmem_spec vmem);
}.

Lemma in_rec_self p : in_rec p p.
Proof. unfold in_rec, sizeof_data. lia. Qed.

Lemma kmem_recs_frame vmem m m' l :
  kmem_recs vmem m l → (∀ p, p ∈ l → m'.@p = m.@p) →
  m'.@(vmem_spec vmem) = m.@(vmem_spec vmem) → kmem_recs vmem m' l.
Proof.
  intros [Hc Hn Hd Hpo Hs] Hp E. constructor; try done. eapply chain_frame; [|done].
  intros x. unfold cells. rewrite elem_of_cons. intros [->|Hx]; [done|].
  apply list_elem_of_fmap in Hx as (q & -> & Hq). rewrite Z.add_0_r. auto.
Qed.

#[export] Program Instance kmem_laws (vmem : Z) : DataAllocatorLaws vmem := {
  da_inv := kmem_recs vmem;
}.
Next Obligation.
  intros vmem m l p H Hp. split; by apply H.
Qed.
Next Obligation.
  intros vmem m p l x H Hx q Hq Hqx. pose proof (kr_nodup _ _ _ H) as [Hn _]%list.NoDup_cons.
  apply Hn. rewrite (kr_disjoint _ _ _ H p q x); [done|set_solver..|done|done].
Qed.
Next Obligation. intros vmem m l H. split; [apply H|]. intros p q x. apply (kr_disjoint _ _ _ H). Qed.
Next Obligation.
  intros vmem m m' l H Hf Hs. eapply kmem_recs_frame; [done| |done].
  intros p Hp. apply (Hf p); [done|apply in_rec_self].
Qed.
Next Obligation.
  intros vmem m p l H. pose proof (kr_chain _ _ _ H) as (E & Hp0 & Hc).
  unfold data_alloc, kmem_allocator, kmem_data_alloc. mrun. rewrite E.
  rewrite (proj2 (Z.eqb_neq p 0)) by done. mrun. unfold memset0. erewrite bind_ok by done.
  eexists. split; [done|].
  assert (¬ in_rec p (vmem_spec vmem)) as Hps by (apply (kr_spec _ _ _ H); set_solver).
  split; [|intros x; rewrite rd_kmemset0; unfold in_rec; case_decide; [done|];
    case_decide; [done|]; by rewrite rd_wr_ne].
  destruct H as [_ Hn Hd Hpo Hs]. apply list.NoDup_cons in Hn as [Hn1 Hn2].
  constructor; [|done|intros q q' x ? ?; apply Hd; set_solver|intros q ?; apply Hpo; set_solver
    |intros q ?; apply Hs; set_solver].
  rewrite Z.add_0_r in Hc.
  assert (∀ q, q ∈ l → (kmemset0 p sizeof_data (m.[vmem_spec vmem <- m.@p])).@q = m.@q) as Hold.
  { intros q Hq. rewrite rd_kmemset0, decide_False, rd_wr_ne; [done|..].
    - intros E'. apply (Hs q); [set_solver|]. rewrite E'. apply in_rec_self.
    - intros Hin. apply Hn1. rewrite (Hd p q q); [done|set_solver|set_solver|done|apply in_rec_self]. }
  assert ((kmemset0 p sizeof_data (m.[vmem_spec vmem <- m.@p])).@(vmem_spec vmem) = m.@p) as Hhd.
  { rewrite rd_kmemset0, decide_False by done. apply rd_wr_eq. }
  destruct l as [|q l]; simpl in *; [congruence|]. destruct Hc as (Eq & ? & Hc).
  split_and!; [congruence|done|]. eapply chain_frame; [|done]. intros x.
  unfold cells. rewrite elem_of_cons. intros [->|Hx]; [rewrite Z.add_0_r; apply Hold; set_solver|].
  apply list_elem_of_fmap in Hx as (q' & -> & Hq'). rewrite Z.add_0_r. apply Hold. set_solver.
Qed.
Next Obligation.
  intros vmem m H. pose proof (kr_chain _ _ _ H) as E. simpl in E.
  unfold data_alloc, kmem_allocator, kmem_data_alloc. mrun. by rewrite E.
Qed.
Next Obligation.
  intros vmem m l p [Hc Hn Hd Hpo Hs] Hp Hps Hq.
  unfold data_free, kmem_allocator, kmem_data_free. mrun. eexists. split; [done|].
  assert (∀ q, q ∈ l → q ≠ p) as Hne.
  { intros q Hin ->. apply (Hq p p Hin); apply in_rec_self. }
  split.
  - constructor.
    + simpl. rewrite rd_wr_eq. split_and!; [done|lia|]. rewrite Z.add_0_r.
      assert ((m.[p <- m.@(vmem_spec vmem)].[vmem_spec vmem <- p]).@p = m.@(vmem_spec vmem)) as E1.
      { rewrite rd_wr_ne; [apply rd_wr_eq|]. intros E'. apply Hps. rewrite E'. apply in_rec_self. }
      destruct l as [|q l]; simpl in *; [congruence|]. destruct Hc as (Eq & ? & Hc).
      split_and!; [congruence|done|]. eapply chain_frame; [|done].
      assert (∀ q', q' ∈ q :: l →
        (m.[p <- m.@(vmem_spec vmem)].[vmem_spec vmem <- p]).@q' = m.@q') as Hold.
      { intros q' Hq'. rewrite !rd_wr_ne; [done|by apply not_eq_sym, Hne|].
        intros E'. apply (Hs _ Hq'). rewrite E'. apply in_rec_self. }
      intros x. unfold cells. rewrite elem_of_cons, Z.add_0_r.
      intros [->|Hx]; [apply Hold; set_solver|].
      apply list_elem_of_fmap in Hx as (q' & -> & Hq'). rewrite Z.add_0_r. apply Hold. set_solver.
    + apply list.NoDup_cons. split; [|done]. intros Hin. by apply (Hne p).
    + intros q q' x Hin Hin' Hx Hx'. apply elem_of_cons in Hin as [->|Hin], Hin' as [->|Hin'];
        [done| | |by eapply Hd]; exfalso; eapply Hq; eauto.
    + intros q Hin. apply elem_of_cons in Hin as [->|Hin]; auto.
    + intros q Hin. apply elem_of_cons in Hin as [->|Hin]; auto.
  - intros x Hx Hxs. by rewrite !rd_wr_ne.
Qed.

(** ** Clients of the records *)

Section clients.
Context `{!DataAllocator} (vmem : Z) `{!DataAllocatorLaws vmem}.

(** The memory and the records in use: clients allocate, free what they hold
    and write into what they hold. *)
Inductive rec_step : gmap Z Z * list Z → gmap Z Z * list Z → Prop :=
  | rec_alloc m m' p live :
      data_alloc vmem m = Ok p m' → p ≠ 0 → rec_step (m, live) (m', p :: live)
  | rec_free m m' p l1 l2 :
      data_free vmem p m = Ok tt m' → rec_step (m, l1 ++ p :: l2) (m', l1 ++ l2)
  | rec_write m a x p live :
      p ∈ live → in_rec p a → rec_step (m, live) (m.[a <- x], live).

Definition rec_inv (l0 : list Z) (s : gmap Z Z * list Z) : Prop :=
  ∃ free, da_inv s.1 free ∧ Permutation (free ++ s.2) l0.

Definition recs_ok (l0 : list Z) : Prop :=
  NoDup l0 ∧ (∀ p, p ∈ l0 → 0 < p ∧ ¬ in_rec p (vmem_spec vmem)) ∧
  ∀ p q x, p ∈ l0 → q ∈ l0 → in_rec p x → in_rec q x → p = q.

Lemma rec_step_inv l0 s s' : recs_ok l0 → rec_inv l0 s → rec_step s s' → rec_inv l0 s'.
Proof.
  intros (Hnd & Hok & Hdj) (free & Hi & Hp) Hst.
  assert (∀ p, p ∈ free ∨ p ∈ s.2 → p ∈ l0) as Hin.
  { intros p. rewrite <-Hp. set_solver. }
  assert (∀ p q x, p ∈ free → q ∈ s.2 → in_rec p x → ¬ in_rec q x) as Hapart.
  { intros p q x Hpf Hq Hx Hy. assert (p = q) as -> by (eapply (Hdj p q x); eauto).
    rewrite <-Hp in Hnd. apply list.NoDup_app in Hnd as (_ & Hd & _). by apply (Hd q). }
  destruct Hst as [m m' p live E Hp0|m m' p l1 l2 E|m a x p live Hpl Ha]; unfold rec_inv; cbn [fst snd] in *.
  - destruct free as [|q free].
    { rewrite (da_alloc_nil m Hi) in E. congruence. }
    destruct (da_alloc m q free Hi) as (m1 & E1 & Hi1 & _). rewrite E1 in E. injection E as -> ->.
    exists free. split; [done|]. rewrite <-Hp. simpl. symmetry. apply Permutation_middle.
  - assert (p ∈ l1 ++ p :: l2) as Hpl by set_solver.
    destruct (Hok p ltac:(auto)) as [Hp0 Hps].
    destruct (da_free m free p) as (m1 & E1 & Hi1 & _); [done..| |].
    { intros q x Hq Hx. by apply (Hapart q). }
    rewrite E1 in E. injection E as ->. exists (p :: free). split; [done|].
    rewrite <-Hp, <-Permutation_middle. simpl. apply Permutation_middle.
  - exists free. split; [|done]. eapply da_frame; [done| |].
    + intros q y Hq Hy. apply rd_wr_ne. intros ->. by eapply Hapart.
    + apply rd_wr_ne. intros ->. by apply (Hok p); auto.
Qed.
End clients.

(** ** Properties *)


(** Two records at 0x8000 for the address space at 0x4000. *)
Definition recs_ex : gmap Z Z := ∅.[vmem_spec 0x4000 <- 0x8000].[0x8000 <- 0x8040].

Lemma recs_ex_ok : recs_ok 0x4000 [0x8000; 0x8040].
Proof.
  split_and!.
  - repeat constructor; set_solver.
  - intros p Hp. unfold in_rec, vmem_spec, sizeof_data.
    assert (p = 0x8000 ∨ p = 0x8040) as [-> | ->] by set_solver; lia.
  - intros p q x Hp Hq Hx Hy. unfold in_rec, sizeof_data in *.
    assert (p = 0x8000 ∨ p = 0x8040) by set_solver. assert (q = 0x8000 ∨ q = 0x8040) by set_solver. lia.
Qed.

