(* ===== verification/Memory.v ===== *)
(** * Virtual memory: kernel/memory.c

    Every function of memory.c over the shared memory, with the field offsets
    of memory.h.  Blocks are a list sorted by address; each block has a tree
    of allocated entries and two trees (by address and by size) of free
    ranges; an entry has an object with a list of pages.  The page-table
    operations and the record allocator are the interfaces of [Kmem].
    [fuel] bounds every loop and every descent into a tree. *)

From S2P Require Import Prelude CMonad PhysMem KString Tree Pgt Kmem.

(** ** Fields (memory.h) *)

Definition page_index (p : Z) : Z := p.
Definition page_zone (p : Z) : Z := p + 18.
Definition page_numadomain (p : Z) : Z := p + 20.
Definition page_next (p : Z) : Z := p + 24.
Definition obj_type (o : Z) : Z := o.
Definition obj_pages (o : Z) : Z := o + 8.
Definition obj_size (o : Z) : Z := o + 16.
Definition obj_refs (o : Z) : Z := o + 24.
Definition ent_start (e : Z) : Z := e.
Definition ent_size (e : Z) : Z := e + 8.
Definition ent_object (e : Z) : Z := e + 16.
Definition ent_offset (e : Z) : Z := e + 24.
Definition ent_flags (e : Z) : Z := e + 32.
Definition ent_atree (e : Z) : Z := e + 40.
Definition free_start (f : Z) : Z := f.
Definition free_size (f : Z) : Z := f + 8.
Definition free_atree (f : Z) : Z := f + 16.
Definition free_stree (f : Z) : Z := f + 40.
Definition blk_start (b : Z) : Z := b.
Definition blk_end (b : Z) : Z := b + 8.
Definition blk_next (b : Z) : Z := b + 16.
Definition blk_entries (b : Z) : Z := b + 24.
Definition blk_atree (b : Z) : Z := b + 32.
Definition blk_stree (b : Z) : Z := b + 40.

Definition MEMORY_OBJECT : Z := 0.
Definition MEMORY_PAGESIZE_SHIFT : Z := 12.
Definition MEMORY_SUPERPAGESIZE : Z := 2 ^ 21.
Definition MEMORY_PGF_WIRED : Z := 1.
Definition MEMORY_PGF_RW : Z := 2.
Definition MEMORY_VMF_RW : Z := 2.

(** ** Comparisons and search conditions *)

Definition compare3 (x y : Z) : Z := if x =? y then 0 else if y <? x then 1 else -1.

Definition virt_memory_comp_addr (a b : Z) : M Z :=
  va ← ld (free_start a); vb ← ld (free_start b); mret (compare3 va vb).

Definition virt_memory_comp_size (a b : Z) : M Z :=
  va ← ld (free_size a); vb ← ld (free_size b); mret (compare3 va vb).

Definition virt_memory_cond_fit (a addr : Z) : M Z :=
  start ← ld (ent_start a); size ← ld (ent_size a);
  mret (if (start <=? addr) && (addr <? u64 (start + size)) then 0
        else if addr <? start then -1 else 1).

Definition virt_memory_cond_fit_free (a addr : Z) : M Z :=
  start ← ld (free_start a); size ← ld (free_size a);
  mret (if (start <=? addr) && (addr <? u64 (start + size)) then 0
        else if addr <? start then -1 else 1).

(** [sz] points to a [struct virt_memory_size]: [size] at 0, [ret] at 8. *)
Definition virt_memory_cond_fit_free_size (a sz : Z) : M Z :=
  want ← ld sz; have ← ld (free_size a);
  if have <? want then mret 1 else _ ← st (sz + 8) a; mret (-1).

(** [se] points to a [struct virt_memory_start_end]. *)
Definition virt_memory_cond_neigh_free (a se : Z) : M Z :=
  start ← ld se; en ← ld (se + 8);
  vs ← ld (free_start a); vsz ← ld (free_size a);
  mret (if (en =? vs) || (start =? u64 (vs + vsz)) then 0
        else if start <? vs then -1 else 1).

(** ** Blocks *)

Fixpoint _block_insert_loop (fuel : nat) (b n : Z) : M (option Z) :=
  match fuel with
  | O => hang
  | S fuel =>
    bv ← ld b;
    if bv =? 0 then mret (Some b)
    else
      bs ← ld (blk_start bv); ns ← ld (blk_start n);
      if ns <? bs then
        ne ← ld (blk_end n);
        if bs <=? ne then mret None else mret (Some b)
      else _block_insert_loop fuel (blk_next bv) n
  end.

Definition _block_insert (fuel : nat) (vmem n : Z) : M Z :=
  r ← _block_insert_loop fuel (vmem_blocks vmem) n;
  match r with
  | None => mret (-1)
  | Some b => bv ← ld b; _ ← st (blk_next n) bv; _ ← st b n; mret 0
  end.

Fixpoint _find_block_loop (fuel : nat) (b addr : Z) : M Z :=
  match fuel with
  | O => hang
  | S fuel =>
    if b =? 0 then mret 0
    else
      s ← ld (blk_start b); e ← ld (blk_end b);
      if (s <=? addr) && (addr <=? e) then mret b
      else n ← ld (blk_next b); _find_block_loop fuel n addr
  end.

Definition _find_block (fuel : nat) (vmem addr : Z) : M Z :=
  b ← ld (vmem_blocks vmem); _find_block_loop fuel b addr.

(** The data pointer of a found node, NULL when there is none. *)
Definition data_of (n : Z) : M Z := if n =? 0 then mret 0 else ld (node_data n).

Definition _find_free_entry (fuel : nat) (b addr : Z) : M Z :=
  t ← ld (blk_atree b);
  n ← btree_search virt_memory_cond_fit_free addr fuel t;
  data_of n.

(** [sn] is the address of the local [struct virt_memory_start_end]. *)
Definition _find_neighbor_free_entry (fuel : nat) (sn b start en : Z) : M Z :=
  _ ← st sn start; _ ← st (sn + 8) en;
  t ← ld (blk_atree b);
  n ← btree_search virt_memory_cond_neigh_free sn fuel t;
  data_of n.

Definition _entry_add (fuel : nat) (b n : Z) : M Z :=
  let bn := ent_atree n in
  _ ← st (node_data bn) n;
  btree_add virt_memory_comp_addr 0 fuel (blk_entries b) bn.

Definition _entry_delete (fuel : nat) (b n : Z) : M Z :=
  r ← btree_delete virt_memory_comp_addr fuel (blk_entries b) (ent_atree n);
  data_of r.

(** The loop of [_order] from [order]; [k] bounds it, 52 is enough. *)
Fixpoint _order_loop (k : nat) (p1 p2 size order : Z) : Z :=
  match k with
  | O => order
  | S k =>
    if negb (Z.land p1 (u64 (Z.shiftl 2 order) - 1) =? 0) then order
    else if negb (Z.land p2 (u64 (Z.shiftl 2 order) - 1) =? 0) then order
    else if size <? u64 (Z.shiftl 2 (MEMORY_PAGESIZE_SHIFT + order)) then order
    else _order_loop k p1 p2 size (order + 1)
  end.

Definition _order (addr1 addr2 size : Z) : Z :=
  _order_loop 52 (Z.shiftr addr1 MEMORY_PAGESIZE_SHIFT)
    (Z.shiftr addr2 MEMORY_PAGESIZE_SHIFT) size 0.

Definition _free_add (fuel : nat) (b n : Z) : M Z :=
  _ ← st (node_data (free_atree n)) n;
  _ ← st (node_data (free_stree n)) n;
  ret ← btree_add virt_memory_comp_addr 0 fuel (blk_atree b) (free_atree n);
  if ret <? 0 then mret (-1)
  else
    ret ← btree_add virt_memory_comp_size 1 fuel (blk_stree b) (free_stree n);
    if ret <? 0 then
      p ← btree_delete virt_memory_comp_addr fuel (blk_atree b) (free_atree n);
      _ ← kassert (negb (p =? 0));
      mret (-1)
    else mret 0.

Definition _free_delete (fuel : nat) (b n : Z) : M Z :=
  fa ← btree_delete virt_memory_comp_addr fuel (blk_atree b) (free_atree n);
  fs ← btree_delete virt_memory_comp_size fuel (blk_stree b) (free_stree n);
  _ ← kassert (negb (fa =? 0) && negb (fs =? 0));
  da ← ld (node_data fa); ds ← ld (node_data fs);
  _ ← kassert (da =? ds);
  ld (node_data fa).

(** [r] is the address of the local [struct virt_memory_size]. *)
Definition _search_fit_size (fuel : nat) (r block sz : Z) : M Z :=
  _ ← st r sz; _ ← st (r + 8) 0;
  t ← ld (blk_stree block);
  _ ← btree_search virt_memory_cond_fit_free_size r fuel t;
  ld (r + 8).

Section memory.
Context `{!ArchMemory, !DataAllocator}.
(** The stack slot of the local structures that are passed by address. *)
Context (stk : Z).

Definition virt_memory_alloc_object (vmem size : Z) : M Z :=
  obj ← data_alloc vmem;
  if obj =? 0 then mret 0
  else
    _ ← st (obj_type obj) MEMORY_OBJECT;
    _ ← st (obj_size obj) size;
    _ ← st (obj_pages obj) 0;
    _ ← st (obj_refs obj) 0;
    mret obj.

(** [phys_mem_alloc(vmem->mem->phys, p->order, p->zone, p->numadomain)] *)
Definition page_phys_alloc (vmem p : Z) : M Z :=
  mem ← ld (vmem_mem vmem); phys ← ld (memory_phys mem);
  order ← ld (page_order p); zone ← ld (page_zone p); dom ← ld (page_numadomain p);
  lift (λ m, phys_mem_alloc m phys order zone dom).

(** [phys_mem_free(vmem->mem->phys, p->physical, p->order, p->zone, p->numadomain)] *)
Definition page_phys_free (fuel : nat) (vmem p : Z) : M unit :=
  mem ← ld (vmem_mem vmem); phys ← ld (memory_phys mem);
  physical ← ld (page_physical p);
  order ← ld (page_order p); zone ← ld (page_zone p); dom ← ld (page_numadomain p);
  lift_ (A := unit) (λ m, phys_mem_free fuel m phys physical order zone dom).

(** [vmem->mem->ifs.map(vmem->arch, virtual, p, vmem->flags)] *)
Definition page_map (vmem virtual p : Z) : M Z :=
  flags ← ld (vmem_flags vmem); arch ← ld (vmem_arch vmem);
  ifs_map arch virtual p flags.

Definition page_unmap (vmem virtual p : Z) : M Z :=
  arch ← ld (vmem_arch vmem); ifs_unmap arch virtual p.

(** A new [page_t] of [order], its frame and its mapping at [virtual]; NULL
    when one of the three is not available. *)
Definition new_page (fuel : nat) (vmem e index zone dom order virtual : Z) : M Z :=
  p ← data_alloc vmem;
  if p =? 0 then mret 0 else
  _ ← st (page_index p) index;
  _ ← st (page_zone p) (u8 zone);
  _ ← st (page_numadomain p) (u32 dom);
  _ ← st (page_flags p) 0;
  ef ← ld (ent_flags e);
  _ ← (if negb (Z.land ef MEMORY_VMF_RW =? 0)
       then pf ← ld (page_flags p); st (page_flags p) (Z.lor pf MEMORY_PGF_RW) else mret tt);
  _ ← st (page_order p) (u8 order);
  _ ← st (page_next p) 0;
  r ← page_phys_alloc vmem p;
  if r =? 0 then _ ← data_free vmem p; mret 0 else
  _ ← st (page_physical p) r;
  ret ← page_map vmem virtual p;
  if ret <? 0 then
    _ ← data_free vmem p;
    _ ← page_phys_free fuel vmem p;
    mret 0
  else mret p.

(** The search of [_alloc_pages]: the link to insert at, or [None] when a page
    of the range is already there. *)
Fixpoint alloc_pages_find (fuel : nat) (p pp off nr : Z) : M (option Z) :=
  match fuel with
  | O => hang
  | S fuel =>
    if p =? 0 then mret (Some pp)
    else
      i ← ld (page_index p);
      if i <? off then
        n ← ld (page_next p); alloc_pages_find fuel n (page_next p) off nr
      else if i <? u64 (off + nr) then mret None
      else mret (Some pp)
  end.

(** The allocation loop: the number of pages done and whether all succeeded. *)
Fixpoint alloc_pages_loop (k fuel : nat) (vmem e off i virtual pp : Z) : M (Z * bool) :=
  match k with
  | O => mret (i, true)
  | S k =>
    p ← new_page fuel vmem e (u64 (off + i)) MEMORY_ZONE_NUMA_AWARE 0 0 virtual;
    if p =? 0 then mret (i, false)
    else
      _ ← st pp p;
      alloc_pages_loop k fuel vmem e off (i + 1) (u64 (virtual + MEMORY_PAGESIZE)) (page_next p)
  end.

(** The clean-up of [_alloc_pages]; it frees the records of the pages it
    unmaps, the frames stay allocated. *)
Fixpoint alloc_pages_undo (k : nat) (vmem virtual p : Z) : M Z :=
  match k with
  | O => mret p
  | S k =>
    ret ← page_unmap vmem virtual p;
    _ ← kassert (ret =? 0);
    _ ← data_free vmem p;
    n ← ld (page_next p);
    alloc_pages_undo k vmem (u64 (virtual + MEMORY_PAGESIZE)) n
  end.

Definition _alloc_pages (fuel : nat) (vmem e : Z) : M Z :=
  size ← ld (ent_size e); offset ← ld (ent_offset e);
  let nr := size / MEMORY_PAGESIZE in
  let off := offset / MEMORY_PAGESIZE in
  obj ← ld (ent_object e);
  p ← ld (obj_pages obj);
  r ← alloc_pages_find fuel p (obj_pages obj) off nr;
  match r with
  | None => mret (-1)
  | Some pp =>
    virtual ← ld (ent_start e);
    '(i, ok) ← alloc_pages_loop (Z.to_nat nr) fuel vmem e off 0 virtual pp;
    if (ok : bool) then mret 0
    else
      p ← ld pp;
      virtual ← ld (ent_start e);
      p ← alloc_pages_undo (Z.to_nat i) vmem virtual p;
      _ ← st pp p;
      mret (-1)
  end.

(** "Remove the free entry" and put back what the entry [e] leaves of it; the
    same lines end every allocation, except that two of the four forget to
    free [f1] ([free1 = false]) when the entry starts where the free range
    starts.  The status is 0, 1 for [error_post] and 2 for [error_free]. *)
Definition carve (free1 : bool) (fuel : nat) (vmem b f e f0 f1 : Z) : M (Z * Z) :=
  f ← _free_delete fuel b f;
  _ ← kassert (negb (f =? 0));
  fs ← ld (free_start f); fz ← ld (free_size f);
  es ← ld (ent_start e); ez ← ld (ent_size e);
  if (fs =? es) && (fz =? ez) then
    _ ← data_free vmem f0; _ ← data_free vmem f1; mret (0, f)
  else if fs =? es then
    _ ← st (free_start f0) (u64 (fs + ez)); _ ← st (free_size f0) (u64 (fz - ez));
    ret ← _free_add fuel b f0;
    if ret <? 0 then mret (1, f)
    else _ ← (if free1 then data_free vmem f1 else mret tt); mret (0, f)
  else if u64 (fs + fz) =? u64 (es + ez) then
    _ ← st (free_start f0) fs; _ ← st (free_size f0) (u64 (fz - ez));
    ret ← _free_add fuel b f0;
    if ret <? 0 then mret (1, f)
    else _ ← data_free vmem f1; mret (0, f)
  else
    _ ← st (free_start f0) fs; _ ← st (free_size f0) (u64 (es + ez - fs));
    _ ← st (free_start f1) (u64 (es + ez));
    s1 ← ld (free_start f1);
    _ ← st (free_size f1) (u64 (fs + fz - s1));
    ret ← _free_add fuel b f0;
    if ret <? 0 then mret (1, f)
    else
      ret ← _free_add fuel b f1;
      if ret <? 0 then mret (2, f) else mret (0, f).

(** [error_free] and [error_post]: undo [carve]. *)
Definition uncarve (fuel : nat) (status b f e f0 : Z) : M unit :=
  _ ← (if status =? 2 then _free_delete fuel b f0 else mret 0);
  _ ← _entry_delete fuel b e;
  _ ← _free_add fuel b f;
  mret tt.

Definition virt_memory_alloc_entry (fuel : nat) (vmem obj addr size offset flags : Z) : M Z :=
  if negb (Z.land addr (MEMORY_PAGESIZE - 1) =? 0) then mret 0 else
  if negb (Z.land size (MEMORY_PAGESIZE - 1) =? 0) then mret 0 else
  if negb (Z.land offset (MEMORY_PAGESIZE - 1) =? 0) then mret 0 else
  b ← _find_block fuel vmem addr;
  if b =? 0 then mret 0 else
  f ← _find_free_entry fuel b addr;
  if f =? 0 then mret 0 else
  fs ← ld (free_start f); fz ← ld (free_size f);
  if u64 (fs + fz) <? u64 (addr + size) then mret 0 else
  osz ← ld (obj_size obj);
  if osz <? u64 (offset + size) then mret 0 else
  e ← data_alloc vmem;
  if e =? 0 then mret 0 else
  _ ← st (ent_start e) addr;
  _ ← st (ent_size e) size;
  _ ← st (ent_offset e) offset;
  refs ← ld (obj_refs obj); _ ← st (obj_refs obj) (i32 (refs + 1));
  _ ← st (ent_object e) obj;
  _ ← st (ent_flags e) flags;
  let error_f0 :=
    (refs ← ld (obj_refs obj); _ ← st (obj_refs obj) (i32 (refs - 1));
     _ ← data_free vmem e; mret 0) in
  f0 ← data_alloc vmem;
  if f0 =? 0 then error_f0 else
  let error_f1 := (_ ← data_free vmem f0; error_f0) in
  f1 ← data_alloc vmem;
  if f1 =? 0 then error_f1 else
  let error_entry := (_ ← data_free vmem f1; error_f1) in
  ret ← _entry_add fuel b e;
  if ret <? 0 then error_entry else
  '(status, f) ← carve true fuel vmem b f e f0 f1;
  if negb (status =? 0) then _ ← uncarve fuel status b f e f0; error_entry
  else
    _ ← data_free vmem f;
    ret ← _alloc_pages fuel vmem e;
    if ret <? 0 then mret 0 else mret e.

(** [for ( i = 0; i + 512 <= nr; i += 512 )], then [for ( ; i < nr; i++ )]: the
    pages of [_alloc_pages_block]; whether all succeeded. *)
Fixpoint block_pages_loop (k fuel : nat) (vmem e nr zone dom i pp : Z) : M bool :=
  match k with
  | O => hang
  | S k =>
    if nr <=? i then mret true
    else
      let '(order, step) := if i + 512 <=? nr then (SUPERPAGE_ORDER, 512) else (0, 1) in
      start ← ld (ent_start e);
      p ← new_page fuel vmem e i zone dom order (u64 (start + i * MEMORY_PAGESIZE));
      if p =? 0 then mret false
      else _ ← st pp p; block_pages_loop k fuel vmem e nr zone dom (i + step) (page_next p)
  end.

(** [error_page]: unmap the pages of the entry; [phys] when their frames are
    given back too. *)
Fixpoint unmap_pages (k fuel : nat) (phys : bool) (vmem virtual p : Z) : M unit :=
  match k with
  | O => hang
  | S k =>
    if p =? 0 then mret tt
    else
      ret ← page_unmap vmem virtual p;
      _ ← kassert (ret =? 0);
      _ ← (if phys then page_phys_free fuel vmem p else mret tt);
      order ← ld (page_order p);
      _ ← data_free vmem p;
      n ← ld (page_next p);
      unmap_pages k fuel phys vmem (u64 (virtual + Z.shiftl MEMORY_PAGESIZE order)) n
  end.

(** [e->start] for an allocation of [size] bytes in the free range [f]. *)
Definition place_entry (superpage : bool) (fs : Z) : Z :=
  if superpage then
    if negb (Z.land fs (MEMORY_SUPERPAGESIZE - 1) =? 0)
    then Z.land (u64 (fs + (MEMORY_SUPERPAGESIZE - 1))) (u64 (Z.lnot (MEMORY_SUPERPAGESIZE - 1)))
    else fs
  else fs.

(** The entry and its object, [error_obj] when there is no record left; the
    functions that are given the address set [start] and [offset] here. *)
Definition new_entry (vmem nr : Z) (start : option Z) : M Z :=
  e ← data_alloc vmem;
  if e =? 0 then mret 0 else
  _ ← (if start is Some v then st (ent_start e) v else mret tt);
  _ ← st (ent_size e) (u64 (nr * MEMORY_PAGESIZE));
  _ ← (if start is Some _ then st (ent_offset e) 0 else mret tt);
  _ ← st (ent_flags e) MEMORY_VMF_RW;
  obj ← data_alloc vmem;
  _ ← st (ent_object e) obj;
  if obj =? 0 then _ ← data_free vmem e; mret 0 else
  _ ← st (obj_type obj) MEMORY_OBJECT;
  _ ← st (obj_size obj) (u64 (nr * MEMORY_PAGESIZE));
  _ ← st (obj_pages obj) 0;
  _ ← st (obj_refs obj) 1;
  mret e.

(** The labels [error_page], [error_f1], [error_f0] and [error_obj]. *)
Definition error_f0 (vmem e : Z) : M unit :=
  obj ← ld (ent_object e); _ ← data_free vmem obj; data_free vmem e.
Definition error_f1 (vmem e f0 : Z) : M unit :=
  _ ← data_free vmem f0; error_f0 vmem e.
Definition error_page (fuel : nat) (phys : bool) (vmem e f0 f1 : Z) : M unit :=
  obj ← ld (ent_object e); p ← ld (obj_pages obj); start ← ld (ent_start e);
  _ ← unmap_pages fuel fuel phys vmem start p;
  _ ← data_free vmem f1;
  error_f1 vmem e f0.

(** The tail of the allocation functions: add the entry, shrink the free range. *)
Definition commit_entry (free1 phys : bool) (fuel : nat) (vmem b f e f0 f1 ret : Z) : M Z :=
  r ← _entry_add fuel b e;
  if r <? 0 then _ ← error_page fuel phys vmem e f0 f1; mret 0 else
  '(status, f) ← carve free1 fuel vmem b f e f0 f1;
  if negb (status =? 0) then
    _ ← uncarve fuel status b f e f0; _ ← error_page fuel phys vmem e f0 f1; mret 0
  else _ ← data_free vmem f; mret ret.

Definition _alloc_pages_block (fuel : nat) (vmem block nr zone numadomain : Z) : M Z :=
  let size := u64 (nr * MEMORY_PAGESIZE) in
  let superpage := MEMORY_SUPERPAGESIZE <=? size in
  let size := if superpage then u64 (size + MEMORY_SUPERPAGESIZE) else size in
  f ← _search_fit_size fuel stk block size;
  if f =? 0 then mret 0 else
  e ← new_entry vmem nr None;
  if e =? 0 then mret 0 else
  f0 ← data_alloc vmem;
  if f0 =? 0 then _ ← error_f0 vmem e; mret 0 else
  f1 ← data_alloc vmem;
  if f1 =? 0 then _ ← error_f1 vmem e f0; mret 0 else
  fs ← ld (free_start f);
  _ ← st (ent_start e) (place_entry superpage fs);
  obj ← ld (ent_object e);
  ok ← block_pages_loop fuel fuel vmem e nr zone numadomain 0 (obj_pages obj);
  if negb ok then _ ← error_page fuel true vmem e f0 f1; mret 0 else
  start ← ld (ent_start e);
  commit_entry false true fuel vmem block f e f0 f1 start.

(** A wired page at [physical]. *)
Definition new_wired_page (vmem e i order virtual physical : Z) : M Z :=
  p ← data_alloc vmem;
  if p =? 0 then mret 0 else
  _ ← st (page_index p) i;
  _ ← st (page_zone p) 0;
  _ ← st (page_numadomain p) 0;
  _ ← st (page_flags p) 0;
  ef ← ld (ent_flags e);
  _ ← (if negb (Z.land ef MEMORY_VMF_RW =? 0)
       then pf ← ld (page_flags p);
            st (page_flags p) (Z.lor pf (Z.lor MEMORY_PGF_RW MEMORY_PGF_WIRED))
       else mret tt);
  _ ← st (page_order p) (u8 order);
  _ ← st (page_next p) 0;
  _ ← st (page_physical p) physical;
  ret ← page_map vmem virtual p;
  if ret <? 0 then _ ← data_free vmem p; mret 0 else mret p.

(** The two loops of [_alloc_virt_pages_wire]: both advance [physical] by the
    size of a superpage. *)
Fixpoint wire_pages_loop (k : nat) (vmem e nr i physical pp : Z) : M bool :=
  match k with
  | O => hang
  | S k =>
    if nr <=? i then mret true
    else
      let '(order, step) := if i + 512 <=? nr then (SUPERPAGE_ORDER, 512) else (0, 1) in
      start ← ld (ent_start e);
      p ← new_wired_page vmem e i order (u64 (start + i * MEMORY_PAGESIZE)) physical;
      if p =? 0 then mret false
      else
        _ ← st pp p;
        wire_pages_loop k vmem e nr (i + step) (u64 (physical + MEMORY_SUPERPAGESIZE)) (page_next p)
  end.

Definition _alloc_virt_pages_wire (fuel : nat) (vmem block physical nr : Z) : M Z :=
  let size := u64 (nr * MEMORY_PAGESIZE) in
  let superpage := MEMORY_SUPERPAGESIZE <=? size in
  let size := if superpage then u64 (size + MEMORY_SUPERPAGESIZE) else size in
  f ← _search_fit_size fuel stk block size;
  if f =? 0 then mret 0 else
  e ← new_entry vmem nr None;
  if e =? 0 then mret 0 else
  f0 ← data_alloc vmem;
  if f0 =? 0 then _ ← error_f0 vmem e; mret 0 else
  f1 ← data_alloc vmem;
  if f1 =? 0 then _ ← error_f1 vmem e f0; mret 0 else
  fs ← ld (free_start f);
  _ ← st (ent_start e) (place_entry superpage fs);
  obj ← ld (ent_object e);
  ok ← wire_pages_loop fuel vmem e nr 0 physical (obj_pages obj);
  if negb ok then _ ← error_page fuel true vmem e f0 f1; mret 0 else
  start ← ld (ent_start e);
  commit_entry false true fuel vmem block f e f0 f1 start.

(** [while ( NULL != block && NULL == ptr )] over the blocks. *)
Fixpoint blocks_loop (k : nat) (alloc : Z → M Z) (block ptr : Z) : M Z :=
  match k with
  | O => hang
  | S k =>
    if negb (block =? 0) && (ptr =? 0) then
      ptr ← alloc block;
      next ← ld (blk_next block);
      blocks_loop k alloc next ptr
    else mret ptr
  end.

Definition virt_memory_alloc_pages (fuel : nat) (vmem nr zone domain : Z) : M Z :=
  block ← ld (vmem_blocks vmem);
  blocks_loop fuel (λ block, _alloc_pages_block fuel vmem block nr zone domain) block 0.

Definition memory_alloc_pages (fuel : nat) (mem nr zone domain : Z) : M Z :=
  block ← ld (vmem_blocks (memory_kmem mem));
  blocks_loop fuel (λ block, _alloc_pages_block fuel (memory_kmem mem) block nr zone domain) block 0.

Definition virt_memory_wire2 (fuel : nat) (vmem physical nr : Z) : M Z :=
  block ← ld (vmem_blocks vmem);
  blocks_loop fuel (λ block, _alloc_virt_pages_wire fuel vmem block physical nr) block 0.

Definition _find_entry (fuel : nat) (b addr : Z) : M Z :=
  t ← ld (blk_entries b);
  n ← btree_search virt_memory_cond_fit addr fuel t;
  data_of n.

Fixpoint _pages_free (k fuel : nat) (vmem p : Z) : M unit :=
  match k with
  | O => hang
  | S k =>
    if p =? 0 then mret tt
    else
      _ ← page_phys_free fuel vmem p;
      _ ← data_free vmem p;
      n ← ld (page_next p);
      _pages_free k fuel vmem n
  end.

Definition _entry_free (fuel : nat) (vmem b e : Z) : M Z :=
  es ← ld (ent_start e); ez ← ld (ent_size e);
  f ← _find_neighbor_free_entry fuel stk b es (u64 (es + ez));
  if f =? 0 then
    (* convert the record of the entry to a free range *)
    _ ← memset0 e sizeof_data;
    _ ← st (free_start e) es;
    _ ← st (free_size e) ez;
    ret ← _free_add fuel b e;
    if ret <? 0 then mret (-1) else mret 0
  else
    r ← _free_delete fuel b f;
    _ ← kassert (negb (r =? 0));
    fs ← ld (free_start f); fz ← ld (free_size f);
    _ ← (if fs =? u64 (es + ez)
         then _ ← st (free_start f) es; st (free_size f) (u64 (fz + ez))
         else st (free_size f) (u64 (fz + ez)));
    _ ← data_free vmem e;
    ret ← _free_add fuel b f;
    _ ← kassert (ret =? 0);
    mret 0.

Definition virt_memory_free_pages (fuel : nat) (vmem addr : Z) : M unit :=
  b ← _find_block fuel vmem addr;
  if b =? 0 then mret tt else
  e ← _find_entry fuel b addr;
  if e =? 0 then mret tt else
  es ← ld (ent_start e);
  if negb (addr =? es) then mret tt else
  obj ← ld (ent_object e);
  page ← ld (obj_pages obj);
  _ ← _pages_free fuel fuel vmem page;
  obj ← ld (ent_object e);
  _ ← data_free vmem obj;
  r ← _entry_delete fuel b e;
  _ ← kassert (r =? e);
  _ ← _entry_free fuel vmem b e;
  mret tt.

Definition memory_free_pages (fuel : nat) (mem ptr : Z) : M unit :=
  virt_memory_free_pages fuel (memory_kmem mem) ptr.

Definition virt_memory_block_add (fuel : nat) (vmem start en : Z) : M Z :=
  n ← data_alloc vmem;
  if n =? 0 then mret 0 else
  _ ← st (blk_start n) start;
  _ ← st (blk_end n) en;
  _ ← st (blk_next n) 0;
  _ ← st (blk_entries n) 0;
  _ ← st (blk_atree n) 0;
  _ ← st (blk_stree n) 0;
  fr ← data_alloc vmem;
  if fr =? 0 then _ ← data_free vmem n; mret 0 else
  let fstart := mask_down MEMORY_PAGESIZE (u64 (start + MEMORY_PAGESIZE - 1)) in
  _ ← st (free_start fr) fstart;
  _ ← st (free_size fr) (u64 (mask_down MEMORY_PAGESIZE (u64 (en + 1)) - fstart));
  _ ← st (node_data (free_atree fr)) fr;
  _ ← st (node_left (free_atree fr)) 0;
  _ ← st (node_right (free_atree fr)) 0;
  _ ← st (node_data (free_stree fr)) fr;
  _ ← st (node_left (free_stree fr)) 0;
  _ ← st (node_right (free_stree fr)) 0;
  _ ← st (blk_atree n) (free_atree fr);
  _ ← st (blk_stree n) (free_stree fr);
  arch ← ld (vmem_arch vmem);
  ret ← ifs_prepare arch start (u64 (en - start + 1));
  if ret <? 0 then _ ← data_free vmem fr; _ ← data_free vmem n; mret 0 else
  ret ← _block_insert fuel vmem n;
  if ret <? 0 then _ ← data_free vmem fr; _ ← data_free vmem n; mret 0 else
  mret n.

(** The mapping loop of [virt_memory_wire]. *)
Fixpoint wire_loop (k : nat) (vmem e virtual physical endplus1 pp : Z) : M bool :=
  match k with
  | O => hang
  | S k =>
    if endplus1 <=? virtual then mret true
    else
      p ← data_alloc vmem;
      if p =? 0 then mret false else
      _ ← st (page_index p) 0;
      _ ← st (page_physical p) physical;
      _ ← st (page_flags p) MEMORY_PGF_WIRED;
      ef ← ld (ent_flags e);
      _ ← (if negb (Z.land ef MEMORY_VMF_RW =? 0)
           then pf ← ld (page_flags p); st (page_flags p) (Z.lor pf MEMORY_PGF_RW) else mret tt);
      _ ← st (page_next p) 0;
      let order := _order virtual physical (u64 (endplus1 - virtual)) in
      _ ← st (page_order p) (u8 order);
      ret ← page_map vmem virtual p;
      if ret <? 0 then _ ← data_free vmem p; mret false
      else
        let step := u64 (Z.shiftl 1 (order + MEMORY_PAGESIZE_SHIFT)) in
        _ ← st pp p;
        wire_loop k vmem e (u64 (virtual + step)) (u64 (physical + step)) endplus1 (page_next p)
  end.

Definition virt_memory_wire (fuel : nat) (vmem virtual nr physical : Z) : M Z :=
  if negb (Z.land virtual (MEMORY_PAGESIZE - 1) =? 0) then mret (-1) else
  if negb (Z.land physical (MEMORY_PAGESIZE - 1) =? 0) then mret (-1) else
  b ← _find_block fuel vmem virtual;
  if b =? 0 then mret (-1) else
  f ← _find_free_entry fuel b virtual;
  if f =? 0 then mret (-1) else
  let size := u64 (MEMORY_PAGESIZE * nr) in
  fs ← ld (free_start f); fz ← ld (free_size f);
  if u64 (fs + fz) <? u64 (virtual + size) then mret (-1) else
  e ← new_entry vmem nr (Some virtual);
  if e =? 0 then mret (-1) else
  f0 ← data_alloc vmem;
  if f0 =? 0 then _ ← error_f0 vmem e; mret (-1) else
  f1 ← data_alloc vmem;
  if f1 =? 0 then _ ← error_f1 vmem e f0; mret (-1) else
  obj ← ld (ent_object e);
  ok ← wire_loop fuel vmem e virtual physical (u64 (virtual + size)) (obj_pages obj);
  if negb ok then _ ← error_page fuel false vmem e f0 f1; mret (-1) else
  r ← commit_entry true false fuel vmem b f e f0 f1 1;
  mret (if r =? 0 then -1 else 0).

(** The loop of [virt_memory_alloc_pages_addr]. *)
Fixpoint addr_pages_loop (k fuel : nat) (vmem e zone dom i pp : Z) : M bool :=
  match k with
  | O => mret true
  | S k =>
    start ← ld (ent_start e);
    p ← new_page fuel vmem e i zone dom 0 (u64 (start + i * MEMORY_PAGESIZE));
    if p =? 0 then mret false
    else _ ← st pp p; addr_pages_loop k fuel vmem e zone dom (i + 1) (page_next p)
  end.

Definition virt_memory_alloc_pages_addr (fuel : nat) (vmem virtual nr zone numadomain : Z) : M Z :=
  if negb (Z.land virtual (MEMORY_PAGESIZE - 1) =? 0) then mret 0 else
  b ← _find_block fuel vmem virtual;
  if b =? 0 then mret 0 else
  f ← _find_free_entry fuel b virtual;
  if f =? 0 then mret 0 else
  let size := u64 (MEMORY_PAGESIZE * nr) in
  fs ← ld (free_start f); fz ← ld (free_size f);
  if u64 (fs + fz) <? u64 (virtual + size) then mret 0 else
  e ← new_entry vmem nr (Some virtual);
  if e =? 0 then mret 0 else
  f0 ← data_alloc vmem;
  if f0 =? 0 then _ ← error_f0 vmem e; mret 0 else
  f1 ← data_alloc vmem;
  if f1 =? 0 then _ ← error_f1 vmem e f0; mret 0 else
  obj ← ld (ent_object e);
  ok ← addr_pages_loop (Z.to_nat nr) fuel vmem e zone numadomain 0 (obj_pages obj);
  if negb ok then _ ← error_page fuel false vmem e f0 f1; mret 0 else
  commit_entry true false fuel vmem b f e f0 f1 virtual.

(** ** Copying and releasing address spaces *)

Fixpoint _copy_object_loop (k : nat) (vmem dp sp : Z) : M Z :=
  match k with
  | O => hang
  | S k =>
    if negb (dp =? 0) && negb (sp =? 0) then
      di ← ld (page_index dp); si ← ld (page_index sp);
      dor ← ld (page_order dp); sor ← ld (page_order sp);
      if negb (di =? si) || negb (dor =? sor) then mret (-1)
      else
        arch ← ld (vmem_arch vmem);
        dph ← ld (page_physical dp); sph ← ld (page_physical sp);
        _ ← ifs_copy arch dph sph (u64 (Z.shiftl 1 dor * MEMORY_PAGESIZE));
        dn ← ld (page_next dp); sn ← ld (page_next sp);
        _copy_object_loop k vmem dn sn
    else mret 0
  end.

Definition _copy_object (fuel : nat) (vmem dst src : Z) : M Z :=
  dp ← ld (obj_pages dst); sp ← ld (obj_pages src); _copy_object_loop fuel vmem dp sp.

(** [ccl[i]]: [orig] at [16 i], [object] at [16 i + 8].  The scan stops at the
    first unused slot; the result is the matching slot (0 for none) and [i]. *)
Fixpoint fork_cache_find (k : nat) (ccl i object ccp : Z) : M (Z * Z) :=
  match k with
  | O => mret (ccp, i)
  | S k =>
    orig ← ld (ccl + 16 * i);
    if orig =? 0 then mret (ccp, i)
    else fork_cache_find k ccl (i + 1) object (if orig =? object then ccl + 16 * i else ccp)
  end.

Fixpoint _entry_fork (k fuel : nat) (dst src b bn ccl nr : Z) : M Z :=
  match k with
  | O => hang
  | S k =>
    e ← ld (node_data bn);
    eobj ← ld (ent_object e);
    '(ccp, i) ← fork_cache_find (Z.to_nat nr) ccl 0 eobj 0;
    obj ← (if negb (ccp =? 0) then ld (ccp + 8)
           else if nr <=? i then mret 0
           else
             sz ← ld (obj_size eobj);
             obj ← virt_memory_alloc_object dst sz;
             if obj =? 0 then mret 0
             else
               _ ← st (ccl + 16 * i) eobj; _ ← st (ccl + 16 * i + 8) obj; mret obj);
    if obj =? 0 then mret (-1) else
    es ← ld (ent_start e); ez ← ld (ent_size e); eo ← ld (ent_offset e); ef ← ld (ent_flags e);
    n ← virt_memory_alloc_entry fuel dst obj es ez eo ef;
    if n =? 0 then mret (-1) else
    ret ← _entry_add fuel b n;
    if ret <? 0 then _ ← data_free dst n; mret (-1) else
    l ← ld (node_left (ent_atree e));
    ret ← (if negb (l =? 0) then _entry_fork k fuel dst src b l ccl nr else mret 0);
    if ret <? 0 then mret (-1) else
    r ← ld (node_right (ent_atree e));
    ret ← (if negb (r =? 0) then _entry_fork k fuel dst src b r ccl nr else mret 0);
    if ret <? -1 then mret (-1) else mret 0
  end.

Fixpoint _entry_free_all (k : nat) (vmem n : Z) : M unit :=
  match k with
  | O => hang
  | S k =>
    e ← ld (node_data n);
    l ← ld (node_left (ent_atree e));
    _ ← (if negb (l =? 0) then _entry_free_all k vmem l else mret tt);
    r ← ld (node_right (ent_atree e));
    _ ← (if negb (r =? 0) then _entry_free_all k vmem r else mret tt);
    data_free vmem e
  end.

Definition virt_memory_entry_count (n size : Z) : M Z :=
  s ← ld size; _ ← st size (u64 (s + 1)); mret 0.

Fixpoint copy_objects_loop (k fuel : nat) (src ccl i : Z) : M unit :=
  match k with
  | O => mret tt
  | S k =>
    orig ← ld (ccl + 16 * i);
    if orig =? 0 then mret tt
    else
      obj ← ld (ccl + 16 * i + 8);
      _ ← _copy_object fuel src obj orig;
      copy_objects_loop k fuel src ccl (i + 1)
  end.

(** The counter [nr] is a local at [stk]; [ccl] is what [alloca] returned. *)
Definition _block_fork (fuel : nat) (ccl dst src sb : Z) : M Z :=
  s ← ld (blk_start sb); en ← ld (blk_end sb);
  b ← virt_memory_block_add fuel dst s en;
  if b =? 0 then mret (-1) else
  _ ← st stk 0;
  t ← ld (blk_entries sb);
  _ ← btree_traverse virt_memory_entry_count stk fuel t;
  nr ← ld stk;
  if ccl =? 0 then mret (-1) else
  _ ← memset0 ccl (16 * nr);
  t ← ld (blk_entries sb);
  ret ← _entry_fork fuel fuel dst src b t ccl nr;
  if ret <? 0 then
    bt ← ld (blk_entries b);
    _ ← _entry_free_all fuel dst bt;
    _ ← data_free dst b;
    mret (-1)
  else
    _ ← copy_objects_loop (Z.to_nat nr) fuel src ccl 0;
    mret 0.

Fixpoint fork_loop (k fuel : nat) (ccl dst src b : Z) : M Z :=
  match k with
  | O => hang
  | S k =>
    if b =? 0 then mret 0
    else
      ret ← _block_fork fuel ccl dst src b;
      if ret <? 0 then mret (-1)
      else n ← ld (blk_next b); fork_loop k fuel ccl dst src n
  end.

Definition virt_memory_fork (fuel : nat) (ccl dst src : Z) : M Z :=
  b ← ld (vmem_blocks src); fork_loop fuel fuel ccl dst src b.

Fixpoint refer_blocks (k : nat) (dst kmem b : Z) : M Z :=
  match k with
  | O => hang
  | S k =>
    if b =? 0 then mret 0
    else
      da ← ld (vmem_arch dst); ka ← ld (vmem_arch kmem);
      s ← ld (blk_start b); en ← ld (blk_end b);
      ret ← ifs_refer da ka s (u64 (en - s + 1));
      if ret <? 0 then mret (-1)
      else n ← ld (blk_next b); refer_blocks k dst kmem n
  end.

(** [spec] is [a->spec]; the functions of the allocator are the instance. *)
Definition virt_memory_new (fuel : nat) (dst mem spec : Z) : M Z :=
  _ ← st (vmem_mem dst) mem;
  _ ← st (vmem_blocks dst) 0;
  _ ← st (vmem_spec dst) spec;
  b ← ld (vmem_blocks (memory_kmem mem));
  refer_blocks fuel dst (memory_kmem mem) b.

(** Unmap all pages of the list without releasing them. *)
Fixpoint release_unmap (k : nat) (vmem virtual p : Z) : M unit :=
  match k with
  | O => hang
  | S k =>
    if p =? 0 then mret tt
    else
      ret ← page_unmap vmem virtual p;
      _ ← kassert (ret =? 0);
      order ← ld (page_order p);
      n ← ld (page_next p);
      release_unmap k vmem (u64 (virtual + Z.shiftl MEMORY_PAGESIZE order)) n
  end.

Fixpoint release_pages (k : nat) (vmem p : Z) : M unit :=
  match k with
  | O => hang
  | S k =>
    if p =? 0 then mret tt
    else n ← ld (page_next p); _ ← data_free vmem p; release_pages k vmem n
  end.

Definition _release_entry (fuel : nat) (vmem e : Z) : M unit :=
  obj ← ld (ent_object e);
  p ← ld (obj_pages obj);
  virtual ← ld (ent_start e);
  _ ← release_unmap fuel vmem virtual p;
  refs ← ld (obj_refs obj);
  _ ← st (obj_refs obj) (i32 (refs - 1));
  refs ← ld (obj_refs obj);
  _ ← (if 0 =? refs then
         p ← ld (obj_pages obj);
         _ ← release_pages fuel vmem p;
         data_free vmem obj
       else mret tt);
  data_free vmem e.

Fixpoint release_entries (k fuel : nat) (vmem b : Z) : M unit :=
  match k with
  | O => hang
  | S k =>
    n ← ld (blk_entries b);
    if n =? 0 then mret tt
    else
      e ← ld (node_data n);
      r ← _entry_delete fuel b e;
      _ ← kassert (r =? e);
      _ ← _release_entry fuel vmem e;
      release_entries k fuel vmem b
  end.

(** The free ranges of the block: the tree node itself is taken for the range. *)
Fixpoint release_frees (k fuel : nat) (vmem b : Z) : M unit :=
  match k with
  | O => hang
  | S k =>
    n ← ld (blk_atree b);
    if n =? 0 then mret tt
    else
      let f := n in
      r ← _free_delete fuel b f;
      _ ← kassert (r =? f);
      _ ← data_free vmem f;
      release_frees k fuel vmem b
  end.

Definition _block_free (fuel : nat) (vmem b : Z) : M unit :=
  _ ← release_entries fuel fuel vmem b;
  _ ← release_frees fuel fuel vmem b;
  data_free vmem b.

Fixpoint release_loop (k fuel : nat) (vmem b : Z) : M unit :=
  match k with
  | O => hang
  | S k =>
    if b =? 0 then mret tt
    else n ← ld (blk_next b); _ ← _block_free fuel vmem b; release_loop k fuel vmem n
  end.

Definition virt_memory_release (fuel : nat) (vmem : Z) : M unit :=
  b ← ld (vmem_blocks vmem); release_loop fuel fuel vmem b.

End memory.

(** The kernel's own memory; [mem->ifs] is the instance of [ArchMemory]. *)
Definition memory_init (mem phys arch p2v : Z) : M Z :=
  ret ← kmem_init (memory_kmem mem) phys p2v;
  if ret <? 0 then mret (-1) else
  _ ← st (memory_phys mem) phys;
  _ ← st (vmem_blocks (memory_kmem mem)) 0;
  _ ← st (vmem_mem (memory_kmem mem)) mem;
  _ ← st (vmem_arch (memory_kmem mem)) arch;
  mret 0.
