(* ===== verification/MemoryTheorems.v ===== *)
(** * Virtual memory: theorems

    [_order] picks the largest page that fits, and the mapping loop of
    [virt_memory_wire] built on it is correct for every page table and record
    allocator that keep the laws of [KmemTheorems]. *)

From S2P Require Import Prelude CMonad PhysMem KString Tree Pgt PgtTheorems PgtRange Kmem KmemTheorems Memory.

(** ** The page order *)

(** Both addresses are multiples of [2 ^ (12 + o)] and the block fits [size]. *)
Definition order_fits (addr1 addr2 size o : Z) : Prop :=
  addr1 mod 2 ^ (12 + o) = 0 ∧ addr2 mod 2 ^ (12 + o) = 0 ∧ 2 ^ (12 + o) <= size.

Lemma shiftr_align a o : 0 <= o → a mod 4096 = 0 →
  Z.shiftr a 12 mod 2 ^ o = 0 ↔ a mod 2 ^ (12 + o) = 0.
Proof.
  intros Ho Ha. rewrite Z.shiftr_div_pow2 by lia. rewrite Z.pow_add_r by lia.
  change (2 ^ 12) with 4096. apply mod0_ex in Ha as [q ->]; [|lia].
  rewrite Z.mul_comm, Z.div_mul, Z.mul_comm by lia.
  rewrite Z.mul_mod_distr_l by lia. lia.
Qed.

Lemma order_test p o : 0 <= o <= 51 → 
  (Z.land p (u64 (Z.shiftl 2 o) - 1) =? 0) = (p mod 2 ^ (o + 1) =? 0).
Proof.
  intros Ho. assert (u64 (Z.shiftl 2 o) = 2 ^ (o + 1)) as ->.
  { rewrite Z.shiftl_mul_pow2, Z.pow_add_r by lia. rewrite u64_small; [lia|].
    assert (2 ^ o <= 2 ^ 51) by (apply Z.pow_le_mono_r; lia). lia. }
  by rewrite land_ones_mod by lia.
Qed.

Lemma order_loop_spec k addr1 addr2 size o :
  0 <= addr1 → 0 <= addr2 → addr1 mod 4096 = 0 → addr2 mod 4096 = 0 → size < 2 ^ 63 →
  0 <= o → order_fits addr1 addr2 size o → (52 <= Z.of_nat k + o)%Z →
  let r := _order_loop k (Z.shiftr addr1 12) (Z.shiftr addr2 12) size o in
  o <= r <= 51 ∧ order_fits addr1 addr2 size r ∧ ¬ order_fits addr1 addr2 size (r + 1).
Proof.
  intros H1 H2 Ha1 Ha2 Hs. revert o. induction k as [|k IH]; intros o Ho (F1 & F2 & F3) Hk.
  { exfalso. assert (2 ^ 64 <= 2 ^ (12 + o)) by (apply Z.pow_le_mono_r; lia). lia. }
  assert (o <= 50) as Ho50.
  { destruct (decide (o <= 50)); [done|]. exfalso.
    assert (2 ^ 63 <= 2 ^ (12 + o)) by (apply Z.pow_le_mono_r; lia). lia. }
  cbn [_order_loop]. rewrite !order_test by lia.
  assert (u64 (Z.shiftl 2 (MEMORY_PAGESIZE_SHIFT + o)) = 2 ^ (12 + (o + 1))) as ->.
  { unfold MEMORY_PAGESIZE_SHIFT. rewrite Z.shiftl_mul_pow2 by lia.
    replace (2 ^ (12 + (o + 1))) with (2 * 2 ^ (12 + o)) by (rewrite <-Z.pow_succ_r by lia; f_equal; lia).
    apply u64_small. assert (2 ^ (12 + o) <= 2 ^ 62) by (apply Z.pow_le_mono_r; lia). lia. }
  assert (∀ b, b = false → negb b = true) as _ by (by intros ? ->).
  destruct (Z.eqb_spec (Z.shiftr addr1 12 mod 2 ^ (o + 1)) 0) as [E1|E1]; cbn [negb].
  2: { split_and!; [lia|lia|done|]. intros (G & _). by apply E1, shiftr_align; [lia|done|]. }
  destruct (Z.eqb_spec (Z.shiftr addr2 12 mod 2 ^ (o + 1)) 0) as [E2|E2]; cbn [negb].
  2: { split_and!; [lia|lia|done|]. intros (_ & G & _). by apply E2, shiftr_align; [lia|done|]. }
  destruct (Z.ltb_spec size (2 ^ (12 + (o + 1)))) as [E3|E3].
  { split_and!; [lia|lia|done|]. intros (_ & _ & G). lia. }
  destruct (IH (o + 1)) as (? & ? & ?); [lia| |lia|split_and!; [lia..|done|done]].
  split_and!; [apply shiftr_align; [lia|done|done]..|done].
Qed.

(** ** Wiring: the pages of a range *)

Lemma order_fits_mono addr1 addr2 size o o' :
  0 <= o <= o' → order_fits addr1 addr2 size o' → order_fits addr1 addr2 size o.
Proof.
  intros Ho (F1 & F2 & F3). unfold order_fits.
  assert (∀ x, x mod 2 ^ (12 + o') = 0 → x mod 2 ^ (12 + o) = 0) as Hm.
  { intros x Hx. apply mod0_ex in Hx as [q ->]; [|apply Z.pow_pos_nonneg; lia].
    replace (2 ^ (12 + o')) with (2 ^ (o' - o) * 2 ^ (12 + o))
      by (rewrite <-Z.pow_add_r by lia; f_equal; lia).
    rewrite <-Z.mul_assoc, (Z.mul_comm (2 ^ (12 + o))), Z.mul_assoc. apply Z.mod_mul.
    apply Z.pow_nonzero; lia. }
  split_and!; [by apply Hm..|]. etrans; [|exact F3]. apply Z.pow_le_mono_r; lia.
Qed.

Lemma order_spec addr1 addr2 size :
  0 <= addr1 → 0 <= addr2 → addr1 mod 4096 = 0 → addr2 mod 4096 = 0 → 4096 <= size < 2 ^ 63 →
  0 <= _order addr1 addr2 size <= 51 ∧ order_fits addr1 addr2 size (_order addr1 addr2 size) ∧
  ¬ order_fits addr1 addr2 size (_order addr1 addr2 size + 1).
Proof.
  intros. unfold _order. apply order_loop_spec; try (done || lia).
  unfold order_fits. change (2 ^ (12 + 0)) with 4096. split_and!; (done || lia).
Qed.

Lemma mod_step v o : 0 <= o → v mod 4096 = 0 → (v + 2 ^ (12 + o)) mod 4096 = 0.
Proof.
  intros Ho Hv. rewrite Z.pow_add_r by lia. change (2 ^ 12) with 4096.
  rewrite Z.mul_comm, Z.mod_add by lia. done.
Qed.

(** The next page of a range and what is left of the range after it. *)
Lemma wire_step virtual physical endplus1 :
  0 <= virtual < endplus1 → endplus1 <= 2 ^ 48 → 0 <= physical →
  physical + (endplus1 - virtual) <= 2 ^ 51 →
  virtual mod 4096 = 0 → physical mod 4096 = 0 → endplus1 mod 4096 = 0 →
  let o := _order virtual physical (u64 (endplus1 - virtual)) in
  0 <= o <= 51 ∧ order_fits virtual physical (endplus1 - virtual) o ∧ u8 o = o ∧ 4096 <= span o ∧
  u64 (virtual + u64 (Z.shiftl 1 (o + MEMORY_PAGESIZE_SHIFT))) = virtual + span o ∧
  u64 (physical + u64 (Z.shiftl 1 (o + MEMORY_PAGESIZE_SHIFT))) = physical + span o.
Proof.
  intros Hv He Hp Hpe Hvm Hpm Hem. rewrite u64_small by lia.
  assert (4096 <= endplus1 - virtual) as Hsz.
  { apply mod0_ex in Hvm as [q ->]; [|lia]. apply mod0_ex in Hem as [q' ->]; [|lia]. lia. }
  destruct (order_spec virtual physical (endplus1 - virtual)) as (Ho & Hf & _);
    [lia|lia|done|done|lia|].
  set (o := _order virtual physical (endplus1 - virtual)) in *. cbn zeta.
  assert (4096 <= span o) by (unfold span; change 4096 with (2 ^ 12); apply Z.pow_le_mono_r; lia).
  pose proof Hf as (_ & _ & Hf3). fold (span o) in Hf3.
  assert (u64 (Z.shiftl 1 (o + MEMORY_PAGESIZE_SHIFT)) = span o) as ->.
  { unfold MEMORY_PAGESIZE_SHIFT. rewrite Z.shiftl_1_l, Z.add_comm. apply u64_small. fold (span o). lia. }
  split_and!; [lia..|done|unfold u8; apply Z.mod_small; lia|done| |]; apply u64_small; lia.
Qed.

Section wire.
Context `{!ArchMemory, !DataAllocator} (vmem arch e : Z).
Context `{!ArchMemoryLaws arch, !DataAllocatorLaws vmem}.
Implicit Types (m : gmap Z Z) (σ : ax_state) (l : list Z).

(** A cell that neither the address space nor the allocator uses. *)
Definition safe σ l (x : Z) : Prop :=
  ax_outside σ x ∧ x ≠ vmem_spec vmem ∧ ∀ q, q ∈ l → ¬ in_rec q x.

Lemma safe_tail σ p l x : safe σ (p :: l) x → safe σ l x.
Proof. intros (? & ? & Hx). split_and!; [done..|]. intros q Hq. apply Hx. set_solver. Qed.

(** The records are not part of page tables, and the fields the loop reads
    are neither in records nor in page tables. *)
Record wire_env m σ l pp : Prop := {
  we_inv : ax_inv m σ;
  we_recs : da_inv m l;
  we_spec : ax_outside σ (vmem_spec vmem);
  we_out p x : p ∈ l → in_rec p x → ax_outside σ x;
  we_arch : m.@(vmem_arch vmem) = arch;
  we_safe x : x ∈ [vmem_arch vmem; vmem_flags vmem; ent_flags e; pp] → safe σ l x;
  we_pp : pp ∉ [vmem_arch vmem; vmem_flags vmem; ent_flags e];
  we_nil : m.@pp = 0;
}.

(** The record of the new page: [index] and [next] 0, the other fields set. *)
Definition page_record m p physical o ef : gmap Z Z :=
  let m := m.[page_index p <- 0].[page_physical p <- physical].[page_flags p <- MEMORY_PGF_WIRED] in
  let m := if Z.land ef MEMORY_VMF_RW =? 0 then m
           else m.[page_flags p <- Z.lor (m.@(page_flags p)) MEMORY_PGF_RW] in
  m.[page_next p <- 0].[page_order p <- u8 o].

Lemma page_record_rd m p physical o ef :
  (∀ x, ¬ in_rec p x → (page_record m p physical o ef).@x = m.@x) ∧
  (page_record m p physical o ef).@(page_physical p) = physical ∧
  (page_record m p physical o ef).@(page_order p) = u8 o ∧
  (page_record m p physical o ef).@(page_next p) = 0 ∧
  (Z.land ((page_record m p physical o ef).@(page_flags p)) 2 =? 0) = (Z.land ef MEMORY_VMF_RW =? 0).
Proof.
  unfold page_record, in_rec, sizeof_data, page_index, page_physical, page_flags, page_next, page_order.
  destruct (Z.land ef MEMORY_VMF_RW =? 0); split_and!; intros; rewrite ?rd_wr;
    repeat first [rewrite decide_True by lia|rewrite decide_False by lia]; done.
Qed.

Lemma page_next_in p : in_rec p (page_next p).
Proof. unfold in_rec, page_next, sizeof_data. lia. Qed.

(** One round of the loop up to the mapping. *)
Lemma wire_alloc m σ l p pp physical o :
  wire_env m σ (p :: l) pp →
  ∃ m1, data_alloc vmem m = Ok p m1 ∧ 0 < p ∧ m1.@(ent_flags e) = m.@(ent_flags e) ∧
    let m2 := page_record m1 p physical o (m.@(ent_flags e)) in
    wire_env m2 σ l pp ∧ (∀ x, in_rec p x → safe σ l x) ∧
    (∀ v, ax_walk m2 v = ax_walk m v) ∧ (∀ x, safe σ (p :: l) x → m2.@x = m.@x).
Proof.
  intros [Hinv Hrecs Hspec Hout Harch Hsafe Hpp Hnil].
  destruct (da_alloc m p l Hrecs) as (m1 & E & Hrecs1 & Hm1).
  destruct (da_apart m (p :: l) p Hrecs) as [Hp0 Hps]; [set_solver|].
  exists m1. set (m2 := page_record m1 p physical o (m.@(ent_flags e))).
  destruct (page_record_rd m1 p physical o (m.@(ent_flags e))) as (Hm2 & _). fold m2 in Hm2.
  assert (∀ x, ¬ in_rec p x → x ≠ vmem_spec vmem → m1.@x = m.@x) as Hm1'.
  { intros x Hx Hxs. rewrite Hm1. by rewrite !decide_False. }
  assert (∀ x, safe σ (p :: l) x → m1.@x = m.@x ∧ m2.@x = m.@x) as Hkeep.
  { intros x (_ & Hx1 & Hx2). assert (¬ in_rec p x) by (apply Hx2; set_solver).
    rewrite Hm2, Hm1' by done. done. }
  destruct (ax_frame m m2 σ Hinv) as [Hinv2 Hw].
  { intros x Hx. assert (¬ in_rec p x) by (intros Hin; apply Hx, (Hout p); [set_solver|done]).
    rewrite Hm2, Hm1'; [done|done| |done]. by intros ->. }
  cbn zeta. fold m2. split_and!; [done|done|apply Hkeep, Hsafe; set_solver| | |done|intros x Hx; by apply Hkeep].
  - constructor; [done| |done|intros q x Hq; apply Hout; set_solver| | |done|].
    + eapply da_frame; [done| |by apply Hm2].
      intros q x Hq Hx. apply Hm2. intros Hpx. by apply (da_nodup m p l x Hrecs Hpx q Hq).
    + rewrite (proj2 (Hkeep _ (Hsafe (vmem_arch vmem) ltac:(set_solver)))). done.
    + intros x Hx. by eapply safe_tail, Hsafe.
    + rewrite (proj2 (Hkeep _ (Hsafe pp ltac:(set_solver)))). done.
  - intros x Hx. split_and!; [apply (Hout p); [set_solver|done]| |].
    + intros ->. done.
    + intros q Hq. by apply (da_nodup m p l x Hrecs Hx q Hq).
Qed.

(** The field writes of a round. *)
Lemma wire_fill {B} (k : M B) m1 p physical o ef :
  m1.@(ent_flags e) = ef → ¬ in_rec p (ent_flags e) →
  (_ ← st (page_index p) 0;
   _ ← st (page_physical p) physical;
   _ ← st (page_flags p) MEMORY_PGF_WIRED;
   ef ← ld (ent_flags e);
   _ ← (if negb (Z.land ef MEMORY_VMF_RW =? 0)
        then pf ← ld (page_flags p); st (page_flags p) (Z.lor pf MEMORY_PGF_RW) else mret tt);
   _ ← st (page_next p) 0;
   _ ← st (page_order p) (u8 o);
   k) m1 = k (page_record m1 p physical o ef).
Proof.
  intros Ee Hin. unfold page_record.
  unfold in_rec, sizeof_data, page_index, page_physical, page_flags in *. mrun.
  rewrite !rd_wr_ne, Ee by lia.
  destruct (Z.land ef MEMORY_VMF_RW =? 0); cbn [negb]; mrun; done.
Qed.

(** After the mapping, whatever its result, the environment is as before. *)
Lemma wire_mapped m2 σ l pp m3 σ' :
  wire_env m2 σ l pp → ax_inv m3 σ' → (∀ x, ax_outside σ x → ax_outside σ' x ∧ m3.@x = m2.@x) →
  wire_env m3 σ' l pp ∧ ∀ x, safe σ l x → safe σ' l x ∧ m3.@x = m2.@x.
Proof.
  intros [Hinv Hrecs Hspec Hout Harch Hsafe Hpp Hnil] Hinv' Hst.
  assert (∀ x, safe σ l x → safe σ' l x ∧ m3.@x = m2.@x) as Hs.
  { intros x (Hx & ? & ?). destruct (Hst x Hx). done. }
  split; [|done]. constructor; [done| |by apply Hst| | | |done|].
  - eapply da_frame; [done| |by apply Hst]. intros q x Hq Hx. by apply Hst, (Hout q).
  - intros q x Hq Hx. by apply Hst, (Hout q).
  - rewrite (proj2 (Hs _ (Hsafe (vmem_arch vmem) ltac:(set_solver)))). done.
  - intros x Hx. by apply Hs, Hsafe.
  - rewrite (proj2 (Hs _ (Hsafe pp ltac:(set_solver)))). done.
Qed.

(** Linking the page moves the end of the list into its record. *)
Lemma wire_link m3 σ l pp p :
  wire_env m3 σ l pp → (∀ x, in_rec p x → safe σ l x) → m3.@(page_next p) = 0 →
  (∀ x, x ∈ [vmem_arch vmem; vmem_flags vmem; ent_flags e; pp] → ¬ in_rec p x) →
  wire_env (m3.[pp <- p]) σ l (page_next p) ∧ ∀ v, ax_walk (m3.[pp <- p]) v = ax_walk m3 v.
Proof.
  intros [Hinv Hrecs Hspec Hout Harch Hsafe Hpp Hnil] Hrec Hnext Hni.
  assert (in_rec p (page_next p)) as Hin by (unfold in_rec, page_next, sizeof_data; lia).
  destruct (Hsafe pp ltac:(set_solver)) as (Hpp1 & Hpp2 & Hpp3).
  destruct (ax_frame m3 (m3.[pp <- p]) σ Hinv) as [Hinv' Hw].
  { intros x Hx. apply rd_wr_ne. by intros ->. }
  split; [|done]. constructor; [done| |done|done| | | |].
  - eapply da_frame; [done| |by apply rd_wr_ne]. intros q x Hq Hx. apply rd_wr_ne. intros ->.
    by apply (Hpp3 q).
  - rewrite rd_wr_ne; [done|]. set_solver.
  - intros x Hx. destruct (decide (x = page_next p)) as [->|]; [by apply Hrec|].
    apply Hsafe. set_solver.
  - intros Hx. apply (Hni (page_next p)); [set_solver|done].
  - rewrite rd_wr_ne; [done|]. intros ->. apply (Hni (page_next p)); [set_solver|done].
Qed.

(** The wired pages: each aligned, with consecutive frames, up to [w]. *)
Fixpoint wired m (ps : list Z) (v phys w : Z) : Prop :=
  match ps with
  | [] => v = w
  | p :: ps =>
      let o := m.@(page_order p) in
      m.@(page_physical p) = phys ∧ 0 <= o ∧ v mod span o = 0 ∧ phys mod span o = 0 ∧
      wired m ps (v + span o) (phys + span o) w
  end.

Definition wire_rw m : bool :=
  negb (Z.land (m.@(ent_flags e)) MEMORY_VMF_RW =? 0) && (Z.land (m.@(vmem_flags vmem)) 0x80 =? 0).
Definition wire_us m : bool := negb (Z.land 8 (m.@(vmem_flags vmem)) =? 0).

(** The state after a round that mapped the page [p] of order [o], or did not. *)
Record wire_rounded m σ p l pp virtual physical o (ret : Z) m3 σ3 : Prop := {
  wr_env : wire_env m3 σ3 l pp;
  wr_pos : 0 < p;
  wr_rec : ∀ x, in_rec p x → safe σ3 l x;
  wr_keep : ∀ x, safe σ (p :: l) x → safe σ3 l x ∧ ¬ in_rec p x ∧ m3.@x = m.@x;
  wr_phys : m3.@(page_physical p) = physical;
  wr_order : m3.@(page_order p) = o;
  wr_next : m3.@(page_next p) = 0;
  wr_walk : ∀ v', 0 <= v' < 2 ^ 48 → ax_walk m3 v' =
    if decide (ret = 0 ∧ virtual <= v' < virtual + span o)
    then Some (physical + (v' - virtual), wire_rw m, wire_us m) else ax_walk m v';
}.

(** A round up to the mapping, for any continuation. *)
Lemma wire_round m σ p l pp virtual physical o :
  wire_env m σ (p :: l) pp → 0 <= o <= 51 →
  0 <= virtual → virtual mod span o = 0 → virtual + span o <= 2 ^ 48 →
  0 <= physical → physical mod span o = 0 → physical + span o <= 2 ^ 51 →
  (∀ v', virtual <= v' < virtual + span o → ax_walk m v' = None) →
  ∃ ret m3 σ3, (ret = 0 ∨ ret = -1) ∧ wire_rounded m σ p l pp virtual physical o ret m3 σ3 ∧
    ∀ B (none : M B) (k : Z → Z → M B),
      (p ← data_alloc vmem; if p =? 0 then none else
       _ ← st (page_index p) 0;
       _ ← st (page_physical p) physical;
       _ ← st (page_flags p) MEMORY_PGF_WIRED;
       ef ← ld (ent_flags e);
       _ ← (if negb (Z.land ef MEMORY_VMF_RW =? 0)
            then pf ← ld (page_flags p); st (page_flags p) (Z.lor pf MEMORY_PGF_RW) else mret tt);
       _ ← st (page_next p) 0;
       _ ← st (page_order p) (u8 o);
       ret ← page_map vmem virtual p;
       k p ret) m = k p ret m3.
Proof.
  intros Henv Ho Hv Hvm Hvt Hp Hpm Hpt Hn.
  destruct (wire_alloc m σ l p pp physical o Henv)
    as (m1 & E & Hp0 & Eef & Henv2 & Hrec & Hw2 & Hkeep2).
  destruct (page_record_rd m1 p physical o (m.@(ent_flags e))) as (Hm2 & R1 & R2 & R3 & R4).
  unfold u8 in R2. rewrite Z.mod_small in R2 by lia.
  assert (∀ x, x ∈ [vmem_arch vmem; vmem_flags vmem; ent_flags e; pp] → safe σ (p :: l) x) as Hx
    by apply Henv.
  set (m2 := page_record m1 p physical o (m.@(ent_flags e))) in *.
  destruct (ax_map m2 σ virtual p (m.@(vmem_flags vmem)) o physical)
    as (ret & m3 & σ3 & E3 & Hi3 & Hst & Hout); try (done || lia); [apply Henv2| | |].
  { apply Hrec. unfold in_rec, page_physical, sizeof_data. lia. }
  { intros v' Hv'. rewrite Hw2. by apply Hn. }
  destruct (wire_mapped m2 σ l pp m3 σ3 Henv2 Hi3 Hst) as [Henv3 Hkeep3].
  assert (∀ d, 0 <= d < 64 → m3.@(p + d) = m2.@(p + d)) as Hfield.
  { intros d Hd. apply Hkeep3, Hrec. unfold in_rec, sizeof_data. lia. }
  unfold page_physical, page_order, page_next in *.
  exists ret, m3, σ3. split; [naive_solver|]. split; [constructor; unfold page_physical, page_order, page_next;
    [done|done|intros x Hpx; by apply Hkeep3, Hrec| |by rewrite Hfield by lia..|]|].
  - intros x Hs. pose proof (safe_tail _ _ _ _ Hs) as Hs'. destruct (Hkeep3 x Hs') as [? ->].
    split_and!; [done|apply Hs; set_solver|by apply Hkeep2].
  - intros v' Hv'. unfold wire_rw, wire_us. rewrite R4 in Hout. change MEMORY_VMF_RW with 2 in *.
    destruct Hout as [[-> Hw3]|[-> Hw3]]; rewrite Hw3, ?Hw2 by done.
    + by rewrite decide_False by lia.
    + destruct (decide (virtual <= v' < virtual + span o));
        [by rewrite decide_True by lia|by rewrite decide_False by lia].
  - intros B none k. rewrite (bind_ok _ _ _ _ _ E), (proj2 (Z.eqb_neq p 0)) by lia.
    rewrite (wire_fill _ m1 p physical o (m.@(ent_flags e)) Eef) by (apply Hx; set_solver).
    fold m2. unfold page_map. mrun. rewrite (Hkeep2 (vmem_flags vmem)) by (apply Hx; set_solver).
    rewrite (we_arch _ _ _ _ Henv2). by rewrite (bind_ok _ _ _ _ _ E3).
Qed.

(** The state after the loop from [virtual] on, which came to [w]. *)
Definition wire_out m σ l pp virtual physical endplus1 (ok : bool) m' σ' l' ps w : Prop :=
  ax_inv m' σ' ∧ da_inv m' l' ∧ (∀ x, safe σ l x → x ≠ pp → m'.@x = m.@x) ∧
  virtual <= w <= endplus1 ∧ (ok = true → w = endplus1) ∧
  chain 24 m' pp ps ∧ wired m' ps virtual physical w ∧
  ∀ v', 0 <= v' < 2 ^ 48 → ax_walk m' v' =
    if decide (virtual <= v' < w) then Some (physical + (v' - virtual), wire_rw m, wire_us m)
    else ax_walk m v'.

(** The page is linked and the rest of the loop went from [virtual + span o]. *)
Lemma wire_out_step m σ p l pp virtual physical endplus1 o m3 σ3 ok m' σ' l' ps w :
  wire_env m σ (p :: l) pp → wire_rounded m σ p l pp virtual physical o 0 m3 σ3 →
  0 <= o → 0 < span o → virtual mod span o = 0 → physical mod span o = 0 →
  (∀ v, ax_walk (m3.[pp <- p]) v = ax_walk m3 v) →
  wire_out (m3.[pp <- p]) σ3 l (page_next p) (virtual + span o) (physical + span o) endplus1 ok m' σ' l' ps w →
  wire_out m σ (p :: l) pp virtual physical endplus1 ok m' σ' l' (p :: ps) w.
Proof.
  intros Henv [_ Hp0 Hrec Hkeep R1 R2 R3 Hw3] Ho Hsp Fv Fp Hw4 (Hi' & Hrecs' & Hk' & Hw & Hok & Hch & Hwd & Hwalk).
  pose proof (λ x Hin, Hkeep x (we_safe _ _ _ _ Henv x Hin)) as Hx.
  assert (∀ x, safe σ (p :: l) x → x ≠ pp → (m3.[pp <- p]).@x = m.@x) as Hold.
  { intros x Hs Hne. rewrite rd_wr_ne by done. by apply Hkeep. }
  assert (∀ d, 0 <= d < 24 → m'.@(p + d) = m3.@(p + d)) as Hfield.
  { intros d Hd. assert (in_rec p (p + d)) by (unfold in_rec, sizeof_data; lia).
    rewrite Hk', rd_wr_ne; [done| |by apply Hrec|unfold page_next; lia].
    intros E0. apply (Hx pp); [set_solver|]. rewrite E0. done. }
  unfold wire_out. split_and!; [done|done| |lia|lia|done| | |].
  - intros x Hs Hne. destruct (Hkeep x Hs) as (Hs3 & Hni & _).
    rewrite Hk'; [by apply Hold|done|]. intros ->. apply Hni, page_next_in.
  - simpl. split_and!; [|lia|done]. rewrite Hk'; [apply rd_wr_eq|apply Hx; set_solver|]. intros E0.
    apply (Hx pp); [set_solver|]. rewrite E0. apply page_next_in.
  - cbn [wired]. unfold page_order, page_physical in *. rewrite !Hfield, R1, R2 by lia. done.
  - intros v' Hv'. rewrite Hwalk, Hw4, Hw3 by done.
    assert (wire_rw (m3.[pp <- p]) = wire_rw m ∧ wire_us (m3.[pp <- p]) = wire_us m) as [-> ->].
    { pose proof (we_pp _ _ _ _ Henv) as Hpp. rewrite !not_elem_of_cons in Hpp.
      destruct Hpp as (? & ? & ? & _). unfold wire_rw, wire_us.
      rewrite (Hold (ent_flags e)), (Hold (vmem_flags vmem)); [done|..]; try done;
        apply Henv; set_solver. }
    repeat case_decide; try lia; [|done..]. do 2 f_equal. f_equal. lia.
Qed.

(** The page was not mapped, and its record is given back. *)
Lemma wire_out_fail m σ p l pp virtual physical endplus1 o m3 σ3 :
  wire_env m σ (p :: l) pp → wire_rounded m σ p l pp virtual physical o (-1) m3 σ3 → virtual <= endplus1 →
  ∃ m4, data_free vmem p m3 = Ok tt m4 ∧
    wire_out m σ (p :: l) pp virtual physical endplus1 false m4 σ3 (p :: l) [] virtual.
Proof.
  intros Henv [Henv3 Hp0 Hrec Hkeep _ _ _ Hw3] Hle.
  destruct (da_free m3 l p) as (m4 & E4 & Hrecs4 & Hk4); [apply Henv3|done| | |].
  { eapply (da_apart m (p :: l)); [apply Henv|set_solver]. }
  { intros q x Hq Hqx Hpx. by apply (proj2 (proj2 (Hrec x Hpx)) q). }
  destruct (ax_frame m3 m4 σ3 (we_inv _ _ _ _ Henv3)) as [Hi4 Hw4].
  { intros x Hno. apply Hk4; intros ->; apply Hno; [apply Hrec, in_rec_self|apply Henv3]. }
  assert (∀ x, safe σ (p :: l) x → m4.@x = m.@x) as Hold.
  { intros x Hs. destruct (Hkeep x Hs) as (? & Hni & <-). apply Hk4; [|apply Hs]. intros ->. apply Hni, in_rec_self. }
  exists m4. split; [done|]. unfold wire_out. split_and!; try (done || lia); [intros x Hs _; by apply Hold| |].
  - simpl. rewrite Hold by (apply Henv; set_solver). apply Henv.
  - intros v' Hv'. rewrite Hw4, Hw3 by done. by rewrite !decide_False by lia.
Qed.

Lemma wire_loop_spec k m σ l pp virtual physical endplus1 :
  wire_env m σ l pp →
  0 <= virtual <= endplus1 → endplus1 <= 2 ^ 48 → 0 <= physical →
  physical + (endplus1 - virtual) <= 2 ^ 51 →
  virtual mod 4096 = 0 → physical mod 4096 = 0 → endplus1 mod 4096 = 0 →
  endplus1 - virtual < 4096 * Z.of_nat k →
  (∀ v', virtual <= v' < endplus1 → ax_walk m v' = None) →
  ∃ ok m' σ' l' ps w,
    wire_loop k vmem e virtual physical endplus1 pp m = Ok ok m' ∧
    wire_out m σ l pp virtual physical endplus1 ok m' σ' l' ps w.
Proof.
  revert m σ l pp virtual physical.
  induction k as [|k IH]; intros m σ l pp virtual physical Henv Hv He Hp Hpe Hvm Hpm Hem Hk Hn; [lia|].
  cbn [wire_loop].
  assert (∀ ok, (ok = true → virtual = endplus1) → wire_out m σ l pp virtual physical endplus1 ok m σ l [] virtual) as Hstop.
  { intros ok Hok. unfold wire_out. split_and!; try (done || lia || apply Henv).
    intros v' Hv'. by rewrite decide_False by lia. }
  destruct (Z.leb_spec endplus1 virtual) as [Hle|Hlt].
  { exists true, m, σ, l, [], virtual. split; [done|]. apply Hstop. lia. }
  destruct l as [|p l].
  { rewrite (bind_ok _ _ _ _ _ (da_alloc_nil m (we_recs _ _ _ _ Henv))). cbn [Z.eqb].
    exists false, m, σ, [], [], virtual. split; [done|]. by apply Hstop. }
  destruct (wire_step virtual physical endplus1) as (Ho & (F1 & F2 & F3) & Eu & Hsp & Ev & Epp); try (done || lia).
  cbn zeta in *. set (o := _order virtual physical (u64 (endplus1 - virtual))) in *.
  fold (span o) in F1, F2, F3.
  destruct (wire_round m σ p l pp virtual physical o) as (ret & m3 & σ3 & Hret & Hrd & Erun); try (done || lia);
    [intros v' Hv'; apply Hn; lia|].
  erewrite (Erun _ (mret false) (λ p ret, if ret <? 0 then _ else _)). clear Erun.
  destruct Hret as [-> | ->]; cbn [Z.ltb Z.compare].
  - pose proof Hrd as [Henv3 _ Hrec Hkeep _ _ R3 Hw3].
    destruct (wire_link m3 σ3 l pp p Henv3 Hrec R3) as [Henv4 Hw4].
    { intros x Hin. apply Hkeep, (we_safe _ _ _ _ Henv x Hin). }
    mrun. rewrite Ev, Epp.
    destruct (IH (m3.[pp <- p]) σ3 l (page_next p) (virtual + span o) (physical + span o))
      as (ok & m' & σ' & l' & ps & w & E' & Hout);
      try (done || lia); [apply mod_step; [lia|done]..| |].
    { intros v' Hv'. rewrite Hw4, Hw3, decide_False by lia. apply Hn. lia. }
    exists ok, m', σ', l', (p :: ps), w. split; [done|]. eapply wire_out_step; done || lia.
  - destruct (wire_out_fail m σ p l pp virtual physical endplus1 o m3 σ3 Henv Hrd) as (m4 & E4 & Hout); [lia|].
    rewrite (bind_ok _ _ _ _ _ E4). by exists false, m4, σ3, (p :: l), [], virtual.
Qed.
End wire.

(** ** Properties *)

(** [_order] is the largest order at which both addresses are aligned and
    the block still fits the remaining size. *)
Theorem order_maximal (addr1 addr2 size : Z) :
  0 <= addr1 → 0 <= addr2 → addr1 mod 4096 = 0 → addr2 mod 4096 = 0 → 4096 <= size < 2 ^ 63 →
  0 <= _order addr1 addr2 size <= 51 ∧
  ∀ o, 0 <= o → order_fits addr1 addr2 size o ↔ o <= _order addr1 addr2 size.
Proof.
  intros H1 H2 Ha1 Ha2 Hs. destruct (order_spec addr1 addr2 size) as (Hr & Hf & Hn); try done.
  split; [done|]. intros o Ho. split; intros H.
  - destruct (decide (o <= _order addr1 addr2 size)) as [|Hgt]; [done|]. exfalso. apply Hn.
    eapply order_fits_mono; [|exact H]. lia.
  - by eapply order_fits_mono; [|exact Hf].
Qed.

Lemma order_maximal_witness :
  0 <= _order 0x40200000 0x776000 0x3000 <= 51 ∧
  ∀ o, 0 <= o → order_fits 0x40200000 0x776000 0x3000 o ↔ o <= _order 0x40200000 0x776000 0x3000.
Proof. apply (order_maximal 0x40200000 0x776000 0x3000); (done || lia). Defined.

(** the mapping loop of [virt_memory_wire], on any page table and record
    allocator that keep their contracts, always returns and maps a prefix of
    the range to consecutive frames, all of it when it reports success.  The
    pages are linked in the object's list in order, each aligned to its own
    size; no other address changes its translation and no other field of the
    memory manager is written. *)
Theorem wire_loop_correct `{!ArchMemory, !DataAllocator} (vmem arch e : Z)
    `{!ArchMemoryLaws arch, !DataAllocatorLaws vmem}
    (k : nat) (m : gmap Z Z) (σ : ax_state) (l : list Z) (pp virtual physical endplus1 : Z) :
  wire_env vmem arch e m σ l pp →
  0 <= virtual <= endplus1 → endplus1 <= 2 ^ 48 → 0 <= physical →
  physical + (endplus1 - virtual) <= 2 ^ 51 →
  virtual mod 4096 = 0 → physical mod 4096 = 0 → endplus1 mod 4096 = 0 →
  endplus1 - virtual < 4096 * Z.of_nat k →
  (∀ v', virtual <= v' < endplus1 → ax_walk m v' = None) →
  ∃ ok m' σ' l' ps w,
    wire_loop k vmem e virtual physical endplus1 pp m = Ok ok m' ∧
    ax_inv m' σ' ∧ da_inv m' l' ∧ (∀ x, safe vmem arch σ l x → x ≠ pp → m'.@x = m.@x) ∧
    virtual <= w <= endplus1 ∧ (ok = true → w = endplus1) ∧
    chain 24 m' pp ps ∧ wired m' ps virtual physical w ∧
    ∀ v', 0 <= v' < 2 ^ 48 → ax_walk m' v' =
      if decide (virtual <= v' < w)
      then Some (physical + (v' - virtual), wire_rw vmem e m, wire_us vmem m) else ax_walk m v'.
Proof. apply wire_loop_spec. Qed.

(** The example page table, an address space at 0x4000 with three records at
    0x8000, an entry at 0x5000 and its object at 0x6000. *)
Definition wire_ex : gmap Z Z :=
  pgt_ex.[vmem_spec 0x4000 <- 0x8000].[0x8000 <- 0x8040].[0x8040 <- 0x8080]
    .[vmem_arch 0x4000 <- 64].[vmem_flags 0x4000 <- 8].[ent_flags 0x5000 <- 2].

Lemma wire_ex_outside x :
  0x4000 <= x < 0x9000 →
  ax_outside (ArchMemoryLaws := x86_64_laws 64 0 0x10000)
    ({[ 0x10000 := 4%nat ]}, spare_pages 7 0x10000) x.
Proof.
  intros Hx. split_and!; cbn [fst snd]; [|unfold pgt_cr3; lia|unfold pgt_p2v; lia].
  split; [unfold pgt_free; lia|].
  intros b [[? [<- _]%lookup_singleton_Some]|Hb%elem_of_spare]; [lia|].
  destruct Hb as (i & ? & ->). lia.
Qed.

Notation ex_laws := (x86_64_laws 64 0 0x10000).
Notation ex_state := (({[ 0x10000 := 4%nat ]}, spare_pages 7 0x10000) : gmap Z nat * list Z).

Lemma wire_ex_inv :
  ax_inv (ArchMemoryLaws := ex_laws) wire_ex ex_state ∧
  ∀ v, ax_walk (ArchMemoryLaws := ex_laws) wire_ex v = None.
Proof.
  destruct (ax_frame (ArchMemoryLaws := ex_laws) pgt_ex wire_ex ex_state) as [H1 H2].
  - apply pgt_ex_inv.
  - intros x Hx. unfold wire_ex, vmem_spec, vmem_arch, vmem_flags, ent_flags.
    rewrite !rd_wr_ne; [done|..]; intros <-; apply Hx, wire_ex_outside; lia.
  - split; [done|]. intros v. rewrite H2. unfold ax_walk.
    change (ax_tr pgt_ex v) with (walk 4 pgt_ex 0 0x10000 v). by rewrite (proj2 pgt_ex_inv).
Qed.

Lemma wire_ex_env :
  wire_env (ArchMemoryLaws0 := ex_laws) 0x4000 64 0x5000 wire_ex ex_state
    [0x8000; 0x8040; 0x8080] 0x6008.
Proof.
  assert (∀ q x, q ∈ [0x8000; 0x8040; 0x8080] → in_rec q x →
    (q = 0x8000 ∨ q = 0x8040 ∨ q = 0x8080) ∧ q <= x < q + 64) as Hq.
  { intros q x Hin Hx. split; [set_solver|done]. }
  constructor.
  - apply wire_ex_inv.
  - constructor.
    + simpl. by vm_compute.
    + repeat constructor; set_solver.
    + intros p q x Hp' Hq' Hx Hy. destruct (Hq _ _ Hp' Hx), (Hq _ _ Hq' Hy). lia.
    + intros p Hp'. destruct (Hq _ _ Hp' (in_rec_self p)). lia.
    + intros p Hp' Hx. destruct (Hq _ _ Hp' Hx). unfold vmem_spec in *. lia.
  - apply wire_ex_outside. unfold vmem_spec. lia.
  - intros p x Hp' Hx. destruct (Hq _ _ Hp' Hx). apply wire_ex_outside. lia.
  - by vm_compute.
  - intros x Hx. unfold vmem_arch, vmem_flags, ent_flags in *.
    assert (x = 0x4000 + 48 ∨ x = 0x4000 + 40 ∨ x = 0x5000 + 32 ∨ x = 0x6008) as Hx' by set_solver.
    split_and!; [apply wire_ex_outside; lia|unfold vmem_spec; lia|].
    intros q Hq' Hqx. destruct (Hq _ _ Hq' Hqx). lia.
  - rewrite !not_elem_of_cons. split_and!; [done..|apply not_elem_of_nil].
  - by vm_compute.
Qed.

Lemma wire_loop_witness :
  ∃ m' w, wire_loop (H := arch_x86_64) 4 0x4000 0x5000 0x40200000 0x776000 0x40203000 0x6008
      wire_ex = Ok true m' ∧ w = 0x40203000 ∧
    walk 4 m' 0 0x10000 0x40202123 = Some (0x778123, true, true, 1%nat).
Proof.
  destruct (wire_loop_correct (ArchMemoryLaws0 := ex_laws) 0x4000 64 0x5000 4 wire_ex ex_state
    [0x8000; 0x8040; 0x8080] 0x6008 0x40200000 0x776000 0x40203000)
    as (ok & m' & σ' & l' & ps & w & E & _ & _ & _ & _ & Hok & _);
    [apply wire_ex_env|lia|lia|lia|lia|done|done|done|lia|intros; apply wire_ex_inv|].
  assert (match wire_loop (H := arch_x86_64) 4 0x4000 0x5000 0x40200000 0x776000
      0x40203000 0x6008 wire_ex with
    | Ok ok m => Some (ok, walk 4 m 0 0x10000 0x40202123) | _ => None end =
    Some (true, Some (0x778123, true, true, 1%nat))) as R by by vm_compute.
  rewrite E in R. injection R as Eok Ew. exists m', w.
  split_and!; [by rewrite E, Eok|by apply Hok|done].
Defined.
