(* ===== verification/MemoryBlocks.v ===== *)
(** * Blocks, entries and free ranges: theorems on memory.c

    The block list and the lookups by address are correct for lists and trees
    in address order; the concrete runs at the end show what the allocation
    functions make of that order. *)

From S2P Require Import Prelude CMonad PhysMem KString Tree Pgt PgtTheorems PgtRange Kmem KmemTheorems Memory.

(** ** The block list *)

Section blocks.
Context (vmem : Z).
Implicit Types (m : gmap Z Z) (bl : list Z).

Definition block_list m bl : Prop := chain 16 m (vmem_blocks vmem) bl.
Definition block_has m addr b : Prop := m.@(blk_start b) <= addr <= m.@(blk_end b).
Definition blocks_sorted m bl : Prop :=
  StronglySorted (λ b b', m.@(blk_start b) <= m.@(blk_start b')) bl.

Lemma find_block_loop_spec addr m bl c fuel :
  chain 16 m c bl → (length bl < fuel)%nat →
  ∃ r, _find_block_loop fuel (m.@c) addr m = Ok r m ∧
    ((r = 0 ∧ ∀ b, b ∈ bl → ¬ block_has m addr b) ∨
     (∃ l1 l2, bl = l1 ++ r :: l2 ∧ r ≠ 0 ∧ block_has m addr r ∧ ∀ b, b ∈ l1 → ¬ block_has m addr b)).
Proof.
  revert c fuel. induction bl as [|b bl IH]; intros c [|fuel] Hc Hf; simpl in Hf; try lia;
    cbn [_find_block_loop].
  - simpl in Hc. rewrite Hc. exists 0. split; [done|]. left. set_solver.
  - destruct Hc as (-> & Hb & Hc). rewrite (proj2 (Z.eqb_neq b 0)) by done. mrun.
    destruct ((m.@(blk_start b) <=? addr) && (addr <=? m.@(blk_end b))) eqn:E0.
    { exists b. split; [done|]. right. exists [], bl.
      split_and!; [done|done|unfold block_has; lia|set_solver]. }
    mrun. destruct (IH (blk_next b) fuel) as (r & E & Hr); [done|lia|]. exists r. split; [done|].
    assert (¬ block_has m addr b) as Hb' by (unfold block_has; lia).
    destruct Hr as [[-> Hr]|(l1 & l2 & -> & ? & ? & Hr)]; [left|right].
    + split; [done|]. intros b'. rewrite elem_of_cons. intros [->|?]; auto.
    + exists (b :: l1), l2. split_and!; [done..|]. intros b'. rewrite elem_of_cons. intros [->|?]; auto.
Qed.

Lemma block_insert_loop_spec n m bl c fuel :
  chain 16 m c bl → blocks_sorted m bl → (length bl < fuel)%nat →
  ∃ l1 l2, bl = l1 ++ l2 ∧ (∀ b, b ∈ l1 → m.@(blk_start b) <= m.@(blk_start n)) ∧
    (∀ b, b ∈ l2 → m.@(blk_start n) < m.@(blk_start b)) ∧
    _block_insert_loop fuel c n m =
      Ok (if decide (Exists (λ b, m.@(blk_start b) <= m.@(blk_end n)) (take 1 l2))
          then None else Some (lastc 16 c l1)) m.
Proof.
  revert c fuel. induction bl as [|b bl IH]; intros c [|fuel] Hc Hs Hf; simpl in Hf; try lia;
    cbn [_block_insert_loop]; mrun.
  - simpl in Hc. rewrite Hc. exists [], []. split_and!; [done|set_solver|set_solver|].
    rewrite decide_False; [done|]. by intros ?%Exists_nil.
  - destruct Hc as (-> & Hb & Hc). rewrite (proj2 (Z.eqb_neq b 0)) by done. mrun.
    apply StronglySorted_inv in Hs as [Hs Hall]. rewrite Forall_forall in Hall.
    destruct (Z.ltb_spec (m.@(blk_start n)) (m.@(blk_start b))) as [Hlt|Hge].
    + exists [], (b :: bl). split_and!; [done|set_solver| |].
      { intros b' [->|Hin]%elem_of_cons; [done|]. specialize (Hall b' Hin). lia. }
      mrun. cbn [take lastc].
      destruct (Z.leb_spec (m.@(blk_start b)) (m.@(blk_end n)));
        [rewrite decide_True|rewrite decide_False]; try done.
      * by constructor.
      * intros He%Exists_cons. destruct He as [?|?%Exists_nil]; [lia|done].
    + destruct (IH (blk_next b) fuel) as (l1 & l2 & -> & H1 & H2 & E); [done|done|lia|].
      exists (b :: l1), l2. split_and!; [done| |done|done].
      intros b' [->|Hin]%elem_of_cons; [done|auto].
Qed.

Lemma sorted_ext m m' bl :
  (∀ b, b ∈ bl → m'.@(blk_start b) = m.@(blk_start b)) → blocks_sorted m bl → blocks_sorted m' bl.
Proof.
  induction bl as [|b bl IH]; intros Hm Hs; constructor; apply StronglySorted_inv in Hs as [Hs Hall].
  - apply IH; [|done]. intros b' Hb'. apply Hm. set_solver.
  - rewrite Forall_forall in *. intros b' Hb'. rewrite !Hm by set_solver. auto.
Qed.

(** The cells of the list and the start fields are all different. *)
Definition blocks_apart n bl : Prop :=
  NoDup (vmem_blocks vmem :: blk_next n :: (blk_next <$> bl)) ∧
  ∀ b, b ∈ n :: bl → blk_start b ≠ vmem_blocks vmem ∧
    ∀ b', b' ∈ n :: bl → blk_start b ≠ blk_next b'.

Lemma block_insert_spec n m bl fuel :
  block_list m bl → blocks_sorted m bl → (length bl < fuel)%nat → n ≠ 0 → blocks_apart n bl →
  ∃ l1 l2, bl = l1 ++ l2 ∧ (∀ b, b ∈ l1 → m.@(blk_start b) <= m.@(blk_start n)) ∧
    (∀ b, b ∈ l2 → m.@(blk_start n) < m.@(blk_start b)) ∧
    ((_block_insert fuel vmem n m = Ok (-1) m ∧ ∃ b, b ∈ l2 ∧ m.@(blk_start b) <= m.@(blk_end n)) ∨
     ((∀ b, b ∈ l2 → m.@(blk_end n) < m.@(blk_start b)) ∧
      ∃ m', _block_insert fuel vmem n m = Ok 0 m' ∧ block_list m' (l1 ++ n :: l2) ∧
        blocks_sorted m' (l1 ++ n :: l2))).
Proof.
  intros Hc Hs Hf Hn [Hnd Hst].
  destruct (block_insert_loop_spec n m bl (vmem_blocks vmem) fuel Hc Hs Hf)
    as (l1 & l2 & -> & H1 & H2 & E).
  exists l1, l2. split_and!; [done..|]. unfold _block_insert. rewrite (bind_ok _ _ _ _ _ E).
  assert (StronglySorted (λ b b', m.@(blk_start b) <= m.@(blk_start b')) l2) as Hs2
    by (by apply StronglySorted_app_1_r in Hs).
  case_decide as He.
  { left. split; [done|]. destruct l2 as [|b l2]; [by apply Exists_nil in He|].
    apply Exists_cons in He as [He|He%Exists_nil]; [|done]. exists b. split; [set_solver|done]. }
  right. split.
  { destruct l2 as [|b l2]; [set_solver|]. intros b' Hb'.
    assert (m.@(blk_end n) < m.@(blk_start b)).
    { apply Z.nle_gt. intros Hle. apply He. by constructor. }
    apply StronglySorted_inv in Hs2 as [_ Hall]. rewrite Forall_forall in Hall.
    apply elem_of_cons in Hb' as [->|Hb']; [done|]. specialize (Hall b' Hb'). lia. }
  mrun. eexists. split; [done|]. set (c := lastc 16 (vmem_blocks vmem) l1) in *.
  assert (c ∈ cells 16 (vmem_blocks vmem) (l1 ++ l2)) as Hcin.
  { pose proof (lastc_cells 16 (vmem_blocks vmem) l1) as Hl. fold c in Hl. unfold cells in *.
    rewrite fmap_app. set_solver. }
  assert (c ≠ blk_next n) as Hcn.
  { intros Ec. unfold cells in Hcin. rewrite !list.NoDup_cons in Hnd. rewrite Ec in Hcin.
    destruct Hnd as (? & ? & _). set_solver. }
  assert (∀ b, b ∈ n :: l1 ++ l2 →
    (m.[blk_next n <- m.@c].[c <- n]).@(blk_start b) = m.@(blk_start b)) as Hstart.
  { intros b Hb. destruct (Hst b Hb) as [Hb1 Hb2]. rewrite !rd_wr_ne; [done| |].
    - apply not_eq_sym, Hb2. set_solver.
    - unfold cells in Hcin. apply elem_of_cons in Hcin as [->|Hcin]; [done|].
      apply list_elem_of_fmap in Hcin as (q & Eq & Hq). rewrite Eq. apply not_eq_sym, Hb2. set_solver. }
  split.
  - apply (chain_insert 16 m); [done| |done|apply rd_wr_eq| |].
    + unfold cells. rewrite fmap_app, fmap_cons. rewrite fmap_app in Hnd.
      eapply (NoDup_Permutation_proper _ (_ :: _ :: _)); [|exact Hnd].
      apply perm_skip. unfold blk_next. symmetry. apply Permutation_middle.
    + rewrite rd_wr_ne by done. apply rd_wr_eq.
    + intros x Hx Hxc. rewrite !rd_wr_ne; [done| |done]. intros <-. unfold cells in Hx.
      rewrite !list.NoDup_cons in Hnd. destruct Hnd as (? & ? & _). set_solver.
  - apply (sorted_ext m); [intros b Hb; apply Hstart; set_solver|].
    apply StronglySorted_app in Hs as (Hs12 & Hs1 & _). apply StronglySorted_app.
    split_and!; [|done|constructor; [done|apply Forall_forall; intros b Hb; specialize (H2 b Hb); lia]].
    intros b b' Hb [->|Hb']%elem_of_cons; auto.
Qed.
End blocks.

(** ** Entries by address *)

Definition ent_of (m : gmap Z Z) (q : Z) : Z := m.@(node_data q).
Definition ent_end (m : gmap Z Z) (e : Z) : Z := m.@(ent_start e) + m.@(ent_size e).
Definition ent_has (m : gmap Z Z) (addr e : Z) : Prop := m.@(ent_start e) <= addr < ent_end m e.

(** The entries of a tree are in address order and do not overlap. *)
Fixpoint addr_tree (m : gmap Z Z) (t : tree) : Prop :=
  match t with
  | Leaf => True
  | Node p l r =>
      (∀ q, q ∈ inorder l → ent_end m (ent_of m q) <= m.@(ent_start (ent_of m p))) ∧
      (∀ q, q ∈ inorder r → ent_end m (ent_of m p) <= m.@(ent_start (ent_of m q))) ∧
      addr_tree m l ∧ addr_tree m r
  end.

Definition fit_value (m : gmap Z Z) (addr q : Z) : Z :=
  let e := ent_of m q in
  if (m.@(ent_start e) <=? addr) && (addr <? u64 (m.@(ent_start e) + m.@(ent_size e))) then 0
  else if addr <? m.@(ent_start e) then -1 else 1.

Lemma fit_value_leads m addr t :
  addr_tree m t → (∀ q, q ∈ inorder t → 0 <= m.@(ent_size (ent_of m q)) ∧
    0 <= m.@(ent_start (ent_of m q)) ∧ ent_end m (ent_of m q) < 2 ^ 64) →
  leads (fit_value m addr) t ∧
  ∀ q, q ∈ inorder t → fit_value m addr q = 0 ↔ ent_has m addr (ent_of m q).
Proof.
  intros Ht Hw. assert (∀ q, q ∈ inorder t → fit_value m addr q = 0 ↔ ent_has m addr (ent_of m q)) as H0.
  { intros q Hq. destruct (Hw q Hq) as (? & ? & ?). unfold fit_value, ent_has, ent_end in *.
    rewrite u64_small by lia. destruct (Z.leb_spec (m.@(ent_start (ent_of m q))) addr),
      (Z.ltb_spec addr (m.@(ent_start (ent_of m q)) + m.@(ent_size (ent_of m q)))); cbn [andb];
      [lia|..]; destruct (Z.ltb_spec addr (m.@(ent_start (ent_of m q)))); lia. }
  split; [|done]. induction t as [|p l IHl r IHr]; [done|]. destruct Ht as (Hl & Hr & Htl & Htr).
  simpl in Hw, H0. cbn [leads]. split_and!; [intros Hv q Hq|intros Hv q Hq|apply IHl; [done|..]|apply IHr; [done|..]];
    [| |intros q Hq; apply Hw; set_solver|intros q Hq; apply H0; set_solver
       |intros q Hq; apply Hw; set_solver|intros q Hq; apply H0; set_solver].
  - rewrite (H0 q) by set_solver. specialize (Hl q Hq).
    destruct (Hw p ltac:(set_solver)) as (? & ? & ?). unfold fit_value, ent_has, ent_end in *.
    rewrite u64_small in Hv by lia. destruct (_ && _) eqn:?; [lia|].
    destruct (Z.ltb_spec addr (m.@(ent_start (ent_of m p)))); lia.
  - rewrite (H0 q) by set_solver. specialize (Hr q Hq).
    destruct (Hw p ltac:(set_solver)) as (? & ? & ?). unfold fit_value, ent_has, ent_end in *.
    rewrite u64_small in Hv by lia. destruct (_ && _) eqn:?; [lia|].
    destruct (Z.ltb_spec addr (m.@(ent_start (ent_of m p)))); lia.
Qed.

Lemma find_entry_spec m b addr t fuel :
  tree_at m (blk_entries b) t → addr_tree m t → (height t < fuel)%nat →
  (∀ q, q ∈ inorder t → ent_of m q ≠ 0 ∧ 0 <= m.@(ent_size (ent_of m q)) ∧
    0 <= m.@(ent_start (ent_of m q)) ∧ ent_end m (ent_of m q) < 2 ^ 64) →
  ∃ r, _find_entry fuel b addr m = Ok r m ∧
    ((r = 0 ∧ ∀ q, q ∈ inorder t → ¬ ent_has m addr (ent_of m q)) ∨
     (r ≠ 0 ∧ ent_has m addr r ∧ ∃ q, q ∈ inorder t ∧ r = ent_of m q)).
Proof.
  intros Ht Ha Hf Hw.
  destruct (fit_value_leads m addr t Ha) as [Hld H0]; [intros q Hq; by destruct (Hw q Hq)|].
  destruct (btree_search_ok virt_memory_cond_fit addr (fit_value m addr) m (blk_entries b) t fuel)
    as (q & E & Hq); [done|done|done|by intros|].
  unfold _find_entry. mrun. rewrite (bind_ok _ _ _ _ _ E). unfold data_of.
  destruct Hq as [(Hq0 & Hq & Hv)|[-> Hno]].
  - rewrite (proj2 (Z.eqb_neq q 0)) by done. exists (ent_of m q). split; [done|]. right.
    split_and!; [by apply Hw|by apply H0|by exists q].
  - exists 0. split; [done|]. left. split; [done|]. intros q Hq Hh. by eapply Hno, H0.
Qed.

(** ** Properties *)

(** [_find_block] returns the first block of the list that contains the
    address, and NULL exactly when no block does. *)
Theorem find_block_correct (vmem addr : Z) (m : gmap Z Z) (bl : list Z) (fuel : nat) :
  block_list vmem m bl → (length bl < fuel)%nat →
  ∃ r, _find_block fuel vmem addr m = Ok r m ∧
    ((r = 0 ∧ ∀ b, b ∈ bl → ¬ block_has m addr b) ∨
     (∃ l1 l2, bl = l1 ++ r :: l2 ∧ r ≠ 0 ∧ block_has m addr r ∧ ∀ b, b ∈ l1 → ¬ block_has m addr b)).
Proof. intros Hc Hf. unfold _find_block. mrun. by apply find_block_loop_spec. Qed.

(** Two blocks, at 0x1000 and 0x2000, of the address space at 0x100. *)
Definition blocks_ex : gmap Z Z :=
  ∅.[vmem_blocks 0x100 <- 0x1000].[blk_start 0x1000 <- 0x100000].[blk_end 0x1000 <- 0x1fffff]
   .[blk_next 0x1000 <- 0x2000].[blk_start 0x2000 <- 0x400000].[blk_end 0x2000 <- 0x4fffff]
   .[blk_start 0x3000 <- 0x200000].[blk_end 0x3000 <- 0x3fffff].

Lemma find_block_witness :
  ∃ r, _find_block 5 0x100 0x480000 blocks_ex = Ok r blocks_ex ∧
    ((r = 0 ∧ ∀ b, b ∈ [0x1000; 0x2000] → ¬ block_has blocks_ex 0x480000 b) ∨
     (∃ l1 l2, [0x1000; 0x2000] = l1 ++ r :: l2 ∧ r ≠ 0 ∧ block_has blocks_ex 0x480000 r ∧
        ∀ b, b ∈ l1 → ¬ block_has blocks_ex 0x480000 b)).
Proof. apply (find_block_correct 0x100 0x480000 blocks_ex [0x1000; 0x2000] 5); [by vm_compute|simpl; lia]. Defined.

(** C38: [_block_insert] puts a block at its place in a list sorted by address
    and keeps the list sorted, or refuses it, changing nothing, exactly when
    it reaches into a block that starts after it. *)
Theorem block_insert_correct (vmem n : Z) (m : gmap Z Z) (bl : list Z) (fuel : nat) :
  block_list vmem m bl → blocks_sorted m bl → (length bl < fuel)%nat → n ≠ 0 → blocks_apart vmem n bl →
  ∃ l1 l2, bl = l1 ++ l2 ∧ (∀ b, b ∈ l1 → m.@(blk_start b) <= m.@(blk_start n)) ∧
    (∀ b, b ∈ l2 → m.@(blk_start n) < m.@(blk_start b)) ∧
    ((_block_insert fuel vmem n m = Ok (-1) m ∧ ∃ b, b ∈ l2 ∧ m.@(blk_start b) <= m.@(blk_end n)) ∨
     ((∀ b, b ∈ l2 → m.@(blk_end n) < m.@(blk_start b)) ∧
      ∃ m', _block_insert fuel vmem n m = Ok 0 m' ∧ block_list vmem m' (l1 ++ n :: l2) ∧
        blocks_sorted m' (l1 ++ n :: l2))).
Proof. apply block_insert_spec. Qed.

Lemma block_insert_witness :
  ∃ l1 l2, [0x1000; 0x2000] = l1 ++ l2 ∧
    ∃ m', _block_insert 5 0x100 0x3000 blocks_ex = Ok 0 m' ∧ block_list 0x100 m' (l1 ++ 0x3000 :: l2).
Proof.
  destruct (block_insert_correct 0x100 0x3000 blocks_ex [0x1000; 0x2000] 5)
    as (l1 & l2 & E & _ & _ & H); [by vm_compute| |simpl; lia|done| |].
  { repeat constructor; apply Z.leb_le; by vm_compute. }
  { split; [apply (bool_decide_unpack _); by vm_compute|].
    intros b Hb. assert (b = 0x3000 ∨ b = 0x1000 ∨ b = 0x2000) as Hb' by set_solver.
    unfold blk_start, vmem_blocks, blk_next. split; [lia|]. intros b' H.
    assert (b' = 0x3000 ∨ b' = 0x1000 ∨ b' = 0x2000) by set_solver. lia. }
  exists l1, l2. split; [done|]. destruct H as [[H _]|(_ & m' & H1 & H2 & _)]; [|by exists m'].
  exfalso. assert (result (_block_insert 5 0x100 0x3000 blocks_ex) = Some 0) as R by by vm_compute.
  by rewrite H in R.
Defined.

(** on a tree of entries in address order [_find_entry] returns the entry
    that contains the address, and NULL exactly when no entry does. *)
Theorem find_entry_correct (m : gmap Z Z) (b addr : Z) (t : tree) (fuel : nat) :
  tree_at m (blk_entries b) t → addr_tree m t → (height t < fuel)%nat →
  (∀ q, q ∈ inorder t → ent_of m q ≠ 0 ∧ 0 <= m.@(ent_size (ent_of m q)) ∧
    0 <= m.@(ent_start (ent_of m q)) ∧ ent_end m (ent_of m q) < 2 ^ 64) →
  ∃ r, _find_entry fuel b addr m = Ok r m ∧
    ((r = 0 ∧ ∀ q, q ∈ inorder t → ¬ ent_has m addr (ent_of m q)) ∨
     (r ≠ 0 ∧ ent_has m addr r ∧ ∃ q, q ∈ inorder t ∧ r = ent_of m q)).
Proof. apply find_entry_spec. Qed.

(** Entries at 0x2000 and 0x3000 in the tree of the block at 0x1000. *)
Definition entries_ex : gmap Z Z :=
  ∅.[blk_entries 0x1000 <- ent_atree 0x2000].[node_data (ent_atree 0x2000) <- 0x2000]
   .[ent_start 0x2000 <- 0x400000].[ent_size 0x2000 <- 0x1000]
   .[node_left (ent_atree 0x2000) <- ent_atree 0x3000].[node_data (ent_atree 0x3000) <- 0x3000]
   .[ent_start 0x3000 <- 0x200000].[ent_size 0x3000 <- 0x3000].

Lemma find_entry_witness :
  ∃ r, _find_entry 3 0x1000 0x202fff entries_ex = Ok r entries_ex ∧ r ≠ 0.
Proof.
  destruct (find_entry_correct entries_ex 0x1000 0x202fff
    (Node (ent_atree 0x2000) (Node (ent_atree 0x3000) Leaf Leaf) Leaf) 3) as (r & E & H).
  - by vm_compute.
  - cbn [addr_tree inorder app]. split_and!; try done; intros q.
    + intros ->%list_elem_of_singleton. apply Z.leb_le. by vm_compute.
    + by intros ?%not_elem_of_nil.
    + by intros ?%not_elem_of_nil.
    + by intros ?%not_elem_of_nil.
  - simpl. lia.
  - intros q Hq. assert (q = ent_atree 0x3000 ∨ q = ent_atree 0x2000) as [-> | ->]
      by (simpl in Hq; set_solver); vm_compute; split_and!; congruence.
  - exists r. split; [done|]. destruct H as [[-> H]|[H _]]; [|done].
    destruct (H (ent_atree 0x3000)); [simpl; set_solver|]. vm_compute. split; congruence.
Defined.

(** ** Runs of the allocation functions

    A small machine: 32 pages of kernel memory, a page table of 16 pages and
    64 records; the kernel's address space has the block of 0xc0000000. *)

Definition ex_mem : Z := 0x70000.
Definition ex_kmem : Z := memory_kmem ex_mem.
Definition ex_start : M Z :=
  let phys := 0x68000 in let pgt := 0x71000 in let data := 0x900000 in
  _ ← st (phys_p2v phys) KERNEL_LMAP;
  _ ← lift_ (A := unit) (λ m, phys_mem_buddy_add_region 100 m (czone_heads phys MEMORY_ZONE_KERNEL)
         (KERNEL_LMAP + 0x400000) (KERNEL_LMAP + 0x420000));
  _ ← pgt_init pgt (KERNEL_LMAP + 0x200000) 16 KERNEL_LMAP;
  _ ← for_up 63 1 (λ i, st (data + (i - 1) * sizeof_data) (data + i * sizeof_data));
  _ ← st (vmem_spec ex_kmem) data;
  _ ← st (memory_phys ex_mem) phys;
  _ ← st (vmem_mem ex_kmem) ex_mem;
  _ ← st (vmem_arch ex_kmem) pgt;
  virt_memory_block_add 100 ex_kmem 0xc0000000 0xffffffff.
Definition ex_walk (m : gmap Z Z) (v : Z) : option translation :=
  walk 4 m KERNEL_LMAP (KERNEL_LMAP + 0x200000) v.
Definition ex_alloc (nr : Z) : M Z := memory_alloc_pages 0x72000 100 ex_mem nr MEMORY_ZONE_KERNEL 0.
Definition ex_alloc_addr (v nr : Z) : M Z :=
  virt_memory_alloc_pages_addr 100 ex_kmem v nr MEMORY_ZONE_KERNEL 0.
(** The start of the free range that [_find_free_entry] gives for [v]. *)
Definition ex_free_at (v : Z) : M (option (Z * Z)) :=
  b ← ld (vmem_blocks ex_kmem); f ← _find_free_entry 100 b v;
  if f =? 0 then mret None
  else s ← ld (free_start f); z ← ld (free_size f); mret (Some (s, s + z)).

(** [memory_free_pages] gives the frame back but leaves it mapped: after
    an allocation and its release the address still leads to the freed
    frame, and the next allocation, which gets the same address from the free
    ranges, fails because the page is still present. *)
Theorem memory_free_pages_keeps_mapping :
  match (_ ← ex_start; p ← ex_alloc 1; _ ← memory_free_pages 0x72000 100 ex_mem p;
         w ← peek (λ m, Some (ex_walk m p)); q ← ex_alloc 1; mret (p, w, q)) ∅ with
  | Ok r _ => r = (0xc0000000, Some (0x400000, true, false, 1%nat), 0)
  | _ => False
  end.
Proof. vm_compute. reflexivity. Qed.

(** a page allocated in the middle of a free range stays in a free range:
    the range in front of it is made to end behind the page instead of at
    its start. *)
Theorem middle_allocation_stays_free :
  match (_ ← ex_start; p ← ex_alloc_addr 0xd0000000 1; f ← ex_free_at 0xd0000000; mret (p, f)) ∅ with
  | Ok r _ => r = (0xd0000000, Some (0xc0000000, 0xd0001000))
  | _ => False
  end.
Proof. vm_compute. reflexivity. Qed.

(** the trees of free ranges do not stay in address order, because the
    comparison is given the tree node where it expects the range: after two
    allocations at descending addresses the free range at 0xc0000000 is no
    longer found, and an allocation there is refused. *)
Theorem free_tree_loses_ranges :
  match (_ ← ex_start; _ ← ex_alloc_addr 0xd0000000 1; _ ← ex_alloc_addr 0xc8000000 1;
         f ← ex_free_at 0xc0000000; p ← ex_alloc_addr 0xc0000000 1; mret (f, p)) ∅ with
  | Ok r _ => r = (None, 0)
  | _ => False
  end ∧
  match (_ ← ex_start; _ ← ex_alloc_addr 0xd0000000 1;
         f ← ex_free_at 0xc0000000; p ← ex_alloc_addr 0xc0000000 1; mret (f, p)) ∅ with
  | Ok r _ => r = (Some (0xc0000000, 0xd0001000), 0xc0000000)
  | _ => False
  end.
Proof. vm_compute. split; reflexivity. Qed.

(** [virt_memory_wire2] of two pages maps the second one to the frame 2 MiB
    behind the first instead of the next one. *)
Lemma wire2_second_page :
  match (_ ← ex_start; p ← virt_memory_wire2 0x72000 100 ex_kmem 0x800000 2;
         w ← peek (λ m, Some (ex_walk m (p + 0x1000))); mret (p, w)) ∅ with
  | Ok r _ => r = (0xc0000000, Some (0xa00000, true, false, 1%nat))
  | _ => False
  end.
Proof. vm_compute. reflexivity. Qed.

(** [_block_insert] accepts a block that overlaps the block before it. *)
Lemma block_insert_overlap :
  match (_ ← ex_start; b ← virt_memory_block_add 100 ex_kmem 0x100000000 0x13fffffff;
         b' ← virt_memory_block_add 100 ex_kmem 0xc0000000 0xffffffff; mret (negb (b =? 0), negb (b' =? 0))) ∅ with
  | Ok r _ => r = (true, true)
  | _ => False
  end.
Proof. vm_compute. reflexivity. Qed.
