(* ===== verification/AllocInv.v ===== *)
(** * The parts of the memory manager together

    An allocation of memory.c works on four data structures that live in the
    same memory: the page tables of the address space, the list of free
    records, the free lists of the physical zone, and the trees of blocks and
    entries.  [mach m s own U] says that the first three are well formed and
    apart from each other, from the regions [own] that the memory manager has
    in use, and from the cells [U] of its clients; the lemmas give the effect
    of every primitive operation on it. *)

From S2P Require Import Prelude CMonad PhysMem KString Tree Pgt PgtTheorems PgtRange Kmem KmemTheorems Memory Buddy BuddyTheorems.

(** ** Lists up to order

    [perm] proves [l ≡ₚ l'] for lists built by [::] and [++] from the same parts. *)

Section bring.
Context {A : Type}.
Implicit Types (x y : A) (k l r : list A).
Lemma bring_cons x y r r' : r ≡ₚ x :: r' → y :: r ≡ₚ x :: y :: r'.
Proof. intros ->. apply perm_swap. Qed.
Lemma bring_app x l r r' : r ≡ₚ x :: r' → l ++ r ≡ₚ x :: l ++ r'.
Proof. intros ->. symmetry. apply Permutation_middle. Qed.
Lemma bring_cons_l l y r r' : r ≡ₚ l ++ r' → y :: r ≡ₚ l ++ y :: r'.
Proof. intros ->. apply Permutation_middle. Qed.
Lemma bring_app_l l k r r' : r ≡ₚ l ++ r' → k ++ r ≡ₚ l ++ k ++ r'.
Proof. intros ->. apply Permutation_app_swap_app. Qed.
Lemma bring_nil l : l ≡ₚ l ++ [].
Proof. by rewrite app_nil_r. Qed.
Lemma perm_find x l r r' : r ≡ₚ x :: r' → l ≡ₚ r' → x :: l ≡ₚ r.
Proof. by intros -> ->. Qed.
Lemma perm_find_l k l r r' : r ≡ₚ k ++ r' → l ≡ₚ r' → k ++ l ≡ₚ r.
Proof. by intros -> ->. Qed.
End bring.

Ltac bring := first
  [ apply Permutation_refl | apply bring_nil | eapply bring_cons; bring | eapply bring_app; bring
  | eapply bring_cons_l; bring | eapply bring_app_l; bring ].
Ltac perm_loop := lazymatch goal with
  | |- ?x :: ?l ≡ₚ ?r => eapply perm_find; [bring|perm_loop]
  | |- ?k ++ ?l ≡ₚ ?r => eapply perm_find_l; [bring|perm_loop]
  | |- _ => first [apply Permutation_refl | bring]
  end.
Ltac perm := cbn [app]; rewrite <-?app_assoc; cbn [app]; rewrite ?app_nil_r; perm_loop.

(** Where the parts are: the address space, its page table, [memory_t] and
    [phys_memory_t], the zone and domain that requests name with the heads of
    its free lists, [p2v], the flags of the address space and the pages of
    the zone. *)
Record layout := {
  ly_vmem : Z; ly_arch : Z; ly_mem : Z; ly_phys : Z;
  ly_zone : Z; ly_dom : Z; ly_heads : Z; ly_p2v : Z; ly_flags : Z;
  ly_lo : Z; ly_pages : nat;
}.

Record layout_ok (L : layout) : Prop := {
  lo_zone : 0 <= ly_zone L < 256;
  lo_dom : 0 <= ly_dom L < 2 ^ 32;
  lo_p2v : 0 <= ly_p2v L ∧ ly_p2v L mod 4096 = 0;
  lo_lo : ly_p2v L < ly_lo L ∧ ly_lo L mod 4096 = 0;
  lo_hi : ly_lo L + 4096 * Z.of_nat (ly_pages L) <= ly_p2v L + 2 ^ 51;
}.

(** A region: its first cell and its size. *)
Definition inr (r : Z * Z) (x : Z) : Prop := r.1 <= x < r.1 + r.2.
#[global] Instance inr_dec r x : Decision (inr r x).
Proof. unfold inr. apply _. Defined.
Definition covers (own : list (Z * Z)) (x : Z) : Prop := ∃ r, r ∈ own ∧ inr r x.
Definition hits (own : list (Z * Z)) (x : Z) : list (Z * Z) := filter (λ r, inr r x) own.
Definition recr (p : Z) : Z * Z := (p, sizeof_data).
Definition framer (a : Z) : Z * Z := (a, 4096).

Lemma covers_cons r own x : covers (r :: own) x ↔ inr r x ∨ covers own x.
Proof. unfold covers. set_solver. Qed.
Lemma covers_app o1 o2 x : covers (o1 ++ o2) x ↔ covers o1 x ∨ covers o2 x.
Proof. unfold covers. set_solver. Qed.
Lemma covers_perm o1 o2 x : o1 ≡ₚ o2 → covers o1 x → covers o2 x.
Proof. intros E. unfold covers. by setoid_rewrite E. Qed.

Section mach.
Context {AM : ArchMemory} {DA : DataAllocator} (L : layout).
Context {AL : ArchMemoryLaws (ly_arch L)} {DL : DataAllocatorLaws (ly_vmem L)}.
Abbreviation vmem := (ly_vmem L).
Abbreviation phys := (ly_phys L).

(** The state of the three allocators: page tables, free records, free blocks. *)
Record mst := Mst { ms_ax : ax_state; ms_recs : list Z; ms_free : Z → list Z }.
Implicit Types (m : gmap Z Z) (s : mst) (own : list (Z * Z)) (U : Z → Prop).

(** The cells of the physical memory manager. *)
Definition zcell (f : Z → list Z) (x : Z) : Prop :=
  in_heads (ly_heads L) x ∨ free_at f x ∨ phys_fields phys x.

(** The fields that an allocation only reads. *)
Definition static (x : Z) : Prop :=
  x = vmem_mem vmem ∨ x = vmem_arch vmem ∨ x = vmem_flags vmem ∨ x = vmem_blocks vmem ∨
  x = memory_phys (ly_mem L).

(** A cell of none of the three allocators. *)
Definition quiet s (x : Z) : Prop :=
  ax_outside (ms_ax s) x ∧ x ≠ vmem_spec vmem ∧ (∀ p, p ∈ ms_recs s → ¬ in_rec p x) ∧
  ¬ zcell (ms_free s) x.

Record mach m s own U : Prop := {
  mc_ax : ax_inv m (ms_ax s);
  mc_da : da_inv m (ms_recs s);
  mc_ph : phys_inv m phys (ly_zone L) (ly_dom L) (ly_heads L) (ms_free s);
  mc_spec : ax_outside (ms_ax s) (vmem_spec vmem) ∧ ¬ zcell (ms_free s) (vmem_spec vmem);
  mc_rec p x : p ∈ ms_recs s → in_rec p x → ax_outside (ms_ax s) x ∧ ¬ zcell (ms_free s) x;
  mc_zone x : zcell (ms_free s) x → ax_outside (ms_ax s) x;
  mc_own x : covers own x → quiet s x ∧ ¬ U x ∧ ¬ static x;
  mc_one x : (length (hits own x) <= 1)%nat;
  mc_client x : U x ∨ static x → quiet s x;
  mc_apart x : U x → ¬ static x;
  mc_free x : free_at (ms_free s) x → ly_lo L <= x < ly_lo L + 4096 * Z.of_nat (ly_pages L);
  mc_p2v : m.@(phys_p2v phys) = ly_p2v L;
  mc_static : m.@(vmem_mem vmem) = ly_mem L ∧ m.@(vmem_arch vmem) = ly_arch L ∧
    m.@(vmem_flags vmem) = ly_flags L ∧ m.@(memory_phys (ly_mem L)) = phys;
}.

(** The clients' cells, the static fields and the regions of [own] are kept. *)
Definition keeps own U m m' : Prop :=
  ∀ x, U x ∨ static x ∨ covers own x → m'.@x = m.@x.
Definition same_tr m m' : Prop := ∀ v, 0 <= v < 2 ^ 48 → ax_tr m' v = ax_tr m v.

Lemma keeps_refl own U m : keeps own U m m.
Proof. done. Qed.
Lemma keeps_trans own U m1 m2 m3 : keeps own U m1 m2 → keeps own U m2 m3 → keeps own U m1 m3.
Proof. intros H1 H2 x Hx. by rewrite H2, H1. Qed.
Lemma keeps_sub own own' U m m' : (∀ x, covers own' x → covers own x) → keeps own U m m' → keeps own' U m m'.
Proof. intros Hs Hk x Hx. apply Hk. naive_solver. Qed.
Lemma keeps_tail r own U m m' : keeps (r :: own) U m m' → keeps own U m m'.
Proof. apply keeps_sub. intros x. rewrite covers_cons. auto. Qed.
Lemma same_tr_trans m1 m2 m3 : same_tr m1 m2 → same_tr m2 m3 → same_tr m1 m3.
Proof. intros H1 H2 v Hv. by rewrite H2, H1. Qed.

Lemma mach_perm m s own own' U : own ≡ₚ own' → mach m s own U → mach m s own' U.
Proof.
  intros E H. constructor; try apply H.
  - intros x Hx. apply (mc_own _ _ _ _ H). by eapply covers_perm.
  - intros x. unfold hits. rewrite <-E. apply H.
Qed.

(** Regions are apart. *)
Lemma mach_apart m s r own U x : mach m s (r :: own) U → inr r x → ¬ covers own x.
Proof.
  intros H Hx (r' & Hr' & Hx'). pose proof (mc_one _ _ _ _ H x) as Hone.
  unfold hits in Hone. rewrite filter_cons_True in Hone by done. cbn [length] in Hone.
  assert (r' ∈ filter (λ r, inr r x) own) as Hin by (by apply list_elem_of_filter).
  destruct (filter _ own); [by apply not_elem_of_nil in Hin|]. cbn [length] in Hone. lia.
Qed.

(** A region can be cut in two. *)
Lemma mach_split m s a n k own U :
  0 <= k <= n → mach m s ((a, n) :: own) U → mach m s ((a, k) :: (a + k, n - k) :: own) U.
Proof.
  intros Hk H. assert (∀ x, inr (a, n) x ↔ inr (a, k) x ∨ inr (a + k, n - k) x) as Hx.
  { intros x. unfold inr. cbn [fst snd]. lia. }
  constructor; try apply H.
  - intros x Hc. apply (mc_own _ _ _ _ H). rewrite !covers_cons in *. rewrite Hx. tauto.
  - intros x. pose proof (mc_one _ _ _ _ H x) as Hone. unfold hits in *. rewrite !filter_cons in *.
    unfold inr in *. cbn [fst snd] in *. repeat case_decide; cbn [length] in *; lia.
Qed.

(** A region can be left out. *)
Lemma mach_drop m s r own U : mach m s (r :: own) U → mach m s own U.
Proof.
  intros H. constructor; try apply H.
  - intros x Hx. apply H. rewrite covers_cons. by right.
  - intros x. pose proof (mc_one _ _ _ _ H x) as Hone. unfold hits in *.
    rewrite filter_cons in Hone. case_decide; cbn [length] in *; lia.
Qed.

(** The zone depends on its own cells. *)
Lemma phys_inv_cells m m' f :
  phys_inv m phys (ly_zone L) (ly_dom L) (ly_heads L) f → (∀ x, zcell f x → m'.@x = m.@x) →
  phys_inv m' phys (ly_zone L) (ly_dom L) (ly_heads L) f.
Proof.
  intros Hph Hz. assert (∀ x, phys_fields phys x → m'.@x = m.@x) as Hpf
    by (intros x Hx; apply Hz; unfold zcell; tauto).
  eapply phys_inv_step; [done| |done|intros; by apply Hpf|].
  - destruct (pi_inv _ _ _ _ _ _ Hph) as [Hwf Hch Hsp]. constructor; [done| |done].
    intros o Ho. eapply chain_frame; [|by apply Hch]. intros x. rewrite cells0, elem_of_cons.
    intros [->|Hx]; apply Hz; [left; by apply head_heads|right; left; by eapply node_free].
  - rewrite Hpf by (unfold phys_fields; tauto). apply Hph.
Qed.

(** What depends on the cells of the page tables, of the zone and on the
    static fields only. *)
Lemma mach_others m m' s own U :
  mach m s own U →
  (∀ x, (ax_outside (ms_ax s) x → False) ∨ zcell (ms_free s) x ∨ static x → m'.@x = m.@x) →
  ax_inv m' (ms_ax s) ∧ (∀ v, ax_tr m' v = ax_tr m v) ∧
  phys_inv m' phys (ly_zone L) (ly_dom L) (ly_heads L) (ms_free s) ∧
  m'.@(phys_p2v phys) = ly_p2v L ∧
  m'.@(vmem_mem vmem) = ly_mem L ∧ m'.@(vmem_arch vmem) = ly_arch L ∧
  m'.@(vmem_flags vmem) = ly_flags L ∧ m'.@(memory_phys (ly_mem L)) = phys.
Proof.
  intros H Hm. pose proof (mc_ph _ _ _ _ H) as Hph.
  destruct (ax_frame_tr m m' (ms_ax s) (mc_ax _ _ _ _ H)) as [Hi Htr]; [auto|].
  assert (∀ x, phys_fields phys x → m'.@x = m.@x) as Hpf by (intros x Hx; apply Hm; unfold zcell; tauto).
  destruct (mc_static _ _ _ _ H) as (? & ? & ? & ?).
  split_and!; [done|done| |rewrite Hpf by (unfold phys_fields; tauto); apply H|
    rewrite Hm by (unfold static; tauto); done..].
  eapply phys_inv_cells; [done|]. intros x Hx. apply Hm. tauto.
Qed.

(** The cells that are not quiet. *)
Lemma not_quiet s own U m x :
  mach m s own U → covers own x ∨ U x ∨ static x →
  ax_outside (ms_ax s) x ∧ x ≠ vmem_spec vmem ∧ (∀ p, p ∈ ms_recs s → ¬ in_rec p x) ∧
  ¬ zcell (ms_free s) x.
Proof. intros H [Hx|Hx]; [by apply (mc_own _ _ _ _ H)|by apply (mc_client _ _ _ _ H)]. Qed.

(** Writes into the regions, and of the clients into their cells. *)
Lemma mach_write m m' s own U :
  mach m s own U → (∀ x, ¬ covers own x → ¬ U x → m'.@x = m.@x) →
  mach m' s own U ∧ ∀ v, ax_tr m' v = ax_tr m v.
Proof.
  intros H Hm. destruct (mach_others m m' s own U H) as (Hi & Htr & Hph & Hp & Hs).
  { intros x Hx. apply Hm; intros Hc.
    - destruct (mc_own _ _ _ _ H x Hc) as ((? & _ & _ & ?) & ? & ?). tauto.
    - destruct (mc_client _ _ _ _ H x (or_introl Hc)) as (? & _ & _ & ?).
      destruct Hx as [?|[?|?]]; [done|done|]. by apply (mc_apart _ _ _ _ H x). }
  split; [|done]. constructor; try apply H; try done.
  eapply da_frame; [apply H| |].
  - intros p x Hp' Hx. apply Hm; intros Hc;
      (destruct (not_quiet s own U m x H) as (_ & _ & Hn & _); [auto|]; by eapply Hn).
  - apply Hm; intros Hc; by destruct (not_quiet s own U m (vmem_spec vmem) H) as (_ & ? & _); [auto|].
Qed.

Lemma mach_st m s own U a v :
  mach m s own U → covers own a → mach (m.[a <- v]) s own U ∧ same_tr m (m.[a <- v]).
Proof.
  intros H Ha. destruct (mach_write m (m.[a <- v]) s own U H) as [H' Ht]; [|split; [done|by intros ? _]].
  intros x Hx _. apply rd_wr_ne. by intros ->.
Qed.

Lemma mach_apart_app m s o1 o2 U x : mach m s (o1 ++ o2) U → covers o1 x → ¬ covers o2 x.
Proof.
  intros H (r & Hr & Hx) Hc. apply list_elem_of_split in Hr as (l1 & l2 & ->).
  eapply (mach_apart m s r (l1 ++ l2 ++ o2) U x); [|done|rewrite !covers_app; tauto].
  eapply mach_perm; [|exact H]. rewrite <-app_assoc. symmetry. apply Permutation_middle.
Qed.

(** Filling some regions. *)
Lemma mach_fill_app m m' s o1 o2 U :
  mach m s (o1 ++ o2) U → (∀ x, ¬ covers o1 x → m'.@x = m.@x) →
  mach m' s (o1 ++ o2) U ∧ keeps o2 U m m' ∧ same_tr m m'.
Proof.
  intros H Hm. destruct (mach_write m m' s (o1 ++ o2) U H) as [H' Ht].
  { intros x Hx _. apply Hm. intros Hr. apply Hx, covers_app. by left. }
  split_and!; [done| |by intros ? _]. intros x Hx. apply Hm. intros Hc.
  destruct (mc_own _ _ _ _ H x) as (_ & ? & ?); [apply covers_app; by left|].
  destruct Hx as [?|[?|?]]; [done|done|]. by apply (mach_apart_app m s o1 o2 U x H).
Qed.

(** Filling one region. *)
Lemma mach_fill m m' s r own U :
  mach m s (r :: own) U → (∀ x, ¬ inr r x → m'.@x = m.@x) →
  mach m' s (r :: own) U ∧ keeps own U m m' ∧ same_tr m m'.
Proof.
  intros H Hm. apply (mach_fill_app m m' s [r] own U H). intros x Hx. apply Hm.
  intros Hr. apply Hx, covers_cons. by left.
Qed.

(** ** Records *)

Lemma wp_data_alloc m s own U :
  mach m s own U →
  wp (data_alloc vmem) m (λ p m',
    (p = 0 ∧ m' = m ∧ ms_recs s = []) ∨
    (0 < p ∧ ∃ l, ms_recs s = p :: l ∧ mach m' (Mst (ms_ax s) l (ms_free s)) (recr p :: own) U ∧
       keeps own U m m' ∧ same_tr m m' ∧ ∀ x, in_rec p x → m'.@x = 0)).
Proof.
  intros H. destruct s as [σ [|p l] f]; cbn [ms_ax ms_recs ms_free] in *.
  { exists 0, m. split; [by apply da_alloc_nil, (mc_da _ _ _ _ H)|by left]. }
  pose proof (mc_da _ _ _ _ H) as Hda. cbn in Hda.
  destruct (da_alloc m p l Hda) as (m' & E & Hda' & Hm').
  destruct (da_apart m (p :: l) p Hda) as [Hp0 Hps]; [set_solver|].
  exists p, m'. split; [done|]. right. split; [done|]. exists l. split; [done|].
  assert (∀ x, ¬ in_rec p x → x ≠ vmem_spec vmem → m'.@x = m.@x) as Hk.
  { intros x Hx Hs. by rewrite Hm', !decide_False. }
  assert (∀ x, in_rec p x → ax_outside σ x ∧ ¬ zcell f x) as Hrec.
  { intros x Hx. apply (mc_rec _ _ _ _ H p x); [set_solver|done]. }
  assert (∀ x, quiet (Mst σ (p :: l) f) x → ¬ in_rec p x ∧ quiet (Mst σ l f) x) as Hq.
  { intros x (? & ? & Hn & ?). cbn in *. split; [apply Hn; set_solver|]. split_and!; cbn; [done..| |done].
    intros q Hq. apply Hn. set_solver. }
  destruct (mach_others m m' _ own U H) as (Hi & Htr & Hph & Hp & Hs).
  { cbn. intros x Hx. destruct (mc_spec _ _ _ _ H). cbn in *.
    destruct (decide (in_rec p x)) as [Hin|Hin].
    { destruct (Hrec x Hin) as [? ?], Hx as [?|[?|?]]; [done|done|].
      destruct (Hq x) as [? _]; [|done]. apply (mc_client _ _ _ _ H). by right. }
    apply Hk; [done|]. intros ->. destruct Hx as [?|[?|?]]; [done|done|].
    assert (quiet (Mst σ (p :: l) f) (vmem_spec vmem)) as (_ & ? & _); [|done].
    apply (mc_client _ _ _ _ H). by right. }
  split_and!.
  - constructor; cbn [ms_ax ms_recs ms_free]; try apply H; try done.
    + intros q x Hin. apply (mc_rec _ _ _ _ H). cbn. set_solver.
    + intros x [Hx|Hx]%covers_cons.
      * destruct (Hrec x Hx). split; [split_and!; cbn; [done|intros ->; done|by apply (da_nodup m p l x)|done]|split].
        -- intros HU. destruct (Hq x) as [? _]; [apply (mc_client _ _ _ _ H); by left|done].
        -- intros HU. destruct (Hq x) as [? _]; [apply (mc_client _ _ _ _ H); by right|done].
      * destruct (mc_own _ _ _ _ H x Hx) as (Hx' & ? & ?). split_and!; [by apply Hq|done|done].
    + intros x. unfold hits. rewrite filter_cons. case_decide as Hx; [|apply H].
      destruct (filter _ own) as [|r o'] eqn:Ef; [cbn; lia|]. exfalso.
      assert (r ∈ filter (λ r, inr r x) own) as [Hr Hin]%list_elem_of_filter by (rewrite Ef; set_solver).
      destruct (mc_own _ _ _ _ H x) as [[Hx' _]%Hq _]; [by exists r|done].
    + intros x Hx. by apply Hq, (mc_client _ _ _ _ H).
  - intros x Hx. destruct (not_quiet _ own U m x H) as (_ & ? & Hn & _); [tauto|].
    apply Hk; [apply Hn; cbn; set_solver|done].
  - intros v _. apply Htr.
  - intros x Hx. by rewrite Hm', decide_True.
Qed.

Lemma wp_data_free m s own U p :
  mach m s (recr p :: own) U → 0 < p →
  wp (data_free vmem p) m (λ _ m',
    mach m' (Mst (ms_ax s) (p :: ms_recs s) (ms_free s)) own U ∧ keeps own U m m' ∧ same_tr m m' ∧
    ∀ x, in_rec p x → x ≠ p → m'.@x = m.@x).
Proof.
  intros H Hp0. destruct s as [σ l f]; cbn [ms_ax ms_recs ms_free] in *.
  assert (∀ x, in_rec p x → quiet (Mst σ l f) x ∧ ¬ U x ∧ ¬ static x) as Hrec.
  { intros x Hx. apply (mc_own _ _ _ _ H). apply covers_cons. by left. }
  pose proof (mc_da _ _ _ _ H) as Hda. cbn in Hda.
  destruct (da_free m l p Hda Hp0) as (m' & E & Hda' & Hk).
  { intros Hs. by destruct (Hrec _ Hs) as ((_ & ? & _) & _). }
  { intros q x Hq Hqx Hpx. destruct (Hrec _ Hpx) as ((_ & _ & Hn & _) & _). by apply (Hn q). }
  exists tt, m'. split; [done|].
  assert (∀ x, ¬ in_rec p x → quiet (Mst σ l f) x → quiet (Mst σ (p :: l) f) x) as Hq.
  { intros x Hx (? & ? & Hn & ?). cbn in *. split_and!; cbn; [done|done| |done].
    intros q [->|Hq]%elem_of_cons; [done|auto]. }
  destruct (mc_spec _ _ _ _ H) as [Hsp1 Hsp2]; cbn in Hsp1, Hsp2.
  destruct (mach_others m m' _ _ U H) as (Hi & Htr & Hph & Hp & Hs).
  { cbn. intros x Hx. apply Hk; intros ->.
    - destruct (Hrec p (in_rec_self p)) as ((? & _ & _ & ?) & _ & ?). cbn in *. tauto.
    - destruct Hx as [?|[?|?]]; [done|done|].
      by destruct (mc_client _ _ _ _ H (vmem_spec vmem)) as (_ & ? & _); [by right|]. }
  split_and!.
  - constructor; cbn [ms_ax ms_recs ms_free]; try apply H; try done.
    + intros q x [->|Hin]%elem_of_cons Hx; [|by apply (mc_rec _ _ _ _ H q)].
      destruct (Hrec x Hx) as ((? & _ & _ & ?) & _). done.
    + intros x Hx. destruct (mc_own _ _ _ _ H x) as (? & ? & ?); [apply covers_cons; by right|].
      split_and!; [|done|done]. apply Hq; [|done]. intros Hin. by apply (mach_apart m _ _ _ _ x H).
    + intros x. pose proof (mc_one _ _ _ _ H x) as Ho. unfold hits in *. rewrite filter_cons in Ho.
      case_decide; cbn [length] in *; lia.
    + intros x Hx. apply Hq; [|by apply (mc_client _ _ _ _ H)]. intros Hin.
      destruct (Hrec x Hin) as (_ & ? & ?). tauto.
  - intros x Hx. apply Hk; intros ->.
    + destruct (Hrec p (in_rec_self p)) as (_ & ? & ?).
      destruct Hx as [?|[?|Hc]]; [done|done|]. by apply (mach_apart m _ _ _ _ p H (in_rec_self p)).
    + destruct (not_quiet _ (recr p :: own) U m (vmem_spec vmem) H) as (_ & ? & _); [|done].
      rewrite covers_cons. tauto.
  - intros v _. apply Htr.
  - intros x Hx Hne. apply Hk; [done|]. intros ->. by destruct (Hrec _ Hx) as ((_ & ? & _) & _).
Qed.

(** ** Frames *)

(** A frame at the physical address [r] in the pages of the zone. *)
Definition frame_ok (r : Z) : Prop :=
  0 < r ∧ r mod 4096 = 0 ∧ blk_ok 0 (r + ly_p2v L) ∧ ly_lo L <= r + ly_p2v L ∧
  r + ly_p2v L + 4096 <= ly_lo L + 4096 * Z.of_nat (ly_pages L).
Definition frame_at (r x : Z) : Prop := inr (framer (r + ly_p2v L)) x.
Definition same_free s s' : Prop := ∀ x, free_at (ms_free s') x ↔ free_at (ms_free s) x.

Lemma in_blk_frame a x : in_blk 0 a x ↔ inr (framer a) x.
Proof. unfold in_blk, inr, framer, bsz. cbn [fst snd]. change (4096 * 2 ^ 0) with 4096. done. Qed.

Lemma static_zcell s own U m x :
  mach m s own U → covers own x ∨ U x ∨ static x → ¬ in_heads (ly_heads L) x ∧ ¬ free_at (ms_free s) x.
Proof. intros H Hx. destruct (not_quiet s own U m x H Hx) as (_ & _ & _ & Hz). unfold zcell in Hz. tauto. Qed.

(** The zone may change its free lists and exchange free cells and regions. *)
Section zone.
Context m m' s own own' U (f' : Z → list Z) (H : mach m s own U).
Context (Hsub : ∀ x, covers own' x ∨ free_at f' x → covers own x ∨ free_at (ms_free s) x).
Context (Hdj : ∀ x, covers own' x → ¬ free_at f' x).
Context (Hm : ∀ x, ¬ in_heads (ly_heads L) x → ¬ free_at (ms_free s) x → ¬ free_at f' x → m'.@x = m.@x).

Lemma zone_client x : U x ∨ static x → ¬ free_at f' x ∧ ¬ covers own x.
Proof using H Hsub.
  intros Hx. destruct (not_quiet _ own U m x H (or_intror Hx)) as (_ & _ & _ & Hz).
  assert (¬ covers own x) as Hc.
  { intros Hc. destruct (mc_own _ _ _ _ H x Hc) as (_ & ? & ?). tauto. }
  split; [|done]. intros Hf. destruct (Hsub x (or_intror Hf)) as [?|?]; [done|]. unfold zcell in Hz. tauto.
Qed.

Lemma zone_free x : free_at f' x →
  ax_outside (ms_ax s) x ∧ x ≠ vmem_spec vmem ∧ ∀ p, p ∈ ms_recs s → ¬ in_rec p x.
Proof using H Hsub.
  intros Hf. destruct (Hsub x (or_intror Hf)) as [Hc|Hf0].
  - destruct (not_quiet _ own U m x H (or_introl Hc)) as (? & ? & ? & _). done.
  - assert (zcell (ms_free s) x) as Hz by (right; by left). split_and!; [by apply (mc_zone _ _ _ _ H)| |].
    + intros ->. by apply (mc_spec _ _ _ _ H).
    + intros p Hin Hx. by apply (mc_rec _ _ _ _ H p x).
Qed.

Lemma zone_rest x : ¬ zcell (ms_free s) x → ¬ free_at f' x → m'.@x = m.@x.
Proof using Hm. intros Hz Hf. unfold zcell in Hz. apply Hm; tauto. Qed.

Lemma zone_cell x : zcell f' x → zcell (ms_free s) x ∨ free_at f' x.
Proof using. unfold zcell. tauto. Qed.

(** The regions of the new state, those taken from the free lists included. *)
Lemma zone_own x : covers own' x →
  (ax_outside (ms_ax s) x ∧ x ≠ vmem_spec vmem ∧ (∀ p, p ∈ ms_recs s → ¬ in_rec p x) ∧ ¬ zcell f' x) ∧
  ¬ U x ∧ ¬ static x.
Proof using H Hsub Hdj.
  intros Hc. pose proof (Hdj x Hc) as Hnf. destruct (Hsub x (or_introl Hc)) as [Hc0|Hf0].
  - destruct (mc_own _ _ _ _ H x Hc0) as ((? & ? & ? & Hz) & ? & ?).
    split; [|done]. split_and!; try done. intros [?|?]%zone_cell; done.
  - assert (zcell (ms_free s) x) as Hz by (right; by left). pose proof (mc_ph _ _ _ _ H) as Hph.
    split; [split_and!|split].
    + by apply (mc_zone _ _ _ _ H).
    + intros ->. by apply (mc_spec _ _ _ _ H).
    + intros p Hin Hx. by apply (mc_rec _ _ _ _ H p x).
    + unfold zcell. intros [?|[?|?]]; [|done|].
      * by apply (inv_sep _ _ _ (pi_inv _ _ _ _ _ _ Hph) x).
      * by apply (pi_fields _ _ _ _ _ _ Hph x).
    + intros ?. by destruct (mc_client _ _ _ _ H x) as (_ & _ & _ & ?); [by left|].
    + intros ?. by destruct (mc_client _ _ _ _ H x) as (_ & _ & _ & ?); [by right|].
Qed.

Lemma zone_keeps own0 : (∀ x, covers own0 x → covers own x ∧ covers own' x) → keeps own0 U m m'.
Proof using H Hsub Hdj Hm.
  intros H0 x [Hx|[Hx|Hx]].
  - apply zone_rest; [apply (not_quiet _ own U m _ H); tauto|apply zone_client; tauto].
  - apply zone_rest; [apply (not_quiet _ own U m _ H); tauto|apply zone_client; tauto].
  - destruct (H0 x Hx). apply zone_rest; [apply (not_quiet _ own U m _ H); tauto|by apply Hdj].
Qed.

Lemma zone_mach :
  phys_inv m' phys (ly_zone L) (ly_dom L) (ly_heads L) f' → m'.@(phys_p2v phys) = ly_p2v L →
  (∀ x, length (hits own' x) <= 1)%nat →
  (∀ x, free_at f' x → ly_lo L <= x < ly_lo L + 4096 * Z.of_nat (ly_pages L)) →
  mach m' (Mst (ms_ax s) (ms_recs s) f') own' U ∧ same_tr m m'.
Proof using H Hsub Hdj Hm.
  intros Hph' Hp Hone Hb. pose proof zone_rest as Hk. pose proof zone_free as Hf'.
  destruct (ax_frame_tr m m' (ms_ax s) (mc_ax _ _ _ _ H)) as [Hi Htr].
  { intros x Hx. apply Hk; [intros Hz|intros Hf]; apply Hx; [by apply (mc_zone _ _ _ _ H)|by apply Hf']. }
  split; [|intros v _; apply Htr]. constructor; cbn [ms_ax ms_recs ms_free]; try done.
  - eapply da_frame; [apply H| |].
    + intros p x Hin Hx. apply Hk; [by apply (mc_rec _ _ _ _ H p)|]. intros Hf.
      destruct (Hf' x Hf) as (_ & _ & Hn). by apply (Hn p).
    + apply Hk; [by apply (mc_spec _ _ _ _ H)|]. intros Hf. by destruct (Hf' _ Hf) as (_ & ? & _).
  - destruct (mc_spec _ _ _ _ H) as [? ?]. split; [done|]. intros [?|Hf]%zone_cell; [done|].
    by destruct (Hf' _ Hf) as (_ & ? & _).
  - intros p x Hin Hx. destruct (mc_rec _ _ _ _ H p x Hin Hx). split; [done|]. intros [?|Hf]%zone_cell; [done|].
    destruct (Hf' x Hf) as (_ & _ & Hn). by apply (Hn p).
  - intros x [?|Hf]%zone_cell; [by apply (mc_zone _ _ _ _ H)|by apply Hf'].
  - apply zone_own.
  - intros x Hx. destruct (mc_client _ _ _ _ H x Hx) as (? & ? & ? & ?). split_and!; cbn in *; try done.
    intros [?|?]%zone_cell; [done|]. by destruct (zone_client x Hx).
  - apply (mc_apart _ _ _ _ H).
  - destruct (mc_static _ _ _ _ H) as (? & ? & ? & ?).
    rewrite !Hk; [done|..]; try (apply zone_client; unfold static; tauto);
      (apply (not_quiet _ own U m _ H); unfold static; tauto).
Qed.
End zone.

Lemma mach_zone m m' s own own' U f' :
  mach m s own U → phys_inv m' phys (ly_zone L) (ly_dom L) (ly_heads L) f' →
  m'.@(phys_p2v phys) = ly_p2v L →
  (∀ x, covers own' x ∨ free_at f' x → covers own x ∨ free_at (ms_free s) x) →
  (∀ x, covers own' x → ¬ free_at f' x) → (∀ x, length (hits own' x) <= 1)%nat →
  (∀ x, free_at f' x → ly_lo L <= x < ly_lo L + 4096 * Z.of_nat (ly_pages L)) →
  (∀ x, ¬ in_heads (ly_heads L) x → ¬ free_at (ms_free s) x → ¬ free_at f' x → m'.@x = m.@x) →
  mach m' (Mst (ms_ax s) (ms_recs s) f') own' U ∧ same_tr m m' ∧
  ∀ own0, (∀ x, covers own0 x → covers own x ∧ covers own' x) → keeps own0 U m m'.
Proof.
  intros H Hph Hp Hsub Hdj Hone Hb Hm. rewrite (assoc _). split; [by eapply zone_mach|by eapply zone_keeps].
Qed.

Lemma wp_phys_alloc m s own U :
  mach m s own U → layout_ok L →
  wp (lift (λ m, phys_mem_alloc m phys 0 (ly_zone L) (ly_dom L))) m (λ r m', ∃ f,
    keeps own U m m' ∧ same_tr m m' ∧
    ((r = 0 ∧ mach m' (Mst (ms_ax s) (ms_recs s) f) own U ∧ ∀ x, free_at f x ↔ free_at (ms_free s) x) ∨
     (frame_ok r ∧ mach m' (Mst (ms_ax s) (ms_recs s) f) (framer (r + ly_p2v L) :: own) U ∧
      ∀ x, free_at (ms_free s) x ↔ free_at f x ∨ frame_at r x))).
Proof.
  intros H Hl. pose proof (mc_p2v _ _ _ _ H) as Ep.
  destruct (phys_alloc_spec phys (ly_zone L) (ly_dom L) (ly_heads L) m (ms_free s) 0 (mc_ph _ _ _ _ H))
    as (r & m' & f & E & Hph & Hpost & Hp & Hr & Hfr); [split; lia|].
  rewrite Ep in *. exists r, m'. split; [unfold lift; by rewrite E|]. exists f.
  destruct (Z.eqb_spec r 0) as [->|Hr0]; destruct Hpost as [(E0 & Hs & _)|(Hok & Hs & Hd)].
  - destruct (mach_zone m m' s own own U f) as (H' & Htr & Hk); try done.
    + intros x. by rewrite Hs.
    + intros x Hc. rewrite Hs. by apply (static_zcell s own U m x H (or_introl Hc)).
    + apply H.
    + intros x. rewrite Hs. apply H.
    + intros x ? ? _. by apply Hfr.
    + split_and!; [apply Hk; tauto|done|]. left. done.
  - destruct Hok. lia.
  - lia.
  - assert (∀ x, inr (framer (r + ly_p2v L)) x → free_at (ms_free s) x ∧ ¬ free_at f x) as Hin.
    { intros x Hx%in_blk_frame. split; [apply Hs; by right|by apply Hd]. }
    destruct (mach_zone m m' s own (framer (r + ly_p2v L) :: own) U f) as (H' & Htr & Hk); try done.
    + intros x. rewrite covers_cons, Hs, in_blk_frame. tauto.
    + intros x [Hx|Hx]%covers_cons; [by apply Hin|]. intros Hf.
      apply (static_zcell s own U m x H (or_introl Hx)), Hs. by left.
    + intros x. unfold hits. rewrite filter_cons. case_decide as Hx; [|apply H].
      destruct (filter _ own) as [|r' o'] eqn:Ef; [cbn; lia|]. exfalso.
      assert (r' ∈ filter (λ r, inr r x) own) as [Hr' Hin']%list_elem_of_filter by (rewrite Ef; set_solver).
      apply (static_zcell s own U m x H); [left; by exists r'|]. by apply Hin.
    + intros x Hf. apply (mc_free _ _ _ _ H), Hs. by left.
    + intros x ? ? _. by apply Hfr.
    + split_and!; [apply Hk; intros x Hx; rewrite covers_cons; tauto|done|]. right. split_and!; [|done|].
      * destruct Hl as [_ _ [Hp0 Hpm] [Hlo Hlm] _]. unfold frame_ok. destruct Hr as [?|[Hr _]]; [done|].
        assert (∀ x, inr (framer (r + ly_p2v L)) x → ly_lo L <= x < ly_lo L + 4096 * Z.of_nat (ly_pages L)) as Hb.
        { intros x Hx. apply (mc_free _ _ _ _ H). by apply Hin. }
        pose proof (Hb (r + ly_p2v L) ltac:(unfold inr, framer; cbn; lia)).
        pose proof (Hb (r + ly_p2v L + 4095) ltac:(unfold inr, framer; cbn; lia)).
        split_and!; [done| |done|lia|lia]. destruct Hok as (_ & _ & Hal).
        change (bsz 0) with 4096 in Hal. rewrite Z.add_mod, Hpm, Z.add_0_r, Z.mod_mod in Hal by lia. done.
      * intros x. rewrite Hs, in_blk_frame. done.
Qed.

Lemma wp_phys_free fuel m s own U r :
  mach m s (framer (r + ly_p2v L) :: own) U → layout_ok L → frame_ok r → (ly_pages L + 1 < fuel)%nat →
  wp (lift_ (A := unit) (λ m, phys_mem_free fuel m phys r 0 (ly_zone L) (ly_dom L))) m (λ _ m', ∃ f,
    keeps own U m m' ∧ same_tr m m' ∧ mach m' (Mst (ms_ax s) (ms_recs s) f) own U ∧
    ∀ x, free_at f x ↔ free_at (ms_free s) x ∨ frame_at r x).
Proof.
  intros H Hl (Hr & Hrm & Hok & Hlo & Hhi) Hfuel. pose proof (mc_p2v _ _ _ _ H) as Ep.
  pose proof (mc_ph _ _ _ _ H) as Hph.
  assert (∀ x, inr (framer (r + ly_p2v L)) x → ¬ zcell (ms_free s) x ∧ ¬ covers own x) as Hin.
  { intros x Hx. split; [|by apply (mach_apart m _ _ _ _ x H)].
    apply (not_quiet s _ U m x H). left. apply covers_cons. by left. }
  destruct (phys_free_spec phys (ly_zone L) (ly_dom L) (ly_heads L) fuel m (ms_free s) 0 r Hph)
    as (m' & f & E & Hph' & Hs & Hfr); rewrite ?Ep; try done; [apply Hl| | | |].
  { intros x Hx%in_blk_frame. destruct (Hin x Hx) as [Hz _]. unfold zcell in Hz. tauto. }
  { intros x Hx Hb%in_blk_frame. destruct (Hin x Hb) as [Hz _]. unfold zcell in Hz. tauto. }
  { assert (total (ms_free s) <= ly_pages L)%nat; [|lia].
    apply (total_pages _ (ly_lo L)); [apply (pi_inv _ _ _ _ _ _ Hph)|apply Hl|apply (mc_free _ _ _ _ H)]. }
  rewrite Ep in *. exists tt, m'. split; [unfold lift_; by rewrite E|]. exists f.
  setoid_rewrite in_blk_frame in Hs. setoid_rewrite in_blk_frame in Hfr.
  destruct (mach_zone m m' s (framer (r + ly_p2v L) :: own) own U f) as (H' & Htr & Hk); try done.
  - rewrite Hfr; [done|..].
    + apply (pi_fields _ _ _ _ _ _ Hph). unfold phys_fields. tauto.
    + apply (pi_fields _ _ _ _ _ _ Hph). unfold phys_fields. tauto.
    + intros Hx. destruct (Hin _ Hx) as [Hz _]. unfold zcell, phys_fields in Hz. tauto.
  - intros x. rewrite covers_cons, Hs. tauto.
  - intros x Hc. rewrite Hs. intros [Hf|Hx]; [|by destruct (Hin x Hx)].
    apply (static_zcell s (framer (r + ly_p2v L) :: own) U m x H); [rewrite covers_cons; tauto|done].
  - intros x. pose proof (mc_one _ _ _ _ H x) as Ho. unfold hits in *. rewrite filter_cons in Ho.
    case_decide; cbn [length] in *; lia.
  - intros x [Hf|Hx]%Hs; [by apply (mc_free _ _ _ _ H)|]. unfold inr, framer in Hx; cbn in Hx. lia.
  - intros x ? ? Hf. apply Hfr; [done|done|]. intros Hx. apply Hf, Hs. by right.
  - split_and!; [apply Hk; intros x; rewrite covers_cons; tauto|done|done|done].
Qed.

(** ** Mappings *)

(** The rights of the pages of the address space. *)
Definition ly_rw : bool := Z.land (ly_flags L) 0x80 =? 0.
Definition ly_us : bool := negb (Z.land 8 (ly_flags L) =? 0).

Lemma mach_tables m m' s own U σ :
  mach m s own U → ax_inv m' σ →
  (∀ x, ax_outside (ms_ax s) x → ax_outside σ x ∧ m'.@x = m.@x) →
  mach m' (Mst σ (ms_recs s) (ms_free s)) own U ∧ keeps own U m m'.
Proof.
  intros H Hi Hst. assert (∀ x, quiet s x → quiet (Mst σ (ms_recs s) (ms_free s)) x ∧ m'.@x = m.@x) as Hq.
  { intros x (Ho & ? & ? & ?). destruct (Hst x Ho). split; [split_and!; cbn|]; done. }
  assert (∀ x, zcell (ms_free s) x → m'.@x = m.@x) as Hz.
  { intros x Hx. by apply Hst, (mc_zone _ _ _ _ H). }
  assert (∀ x, phys_fields phys x → m'.@x = m.@x) as Hpf by (intros x Hx; apply Hz; unfold zcell; tauto).
  pose proof (mc_ph _ _ _ _ H) as Hph. split.
  - constructor; cbn [ms_ax ms_recs ms_free]; try apply H; try done.
    + eapply da_frame; [apply H| |apply Hst, (mc_spec _ _ _ _ H)].
      intros p x Hp Hx. by apply Hst, (mc_rec _ _ _ _ H p).
    + by eapply phys_inv_cells.
    + destruct (mc_spec _ _ _ _ H) as [Ho ?]. split; [by apply Hst|done].
    + intros p x Hp Hx. destruct (mc_rec _ _ _ _ H p x Hp Hx) as [Ho ?]. split; [by apply Hst|done].
    + intros x Hx. by apply Hst, (mc_zone _ _ _ _ H).
    + intros x Hx. destruct (mc_own _ _ _ _ H x Hx) as (? & ? & ?). split; [by apply Hq|done].
    + intros x Hx. by apply Hq, (mc_client _ _ _ _ H).
    + rewrite Hpf by (unfold phys_fields; tauto). apply H.
    + destruct (mc_static _ _ _ _ H) as (? & ? & ? & ?).
      rewrite !(λ x Hx, proj2 (Hq x (mc_client _ _ _ _ H x Hx))) by (unfold static; tauto). done.
  - intros x Hx. apply Hq. destruct Hx as [?|[?|?]];
      [apply (mc_client _ _ _ _ H); tauto..|by apply (mc_own _ _ _ _ H)].
Qed.

Lemma wp_page_map m s own U v p r :
  mach m s own U → layout_ok L → covers own (page_physical p) →
  m.@(page_order p) = 0 → m.@(page_physical p) = r → m.@(page_flags p) = MEMORY_PGF_RW → frame_ok r →
  0 <= v → v mod 4096 = 0 → v + 4096 <= 2 ^ 48 →
  (∀ v', v <= v' < v + 4096 → ax_tr m v' = None) →
  wp (page_map vmem v p) m (λ ret m', ∃ σ,
    keeps own U m m' ∧ mach m' (Mst σ (ms_recs s) (ms_free s)) own U ∧
    ((ret = -1 ∧ same_tr m m') ∨
     (ret = 0 ∧ ∀ v', 0 <= v' < 2 ^ 48 → ax_tr m' v' =
        if decide (v <= v' < v + 4096) then Some (r + (v' - v), ly_rw, ly_us, ax_kind 0)
        else ax_tr m v'))).
Proof.
  intros H Hl Hc Ho Er Ef (Hr & Hrm & _ & _ & Hhi) Hv Hvm Hvt Hn.
  unfold page_map. wprun. destruct (mc_static _ _ _ _ H) as (_ & -> & -> & _).
  destruct (ax_map_tr m (ms_ax s) v p (ly_flags L) 0 r) as (ret & m' & σ & E & Hi & Hst & Hw); try done.
  - apply H.
  - by apply (mc_own _ _ _ _ H).
  - lia.
  - change (span 0) with 4096. destruct Hl as [_ _ _ _ Hl]. lia.
  - exists ret, m'. split; [done|]. exists σ. destruct (mach_tables m m' s own U σ H Hi Hst) as [H' Hk].
    split_and!; [done|done|]. destruct Hw as [[-> Hw]|[-> Hw]]; [by left|right].
    split; [done|]. intros v' Hv'. rewrite Hw, Ef by done. change (span 0) with 4096. done.
Qed.

Lemma wp_page_unmap m s own U v p :
  mach m s own U → m.@(page_order p) = 0 →
  0 <= v → v mod 4096 = 0 → v + 4096 <= 2 ^ 48 →
  (∀ v', v <= v' < v + 4096 → ∃ a, ax_tr m v' = Some (a, ly_rw, ly_us, ax_kind 0)) →
  wp (page_unmap vmem v p) m (λ ret m', ret = 0 ∧ ∃ σ,
    keeps own U m m' ∧ mach m' (Mst σ (ms_recs s) (ms_free s)) own U ∧
    ∀ v', 0 <= v' < 2 ^ 48 → ax_tr m' v' =
      if decide (v <= v' < v + 4096) then None else ax_tr m v').
Proof.
  intros H Ho Hv Hvm Hvt Hn. unfold page_unmap. wprun.
  destruct (mc_static _ _ _ _ H) as (_ & -> & _ & _).
  destruct (ax_unmap_tr m (ms_ax s) v p 0 ly_rw ly_us) as (m' & σ & E & Hi & Hst & Hw); try done; [apply H|].
  exists 0, m'. split; [done|]. split; [done|]. exists σ.
  destruct (mach_tables m m' s own U σ H Hi Hst) as [H' Hk]. done.
Qed.
End mach.
