(* ===== verification/AllocPages.v ===== *)
(** * The pages of an allocation: theorems on memory.c

    The loops of [_alloc_pages_block] that give an entry its pages and that
    take them back: a record, a frame and a mapping for each page. *)

From S2P Require Import Prelude CMonad PhysMem KString Tree Pgt PgtTheorems PgtRange Kmem KmemTheorems Memory Buddy BuddyTheorems AllocInv.

Section alloc.
Context {AM : ArchMemory} {DA : DataAllocator} (L : layout).
Context {AL : ArchMemoryLaws (ly_arch L)} {DL : DataAllocatorLaws (ly_vmem L)}.
Abbreviation vmem := (ly_vmem L).
Abbreviation mach := (mach L).
Abbreviation keeps := (keeps L).
Abbreviation mst := (mst L).
Abbreviation same_tr := (same_tr L).
Implicit Types (m : gmap Z Z) (s : mst) (own : list (Z * Z)) (U : Z → Prop).

(** ** A page *)

(** The record [p] of a page in the frame [r]. *)
Definition page_at m (p r : Z) : Prop :=
  m.@(page_physical p) = r ∧ m.@(page_order p) = 0 ∧ m.@(page_zone p) = ly_zone L ∧
  m.@(page_numadomain p) = ly_dom L.

Definition page_own (pr : Z * Z) : list (Z * Z) := [recr pr.1; framer (pr.2 + ly_p2v L)].

(** Page after page from [v], [d] elsewhere. *)
Fixpoint tr_over (ps : list (Z * Z)) (v v' : Z) (d : option (Z * bool * bool * nat)) :=
  match ps with
  | [] => d
  | (_, r) :: ps =>
      if decide (v <= v' < v + 4096) then Some (r + (v' - v), ly_rw L, ly_us L, ax_kind 0)
      else tr_over ps (v + 4096) v' d
  end.

Lemma page_fields_in p : in_rec p (page_physical p) ∧ in_rec p (page_order p) ∧ in_rec p (page_zone p) ∧
  in_rec p (page_numadomain p) ∧ in_rec p (page_next p) ∧ in_rec p (page_flags p) ∧
  p ≠ page_physical p ∧ p ≠ page_order p ∧ p ≠ page_zone p ∧ p ≠ page_numadomain p ∧ p ≠ page_next p.
Proof.
  unfold in_rec, sizeof_data, page_physical, page_order, page_zone, page_numadomain, page_next, page_flags. lia.
Qed.

(** ** The pages of an allocation *)

Definition pages_own (ps : list (Z * Z)) : list (Z * Z) := ps ≫= page_own.
Definition frames_at (ps : list (Z * Z)) (x : Z) : Prop := ∃ pr, pr ∈ ps ∧ frame_at L pr.2 x.

(** The list of page records from [p]. *)
Fixpoint plist m (p : Z) (ps : list (Z * Z)) : Prop :=
  match ps with
  | [] => p = 0
  | (q, r) :: ps => p = q ∧ 0 < q ∧ frame_ok L r ∧ page_at m q r ∧ plist m (m.@(page_next q)) ps
  end.

Definition keepsx (c : Z) own U m m' : Prop :=
  ∀ x, x ≠ c → U x ∨ static L x ∨ covers own x → m'.@x = m.@x.

Lemma frames_at_nil x : frames_at [] x ↔ False.
Proof. unfold frames_at. set_solver. Qed.
Lemma frames_at_cons pr ps x : frames_at (pr :: ps) x ↔ frame_at L pr.2 x ∨ frames_at ps x.
Proof. unfold frames_at. set_solver. Qed.

Lemma pages_own_cons p r ps own :
  pages_own ((p, r) :: ps) ++ own = recr p :: framer (r + ly_p2v L) :: pages_own ps ++ own.
Proof. done. Qed.

(** The records keep the list. *)
Lemma plist_keeps m m' p ps : plist m p ps →
  (∀ x, covers (pages_own ps) x → m'.@x = m.@x) → plist m' p ps.
Proof.
  revert p. induction ps as [|[q r] ps IH]; intros p; [done|]. cbn [plist].
  intros (-> & Hq & Hr & Hpg & Hps) Hm.
  assert (∀ x, in_rec q x → m'.@x = m.@x) as Hq'.
  { intros x Hx. apply Hm. apply covers_cons. by left. }
  destruct (page_fields_in q) as (I1 & I2 & I3 & I4 & I5 & _).
  split_and!; try done; [unfold page_at; by rewrite !Hq'|]. rewrite Hq' by done.
  apply IH; [done|]. intros x Hx. apply Hm. do 2 (apply covers_cons; right). done.
Qed.

Lemma tr_over_out ps v v' d : ¬ (v <= v' < v + 4096 * Z.of_nat (length ps)) → tr_over ps v v' d = d.
Proof.
  revert v. induction ps as [|[q r] ps IH]; intros v Hv; [done|]. cbn [tr_over length] in *.
  rewrite decide_False by lia. apply IH. lia.
Qed.
Lemma tr_over_in ps v v' d : v <= v' < v + 4096 * Z.of_nat (length ps) →
  ∃ a, tr_over ps v v' d = Some (a, ly_rw L, ly_us L, ax_kind 0).
Proof.
  revert v. induction ps as [|[q r] ps IH]; intros v Hv; cbn [tr_over length] in *; [lia|].
  case_decide; [eauto|]. apply IH. lia.
Qed.

(** ** The operations *)

Context (Hl : layout_ok L) (fuel : nat) (Hfuel : (ly_pages L + 1 < fuel)%nat).

(** Giving the frame of a page back, from the fields of its record. *)
Lemma wp_page_phys_free m s own U p r :
  mach m s (framer (r + ly_p2v L) :: own) U → frame_ok L r → page_at m p r →
  wp (page_phys_free fuel vmem p) m (λ _ m', ∃ f,
    keeps own U m m' ∧ same_tr m m' ∧ mach m' (Mst _ (ms_ax _ s) (ms_recs _ s) f) own U ∧
    ∀ x, free_at f x ↔ free_at (ms_free _ s) x ∨ frame_at L r x).
Proof using Hl Hfuel.
  intros H Hr (E1 & E2 & E3 & E4). unfold page_phys_free. wprun.
  destruct (mc_static _ _ _ _ _ H) as (-> & _ & _ & ->). rewrite E1, E2, E3, E4.
  by apply wp_phys_free.
Qed.

(** The second half of [new_page]: a frame for the filled record, and the mapping. *)
Definition new_page_frame (p v : Z) : M Z :=
  r ← page_phys_alloc vmem p;
  if r =? 0 then _ ← data_free vmem p; mret 0 else
  _ ← st (page_physical p) r;
  ret ← page_map vmem v p;
  if ret <? 0 then
    _ ← data_free vmem p;
    _ ← page_phys_free fuel vmem p;
    mret 0
  else mret p.

Definition new_page_post s own U m v (p : Z) m' : Prop := ∃ s',
  keeps own U m m' ∧
  ((p = 0 ∧ mach m' s' own U ∧ same_tr m m' ∧ same_free L s s' ∧ ms_recs _ s' ≡ₚ ms_recs _ s) ∨
   (0 < p ∧ ∃ r, frame_ok L r ∧ mach m' s' (recr p :: framer (r + ly_p2v L) :: own) U ∧
      page_at m' p r ∧ m'.@(page_next p) = 0 ∧
      (∀ v', 0 <= v' < 2 ^ 48 → ax_tr m' v' = tr_over [(p, r)] v v' (ax_tr m v')) ∧
      (∀ x, free_at (ms_free _ s) x ↔ free_at (ms_free _ s') x ∨ frame_at L r x) ∧
      ms_recs _ s ≡ₚ p :: ms_recs _ s')).

(** The mapping of the page [r] whose record [p] is filled. *)
Definition map_frame (p v : Z) : M Z :=
  ret ← page_map vmem v p;
  if ret <? 0 then _ ← data_free vmem p; _ ← page_phys_free fuel vmem p; mret 0 else mret p.

Lemma wp_map_frame m s own U p l r v f :
  mach m (Mst _ (ms_ax _ s) l f) (recr p :: framer (r + ly_p2v L) :: own) U → ms_recs _ s = p :: l → 0 < p →
  frame_ok L r → page_at m p r → m.@(page_next p) = 0 → m.@(page_flags p) = MEMORY_PGF_RW →
  (∀ x, free_at (ms_free _ s) x ↔ free_at f x ∨ frame_at L r x) →
  0 <= v → v mod 4096 = 0 → v + 4096 <= 2 ^ 48 → (∀ v', v <= v' < v + 4096 → ax_tr m v' = None) →
  wp (map_frame p v) m (new_page_post s own U m v).
Proof using Hl Hfuel.
  intros H El Hp Hr Hpg Hnx Hfl Hs Hv Hvm Hvt Hn. unfold map_frame. apply wp_bind.
  destruct (page_fields_in p) as (I1 & I2 & I3 & I4 & I5 & I6 & N1 & N2 & N3 & N4 & N5).
  wpcall (wp_page_map L m _ (recr p :: framer (r + ly_p2v L) :: own) U v p r); try done.
  { apply covers_cons. by left. } { apply Hpg. } { apply Hpg. }
  intros ret m5 (σ & Hk5 & H5 & Hw). cbn [ms_ax ms_recs ms_free] in *.
  assert (∀ x, in_rec p x → m5.@x = m.@x) as Hk5p.
  { intros x Hx. apply Hk5. right. right. apply covers_cons. by left. }
  assert (page_at m5 p r) as Hpg5 by (unfold page_at; by rewrite !Hk5p).
  destruct Hw as [[-> Ht5]|[-> Hw]]; cbn [Z.ltb Z.compare].
  - apply wp_bind. wpcall wp_data_free; [done|done|]. intros _ m6 (H6 & Hk6 & Ht6 & Hp6).
    cbn [ms_ax ms_recs ms_free] in *. apply wp_bind.
    wpcall (wp_page_phys_free m6 _ own U p r); [done|done| |].
    { unfold page_at. by rewrite !Hp6. }
    intros _ m7 (f' & Hk7 & Ht7 & H7 & Hs7). cbn [ms_ax ms_recs ms_free] in *. wprun.
    eexists. split; [|left; split_and!; [done|done|..]].
    + eapply keeps_trans; [do 2 eapply keeps_tail; exact Hk5|]. eapply keeps_trans; [by eapply keeps_tail|done].
    + do 2 (eapply same_tr_trans; [done|]). done.
    + intros x. cbn. rewrite Hs7, Hs. done.
    + by rewrite El.
  - wprun. eexists. split; [do 2 eapply keeps_tail; exact Hk5|].
    right. split; [done|]. exists r. split_and!; try done.
    + by rewrite Hk5p.
    + by rewrite El.
Qed.

Lemma new_page_before s own U m m4 v p m' : keeps own U m m4 → same_tr m m4 →
  new_page_post s own U m4 v p m' → new_page_post s own U m v p m'.
Proof using.
  clear Hl Hfuel. intros Hk Ht (s' & Hk' & Hout). exists s'. split; [by eapply keeps_trans|].
  destruct Hout as [(? & ? & ? & ?)|(? & r & ? & ? & ? & ? & Htr & ?)]; [left|right].
  - split_and!; try done; [by eapply same_tr_trans|tauto..].
  - split; [done|]. exists r. split_and!; try done; [|tauto..]. intros v' Hv'. by rewrite Htr, Ht.
Qed.

Lemma wp_new_page_frame m2 s own U p l v :
  mach m2 (Mst _ (ms_ax _ s) l (ms_free _ s)) (recr p :: own) U → ms_recs _ s = p :: l → 0 < p →
  m2.@(page_order p) = 0 → m2.@(page_zone p) = ly_zone L → m2.@(page_numadomain p) = ly_dom L →
  m2.@(page_flags p) = MEMORY_PGF_RW → m2.@(page_next p) = 0 →
  0 <= v → v mod 4096 = 0 → v + 4096 <= 2 ^ 48 →
  (∀ v', v <= v' < v + 4096 → ax_tr m2 v' = None) →
  wp (new_page_frame p v) m2 (new_page_post s own U m2 v).
Proof using Hl Hfuel.
  intros H2 El Hp Fo Fz Fd Ff Fn Hv Hvm Hvt Hn. unfold new_page_frame, page_phys_alloc. wprun.
  destruct (mc_static _ _ _ _ _ H2) as (-> & _ & _ & ->). rewrite Fo, Fz, Fd.
  wpcall wp_phys_alloc; [done|done|].
  intros r m3 (f & Hk3 & Ht3 & [(-> & H3 & Hs)|(Hr & H3 & Hs)]); cbn [ms_ax ms_recs ms_free] in *.
  { cbn [Z.eqb]. apply wp_bind. wpcall wp_data_free; [done|done|].
    intros _ m4 (H4 & Hk4 & Ht4 & _). cbn [ms_ax ms_recs ms_free] in *. wprun.
    eexists. split; [eapply keeps_trans; [by eapply keeps_tail|done]|]. left.
    split_and!; [done|done|by eapply same_tr_trans| |by rewrite El]. intros x. apply Hs. }
  rewrite (proj2 (Z.eqb_neq r 0)) by (destruct Hr; lia). apply wp_bind, wp_st.
  eapply mach_perm in H3; [|apply perm_swap].
  destruct (page_fields_in p) as (I1 & I2 & I3 & I4 & I5 & I6 & N1 & N2 & N3 & N4 & N5).
  assert (∀ x, in_rec p x → m3.@x = m2.@x) as Hk3p.
  { intros x Hx. apply Hk3. right. right. apply covers_cons. by left. }
  destruct (mach_fill L m3 (m3.[page_physical p <- r]) _ _ _ _ H3) as (H4 & Hk4 & Ht4).
  { intros x Hx. apply rd_wr_ne. intros <-. by apply Hx. }
  assert (page_at (m3.[page_physical p <- r]) p r ∧ (m3.[page_physical p <- r]).@(page_next p) = 0 ∧
    (m3.[page_physical p <- r]).@(page_flags p) = MEMORY_PGF_RW) as (Hpg & Hnx & Hfl).
  { unfold page_at. rewrite rd_wr_eq, !rd_wr_ne by
      (unfold page_physical, page_order, page_zone, page_numadomain, page_next, page_flags; lia).
    by rewrite !Hk3p. }
  assert (same_tr m2 (m3.[page_physical p <- r])) as Ht by (by eapply same_tr_trans).
  change (wp (map_frame p v) (m3.[page_physical p <- r]) (new_page_post s own U m2 v)).
  wpcall (wp_map_frame _ s own U p l r v f H4); try done.
  - intros v' Hv'. rewrite Ht by lia. by apply Hn.
  - intros q m'. apply new_page_before; [|done].
    eapply keeps_trans; [by eapply keeps_tail|by eapply keeps_tail].
Qed.

Lemma wp_new_page m s own U e i v :
  mach m s own U → covers own (ent_flags e) → m.@(ent_flags e) = MEMORY_VMF_RW →
  0 <= v → v mod 4096 = 0 → v + 4096 <= 2 ^ 48 →
  (∀ v', v <= v' < v + 4096 → ax_tr m v' = None) →
  wp (new_page fuel vmem e i (ly_zone L) (ly_dom L) 0 v) m (new_page_post s own U m v).
Proof using Hl Hfuel.
  intros H Hce Ee Hv Hvm Hvt Hn. unfold new_page. apply wp_bind. wpcall wp_data_alloc; [done|].
  intros p m1 [(-> & -> & El)|(Hp & l & El & H1 & Hk1 & Ht1 & Hz1)].
  { cbn [Z.eqb]. wprun. exists s. split; [done|]. left. done. }
  rewrite (proj2 (Z.eqb_neq p 0)) by lia.
  assert (¬ in_rec p (ent_flags e)) as Hne.
  { intros Hin. by apply (mach_apart L m1 _ (recr p) own U (ent_flags e) H1). }
  assert (m1.@(ent_flags e) = MEMORY_VMF_RW) as Ee1 by (rewrite Hk1; auto).
  unfold in_rec, sizeof_data in Hne. wprun.
  assert ((m1.[page_index p <- i].[page_zone p <- u8 (ly_zone L)].[page_numadomain p <- u32 (ly_dom L)]
    .[page_flags p <- 0]).@(ent_flags e) = MEMORY_VMF_RW) as ->.
  { unfold page_index, page_zone, page_numadomain, page_flags. rewrite !rd_wr_ne by lia. done. }
  change (negb (Z.land MEMORY_VMF_RW MEMORY_VMF_RW =? 0)) with true. cbv iota. wprun. rewrite rd_wr_eq.
  match goal with |- wp _ ?x _ => set (m2 := x) end.
  assert (∀ x, ¬ inr (recr p) x → m2.@x = m1.@x) as Hm2.
  { intros x Hx. unfold inr, recr, sizeof_data in Hx. cbn [fst snd] in Hx.
    unfold m2, page_index, page_zone, page_numadomain, page_flags, page_order, page_next.
    by rewrite !rd_wr_ne by lia. }
  assert (m2.@(page_order p) = 0 ∧ m2.@(page_zone p) = ly_zone L ∧ m2.@(page_numadomain p) = ly_dom L ∧
    m2.@(page_flags p) = MEMORY_PGF_RW ∧ m2.@(page_next p) = 0) as (Fo & Fz & Fd & Ff & Fn).
  { destruct Hl as [Hz Hd _ _ _].
    unfold m2, page_index, page_zone, page_numadomain, page_flags, page_order, page_next, u8, u32.
    rewrite !(Z.mod_small (ly_zone L)), !(Z.mod_small (ly_dom L)) by lia.
    split_and!; rewrite !rd_wr; repeat (first [rewrite decide_True by lia|rewrite decide_False by lia]); done. }
  clearbody m2. destruct (mach_fill L m1 m2 _ _ _ _ H1 Hm2) as (H2 & Hk2 & Ht2).
  apply wp_unbind. change (wp (new_page_frame p v) m2 (new_page_post s own U m v)).
  assert (keeps own U m m2) as Hk by (by eapply keeps_trans).
  assert (same_tr m m2) as Ht by (by eapply same_tr_trans).
  eapply wp_mono; [apply (wp_new_page_frame m2 s own U p l v); try done|].
  - intros v' Hv'. rewrite Ht by lia. by apply Hn.
  - intros q m'. by apply new_page_before.
Qed.

Lemma wp_unmap_pages k ps v p m s own U :
  mach m s (pages_own ps ++ own) U → plist m p ps → (length ps < k)%nat →
  0 <= v → v mod 4096 = 0 → v + 4096 * Z.of_nat (length ps) <= 2 ^ 48 →
  (∀ v', v <= v' < v + 4096 * Z.of_nat (length ps) → ∃ a, ax_tr m v' = Some (a, ly_rw L, ly_us L, ax_kind 0)) →
  wp (unmap_pages k fuel true vmem v p) m (λ _ m', ∃ s',
    mach m' s' own U ∧ keeps own U m m' ∧
    (∀ v', 0 <= v' < 2 ^ 48 → ax_tr m' v' =
       if decide (v <= v' < v + 4096 * Z.of_nat (length ps)) then None else ax_tr m v') ∧
    (∀ x, free_at (ms_free _ s') x ↔ free_at (ms_free _ s) x ∨ frames_at ps x) ∧
    ms_recs _ s' ≡ₚ ps.*1 ++ ms_recs _ s).
Proof using Hl Hfuel.
  revert k v p m s. induction ps as [|[q r] ps IH]; intros [|k] v p m s H Hpl Hk Hv Hvm Hvt Hm;
    cbn [length] in Hk; try lia; cbn [unmap_pages].
  - cbn in Hpl. subst p. cbn [Z.eqb]. wprun. exists s. cbn [length Z.of_nat] in *.
    split_and!; [done|done| | |done].
    + intros v' _. by rewrite decide_False by lia.
    + intros x. rewrite frames_at_nil. tauto.
  - destruct Hpl as (-> & Hq0 & Hr & Hpg & Hpl). rewrite (proj2 (Z.eqb_neq q 0)) by lia.
    rewrite pages_own_cons in H. cbn [length] in *. set (n := Z.of_nat (length ps)) in *.
    assert (Z.of_nat (S (length ps)) = n + 1) as En by lia. rewrite En in *.
    destruct (page_fields_in q) as (I1 & I2 & I3 & I4 & I5 & _ & N1 & N2 & N3 & N4 & N5).
    apply wp_bind. wpcall (wp_page_unmap L m s _ U v q H); [apply Hpg|done|done|lia|intros; apply Hm; lia|].
    intros ret m1 (-> & σ & Hk1 & H1 & Hw1). wprun; [done|].
    assert (∀ x, in_rec q x → m1.@x = m.@x) as Hq1.
    { intros x Hx. apply Hk1. right. right. apply covers_cons. by left. }
    eapply mach_perm in H1; [|apply perm_swap]. cbv iota.
    wpcall (wp_page_phys_free m1 _ _ U q r H1 Hr); [unfold page_at; by rewrite !Hq1|].
    intros _ m2 (f2 & Hk2 & Ht2 & H2 & Hs2). cbn [ms_ax ms_recs ms_free] in *. wprun.
    assert (∀ x, in_rec q x → m2.@x = m.@x) as Hq2.
    { intros x Hx. rewrite Hk2, Hq1; [done|done|]. right. right. apply covers_cons. by left. }
    wpcall (wp_data_free L m2 _ _ U q H2 Hq0). intros _ m3 (H3 & Hk3 & Ht3 & Hp3). cbn [ms_ax ms_recs ms_free] in *.
    wprun. rewrite Hp3, !Hq2 by done. destruct Hpg as (_ & -> & _).
    change (Z.shiftl MEMORY_PAGESIZE 0) with 4096. rewrite u64_small by lia.
    assert (keeps (pages_own ps ++ own) U m m3) as Hkk.
    { eapply keeps_trans; [do 2 eapply keeps_tail; exact Hk1|].
      eapply keeps_trans; [eapply keeps_tail; exact Hk2|done]. }
    assert (∀ v', 0 <= v' < 2 ^ 48 → ax_tr m3 v' = if decide (v <= v' < v + 4096) then None else ax_tr m v') as Hw3.
    { intros v' Hv'. rewrite Ht3, Ht2 by done. by apply Hw1. }
    wpcall (IH k (v + 4096) _ m3 _ H3); [| lia|lia| |lia| |].
    { eapply plist_keeps; [done|]. intros x Hx. apply Hkk. right. right. apply covers_app. by left. }
    { rewrite Z.add_mod, Hvm by lia. done. }
    { intros v' Hv'. rewrite Hw3, decide_False by lia. apply Hm. lia. }
    intros _ m4 (s4 & H4 & Hk4 & Hw4 & Hs4 & Hr4). cbn [ms_ax ms_recs ms_free] in *.
    exists s4. split_and!; [done| | | |].
    + eapply keeps_trans; [|done]. eapply keeps_sub; [|done]. intros x. rewrite covers_app. tauto.
    + intros v' Hv'. rewrite Hw4, Hw3 by done. repeat case_decide; try done; lia.
    + intros x. rewrite Hs4, Hs2, frames_at_cons. cbn [snd]. tauto.
    + rewrite Hr4. cbn. symmetry. apply Permutation_middle.
Qed.

(** After the loop: pages [ps] for the entry at [v0], from the page [i] on, the
    first linked from [pp]. *)
Definition loop_post nr i pp v0 s own U m (ok : bool) m' : Prop := ∃ s' ps,
  keepsx pp own U m m' ∧ mach m' s' (pages_own ps ++ own) U ∧ plist m' (m'.@pp) ps ∧
  i + Z.of_nat (length ps) <= nr ∧ (ok = true → i + Z.of_nat (length ps) = nr) ∧
  (∀ v', 0 <= v' < 2 ^ 48 → ax_tr m' v' = tr_over ps (v0 + i * 4096) v' (ax_tr m v')) ∧
  (∀ x, free_at (ms_free _ s) x ↔ free_at (ms_free _ s') x ∨ frames_at ps x) ∧
  ms_recs _ s ≡ₚ ps.*1 ++ ms_recs _ s'.

(** One page in front: [p] was made in [m1] and linked from [pp]. *)
Lemma loop_post_step nr i pp v0 s own U m p r m1 s1 ok m' :
  mach m1 s1 (recr p :: framer (r + ly_p2v L) :: own) U → covers own pp → keeps own U m m1 → 0 < p →
  frame_ok L r → page_at m1 p r → same_tr m1 (m1.[pp <- p]) →
  (∀ v', 0 <= v' < 2 ^ 48 → ax_tr m1 v' = tr_over [(p, r)] (v0 + i * 4096) v' (ax_tr m v')) →
  (∀ x, free_at (ms_free _ s) x ↔ free_at (ms_free _ s1) x ∨ frame_at L r x) → ms_recs _ s ≡ₚ p :: ms_recs _ s1 →
  loop_post nr (i + 1) (page_next p) v0 s1 (recr p :: framer (r + ly_p2v L) :: own) U (m1.[pp <- p]) ok m' →
  loop_post nr i pp v0 s own U m ok m'.
Proof using.
  clear Hl Hfuel. intros H1 Hcp Hk1 Hp Hr Hpg Ht2 Hw1 Hs1 Hr1 (s' & ps & Hk' & H' & Hpl & Hle & Hok & Hw' & Hs' & Hr').
  destruct (page_fields_in p) as (I1 & I2 & I3 & I4 & I5 & _).
  assert (∀ x, covers own x → ¬ in_rec p x) as Hap.
  { intros x Hx Hin. apply (mach_apart L m1 s1 _ _ U x H1 Hin). apply covers_cons. by right. }
  assert (∀ x, covers own x → covers (recr p :: framer (r + ly_p2v L) :: own) x) as Hsub.
  { intros x Hx. do 2 (apply covers_cons; right). done. }
  assert (m'.@pp = p) as Epp.
  { rewrite Hk'; [apply rd_wr_eq|intros ->; by apply (Hap (page_next p))|]. right. right. by apply Hsub. }
  assert (∀ x, in_rec p x → x ≠ page_next p → m'.@x = m1.@x) as Hq.
  { intros x Hx Hne. rewrite Hk', rd_wr_ne; auto; [intros ->; by apply (Hap x)|]. right. right. apply covers_cons. by left. }
  exists s', ((p, r) :: ps). rewrite pages_own_cons. cbn [length plist fmap list_fmap fst].
  split_and!; try (done || lia).
  - intros x Hx Ho. rewrite Hk'; [rewrite rd_wr_ne by done; by apply Hk1| |destruct Ho as [?|[?|?]]; auto].
    intros ->. destruct (mc_own _ _ _ _ _ H1 (page_next p)) as (_ & ? & ?); [apply covers_cons; by left|].
    destruct Ho as [?|[?|Ho]]; [done|done|]. by apply (Hap _ Ho).
  - eapply mach_perm; [|exact H']. cbn. rewrite <-!Permutation_middle. done.
  - destruct Hpg as (? & ? & ? & ?). unfold page_at.
    rewrite !Hq by (done || (unfold page_next, page_physical, page_order, page_zone, page_numadomain; lia)). done.
  - intros Et. specialize (Hok Et). lia.
  - intros v' Hv'. rewrite Hw', Ht2, Hw1 by done. cbn [tr_over].
    replace (v0 + (i + 1) * 4096) with (v0 + i * 4096 + 4096) by lia.
    case_decide; [|done]. rewrite tr_over_out by lia. done.
  - intros x. rewrite Hs1, Hs', frames_at_cons. cbn [snd]. tauto.
  - by rewrite Hr1, Hr'.
Qed.

(** The loop of [_alloc_pages_block] for less than a superpage; [v0] is the
    start of the entry [e], [pp] the link that the next page goes to. *)
Lemma wp_block_pages_loop k nr i pp m s own U e v0 :
  mach m s own U → covers own (ent_flags e) → covers own (ent_start e) → covers own pp →
  pp ≠ ent_flags e → pp ≠ ent_start e →
  m.@(ent_flags e) = MEMORY_VMF_RW → m.@(ent_start e) = v0 → m.@pp = 0 →
  0 <= i <= nr → nr < 512 → nr - i < Z.of_nat k →
  0 <= v0 → v0 mod 4096 = 0 → v0 + nr * 4096 <= 2 ^ 48 →
  (∀ v', v0 + i * 4096 <= v' < v0 + nr * 4096 → ax_tr m v' = None) →
  wp (block_pages_loop k fuel vmem e nr (ly_zone L) (ly_dom L) i pp) m (loop_post nr i pp v0 s own U m).
Proof using Hl Hfuel.
  revert i pp m s own. induction k as [|k IH];
    intros i pp m s own H Hcf Hcs Hcp Hnf Hns Ef Es Ep Hi Hnr Hk Hv0 Hvm Hvt Hn; [lia|].
  cbn [block_pages_loop]. destruct (Z.leb_spec nr i) as [Hle|Hlt].
  { wprun. exists s, []. cbn. split_and!; try (done || lia). intros x. rewrite frames_at_nil. tauto. }
  rewrite (proj2 (Z.leb_gt (i + 512) nr)) by lia. wprun. rewrite Es.
  unfold MEMORY_PAGESIZE at 1. rewrite (u64_small (v0 + i * 4096)) by lia.
  wpcall (wp_new_page m s own U e i (v0 + i * 4096) H Hcf Ef); [lia| |lia|intros; apply Hn; lia|].
  { rewrite Z.mod_add by lia. done. }
  intros p m1 (s1 & Hk1 & [(-> & H1 & Ht1 & Hs1 & Hr1)|(Hp & r & Hr & H1 & Hpg & Hnx & Hw1 & Hs1 & Hr1)]).
  { cbn [Z.eqb]. wprun. exists s1, []. cbn. split_and!; try (done || lia).
    - intros x _. apply Hk1.
    - rewrite Hk1; auto.
    - intros x. rewrite (Hs1 x), frames_at_nil. tauto. }
  rewrite (proj2 (Z.eqb_neq p 0)) by lia. wprun.
  destruct (page_fields_in p) as (I1 & I2 & I3 & I4 & I5 & _).
  assert (∀ x, covers own x → covers (recr p :: framer (r + ly_p2v L) :: own) x) as Hsub.
  { intros x Hx. do 2 (apply covers_cons; right). done. }
  assert (∀ x y, covers own x → in_rec p y → y ≠ x) as Hap.
  { intros x y Hx Hin ->. apply (mach_apart L m1 s1 _ _ U x H1 Hin). apply covers_cons. by right. }
  destruct (mach_st L m1 s1 _ U pp p H1) as [H2 Ht2]; [by apply Hsub|].
  assert (∀ x, x ≠ pp → U x ∨ static L x ∨ covers own x → (m1.[pp <- p]).@x = m.@x) as Hk2.
  { intros x Hx Ho. rewrite rd_wr_ne by done. by apply Hk1. }
  wpcall (IH (i + 1) (page_next p) (m1.[pp <- p]) s1 (recr p :: framer (r + ly_p2v L) :: own) H2);
    try (done || lia || by apply Hsub || by apply Hap).
  - apply covers_cons. by left.
  - by rewrite Hk2; auto.
  - by rewrite Hk2; auto.
  - rewrite rd_wr_ne by (apply not_eq_sym; by apply Hap). done.
  - intros v' Hv'. rewrite Ht2, Hw1 by lia. cbn [tr_over]. rewrite decide_False by lia. apply Hn. lia.
  - intros ok m'. by eapply loop_post_step.
Qed.
End alloc.
