(* ===== verification/AllocBlock.v ===== *)
(** * Blocks with one free range: theorems on memory.c

    As long as nothing is freed, the allocator takes every entry from the
    start of the one free range of a block.  Such a block is a [bump]; the
    lemmas give the search for a range, the new entry and the shrinking of
    the range on it. *)

From S2P Require Import Prelude CMonad PhysMem KString Tree Pgt PgtTheorems PgtRange Kmem KmemTheorems Memory Buddy BuddyTheorems AllocInv AllocPages.

(** The block record, its start, end and next block, its entries in the order
    they were added, and its free range: the record, the start and the size. *)
Record bump := Bump {
  bk : Z; bk_hdr : Z * Z * Z; bk_ents : list Z; bk_rng : option (Z * Z * Z);
}.

Definition bump_own (b : bump) : list (Z * Z) :=
  recr (bk b) :: (recr <$> bk_ents b) ++
  match bk_rng b with None => [] | Some (f, cur, sz) => [recr f; (cur, sz)] end.

(** The entries hang to the right of each other, because the comparison reads
    the left link of a node where it expects the start of an entry. *)
Definition spine (m : gmap Z Z) (c : Z) (es : list Z) : Prop :=
  chain 8 m c (ent_atree <$> es) ∧ ∀ e, e ∈ es → m.@(node_left (ent_atree e)) = 0.

(** The range record [f] is the only node of both trees. *)
Definition range_at (m : gmap Z Z) (b f cur sz : Z) : Prop :=
  m.@(blk_atree b) = free_atree f ∧ m.@(blk_stree b) = free_stree f ∧
  m.@(free_start f) = cur ∧ m.@(free_size f) = sz ∧
  m.@(node_left (free_atree f)) = 0 ∧ m.@(node_right (free_atree f)) = 0 ∧ m.@(node_data (free_atree f)) = f ∧
  m.@(node_left (free_stree f)) = 0 ∧ m.@(node_right (free_stree f)) = 0 ∧ m.@(node_data (free_stree f)) = f.

Definition bump_at (m : gmap Z Z) (b : bump) : Prop :=
  0 < bk b ∧ (m.@(blk_start (bk b)), m.@(blk_end (bk b)), m.@(blk_next (bk b))) = bk_hdr b ∧ Forall (λ e, 0 < e) (bk_ents b) ∧
  spine m (blk_entries (bk b)) (bk_ents b) ∧
  match bk_rng b with
  | None => m.@(blk_atree (bk b)) = 0 ∧ m.@(blk_stree (bk b)) = 0
  | Some (f, cur, sz) => range_at m (bk b) f cur sz ∧ 0 < f ∧ 0 < cur ∧ cur mod 4096 = 0 ∧
      0 < sz ∧ sz mod 4096 = 0 ∧ cur + sz <= 2 ^ 48
  end.

(** ** Cells *)

Lemma recr_in p d : 0 <= d < 64 → inr (recr p) (p + d).
Proof. unfold inr, recr, sizeof_data. cbn [fst snd]. lia. Qed.

Ltac offs := unfold ent_start, ent_size, ent_object, ent_offset, ent_flags, ent_atree, free_start, free_size,
  free_atree, free_stree, blk_start, blk_end, blk_next, blk_entries, blk_atree, blk_stree, obj_type, obj_pages,
  obj_size, obj_refs, node_left, node_right, node_data in *.

(** A block depends on the records of its regions. *)
Lemma bump_keeps m m' b :
  (∀ x, covers (bump_own b) x → m'.@x = m.@x) → bump_at m b → bump_at m' b.
Proof.
  intros Hm (Hb & Hh & He & [Hch Hlf] & Hr). unfold bump_own in Hm.
  assert (∀ d, 0 <= d < 64 → m'.@(bk b + d) = m.@(bk b + d)) as Hmb.
  { intros d Hd. apply Hm, covers_cons. left. by apply recr_in. }
  assert (∀ e d, e ∈ bk_ents b → 0 <= d < 64 → m'.@(e + d) = m.@(e + d)) as Hme.
  { intros e d Hin Hd. apply Hm, covers_cons. right. apply covers_app. left.
    exists (recr e). split; [by apply list_elem_of_fmap_2|by apply recr_in]. }
  assert (m'.@(bk b) = m.@(bk b)) as Hmb0 by (pose proof (Hmb 0); rewrite Z.add_0_r in *; auto with lia).
  split_and!; [done|by rewrite <-Hh; offs; rewrite Hmb0, !Hmb by lia|done|split|].
  - eapply chain_frame; [|done]. intros x. unfold cells. rewrite elem_of_cons.
    intros [->|Hx]; [offs; apply Hmb; lia|].
    apply list_elem_of_fmap in Hx as (q & -> & (e & -> & Hin)%list_elem_of_fmap).
    offs. rewrite <-Z.add_assoc. apply Hme; [done|lia].
  - intros e Hin. offs. rewrite Hme by (done || lia). by apply Hlf.
  - destruct (bk_rng b) as [[[f cur] sz]|].
    + destruct Hr as [Hr ?]. split; [|done].
      assert (∀ d, 0 <= d < 64 → m'.@(f + d) = m.@(f + d)) as Hmf.
      { intros d Hd. apply Hm, covers_cons. right. apply covers_app. right. apply covers_cons.
        left. by apply recr_in. }
      assert (m'.@f = m.@f) as Hm0 by (pose proof (Hmf 0); rewrite Z.add_0_r in *; auto with lia).
      unfold range_at in *. offs. rewrite <-!Z.add_assoc in *. rewrite !Hmb, !Hmf, Hm0 by lia. done.
    + offs. rewrite !Hmb by lia. done.
Qed.

(** ** The trees of a bump block *)

(** Adding an entry whose start is positive appends it to the spine. *)
Lemma btree_add_right m c es n fuel :
  spine m c es → Forall (λ e, 0 < e) es → 0 < m.@(m.@(node_data n)) → (length es < fuel)%nat →
  btree_add virt_memory_comp_addr 0 fuel c n m =
    Ok 0 (m.[lastc 8 c (ent_atree <$> es) <- n].[node_left n <- 0].[node_right n <- 0]).
Proof.
  intros [Hch Hlf] Hpos Hst. revert c fuel Hch Hlf Hpos.
  induction es as [|e es IH]; intros c [|fuel] Hch Hlf Hpos Hf; cbn [length] in Hf; try lia;
    cbn [btree_add fmap list_fmap lastc].
  - cbn in Hch. mrun. by rewrite Hch.
  - rewrite fmap_cons in Hch. destruct Hch as (Ec & He & Hch). mrun.
    rewrite Ec, (proj2 (Z.eqb_neq _ 0)) by done. mrun. unfold virt_memory_comp_addr. mrun.
    pose proof (Hlf e ltac:(set_solver)) as E0. unfold node_left in E0. unfold free_start. rewrite E0.
    assert (compare3 (m.@(m.@(node_data n))) 0 = 1) as ->.
    { unfold compare3. destruct (Z.eqb_spec (m.@(m.@(node_data n))) 0); [lia|]. destruct (Z.ltb_spec 0 (m.@(m.@(node_data n)))); [done|lia]. }
    cbn [Z.eqb andb Z.ltb Z.compare]. apply Forall_cons in Hpos as [_ Hpos].
    apply IH; [done| |done|lia].
    intros e' ?. apply Hlf. set_solver.
Qed.

(** Removing the only node. *)
Lemma btree_delete_only comp fuel m c n :
  m.@c = n → n ≠ 0 → m.@(node_left n) = 0 → m.@(node_right n) = 0 →
  btree_delete comp (S fuel) c n m = Ok n (m.[c <- 0]).
Proof.
  intros Ec Hn El Er. cbn [btree_delete]. mrun. rewrite Ec, (proj2 (Z.eqb_neq n 0)), Z.eqb_refl by done.
  mrun. rewrite El, Er. cbn. by mrun.
Qed.

(** Two records that do not overlap. *)
Definition apart (p q : Z) : Prop := p + sizeof_data <= q ∨ q + sizeof_data <= p.

Lemma free_delete_only fuel m b f cur sz :
  range_at m b f cur sz → 0 < f → apart b f →
  _free_delete (S fuel) b f m = Ok f (m.[blk_atree b <- 0].[blk_stree b <- 0]).
Proof.
  intros (E1 & E2 & E3 & E4 & E5 & E6 & E7 & E8 & E9 & E10) Hf Hap. unfold _free_delete, apart, sizeof_data in *.
  erewrite bind_ok by (apply btree_delete_only; [done|offs; lia|done|done]).
  erewrite bind_ok.
  2: { apply btree_delete_only; [|offs; lia|..]; rewrite rd_wr_ne by (offs; lia); done. }
  rewrite !(proj2 (Z.eqb_neq _ 0)) by (offs; lia).
  cbn [negb andb kassert]. mrun. rewrite !rd_wr_ne by (offs; lia). rewrite E7, E10, Z.eqb_refl. cbn [kassert]. mrun.
  unfold ld. rewrite !rd_wr_ne by (offs; lia). by rewrite E7.
Qed.

(** A range for a block without ranges. *)
Lemma free_add_first fuel m b f cur sz :
  m.@(blk_atree b) = 0 → m.@(blk_stree b) = 0 → m.@(free_start f) = cur → m.@(free_size f) = sz →
  apart b f →
  ∃ m', _free_add (S fuel) b f m = Ok 0 m' ∧ range_at m' b f cur sz ∧
    ∀ x, ¬ inr (recr f) x → x ≠ blk_atree b → x ≠ blk_stree b → m'.@x = m.@x.
Proof.
  intros Ea Es Ec Ez Hap. unfold _free_add, apart, sizeof_data in *. mrun. cbn [btree_add]. mrun.
  rewrite !(rd_wr_ne _ _ (blk_atree b)), Ea by (offs; lia). cbn [Z.eqb]. mrun. cbn [Z.ltb Z.compare]. mrun.
  rewrite !(rd_wr_ne _ _ (blk_stree b)), Es by (offs; lia). cbn [Z.eqb]. mrun. cbn [Z.ltb Z.compare].
  eexists. split; [done|]. split.
  - unfold range_at. offs. rewrite <-Ec, <-Ez.
    split_and!; rewrite !rd_wr; repeat (first [rewrite decide_True by lia|rewrite decide_False by lia]); done || lia.
  - intros x Hx Hx1 Hx2. unfold inr, recr, sizeof_data in Hx. cbn [fst snd] in Hx. offs.
    by rewrite !rd_wr_ne by lia.
Qed.

Section block.
Context {AM : ArchMemory} {DA : DataAllocator} (L : layout).
Context {AL : ArchMemoryLaws (ly_arch L)} {DL : DataAllocatorLaws (ly_vmem L)}.
Abbreviation vmem := (ly_vmem L).
Abbreviation mach := (mach L).
Abbreviation keeps := (keeps L).
Abbreviation mst := (mst L).
Abbreviation same_tr := (same_tr L).
Implicit Types (m : gmap Z Z) (s : mst) (own : list (Z * Z)) (U : Z → Prop).

(** Reads outside a region that is written. *)
Lemma apart_ne m s r own U x y : mach m s (r :: own) U → inr r x → covers own y → x ≠ y.
Proof. intros H Hx Hy ->. by eapply mach_apart. Qed.

Lemma mach_recs m s p q own U : mach m s (recr p :: own) U → recr q ∈ own → apart p q.
Proof.
  intros H Hq. unfold apart. destruct (decide (p + sizeof_data <= q)); [by left|].
  destruct (decide (q + sizeof_data <= p)); [by right|]. exfalso.
  apply (mach_apart L m s _ _ U (Z.max p q) H).
  - unfold inr, recr. cbn [fst snd]. lia.
  - exists (recr q). split; [done|]. unfold inr, recr. cbn [fst snd]. lia.
Qed.

Lemma wp_search_fit_size fuel stk b own U m s size :
  mach m s ((stk, 16) :: bump_own b ++ own) U → bump_at m b → (2 <= fuel)%nat →
  wp (_search_fit_size fuel stk (bk b) size) m (λ f m',
    mach m' s ((stk, 16) :: bump_own b ++ own) U ∧ keeps (bump_own b ++ own) U m m' ∧ same_tr m m' ∧
    f = match bk_rng b with Some (f, cur, sz) => if sz <? size then 0 else f | None => 0 end).
Proof.
  intros H (Hb & _ & _ & _ & Hr) Hf. destruct fuel as [|[|n]]; [lia..|].
  assert (∀ x, covers (bump_own b ++ own) x → x ≠ stk ∧ x ≠ stk + 8) as Hne.
  { intros x Hx. split; intros ->; eapply (mach_apart L m s (stk, 16)); try done; unfold inr; cbn; lia. }
  assert (∀ d, 0 <= d < 64 → bk b + d ≠ stk ∧ bk b + d ≠ stk + 8) as Hnb.
  { intros d Hd. apply Hne, covers_app. left. apply covers_cons. left. by apply recr_in. }
  assert (∀ m' (f f' : Z), (∀ x, x ≠ stk → x ≠ stk + 8 → m'.@x = m.@x) → f = f' →
    mach m' s ((stk, 16) :: bump_own b ++ own) U ∧ keeps (bump_own b ++ own) U m m' ∧ same_tr m m' ∧ f = f') as Hfill.
  { intros m' f f' Hm' Ef. destruct (mach_fill L m m' s (stk, 16) (bump_own b ++ own) U H) as (? & ? & ?); [|done].
    intros x Hx. apply Hm'; intros ->; apply Hx; unfold inr; cbn; lia. }
  unfold _search_fit_size. wprun. offs.
  destruct (bk_rng b) as [[[f cur] sz]|] eqn:Eb.
  - destruct Hr as ((_ & E2 & _ & E4 & _ & _ & _ & E8 & E9 & E10) & Hf0 & _). offs.
    assert (∀ d, 0 <= d < 64 → f + d ≠ stk ∧ f + d ≠ stk + 8) as Hnf.
    { intros d Hd. apply Hne, covers_app. left. unfold bump_own. rewrite Eb. apply covers_cons. right.
      apply covers_app. right. apply covers_cons. left. by apply recr_in. }
    destruct (Hnb 40), (Hnf 8), (Hnf 40), (Hnf 48), (Hnf 56); [lia..|].
    rewrite !rd_wr_ne, E2 by done. cbn [btree_search]. rewrite (proj2 (Z.eqb_neq _ 0)) by lia. wprun.
    offs. rewrite !(rd_wr_ne _ _ (f + 40 + 16)), E10 by lia. unfold virt_memory_cond_fit_free_size. wprun.
    offs. rewrite !(rd_wr_ne _ _ (f + 8)), E4, (rd_wr_ne _ _ stk), rd_wr_eq by lia.
    destruct (sz <? size) eqn:Esz.
    + wprun. cbn [Z.eqb Z.ltb Z.compare]. wprun. offs. rewrite !(rd_wr_ne _ _ (f + 40 + 8)), E9 by lia.
      cbn [Z.eqb]. wprun. apply Hfill; [intros; by rewrite !rd_wr_ne|apply rd_wr_eq].
    + wprun. cbn [Z.eqb Z.ltb Z.compare]. wprun. offs. rewrite !(rd_wr_ne _ _ (f + 40)), E8 by lia.
      cbn [Z.eqb]. wprun. apply Hfill; [intros; by rewrite !rd_wr_ne|apply rd_wr_eq].
  - destruct Hr as [_ E2]. offs. destruct (Hnb 40); [lia|]. rewrite !rd_wr_ne, E2 by done.
    cbn [btree_search Z.eqb]. wprun. apply Hfill; [intros; by rewrite !rd_wr_ne|apply rd_wr_eq].
Qed.

(** ** Entries *)

(** A new entry of [nr] pages with its object. *)
Definition entry_at m (e obj nr : Z) : Prop :=
  m.@(ent_size e) = nr * 4096 ∧ m.@(ent_flags e) = MEMORY_VMF_RW ∧ m.@(ent_object e) = obj.

Lemma wp_new_entry m s own U nr :
  mach m s own U → 0 <= nr < 512 →
  wp (new_entry vmem nr None) m (λ e m', ∃ s',
    keeps own U m m' ∧ same_tr m m' ∧ same_free L s s' ∧
    ((e = 0 ∧ mach m' s' own U ∧ ms_recs _ s' ≡ₚ ms_recs _ s) ∨
     (0 < e ∧ ∃ obj, 0 < obj ∧ mach m' s' (recr e :: recr obj :: own) U ∧ entry_at m' e obj nr ∧
        m'.@(obj_pages obj) = 0 ∧ ms_recs _ s ≡ₚ e :: obj :: ms_recs _ s'))).
Proof.
  intros H Hnr. unfold new_entry. apply wp_bind. wpcall (wp_data_alloc L m s own U H).
  intros e m1 [(-> & -> & El)|(He & l & El & H1 & Hk1 & Ht1 & _)].
  { cbn [Z.eqb]. wprun. exists s. split_and!; try done. by left. }
  rewrite (proj2 (Z.eqb_neq e 0)) by lia. unfold MEMORY_PAGESIZE. rewrite u64_small by lia. wprun.
  match goal with |- wp _ ?x _ => set (m2 := x) end.
  destruct (mach_fill L m1 m2 _ _ _ _ H1) as (H2 & Hk2 & Ht2).
  { intros x Hx. unfold inr, recr, sizeof_data in Hx. cbn [fst snd] in Hx. unfold m2. offs. by rewrite !rd_wr_ne by lia. }
  wpcall (wp_data_alloc L m2 _ _ U H2).
  intros obj m3 [(-> & -> & El')|(Ho & l' & El' & H3 & Hk3 & Ht3 & _)]; cbn [ms_ax ms_recs ms_free] in *; wprun.
  - cbn [Z.eqb]. destruct (mach_fill L m2 (m2.[ent_object e <- 0]) _ _ _ _ H2) as (H4 & Hk4 & Ht4).
    { intros x Hx. apply rd_wr_ne. intros <-. apply Hx. apply recr_in. lia. }
    apply wp_bind. wpcall (wp_data_free L _ _ _ U e H4 He). intros _ m5 (H5 & Hk5 & Ht5 & _). wprun.
    exists (Mst L (ms_ax _ s) (e :: l) (ms_free _ s)).
    split_and!; [eauto using keeps_trans|eauto using same_tr_trans|done|]. left. split_and!; [done|done|by rewrite El].
  - rewrite (proj2 (Z.eqb_neq obj 0)) by lia. wprun. match goal with |- wp _ ?x _ => set (m4 := x) | |- context [keeps own U m ?x] => set (m4 := x) end.
    assert (∀ x, ¬ inr (recr e) x → ¬ inr (recr obj) x → m4.@x = m3.@x) as Hm4.
    { intros x Hx Hx'. unfold inr, recr, sizeof_data in Hx, Hx'. cbn [fst snd] in Hx, Hx'. unfold m4. offs.
      by rewrite !rd_wr_ne by lia. }
    assert (mach m4 (Mst L (ms_ax _ s) l' (ms_free _ s)) (recr obj :: recr e :: own) U ∧ ∀ v, ax_tr m4 v = ax_tr m3 v) as [H4 Ht4].
    { apply mach_write; [done|]. intros x Hx _. rewrite !covers_cons in Hx. apply Hm4; tauto. }
    assert (apart obj e) as Hap by (eapply mach_recs; [done|set_solver]). unfold apart, sizeof_data in Hap.
    assert (∀ d, 0 <= d < 64 → m3.@(e + d) = m2.@(e + d)) as Hme.
    { intros d Hd. apply Hk3. right. right. apply covers_cons. left. by apply recr_in. }
    exists (Mst L (ms_ax _ s) l' (ms_free _ s)). split_and!; [| |done|right; split; [done|]; exists obj; split_and!].
    + eapply keeps_trans; [done|]. eapply keeps_trans; [done|]. eapply keeps_trans; [by eapply keeps_tail|].
      intros x Hx. apply Hm4; intros Hin;
        (destruct (mc_own _ _ _ _ _ H3 x) as (_ & ? & ?); [rewrite !covers_cons; tauto|];
         destruct Hx as [?|[?|Hx]]; [done|done|]).
      * apply (mach_apart L m2 _ _ _ U x H2 Hin Hx).
      * apply (mach_apart L m3 _ _ _ U x H3 Hin). apply covers_cons. by right.
    + intros v Hv. rewrite Ht4. rewrite Ht3, Ht2, Ht1 by done. done.
    + done.
    + eapply mach_perm; [apply perm_swap|done].
    + unfold entry_at, m4. offs. split_and!; rewrite ?(rd_wr_ne _ _ (e + 8)), ?(rd_wr_ne _ _ (e + 32)) by lia.
      * rewrite Hme by lia. unfold m2. offs. by rewrite rd_wr_ne, rd_wr_eq by lia.
      * rewrite Hme by lia. unfold m2. offs. by rewrite rd_wr_eq.
      * by rewrite !rd_wr_ne, rd_wr_eq by lia.
    + unfold m4. offs. by rewrite rd_wr_ne, rd_wr_eq by lia.
    + by rewrite El, El'.
Qed.

(** ** Adding an entry *)

(** The records of a block do not overlap. *)
Definition bump_sep (b : bump) : Prop :=
  NoDup (bk_ents b) ∧ (∀ e, e ∈ bk_ents b → apart (bk b) e) ∧
  (∀ e e', e ∈ bk_ents b → e' ∈ bk_ents b → e = e' ∨ apart e e') ∧
  match bk_rng b with None => True | Some (f, _, _) => apart (bk b) f ∧ ∀ e, e ∈ bk_ents b → apart e f end.

Lemma apart_sym p q : apart p q → apart q p.
Proof. unfold apart. tauto. Qed.

Lemma recs_sep m s ps own U : mach m s ((recr <$> ps) ++ own) U →
  NoDup ps ∧ ∀ p q, p ∈ ps → q ∈ ps → p = q ∨ apart p q.
Proof.
  intros H. induction ps as [|p ps IH]; [split; [constructor|by intros ? ? ?%not_elem_of_nil]|].
  cbn in H. destruct IH as [Hnd Hps]; [by eapply mach_drop|].
  assert (∀ q, q ∈ ps → apart p q) as Hap.
  { intros q Hq. eapply mach_recs; [done|]. apply elem_of_app. left. by apply list_elem_of_fmap_2. }
  split.
  - apply list.NoDup_cons. split; [|done]. intros Hp. destruct (Hap p Hp); unfold sizeof_data in *; lia.
  - intros q q'. rewrite !elem_of_cons. intros [->|Hq] [->|Hq']; auto using apart_sym.
Qed.

Lemma mach_bump_sep m s b own U : mach m s (bump_own b ++ own) U → bump_sep b.
Proof.
  intros H. unfold bump_sep.
  assert (∀ e, e ∈ bk_ents b → recr e ∈ recr <$> bk_ents b) as Hin by (intros; by apply list_elem_of_fmap_2).
  unfold bump_own in H. rewrite <-app_comm_cons, <-app_assoc in H.
  destruct (recs_sep m s (bk_ents b) _ U (mach_drop L _ _ _ _ _ H)) as [Hnd Hps].
  split_and!; [done| |done|].
  - intros e He. eapply mach_recs; [done|]. rewrite !elem_of_app. auto.
  - destruct (bk_rng b) as [[[f cur] sz]|]; [|done].
    eapply (mach_perm L m s _ (recr f :: recr (bk b) :: (recr <$> bk_ents b) ++ (cur, sz) :: own)) in H; [|perm].
    split; [|intros e He]; apply apart_sym; (eapply mach_recs; [exact H|]).
    + apply elem_of_cons. by left.
    + apply elem_of_cons. right. apply elem_of_app. auto.
Qed.

Definition with_entry (b : bump) (e : Z) : bump := Bump (bk b) (bk_hdr b) (bk_ents b ++ [e]) (bk_rng b).

Lemma with_entry_own b e own : recr e :: bump_own b ++ own ≡ₚ bump_own (with_entry b e) ++ own.
Proof. unfold bump_own, with_entry. cbn [bk bk_hdr bk_ents bk_rng]. rewrite fmap_app. cbn [fmap list_fmap]. perm. Qed.

(** The cell that the new entry is linked from, and the memory with the link. *)
Definition link_cell b : Z := lastc 8 (blk_entries (bk b)) (ent_atree <$> bk_ents b).
Definition linked m b (e : Z) : gmap Z Z :=
  m.[link_cell b <- ent_atree e].[node_left (ent_atree e) <- 0].[node_right (ent_atree e) <- 0].

Lemma link_cell_is b : link_cell b = bk b + 24 ∨ ∃ e, e ∈ bk_ents b ∧ link_cell b = e + 48.
Proof.
  unfold link_cell. pose proof (lastc_cells 8 (blk_entries (bk b)) (ent_atree <$> bk_ents b)) as Hc. unfold cells in Hc.
  apply elem_of_cons in Hc as [->|Hc]; [by left|right].
  apply list_elem_of_fmap in Hc as (q & -> & (e & -> & He)%list_elem_of_fmap). exists e.
  split; [done|]. offs. lia.
Qed.

Section link.
Context m b e (Hsep : bump_sep (with_entry b e)).

Lemma link_facts :
  NoDup (bk_ents b ++ [e]) ∧ apart (bk b) e ∧ (∀ e', e' ∈ bk_ents b → apart (bk b) e' ∧ apart e' e) ∧
  (∀ e1 e2, e1 ∈ bk_ents b → e2 ∈ bk_ents b → e1 = e2 ∨ apart e1 e2).
Proof using Hsep.
  destruct Hsep as (Hnd & Hbe & Hps & _). cbn [with_entry bk bk_hdr bk_ents bk_rng] in *.
  assert (e ∉ bk_ents b) as Hne by (apply list.NoDup_app in Hnd as (_ & Hd & _); intros ?; eapply Hd; set_solver).
  split_and!; [done|apply Hbe; set_solver|intros e' He'; split; [apply Hbe; set_solver|]|intros; apply Hps; set_solver].
  destruct (Hps e' e) as [->|?]; [set_solver|set_solver|done|done].
Qed.

(** The link changes one cell of the block's records. *)
Lemma linked_other x : ¬ inr (recr e) x → x ≠ link_cell b → (linked m b e).@x = m.@x.
Proof.
  intros Hx Hxc. unfold inr, recr, sizeof_data in Hx. cbn [fst snd] in Hx. unfold linked. offs.
  by rewrite !rd_wr_ne by lia.
Qed.

Lemma linked_entry d : 0 <= d < 40 → (linked m b e).@(e + d) = m.@(e + d).
Proof using Hsep.
  intros Hd. destruct link_facts as (_ & Hb & He & _). unfold apart, sizeof_data in *.
  assert (link_cell b ≠ e + d).
  { destruct (link_cell_is b) as [->|(e' & He' & ->)]; [lia|]. destruct (He e' He'). lia. }
  unfold linked. offs. by rewrite !rd_wr_ne by lia.
Qed.

Lemma linked_block d : 0 <= d < 64 → d ≠ 24 → (linked m b e).@(bk b + d) = m.@(bk b + d).
Proof using Hsep.
  intros Hd Hne. destruct link_facts as (_ & Hb & He & _). unfold apart, sizeof_data in *. apply linked_other.
  - unfold inr, recr, sizeof_data. cbn [fst snd]. lia.
  - destruct (link_cell_is b) as [->|(e' & He' & ->)]; [lia|]. destruct (He e' He'). lia.
Qed.

Lemma linked_spine : 0 < e → spine m (blk_entries (bk b)) (bk_ents b) →
  spine (linked m b e) (blk_entries (bk b)) (bk_ents b ++ [e]).
Proof using Hsep.
  intros He0 [Hch Hlf]. destruct link_facts as (Hnd & Hbe & Hee & Hps). unfold apart, sizeof_data in *.
  assert (link_cell b ≠ e + 40 ∧ link_cell b ≠ e + 48) as [Hc1 Hc2].
  { destruct (link_cell_is b) as [->|(e' & He' & ->)]; [lia|]. destruct (Hee e' He'). lia. }
  split.
  - rewrite fmap_app. apply (chain_insert 8 m); rewrite ?app_nil_r; fold (link_cell b); [done| |offs; lia|..].
    + unfold cells. change [ent_atree e] with (ent_atree <$> [e]). rewrite <-fmap_app, <-list_fmap_compose.
      apply list.NoDup_cons. split.
      * intros (q & E & Hq)%list_elem_of_fmap. unfold compose in E. offs. rewrite elem_of_app in Hq.
        destruct Hq as [Hq|Hq]; [destruct (Hee q Hq); lia|]. apply list_elem_of_singleton in Hq as ->. lia.
      * assert (Inj (=) (=) ((λ p, p + 8) ∘ ent_atree)) by (intros x y; unfold compose; offs; lia).
        by apply NoDup_fmap_2.
    + unfold linked. offs. by rewrite !rd_wr_ne, rd_wr_eq by lia.
    + unfold linked. offs. rewrite rd_wr_eq. rewrite <-(app_nil_r (_ <$> _)) in Hch.
      apply chain_app in Hch as [_ Hch]. symmetry. exact Hch.
    + intros x Hx Hxc. apply linked_other; [|done]. unfold inr, recr, sizeof_data; cbn [fst snd]. intros Hin.
      unfold cells in Hx. offs. apply elem_of_cons in Hx as [->|Hx]; [lia|].
      apply list_elem_of_fmap in Hx as (q & -> & (e' & -> & He')%list_elem_of_fmap). destruct (Hee e' He'). lia.
  - intros e' [He'|He']%elem_of_app; [|apply list_elem_of_singleton in He' as ->].
    + destruct (Hee e' He'). rewrite linked_other; [by apply Hlf|..]; unfold inr, recr, sizeof_data; offs; cbn [fst snd]; [lia|].
      destruct (link_cell_is b) as [->|(e2 & He2 & ->)]; [lia|]. destruct (Hps e' e2 He' He2) as [->|?]; lia.
    + unfold linked. offs. by rewrite rd_wr_ne, rd_wr_eq by lia.
Qed.

Lemma linked_at : 0 < e → bump_at m b → bump_at (linked m b e) (with_entry b e).
Proof using Hsep.
  intros He (Hbk & Hh & Hpos & Hsp & Hr). pose proof linked_block as Hmb.
  assert ((linked m b e).@(bk b) = m.@(bk b)) as Hmb0 by (pose proof (Hmb 0); rewrite Z.add_0_r in *; auto with lia).
  unfold bump_at. cbn [with_entry bk bk_hdr bk_ents bk_rng].
  split_and!; [done|by rewrite <-Hh; offs; rewrite Hmb0, !Hmb by lia|by apply Forall_app; repeat constructor|by apply linked_spine|].
  destruct Hsep as (_ & _ & _ & Hf). cbn [with_entry bk bk_hdr bk_ents bk_rng] in *.
  destruct (bk_rng b) as [[[f cur] sz]|]; [|offs; rewrite !Hmb by lia; done].
  destruct Hr as [Hr ?]. split; [|done]. destruct Hf as [Hbf Hef].
  assert (∀ d, 0 <= d < 64 → (linked m b e).@(f + d) = m.@(f + d)) as Hmf.
  { intros d Hd. unfold apart, sizeof_data in *. apply linked_other.
    - specialize (Hef e ltac:(set_solver)). unfold inr, recr, sizeof_data; cbn [fst snd]. lia.
    - destruct (link_cell_is b) as [->|(e2 & He2 & ->)]; [lia|]. specialize (Hef e2 ltac:(set_solver)). lia. }
  assert ((linked m b e).@f = m.@f) as Hm0 by (pose proof (Hmf 0); rewrite Z.add_0_r in *; auto with lia).
  unfold range_at in *. offs. rewrite <-!Z.add_assoc in *. rewrite !Hmb, !Hmf, Hm0 by lia. done.
Qed.
End link.

Lemma wp_entry_add fuel m s b e own U :
  mach m s (recr e :: bump_own b ++ own) U → bump_at m b → 0 < e → 0 < m.@(ent_start e) →
  (length (bk_ents b) < fuel)%nat →
  wp (_entry_add fuel (bk b) e) m (λ r m', r = 0 ∧
    mach m' s (bump_own (with_entry b e) ++ own) U ∧ bump_at m' (with_entry b e) ∧
    keeps own U m m' ∧ same_tr m m' ∧ ∀ d, 0 <= d < 40 → m'.@(e + d) = m.@(e + d)).
Proof.
  intros H Hb He Hst Hf. unfold _entry_add. apply wp_bind, wp_st.
  set (m1 := m.[node_data (ent_atree e) <- e]).
  assert (∀ x, ¬ inr (recr e) x → m1.@x = m.@x) as Hm1.
  { intros x Hx. apply rd_wr_ne. intros <-. apply Hx. unfold inr, recr, sizeof_data; offs; cbn [fst snd]; lia. }
  assert (bump_at m1 b) as Hb1.
  { eapply bump_keeps; [|done]. intros x Hx. apply Hm1. intros Hin.
    apply (mach_apart L m s _ _ U x H Hin). apply covers_app. by left. }
  assert (bump_sep (with_entry b e)) as Hsep.
  { eapply mach_bump_sep. eapply mach_perm; [apply with_entry_own|exact H]. }
  assert (m1.@(node_data (ent_atree e)) = e) as Ed by apply rd_wr_eq.
  assert (m1.@e = m.@e) as Es by (apply rd_wr_ne; offs; lia).
  exists 0, (linked m1 b e). split; [apply btree_add_right; [apply Hb1|apply Hb1|by rewrite Ed, Es|done]|].
  destruct (mach_fill_app L m (linked m1 b e) s (recr e :: bump_own b) own U H) as (H2 & Hk2 & Ht2).
  { intros x Hx. rewrite covers_cons in Hx. rewrite linked_other, Hm1; [done|tauto|tauto|].
    intros ->. apply Hx. right. unfold bump_own. rewrite covers_cons, covers_app.
    destruct (link_cell_is b) as [->|(e' & He' & ->)]; [left; apply recr_in; lia|]. right. left.
    exists (recr e'). split; [by apply list_elem_of_fmap_2|apply recr_in; lia]. }
  split_and!; [done| |by apply linked_at|done|done|].
  - eapply mach_perm; [apply with_entry_own|exact H2].
  - intros d Hd. rewrite linked_entry by done. unfold m1. offs. by rewrite rd_wr_ne by lia.
Qed.

(** ** Shrinking the range *)

(** [size] bytes less at the start, with [f0] as the record of the rest. *)
Definition shrunk (b : bump) (size f0 : Z) : bump :=
  match bk_rng b with
  | None => b
  | Some (f, cur, sz) =>
      Bump (bk b) (bk_hdr b) (bk_ents b) (if decide (size = sz) then None else Some (f0, cur + size, sz - size))
  end.

(** The block without its range. *)
Definition bare (b : bump) : bump := Bump (bk b) (bk_hdr b) (bk_ents b) None.

Lemma bump_own_range b f cur sz :
  bk_rng b = Some (f, cur, sz) →
  bump_own b ≡ₚ recr f :: (cur, sz) :: bump_own (bare b).
Proof.
  intros E. unfold bump_own, bare. rewrite E. cbn [bk bk_hdr bk_ents bk_rng]. rewrite app_nil_r.
  rewrite (Permutation_app_comm (recr <$> bk_ents b)). cbn.
  etrans; [apply perm_swap|]. constructor. apply perm_swap.
Qed.

(** The trees without the range. *)
Lemma bump_detach m s b own U :
  mach m s (bump_own b ++ own) U → bump_at m b →
  bump_at (m.[blk_atree (bk b) <- 0].[blk_stree (bk b) <- 0]) (bare b).
Proof.
  intros H (Hb & Hh & Hpos & [Hch Hlf] & _). destruct (mach_bump_sep m s b own U H) as (_ & Hbe & _).
  unfold apart, sizeof_data in Hbe. unfold bump_at, bare. cbn [bk bk_hdr bk_ents bk_rng].
  split_and!; [done|by rewrite <-Hh; offs; rewrite !rd_wr_ne by lia|done|split| |].
  - eapply chain_frame; [|done]. intros x. unfold cells. rewrite elem_of_cons.
    intros [->|Hx]; [offs; by rewrite !rd_wr_ne by lia|].
    apply list_elem_of_fmap in Hx as (q & -> & (e & -> & Hin)%list_elem_of_fmap).
    specialize (Hbe e Hin). offs. by rewrite !rd_wr_ne by lia.
  - intros e Hin. rewrite <-(Hlf e Hin). specialize (Hbe e Hin). offs. by rewrite !rd_wr_ne by lia.
  - offs. by rewrite rd_wr_ne, rd_wr_eq by lia.
  - apply rd_wr_eq.
Qed.

(** The rest of the range, with the record [f0]. *)
Lemma wp_range_rest fuel m s b f0 cur sz own U :
  mach m s (recr f0 :: bump_own (bare b) ++ own) U →
  bump_at m (bare b) → 0 < f0 → 0 < cur → cur mod 4096 = 0 → 0 < sz → sz mod 4096 = 0 →
  cur + sz <= 2 ^ 48 → (0 < fuel)%nat →
  wp (_free_add fuel (bk b) f0) (m.[free_start f0 <- cur].[free_size f0 <- sz]) (λ ret m', ret = 0 ∧
    mach m' s (recr f0 :: bump_own (bare b) ++ own) U ∧
    bump_at m' (Bump (bk b) (bk_hdr b) (bk_ents b) (Some (f0, cur, sz))) ∧ keeps own U m m' ∧ same_tr m m' ∧
    ∀ e d, e ∈ bk_ents b → 0 <= d < 64 → m'.@(e + d) = m.@(e + d)).
Proof.
  intros H Hb Hf0 Hc Hcm Hs Hsm Hend Hfu. destruct fuel as [|n]; [lia|].
  assert (apart f0 (bk b)) as Hap.
  { eapply mach_recs; [done|]. apply elem_of_app. left. unfold bump_own. apply elem_of_cons. by left. }
  assert (∀ e, e ∈ bk_ents b → apart f0 e ∧ apart (bk b) e) as Hape.
  { intros e He. split; [|by apply (mach_bump_sep m s (bare b) own U); [eapply mach_drop|]].
    eapply mach_recs; [done|]. apply elem_of_app. left. unfold bump_own. rewrite elem_of_cons, elem_of_app. right.
    left. by apply list_elem_of_fmap_2. }
  unfold apart, sizeof_data in *. destruct Hb as (Hbk & Hh & Hpos & [Hch Hlf] & Ha & Hst). cbn [bare bk bk_hdr bk_ents bk_rng] in *.
  set (m2 := m.[free_start f0 <- cur].[free_size f0 <- sz]).
  assert (∀ x, ¬ inr (recr f0) x → m2.@x = m.@x) as Hm2.
  { intros x Hx. unfold inr, recr, sizeof_data in Hx. cbn [fst snd] in Hx. unfold m2. offs. by rewrite !rd_wr_ne by lia. }
  assert (∀ d, 0 <= d < 64 → m2.@(bk b + d) = m.@(bk b + d)) as Hm2b.
  { intros d Hd. apply Hm2. unfold inr, recr, sizeof_data. cbn [fst snd]. lia. }
  destruct (free_add_first n m2 (bk b) f0 cur sz) as (m3 & E & Hr & Hm3).
  { offs. by rewrite Hm2b by lia. } { offs. by rewrite Hm2b by lia. }
  { unfold m2. offs. by rewrite rd_wr_ne, rd_wr_eq by lia. } { apply rd_wr_eq. }
  { unfold apart, sizeof_data. lia. }
  exists 0, m3. split; [done|]. split; [done|].
  assert (∀ e d, e ∈ bk_ents b → 0 <= d < 64 → m3.@(e + d) = m.@(e + d)) as Hme.
  { intros e d He Hd. destruct (Hape e He). rewrite Hm3, Hm2; [done|..];
      unfold inr, recr, sizeof_data; offs; cbn [fst snd]; lia. }
  destruct (mach_fill_app L m m3 s (recr f0 :: bump_own (bare b)) own U H) as (H3 & Hk3 & Ht3).
  { intros x Hx. unfold bump_own, bare in Hx. rewrite !covers_cons in Hx. unfold recr, inr, sizeof_data in *.
    cbn [fst snd bk] in Hx. rewrite Hm3, Hm2; unfold recr, inr, sizeof_data; cbn [fst snd]; offs; [done|lia..]. }
  assert (∀ d, 0 <= d < 32 → m3.@(bk b + d) = m.@(bk b + d)) as Hmb.
  { intros d Hd. rewrite Hm3, Hm2b by (unfold recr, inr, sizeof_data; cbn [fst snd]; offs; lia). done. }
  assert (m3.@(bk b) = m.@(bk b)) as Hmb0 by (pose proof (Hmb 0); rewrite Z.add_0_r in *; auto with lia).
  split_and!; [done|unfold bump_at; cbn [bk bk_hdr bk_ents bk_rng]; split_and!; try done|done|done|done].
  { rewrite <-Hh. offs. by rewrite Hmb0, !Hmb by lia. }
  split.
  - eapply chain_frame; [|done]. intros x. unfold cells. rewrite elem_of_cons.
    intros [->|Hx].
    + offs. apply Hmb. lia.
    + apply list_elem_of_fmap in Hx as (q & -> & (e & -> & Hin)%list_elem_of_fmap). offs.
      rewrite <-Z.add_assoc. apply Hme; [done|lia].
  - intros e Hin. rewrite <-(Hlf e Hin). offs. apply Hme; [done|lia].
Qed.

(** What [carve] gives for an entry [e] at the start of the range of [b]: the
    block [b'], the records [l] back with the allocator, and [rest] as well as
    the record [f] of the old range with the caller. *)
Definition carved b' (f e cur size : Z) rest (l : list Z) own U m s (r : Z * Z) m' : Prop := r = (0, f) ∧ ∃ s',
  mach m' s' (recr f :: bump_own b' ++ (cur, size) :: rest ++ own) U ∧ bump_at m' b' ∧
  keeps own U m m' ∧ same_tr m m' ∧ ms_free _ s' = ms_free _ s ∧
  (∀ d, 0 <= d < 40 → m'.@(e + d) = m.@(e + d)) ∧ ms_recs _ s' = l ++ ms_recs _ s.

Lemma own_entry b e d : e ∈ bk_ents b → 0 <= d < 64 → covers (bump_own b) (e + d).
Proof.
  intros He Hd. unfold bump_own. apply covers_cons. right. apply covers_app. left.
  exists (recr e). split; [by apply list_elem_of_fmap_2|by apply recr_in].
Qed.

(** The entry takes the whole range. *)
Lemma wp_carve_all m s b f cur sz e f0 f1 own U :
  mach m s (bump_own (bare b) ++ recr f0 :: recr f1 :: recr f :: (cur, sz) :: own) U → bump_at m (bare b) →
  e ∈ bk_ents b → 0 < f0 → 0 < f1 →
  wp (_ ← data_free vmem f0; _ ← data_free vmem f1; mret (0, f)) m (carved (bare b) f e cur sz [] [f1; f0] own U m s).
Proof.
  intros H1 Hb1 He Hf0 Hf1.
  eapply (mach_perm L m s _ (recr f0 :: recr f1 :: bump_own (bare b) ++ recr f :: (cur, sz) :: own)) in H1; [|perm].
  apply wp_bind. wpcall (wp_data_free L m s _ U f0 H1 Hf0). intros _ m2 (H2 & Hk2 & Ht2 & _).
  apply wp_bind. wpcall (wp_data_free L m2 _ _ U f1 H2 Hf1). intros _ m3 (H3 & Hk3 & Ht3 & _). wprun.
  cbn [ms_ax ms_recs ms_free] in *.
  assert (keeps (bump_own (bare b) ++ recr f :: (cur, sz) :: own) U m m3) as Hk
    by (eapply keeps_trans; [by eapply keeps_tail|done]).
  split; [done|]. exists (Mst L (ms_ax _ s) (f1 :: f0 :: ms_recs _ s) (ms_free _ s)). split_and!.
  - eapply mach_perm; [|exact H3]. symmetry. apply Permutation_middle.
  - eapply bump_keeps; [|exact Hb1]. intros x Hx. apply Hk. right. right. apply covers_app. by left.
  - eapply keeps_sub; [|exact Hk]. intros x Hx. apply covers_app. right. do 2 (apply covers_cons; right). done.
  - by eapply same_tr_trans.
  - done.
  - intros d Hd. apply Hk. right. right. apply covers_app. left. apply own_entry; [done|lia].
  - done.
Qed.

(** The entry takes the start of the range, [f0] is the record of the rest. *)
Lemma wp_carve_part fuel m s b f cur sz e size f0 f1 own U :
  mach m s (bump_own (bare b) ++ recr f0 :: recr f1 :: recr f :: (cur, sz) :: own) U → bump_at m (bare b) →
  e ∈ bk_ents b → 0 < f0 → 0 < cur → cur mod 4096 = 0 → sz mod 4096 = 0 → size mod 4096 = 0 →
  0 < size < sz → cur + sz <= 2 ^ 48 → (0 < fuel)%nat →
  wp (_ ← st (free_start f0) (cur + size); _ ← st (free_size f0) (sz - size);
      ret ← _free_add fuel (bk b) f0; if ret <? 0 then mret (1, f) else _ ← mret tt; mret (0, f)) m
    (carved (Bump (bk b) (bk_hdr b) (bk_ents b) (Some (f0, cur + size, sz - size))) f e cur size [recr f1] [] own U m s).
Proof.
  intros H1 Hb1 He Hf0 Hc Hcm Hsm Hszm Hsz Hend Hfu.
  eapply (mach_perm L m s _ (recr f0 :: bump_own (bare b) ++ recr f1 :: recr f :: (cur, sz) :: own)) in H1; [|perm].
  assert ((cur + size) mod 4096 = 0 ∧ (sz - size) mod 4096 = 0) as [Hm1 Hm2].
  { rewrite Z.add_mod, Hcm, Hszm, Zminus_mod, Hsm, Hszm by lia. done. }
  wprun. wpcall (wp_range_rest fuel m s b f0 (cur + size) (sz - size) _ U H1 Hb1); try (done || lia).
  intros ret m2 (-> & H2 & Hb2 & Hk2 & Ht2 & Hme). cbn [Z.ltb Z.compare]. wprun.
  split; [done|]. exists s. split_and!; [|done|do 3 eapply keeps_tail; exact Hk2|done|done| |done].
  - eapply (mach_perm L m2 s _ ((cur, sz) :: recr f :: recr f0 :: recr f1 :: bump_own (bare b) ++ own)) in H2; [|perm].
    apply (mach_split L _ _ _ _ size) in H2; [|lia]. eapply mach_perm; [|exact H2].
    unfold bare, bump_own. cbn [bk bk_hdr bk_ents bk_rng]. perm.
  - intros d Hd. rewrite Hme by (done || lia). done.
Qed.

Lemma carved_before b' f e cur size rest l own U m m1 s r m' :
  keeps own U m m1 → same_tr m m1 → (∀ d, 0 <= d < 40 → m1.@(e + d) = m.@(e + d)) →
  carved b' f e cur size rest l own U m1 s r m' → carved b' f e cur size rest l own U m s r m'.
Proof.
  intros Hk Ht Hm (-> & s' & H & Hb & Hk' & Ht' & Hs & Hm' & Hr). split; [done|]. exists s'.
  split_and!; [done|done|by eapply keeps_trans|by eapply same_tr_trans|done| |done].
  intros d Hd. by rewrite Hm', Hm.
Qed.

Lemma wp_carve fuel m s b f cur sz e size f0 f1 own U :
  bk_rng b = Some (f, cur, sz) → mach m s (recr f0 :: recr f1 :: bump_own b ++ own) U → bump_at m b →
  e ∈ bk_ents b → m.@(ent_start e) = cur → m.@(ent_size e) = size → 0 < size <= sz → size mod 4096 = 0 →
  0 < f0 → 0 < f1 → (0 < fuel)%nat →
  wp (carve false fuel vmem (bk b) f e f0 f1) m
    (carved (shrunk b size f0) f e cur size (if decide (size = sz) then [] else [recr f1])
       (if decide (size = sz) then [f1; f0] else []) own U m s).
Proof.
  intros Erng H Hb He Es Ez Hsz Hszm Hf0 Hf1 Hfu. destruct fuel as [|n]; [lia|].
  assert (mach m s (bump_own b ++ own) U) as H0 by (do 2 eapply mach_drop; exact H).
  destruct (mach_bump_sep m s b own U H0) as (_ & Hbe & _ & Hbf). rewrite Erng in Hbf. destruct Hbf as [Hbf Hef].
  pose proof (bump_detach m s b own U H0 Hb) as Hb1.
  destruct Hb as (_ & _ & _ & _ & Hr). rewrite Erng in Hr. destruct Hr as (Hr & Hf & Hc & Hcm & Hs0 & Hsm & Hend).
  specialize (Hbe e He). unfold carve. apply wp_bind. eexists _, _. split; [by eapply free_delete_only|].
  set (m1 := m.[blk_atree (bk b) <- 0].[blk_stree (bk b) <- 0]) in *.
  assert (∀ x, ¬ inr (recr (bk b)) x → m1.@x = m.@x) as Hm1.
  { intros x Hx. unfold inr, recr, sizeof_data in Hx. cbn [fst snd] in Hx. unfold m1. offs. by rewrite !rd_wr_ne by lia. }
  assert (∀ d, 0 <= d < 64 → m1.@(e + d) = m.@(e + d) ∧ m1.@(f + d) = m.@(f + d)) as Hmf.
  { intros d Hd. unfold apart, sizeof_data in *. split; apply Hm1; unfold inr, recr, sizeof_data; cbn [fst snd]; lia. }
  eapply mach_perm in H; [|do 2 apply perm_skip; apply Permutation_app; [by apply bump_own_range|done]].
  eapply (mach_perm L m s _ (bump_own (bare b) ++ recr f0 :: recr f1 :: recr f :: (cur, sz) :: own)) in H; [|perm].
  destruct (mach_fill_app L m m1 s (bump_own (bare b)) _ U H) as (H1 & Hk1 & Ht1).
  { intros x Hx. apply Hm1. intros Hin. apply Hx. unfold bump_own. apply covers_cons. by left. }
  assert (m1.@f = cur ∧ m1.@(f + 8) = sz ∧ m1.@e = cur ∧ m1.@(e + 8) = size) as (F1 & F2 & F3 & F4).
  { destruct Hr as (_ & _ & R1 & R2 & _). offs. pose proof (Hmf 0) as Hm0. rewrite !Z.add_0_r in Hm0.
    destruct Hm0 as [-> ->]; [lia|]. destruct (Hmf 8) as [-> ->]; [lia|]. done. }
  wprun; [by rewrite (proj2 (Z.eqb_neq f 0)) by lia|]. offs. rewrite F1, F2, F3, F4, Z.eqb_refl. cbn [andb].
  unfold shrunk. rewrite Erng. destruct (Z.eqb_spec sz size) as [<-|Hne].
  - rewrite !decide_True by done. wpcall (wp_carve_all m1 s b f cur sz e f0 f1 own U H1 Hb1 He Hf0 Hf1).
    intros r m' Hr'. eapply carved_before; [do 4 eapply keeps_tail; exact Hk1|done|intros d Hd; apply Hmf; lia|done].
  - rewrite !decide_False, (u64_small (cur + size)), (u64_small (sz - size)) by lia.
    wpcall (wp_carve_part (S n) m1 s b f cur sz e size f0 f1 own U H1 Hb1 He); try (done || lia).
    intros r m' Hr'. eapply carved_before; [do 4 eapply keeps_tail; exact Hk1|done|intros d Hd; apply Hmf; lia|done].
Qed.

(** ** The error paths *)

(** What an abandoned allocation leaves: the records [l] are free again, the
    rest is as before. *)
Definition undone own U m s (l : list Z) m' : Prop := ∃ s',
  mach m' s' own U ∧ keeps own U m m' ∧ same_tr m m' ∧ same_free L s s' ∧ ms_recs _ s' ≡ₚ l ++ ms_recs _ s.

Lemma wp_error_f0 m s e obj own U :
  mach m s (recr e :: recr obj :: own) U → 0 < e → 0 < obj → m.@(ent_object e) = obj →
  wp (error_f0 vmem e) m (λ _ m', undone own U m s [e; obj] m').
Proof.
  intros H He Ho Eo. unfold error_f0. wprun. rewrite Eo.
  eapply mach_perm in H; [|apply perm_swap].
  wpcall (wp_data_free L m s _ U obj H Ho). intros _ m1 (H1 & Hk1 & Ht1 & _). cbn [ms_ax ms_recs ms_free] in *.
  wpcall (wp_data_free L m1 _ _ U e H1 He). intros _ m2 (H2 & Hk2 & Ht2 & _). cbn [ms_ax ms_recs ms_free] in *.
  eexists. split; [exact H2|]. split_and!; [|by eapply same_tr_trans|done|done].
  eapply keeps_trans; [by eapply keeps_tail|done].
Qed.

Lemma wp_error_f1 m s e obj f0 own U :
  mach m s (recr f0 :: recr e :: recr obj :: own) U → 0 < f0 → 0 < e → 0 < obj → m.@(ent_object e) = obj →
  wp (error_f1 vmem e f0) m (λ _ m', undone own U m s [e; obj; f0] m').
Proof.
  intros H Hf He Ho Eo. unfold error_f1. wprun.
  wpcall (wp_data_free L m s _ U f0 H Hf). intros _ m1 (H1 & Hk1 & Ht1 & _).
  wpcall (wp_error_f0 m1 _ e obj own U H1 He Ho).
  { rewrite Hk1; [done|]. right. right. apply covers_cons. left. offs. apply recr_in. lia. }
  intros _ m2 (s2 & H2 & Hk2 & Ht2 & Hs2 & Hr2). exists s2. split_and!; [done| |by eapply same_tr_trans|done|].
  - eapply keeps_trans; [do 2 eapply keeps_tail; exact Hk1|done].
  - by rewrite Hr2.
Qed.

Context (Hl : layout_ok L) (fuel : nat) (Hfuel : (ly_pages L + 1 < fuel)%nat).

Lemma wp_error_page m s e obj f0 f1 ps v own U :
  mach m s (pages_own L ps ++ recr f1 :: recr f0 :: recr e :: recr obj :: own) U →
  0 < f1 → 0 < f0 → 0 < e → 0 < obj → m.@(ent_object e) = obj → m.@(ent_start e) = v →
  plist L m (m.@(obj_pages obj)) ps → (length ps < fuel)%nat →
  0 <= v → v mod 4096 = 0 → v + 4096 * Z.of_nat (length ps) <= 2 ^ 48 →
  (∀ v', v <= v' < v + 4096 * Z.of_nat (length ps) → ∃ a, ax_tr m v' = Some (a, ly_rw L, ly_us L, ax_kind 0)) →
  wp (error_page fuel true vmem e f0 f1) m (λ _ m', ∃ s',
    mach m' s' own U ∧ keeps own U m m' ∧
    (∀ v', 0 <= v' < 2 ^ 48 → ax_tr m' v' =
       if decide (v <= v' < v + 4096 * Z.of_nat (length ps)) then None else ax_tr m v') ∧
    (∀ x, free_at (ms_free _ s') x ↔ free_at (ms_free _ s) x ∨ frames_at L ps x) ∧
    ms_recs _ s' ≡ₚ [e; obj; f0; f1] ++ ps.*1 ++ ms_recs _ s).
Proof using Hl Hfuel.
  intros H Hf1 Hf0 He Ho Eo Ev Hpl Hlen Hv Hvm Hvt Hm. unfold error_page. wprun. rewrite Eo, Ev.
  wpcall (wp_unmap_pages L Hl fuel Hfuel fuel ps v _ m s _ U H Hpl); try done.
  intros _ m1 (s1 & H1 & Hk1 & Hw1 & Hs1 & Hr1). wprun.
  wpcall (wp_data_free L m1 s1 _ U f1 H1 Hf1). intros _ m2 (H2 & Hk2 & Ht2 & _). wprun.
  wpcall (wp_error_f1 m2 _ e obj f0 own U H2 Hf0 He Ho).
  { assert (covers (recr f0 :: recr e :: recr obj :: own) (ent_object e)) as Hc.
    { apply covers_cons. right. apply covers_cons. left. offs. apply recr_in. lia. }
    rewrite Hk2 by auto. rewrite Hk1; [done|]. right. right. apply covers_cons. by right. }
  intros _ m3 (s3 & H3 & Hk3 & Ht3 & Hs3 & Hr3). exists s3. split_and!; [done| | | |].
  - eapply keeps_trans; [do 4 eapply keeps_tail; exact Hk1|].
    eapply keeps_trans; [do 3 eapply keeps_tail; exact Hk2|done].
  - intros v' Hv'. rewrite Ht3, Ht2 by done. by apply Hw1.
  - intros x. rewrite (Hs3 x). cbn [ms_free]. apply Hs1.
  - rewrite Hr3. cbn [ms_recs]. rewrite Hr1. done.
Qed.

(** ** Committing an allocation *)

Definition leak (size sz f1 : Z) : list (Z * Z) := if decide (size = sz) then [] else [recr f1].

Lemma wp_commit m s b f cur sz e size f0 f1 own U ret :
  bk_rng b = Some (f, cur, sz) → mach m s (recr e :: recr f0 :: recr f1 :: bump_own b ++ own) U → bump_at m b →
  m.@(ent_start e) = cur → m.@(ent_size e) = size → 0 < size <= sz → size mod 4096 = 0 →
  0 < e → 0 < f0 → 0 < f1 → (length (bk_ents b) < fuel)%nat →
  wp (commit_entry false true fuel vmem (bk b) f e f0 f1 ret) m (λ r m', r = ret ∧ ∃ s',
    mach m' s' (bump_own (shrunk (with_entry b e) size f0) ++ (cur, size) :: leak size sz f1 ++ own) U ∧
    bump_at m' (shrunk (with_entry b e) size f0) ∧ keeps own U m m' ∧ same_tr m m' ∧
    ms_free _ s' = ms_free _ s ∧ (∀ d, 0 <= d < 40 → m'.@(e + d) = m.@(e + d)) ∧
    ms_recs _ s' = f :: (if decide (size = sz) then [f1; f0] else []) ++ ms_recs _ s).
Proof using.
  clear Hl Hfuel. intros Erng H Hb Es Ez Hsz Hszm He Hf0 Hf1 Hfu. unfold commit_entry. apply wp_bind.
  pose proof Hb as (_ & _ & _ & _ & Hr). rewrite Erng in Hr. destruct Hr as (_ & Hf & Hc & _).
  eapply (mach_perm L m s _ (recr e :: bump_own b ++ recr f0 :: recr f1 :: own)) in H; [|perm].
  wpcall (wp_entry_add fuel m s b e _ U H Hb He); [by rewrite Es|done|].
  intros r m1 (-> & H1 & Hb1 & Hk1 & Ht1 & Hme). cbn [Z.ltb Z.compare]. wprun.
  eapply (mach_perm L m1 s _ (recr f0 :: recr f1 :: bump_own (with_entry b e) ++ own)) in H1; [|perm].
  change (bk b) with (bk (with_entry b e)).
  wpcall (wp_carve fuel m1 s (with_entry b e) f cur sz e size f0 f1 own U); try done.
  { unfold with_entry. cbn [bk_ents]. set_solver. }
  { offs. rewrite <-Es. pose proof (Hme 0) as E. rewrite Z.add_0_r in E. apply E. lia. }
  { rewrite <-Ez. apply Hme. lia. }
  { lia. }
  intros [status f'] m2 ([= -> ->] & s2 & H2 & Hb2 & Hk2 & Ht2 & Hs2 & Hme2 & Hr2). cbn [Z.eqb negb]. wprun.
  wpcall (wp_data_free L m2 s2 _ U f H2 Hf). intros _ m3 (H3 & Hk3 & Ht3 & _). wprun. split; [done|].
  assert (∀ d, 0 <= d < 40 → m3.@(e + d) = m2.@(e + d)) as Hme3.
  { intros d Hd. apply Hk3. right. right. apply covers_app. left. unfold shrunk, with_entry. cbn [bk bk_hdr bk_ents bk_rng].
    rewrite Erng. unfold bump_own. cbn [bk bk_hdr bk_ents bk_rng]. apply covers_cons. right. apply covers_app. left.
    exists (recr e). split; [apply list_elem_of_fmap_2; set_solver|apply recr_in; lia]. }
  eexists. split; [exact H3|]. split_and!.
  - eapply bump_keeps; [|done]. intros x Hx. apply Hk3. right. right. apply covers_app. by left.
  - eapply keeps_trans; [do 2 eapply keeps_tail; exact Hk1|]. eapply keeps_trans; [done|].
    eapply keeps_sub; [|exact Hk3]. intros x Hx. apply covers_app. right. apply covers_cons. right. apply covers_app. by right.
  - do 2 (eapply same_tr_trans; [done|]). done.
  - done.
  - intros d Hd. by rewrite Hme3, Hme2, Hme.
  - cbn [ms_recs]. by rewrite Hr2.
Qed.

(** ** [_alloc_pages_block] *)

Context (stk : Z).

(** The free range is not mapped. *)
Definition unmapped m b : Prop :=
  match bk_rng b with None => True | Some (_, cur, sz) => ∀ v, cur <= v < cur + sz → ax_tr m v = None end.

(** The entry [e] of [nr] pages from [p], its object [obj] and its pages [ps]. *)
Definition allocated m (p nr e obj : Z) (ps : list (Z * Z)) : Prop :=
  m.@(ent_start e) = p ∧ entry_at m e obj nr ∧ plist L m (m.@(obj_pages obj)) ps ∧ Z.of_nat (length ps) = nr.

(** The result [p] of an allocation of [nr] pages from the block [b]. *)
Definition block_post b own U m s nr (p : Z) m' : Prop := ∃ s',
  keeps own U m m' ∧
  ((p = 0 ∧ mach m' s' ((stk, 16) :: bump_own b ++ own) U ∧ bump_at m' b ∧ same_tr m m' ∧
    same_free L s s' ∧ ms_recs _ s' ≡ₚ ms_recs _ s) ∨
   (∃ f sz ps e obj f0 f1, bk_rng b = Some (f, p, sz) ∧ nr * 4096 <= sz ∧
      mach m' s' ((stk, 16) :: bump_own (shrunk (with_entry b e) (nr * 4096) f0) ++
        (p, nr * 4096) :: leak (nr * 4096) sz f1 ++ pages_own L ps ++ recr obj :: own) U ∧
      bump_at m' (shrunk (with_entry b e) (nr * 4096) f0) ∧ allocated m' p nr e obj ps ∧
      (∀ v', 0 <= v' < 2 ^ 48 → ax_tr m' v' = tr_over L ps p v' (ax_tr m v')) ∧
      (∀ x, free_at (ms_free _ s) x ↔ free_at (ms_free _ s') x ∨ frames_at L ps x) ∧
      (e :: obj :: f0 :: f1 :: ps.*1) ++ ms_recs _ s' ≡ₚ
        f :: (if decide (nr * 4096 = sz) then [f1; f0] else []) ++ ms_recs _ s)).

(** The part after the records are there. *)
Definition alloc_tail (block f e f0 f1 nr : Z) : M Z :=
  fs ← ld (free_start f);
  _ ← st (ent_start e) (place_entry false fs);
  obj ← ld (ent_object e);
  ok ← block_pages_loop fuel fuel vmem e nr (ly_zone L) (ly_dom L) 0 (obj_pages obj);
  if negb ok then _ ← error_page fuel true vmem e f0 f1; mret 0 else
  start ← ld (ent_start e);
  commit_entry false true fuel vmem block f e f0 f1 start.

(** Its outcome: all undone, or the range [cur] for the entry [e]. *)
Definition tail_post b f cur sz e obj f0 f1 nr own U m s (p : Z) m' : Prop := ∃ s',
  keeps own U m m' ∧
  ((p = 0 ∧ mach m' s' ((stk, 16) :: bump_own b ++ own) U ∧ bump_at m' b ∧ same_tr m m' ∧
    same_free L s s' ∧ ms_recs _ s' ≡ₚ [e; obj; f0; f1] ++ ms_recs _ s) ∨
   (p = cur ∧ ∃ ps,
      mach m' s' ((stk, 16) :: bump_own (shrunk (with_entry b e) (nr * 4096) f0) ++
        (cur, nr * 4096) :: leak (nr * 4096) sz f1 ++ pages_own L ps ++ recr obj :: own) U ∧
      bump_at m' (shrunk (with_entry b e) (nr * 4096) f0) ∧ allocated m' cur nr e obj ps ∧
      (∀ v', 0 <= v' < 2 ^ 48 → ax_tr m' v' = tr_over L ps cur v' (ax_tr m v')) ∧
      (∀ x, free_at (ms_free _ s) x ↔ free_at (ms_free _ s') x ∨ frames_at L ps x) ∧
      ps.*1 ++ ms_recs _ s' ≡ₚ f :: (if decide (nr * 4096 = sz) then [f1; f0] else []) ++ ms_recs _ s)).

(** After the loop: the entry at [cur], the pages [ps] in its object. *)
Record paged b cur e obj f0 f1 nr own U m s ps m' s' : Prop := {
  pd_mach : mach m' s' (pages_own L ps ++ recr e :: recr obj :: recr f1 :: recr f0 :: bump_own b ++ (stk, 16) :: own) U;
  pd_keeps : keeps (recr f1 :: recr f0 :: bump_own b ++ (stk, 16) :: own) U m m';
  pd_start : m'.@(ent_start e) = cur;
  pd_entry : entry_at m' e obj nr;
  pd_pages : plist L m' (m'.@(obj_pages obj)) ps;
  pd_len : Z.of_nat (length ps) <= nr;
  pd_tr : ∀ v', 0 <= v' < 2 ^ 48 → ax_tr m' v' = tr_over L ps cur v' (ax_tr m v');
  pd_free : ∀ x, free_at (ms_free _ s) x ↔ free_at (ms_free _ s') x ∨ frames_at L ps x;
  pd_recs : ms_recs _ s ≡ₚ ps.*1 ++ ms_recs _ s';
}.

(** Outside the record that holds the link [pp], nothing else changed. *)
Lemma keepsx_keeps m s p q pp own U m' :
  mach m s (p :: recr q :: own) U → keepsx L pp (p :: recr q :: own) U m m' → inr (recr q) pp → keeps own U m m'.
Proof using.
  clear Hl Hfuel. intros H Hk Hin x Hx. apply Hk.
  - intros ->. destruct (mc_own _ _ _ _ _ H pp) as (_ & ? & ?); [rewrite !covers_cons; auto|].
    destruct Hx as [?|[?|Hx]]; [done|done|]. apply mach_drop in H. by apply (mach_apart L m s _ _ U _ H Hin).
  - rewrite !covers_cons. tauto.
Qed.

Section tail.
Context b f cur sz (Erng : bk_rng b = Some (f, cur, sz)).
Context e obj f0 f1 (He : 0 < e) (Ho : 0 < obj) (Hf0 : 0 < f0) (Hf1 : 0 < f1).
Context nr (Hnr : 1 <= nr < 512) (Hsz : nr * 4096 <= sz) own U m s (Hb : bump_at m b).

Lemma paged_block ps m' s' : paged b cur e obj f0 f1 nr own U m s ps m' s' → bump_at m' b ∧ keeps own U m m'.
Proof using Hb Hnr.
  intros [_ Hk _ _ _ _ _ _ _]. split.
  - eapply bump_keeps; [|exact Hb]. intros x Hx. apply Hk. right. right. rewrite !covers_cons, covers_app. tauto.
  - eapply keeps_sub; [|exact Hk]. intros x Hx. rewrite !covers_cons, covers_app, covers_cons. tauto.
Qed.

Lemma wp_tail_done ps m2 s2 : paged b cur e obj f0 f1 nr own U m s ps m2 s2 → Z.of_nat (length ps) = nr →
  (length (bk_ents b) < fuel)%nat →
  wp (commit_entry false true fuel vmem (bk b) f e f0 f1 cur) m2 (tail_post b f cur sz e obj f0 f1 nr own U m s).
Proof using Erng He Hf0 Hf1 Hnr Hsz Hb Hfuel.
  intros Hpd Hps Hlen. destruct (paged_block _ _ _ Hpd) as [Hb2 HkR]. destruct Hpd as [H2 _ Es Hent Hpl _ Hw Hs2 Hr2].
  eapply (mach_perm L m2 s2 _ (recr e :: recr f0 :: recr f1 :: bump_own b ++ pages_own L ps ++ recr obj :: (stk, 16) :: own)) in H2;
    [|perm].
  assert (nr * 4096 mod 4096 = 0) as Hal by (apply Z.mod_mul; lia).
  wpcall (wp_commit m2 s2 b f cur sz e (nr * 4096) f0 f1 _ U cur Erng H2 Hb2); try (done || lia); [apply Hent|].
  intros p m3 (-> & s3 & H3 & Hb3 & Hk3 & Ht3 & Hs3 & Hme3 & Hr3). exists s3.
  split; [|right; split; [done|]; exists ps; split_and!].
  - eapply keeps_trans; [exact HkR|]. eapply keeps_sub; [|exact Hk3].
    intros x Hx. rewrite covers_app, !covers_cons. auto.
  - eapply mach_perm; [|exact H3]. perm.
  - done.
  - unfold allocated, entry_at in *. pose proof (Hme3 0) as E0. rewrite Z.add_0_r in E0. offs.
    rewrite E0, !Hme3 by lia. split_and!; try apply Hent; [done| |lia].
    rewrite Hk3.
    + eapply plist_keeps; [exact Hpl|]. intros x Hx. apply Hk3. right. right. apply covers_app. by left.
    + right. right. apply covers_app. right. apply covers_cons. left. apply recr_in. lia.
  - intros v' Hv'. by rewrite Ht3, Hw.
  - intros x. by rewrite Hs2, Hs3.
  - rewrite Hr3, Hr2. perm.
Qed.

Lemma wp_tail_undo ps m2 s2 : paged b cur e obj f0 f1 nr own U m s ps m2 s2 → unmapped m b → (512 <= fuel)%nat →
  wp (_ ← error_page fuel true vmem e f0 f1; mret 0) m2 (tail_post b f cur sz e obj f0 f1 nr own U m s).
Proof using Erng He Ho Hf0 Hf1 Hnr Hsz Hb Hl Hfuel.
  intros Hpd Hun H512. destruct (paged_block _ _ _ Hpd) as [Hb2 HkR]. destruct Hpd as [H2 _ Es Hent Hpl Hle Hw Hs2 Hr2].
  pose proof Hb as (_ & _ & _ & _ & Hr). unfold unmapped in Hun. rewrite Erng in Hr, Hun.
  destruct Hr as (_ & _ & Hc & Hcm & _ & _ & Hend).
  eapply (mach_perm L m2 s2 _ (pages_own L ps ++ recr f1 :: recr f0 :: recr e :: recr obj :: (stk, 16) :: bump_own b ++ own)) in H2;
    [|perm].
  apply wp_bind. wpcall (wp_error_page m2 s2 e obj f0 f1 ps cur _ U H2); try (done || lia); [apply Hent| |].
  { intros v' Hv'. rewrite Hw by lia. by apply tr_over_in. }
  intros _ m3 (s3 & H3 & Hk3 & Hw3 & Hs3 & Hr3). wprun. exists s3. split; [|left; split_and!; [done|done|..]].
  - eapply keeps_trans; [exact HkR|]. eapply keeps_sub; [|exact Hk3].
    intros x Hx. apply covers_cons. right. apply covers_app. by right.
  - eapply bump_keeps; [|exact Hb2]. intros x Hx. apply Hk3. right. right.
    apply covers_cons. right. apply covers_app. by left.
  - intros v' Hv'. rewrite Hw3, Hw by done. case_decide as Hd; [symmetry; apply Hun; lia|]. by apply tr_over_out.
  - intros x. rewrite Hs3, Hs2. done.
  - rewrite Hr3, Hr2. done.
Qed.

Lemma wp_alloc_tail :
  mach m s (recr f1 :: recr f0 :: recr e :: recr obj :: (stk, 16) :: bump_own b ++ own) U →
  unmapped m b → entry_at m e obj nr → m.@(obj_pages obj) = 0 →
  (length (bk_ents b) < fuel)%nat → (512 <= fuel)%nat →
  wp (alloc_tail (bk b) f e f0 f1 nr) m (tail_post b f cur sz e obj f0 f1 nr own U m s).
Proof using Erng He Ho Hf0 Hf1 Hnr Hsz Hb Hl Hfuel.
  intros H Hun (Fz & Ff & Fo) Fp Hlen H512.
  pose proof Hb as (_ & _ & _ & _ & Hr). pose proof Hun as Hun'. unfold unmapped in Hun'. rewrite Erng in Hr, Hun'.
  destruct Hr as ((_ & _ & R1 & _) & _ & Hc & Hcm & _ & _ & Hend).
  unfold alloc_tail, place_entry. wprun. rewrite R1. set (m1 := m.[ent_start e <- cur]).
  eapply (mach_perm L m s _ (recr e :: recr obj :: recr f1 :: recr f0 :: bump_own b ++ (stk, 16) :: own)) in H; [|perm].
  destruct (mach_fill L m m1 s _ _ U H) as (H1 & Hk1 & Ht1).
  { intros x Hx. apply rd_wr_ne. intros <-. apply Hx. unfold inr, recr, sizeof_data; offs; cbn [fst snd]; lia. }
  assert (m1.@(ent_object e) = obj) as -> by (unfold m1; offs; by rewrite rd_wr_ne by lia).
  assert (apart e obj) as Heo by (eapply mach_recs; [exact H1|apply elem_of_cons; by left]).
  unfold apart, sizeof_data in Heo.
  wpcall (wp_block_pages_loop L Hl fuel Hfuel fuel nr 0 (obj_pages obj) m1 s _ U e cur H1); try (done || lia).
  { apply covers_cons. left. offs. apply recr_in. lia. }
  { apply covers_cons. left. unfold inr, recr, sizeof_data; offs; cbn [fst snd]; lia. }
  { apply covers_cons. right. apply covers_cons. left. offs. apply recr_in. lia. }
  { offs. lia. } { offs. lia. }
  { unfold m1. offs. by rewrite rd_wr_ne by lia. } { apply rd_wr_eq. }
  { unfold m1. offs. by rewrite rd_wr_ne by lia. }
  { intros v' Hv'. rewrite Ht1 by lia. apply Hun'. lia. }
  intros ok m2 (s2 & ps & Hk2 & H2 & Hpl & Hle & Hok & Hw2 & Hs2 & Hr2). rewrite Z.add_0_r in Hw2.
  assert (∀ d, 0 <= d < 64 → m2.@(e + d) = m1.@(e + d)) as Hme.
  { intros d Hd. apply Hk2; [offs; lia|]. right. right. apply covers_cons. left. by apply recr_in. }
  assert (m2.@(ent_start e) = cur ∧ entry_at m2 e obj nr) as [Es Hent].
  { unfold entry_at. pose proof (Hme 0) as E0. rewrite Z.add_0_r in E0. offs. rewrite E0, !Hme by lia.
    unfold m1. by rewrite rd_wr_eq, !rd_wr_ne by lia. }
  assert (paged b cur e obj f0 f1 nr own U m s ps m2 s2) as Hpd.
  { constructor; try done; [|by intros v' Hv'; rewrite Hw2, Ht1].
    eapply keeps_trans; [eapply keeps_tail; exact Hk1|]. eapply keepsx_keeps; [exact H1|exact Hk2|]. offs. apply recr_in. lia. }
  destruct ok; cbn [negb]; [|by eapply wp_tail_undo]. specialize (Hok eq_refl).
  wprun. rewrite Es. eapply wp_tail_done; [done|lia|done].
Qed.
End tail.

Lemma tail_block_post b f cur sz e obj f0 f1 nr own U m s m4 s4 p m' :
  bk_rng b = Some (f, cur, sz) → nr * 4096 <= sz → keeps own U m m4 → same_tr m m4 → same_free L s s4 →
  ms_recs _ s ≡ₚ e :: obj :: f0 :: f1 :: ms_recs _ s4 →
  tail_post b f cur sz e obj f0 f1 nr own U m4 s4 p m' → block_post b own U m s nr p m'.
Proof using.
  clear Hl Hfuel. intros Erng Hsz Hk Ht Hs Hr (s5 & Hk5 & Hout). exists s5. split; [by eapply keeps_trans|].
  destruct Hout as [(-> & H5 & Hb5 & Ht5 & Hs5 & Hr5)|(-> & ps & H5 & Hb5 & Hal & Hw5 & Hs5 & Hr5)]; [left|right].
  - split_and!; [done|done|done|by eapply same_tr_trans| |].
    + intros x. rewrite (Hs5 x). apply Hs.
    + by rewrite Hr5, Hr.
  - exists f, sz, ps, e, obj, f0, f1. split_and!; try done.
    + intros v' Hv'. by rewrite Hw5, Ht.
    + intros x. rewrite <-(Hs x). apply Hs5.
    + rewrite Hr. cbn [app]. rewrite Hr5. case_decide; perm.
Qed.

(** The four records of an allocation, with [k] as the rest of the function. *)
Definition with_records (nr : Z) (k : Z → Z → Z → M Z) : M Z :=
  e ← new_entry vmem nr None;
  if e =? 0 then mret 0 else
  f0 ← data_alloc vmem;
  if f0 =? 0 then _ ← error_f0 vmem e; mret 0 else
  f1 ← data_alloc vmem;
  if f1 =? 0 then _ ← error_f1 vmem e f0; mret 0 else
  k e f0 f1.

Lemma wp_with_records m s nr k own U (Φ : Z → gmap Z Z → Prop) :
  mach m s own U → 0 <= nr < 512 →
  (∀ m', undone own U m s [] m' → Φ 0 m') →
  (∀ e obj f0 f1 m' s', 0 < e → 0 < obj → 0 < f0 → 0 < f1 →
     mach m' s' (recr f1 :: recr f0 :: recr e :: recr obj :: own) U → keeps own U m m' → same_tr m m' →
     same_free L s s' → entry_at m' e obj nr → m'.@(obj_pages obj) = 0 →
     ms_recs _ s ≡ₚ e :: obj :: f0 :: f1 :: ms_recs _ s' → wp (k e f0 f1) m' Φ) →
  wp (with_records nr k) m Φ.
Proof using.
  clear Hl Hfuel. intros H Hnr Hfail Hok. unfold with_records. apply wp_bind.
  wpcall (wp_new_entry m s own U nr H Hnr).
  intros e m2 (s2 & Hk2 & Ht2 & Hs2 & [(-> & H2 & Hr2)|(He & obj & Ho & H2 & Hent & Hpg & Hr2)]).
  { cbn [Z.eqb]. wprun. apply Hfail. by exists s2. }
  rewrite (proj2 (Z.eqb_neq e 0)) by lia. apply wp_bind.
  wpcall (wp_data_alloc L m2 s2 _ U H2).
  intros f0 m3 [(-> & -> & El)|(Hf0 & l & El & H3 & Hk3 & Ht3 & _)].
  { cbn [Z.eqb]. apply wp_bind. wpcall (wp_error_f0 m2 s2 e obj own U H2 He Ho); [apply Hent|].
    intros _ m4 (s4 & H4 & Hk4 & Ht4 & Hs4 & Hr4). wprun. apply Hfail. exists s4.
    split_and!; [done|by eapply keeps_trans|by eapply same_tr_trans| |by rewrite Hr4, Hr2].
    intros x. by rewrite (Hs4 x), (Hs2 x). }
  rewrite (proj2 (Z.eqb_neq f0 0)) by lia. apply wp_bind.
  wpcall (wp_data_alloc L m3 _ _ U H3). cbn [ms_ax ms_recs ms_free].
  assert (m3.@(ent_object e) = obj) as Eo3.
  { rewrite Hk3; [apply Hent|]. right. right. apply covers_cons. left. offs. apply recr_in. lia. }
  assert (keeps own U m m3) as Hk03 by (eapply keeps_trans; [done|do 2 eapply keeps_tail; exact Hk3]).
  intros f1 m4 [(-> & -> & El4)|(Hf1 & l4 & El4 & H4 & Hk4 & Ht4 & _)]; cbn [ms_ax ms_recs ms_free] in *.
  { cbn [Z.eqb]. apply wp_bind. wpcall (wp_error_f1 m3 _ e obj f0 own U H3 Hf0 He Ho Eo3).
    intros _ m5 (s5 & H5 & Hk5 & Ht5 & Hs5 & Hr5). wprun. apply Hfail. exists s5. cbn [ms_ax ms_recs ms_free] in *.
    split_and!; [done|by eapply keeps_trans|do 2 (eapply same_tr_trans; [done|]); done| |].
    - intros x. rewrite (Hs5 x). apply Hs2.
    - rewrite Hr5, Hr2, El. perm. }
  rewrite (proj2 (Z.eqb_neq f1 0)) by lia.
  assert (keeps (recr e :: recr obj :: own) U m2 m4) as Hk24 by (eapply keeps_trans; [done|by eapply keeps_tail]).
  apply (Hok e obj f0 f1 m4 (Mst L (ms_ax _ s2) l4 (ms_free _ s2))); try done.
  - eapply keeps_trans; [exact Hk2|do 2 eapply keeps_tail; exact Hk24].
  - do 2 (eapply same_tr_trans; [done|]). done.
  - unfold entry_at in *. offs. rewrite !Hk24; [done|..]; right; right; apply covers_cons; left; apply recr_in; lia.
  - rewrite Hk24; [done|]. right. right. apply covers_cons. right. apply covers_cons. left. offs. apply recr_in. lia.
  - cbn [ms_recs]. rewrite Hr2, El, El4. perm.
Qed.

Lemma wp_alloc_pages_block m s b nr own U :
  mach m s ((stk, 16) :: bump_own b ++ own) U → bump_at m b → unmapped m b →
  1 <= nr < 512 → (length (bk_ents b) < fuel)%nat → (512 <= fuel)%nat →
  wp (_alloc_pages_block stk fuel vmem (bk b) nr (ly_zone L) (ly_dom L)) m (block_post b own U m s nr).
Proof using Hl Hfuel.
  intros H Hb Hun Hnr Hlen H512. unfold _alloc_pages_block, MEMORY_PAGESIZE.
  rewrite (u64_small (nr * 4096)) by lia.
  rewrite (proj2 (Z.leb_gt MEMORY_SUPERPAGESIZE (nr * 4096))) by (unfold MEMORY_SUPERPAGESIZE; lia).
  set (O := (stk, 16) :: bump_own b ++ own) in *.
  assert (∀ x, covers (bump_own b) x ∨ covers own x → covers O x) as HO.
  { intros x Hx. unfold O. rewrite covers_cons, covers_app. tauto. }
  apply wp_bind. wpcall (wp_search_fit_size fuel stk b own U m s (nr * 4096) H Hb); [lia|].
  intros f m1 (H1 & Hk1 & Ht1 & Ef).
  assert (bump_at m1 b ∧ keeps own U m m1) as [Hb1 Hk1'].
  { split; [eapply bump_keeps; [|exact Hb]; intros x Hx; apply Hk1; right; right|eapply keeps_sub; [|exact Hk1]; intros x Hx];
      rewrite covers_app; tauto. }
  (* a failure after the search leaves the block as it was *)
  assert (∀ m', undone O U m1 s [] m' → block_post b own U m s nr 0 m') as Hfail.
  { intros m' (s' & H' & Hk' & Ht' & Hs' & Hr'). exists s'. split; [|left; split_and!; try done].
    - eapply keeps_trans; [done|]. eapply keeps_sub; [|exact Hk']. auto.
    - eapply bump_keeps; [|exact Hb1]. intros x Hx. apply Hk'. auto.
    - by eapply same_tr_trans. }
  destruct (Z.eqb_spec f 0) as [->|Hf]; [wprun; apply Hfail; by exists s|].
  destruct (bk_rng b) as [[[f' cur] sz]|] eqn:Erng; [|done].
  destruct (Z.ltb_spec sz (nr * 4096)) as [?|Hsz]; [done|]. subst f'.
  change (wp (with_records nr (λ e f0 f1, alloc_tail (bk b) f e f0 f1 nr)) m1 (block_post b own U m s nr)).
  apply (wp_with_records m1 s nr _ O U); [done|lia|done|]. clear Hfail.
  intros e obj f0 f1 m4 s4 He Ho Hf0 Hf1 H4 Hk4 Ht4 Hs4 Hent Hpg Hr4.
  assert (same_tr m m4) as Ht4' by (by eapply same_tr_trans).
  pose proof Hb as (_ & _ & _ & _ & Hr). rewrite Erng in Hr. destruct Hr as (_ & _ & Hc0 & _ & _ & _ & Hend0).
  wpcall (wp_alloc_tail b f cur sz Erng e obj f0 f1 He Ho Hf0 Hf1 nr Hnr Hsz own U m4 s4); try (done || lia).
  - eapply bump_keeps; [|exact Hb1]. intros x Hx. apply Hk4. auto.
  - unfold unmapped in *. rewrite Erng in *. intros v Hv. rewrite Ht4' by lia. by apply Hun.
  - intros p m5 Hp. eapply tail_block_post; [exact Erng|exact Hsz| |exact Ht4'|exact Hs4|exact Hr4|exact Hp].
    eapply keeps_trans; [exact Hk1'|]. eapply keeps_sub; [|exact Hk4]. auto.
Qed.
End block.
