(* ===== verification/AllocTheorems.v ===== *)
(** * Allocating pages: theorems on memory.c

    [memory_alloc_pages] end to end, over all blocks of the address space,
    with the roll-back when a record, a frame or a page of the page table is
    missing; and the kernel's page allocator as the interface of the slab
    allocator. *)

From S2P Require Import Prelude CMonad PhysMem KString Tree Pgt PgtTheorems PgtRange Kmem KmemTheorems Memory Buddy BuddyTheorems AllocInv AllocPages AllocBlock.

(** ** The address space *)

Lemma mid_elem {A} (b2 b : A) bs1 bs2 : b2 ∈ bs1 ++ b :: bs2 → b2 = b ∨ b2 ∈ bs1 ++ bs2.
Proof. set_solver. Qed.

Section vmm.
Context {AM : ArchMemory} {DA : DataAllocator} (L : layout).
Context {AL : ArchMemoryLaws (ly_arch L)} {DL : DataAllocatorLaws (ly_vmem L)}.
Context (stk : Z).
Abbreviation vmem := (ly_vmem L).
Abbreviation mach := (mach L).
Abbreviation keeps := (keeps L).
Abbreviation mst := (mst L).
Abbreviation same_tr := (same_tr L).
Implicit Types (m : gmap Z Z) (s : mst) (own : list (Z * Z)) (U : Z → Prop) (b : bump) (bs : list bump).

Definition blocks_own bs : list (Z * Z) := bs ≫= bump_own.

(** The blocks [bs] in the order of their list; [junk] are the other regions
    in use: pages, frames, objects. *)
Record vmm m s bs junk U : Prop := {
  vm_mach : mach m s ((stk, 16) :: blocks_own bs ++ junk) U;
  vm_blocks : chain 16 m (vmem_blocks vmem) (bk <$> bs);
  vm_at b : b ∈ bs → bump_at m b;
  vm_unmapped b : b ∈ bs → unmapped L m b;
}.

(** Regions go to the clients. *)
Lemma mach_give m s r own U : mach m s (r :: own) U → mach m s own (λ x, U x ∨ inr r x).
Proof.
  intros H. pose proof (mach_drop L _ _ _ _ _ H) as H'. constructor; try apply H'.
  - intros x Hx. destruct (mc_own _ _ _ _ _ H' x Hx) as (? & ? & ?). split_and!; try done.
    intros [?|Hr]; [done|]. by apply (mach_apart L _ _ _ _ _ x H Hr).
  - intros x [[?|Hr]|?]; [apply (mc_client _ _ _ _ _ H); by left| |apply (mc_client _ _ _ _ _ H); by right].
    apply (mc_own _ _ _ _ _ H). apply covers_cons. by left.
  - intros x [?|Hr]; [by apply (mc_apart _ _ _ _ _ H)|]. apply (mc_own _ _ _ _ _ H). apply covers_cons. by left.
Qed.

Lemma vmm_give m s bs r junk U : vmm m s bs (r :: junk) U → vmm m s bs junk (λ x, U x ∨ inr r x).
Proof.
  intros [H ? ? ?]. constructor; try done. apply mach_give. eapply mach_perm; [|exact H]. perm.
Qed.
Lemma vmm_perm m s bs junk junk' U : junk ≡ₚ junk' → vmm m s bs junk U → vmm m s bs junk' U.
Proof. intros E [H ? ? ?]. constructor; try done. eapply mach_perm; [|exact H]. by rewrite E. Qed.

Lemma blocks_own_app bs bs' : blocks_own (bs ++ bs') = blocks_own bs ++ blocks_own bs'.
Proof. apply bind_app. Qed.
Lemma blocks_own_cons b bs : blocks_own (b :: bs) = bump_own b ++ blocks_own bs.
Proof. done. Qed.
Lemma blocks_covers b bs x : b ∈ bs → covers (bump_own b) x → covers (blocks_own bs) x.
Proof.
  intros Hb (r & Hr & Hx). exists r. split; [|done]. apply list_elem_of_bind. by exists b.
Qed.

(** The list of blocks depends on its head and on the records of the blocks. *)
Lemma blocks_keeps m m' c bs :
  m'.@c = m.@c → (∀ b, b ∈ bs → m'.@(blk_next (bk b)) = m.@(blk_next (bk b))) →
  chain 16 m c (bk <$> bs) → chain 16 m' c (bk <$> bs).
Proof.
  intros Hc Hb. apply chain_frame. intros x. unfold cells. rewrite elem_of_cons. intros [->|Hx]; [done|].
  apply list_elem_of_fmap in Hx as (q & -> & (b & -> & Hin)%list_elem_of_fmap). by apply Hb.
Qed.

Lemma bump_next m m' b b' : bump_at m b → bump_at m' b' → bk b = bk b' → bk_hdr b = bk_hdr b' →
  m'.@(blk_next (bk b)) = m.@(blk_next (bk b)).
Proof.
  intros (_ & Hh & _) (_ & Hh' & _) E Eh. rewrite Eh, <-Hh' in Hh. rewrite <-E in Hh'. 
  injection Hh as _ _ Hn. by rewrite E at 1.
Qed.

(** What a request for [nr] pages does: nothing, or one block gives its first
    [nr] pages, each mapped to a frame of its own that was free. *)
Definition request_post bs junk U m s (nr p : Z) m' : Prop := ∃ s',
  keeps junk U m m' ∧
  ((p = 0 ∧ vmm m' s' bs junk U ∧ same_tr m m' ∧ same_free L s s' ∧ ms_recs _ s' ≡ₚ ms_recs _ s) ∨
   (∃ bs1 b bs2 f sz ps e obj f0 f1, bs = bs1 ++ b :: bs2 ∧ bk_rng b = Some (f, p, sz) ∧ nr * 4096 <= sz ∧
      vmm m' s' (bs1 ++ shrunk (with_entry b e) (nr * 4096) f0 :: bs2)
        ((p, nr * 4096) :: leak (nr * 4096) sz f1 ++ pages_own L ps ++ recr obj :: junk) U ∧
      allocated L m' p nr e obj ps ∧
      (∀ v', 0 <= v' < 2 ^ 48 → ax_tr m' v' = tr_over L ps p v' (ax_tr m v')) ∧
      (∀ x, free_at (ms_free _ s) x ↔ free_at (ms_free _ s') x ∨ frames_at L ps x) ∧
      (e :: obj :: f0 :: f1 :: ps.*1) ++ ms_recs _ s' ≡ₚ
        f :: (if decide (nr * 4096 = sz) then [f1; f0] else []) ++ ms_recs _ s)).

Context (Hl : layout_ok L) (fuel : nat) (Hfuel : (ly_pages L + 1 < fuel)%nat) (H512 : (512 <= fuel)%nat).

(** One block.  The other blocks keep their records, and the list its links. *)
Lemma others_keep m m' bs1 b bs2 junk U :
  (∀ b', b' ∈ bs1 ++ b :: bs2 → bump_at m b') → chain 16 m (vmem_blocks vmem) (bk <$> bs1 ++ b :: bs2) →
  keeps (blocks_own bs1 ++ blocks_own bs2 ++ junk) U m m' →
  (∀ b', b' ∈ bs1 ++ bs2 → bump_at m' b') ∧
  ∀ b', bump_at m' b' → bk b' = bk b → bk_hdr b' = bk_hdr b → chain 16 m' (vmem_blocks vmem) (bk <$> bs1 ++ b' :: bs2).
Proof using.
  clear Hl Hfuel H512. intros Hat Hch Hk.
  assert (∀ b', b' ∈ bs1 ++ bs2 → bump_at m' b') as Hat'.
  { intros b' Hb'. eapply bump_keeps; [|apply Hat; set_solver]. intros x Hx. apply Hk. right. right.
    rewrite !covers_app. apply elem_of_app in Hb' as [?|?]; [left|right; left]; by eapply blocks_covers. }
  split; [done|]. intros b' Hb' E Eh. rewrite fmap_app, fmap_cons, E, <-fmap_cons, <-fmap_app.
  eapply blocks_keeps; [|intros b2 Hb2|exact Hch].
  - apply Hk. right. left. unfold static. tauto.
  - apply elem_of_app in Hb2 as [Hb2|Hb2]; [|apply elem_of_cons in Hb2 as [->|Hb2]].
    + eapply (bump_next m m' b2 b2); [apply Hat; set_solver|apply Hat'; set_solver|done|done].
    + by eapply (bump_next m m' b b'); [apply Hat; set_solver|..].
    + eapply (bump_next m m' b2 b2); [apply Hat; set_solver|apply Hat'; set_solver|done|done].
Qed.

Lemma unmapped_keeps m m' b : bump_at m b → same_tr m m' → unmapped L m b → unmapped L m' b.
Proof using.
  clear Hl Hfuel H512. intros (_ & _ & _ & _ & Hr) Ht Hun. unfold unmapped in *.
  destruct (bk_rng b) as [[[f cur] sz]|]; [|done]. destruct Hr as (_ & _ & ? & _ & _ & _ & ?).
  intros v Hv. rewrite Ht by lia. by apply Hun.
Qed.

(** After an allocation from [p] no free range contains one of its pages. *)
Lemma unmapped_taken m m' s' b e f p sz f0 nr ps b2 own U :
  bk_rng b = Some (f, p, sz) → Z.of_nat (length ps) = nr → bump_at m' b2 →
  (∀ v', 0 <= v' < 2 ^ 48 → ax_tr m' v' = tr_over L ps p v' (ax_tr m v')) →
  mach m' s' ((p, nr * 4096) :: own) U →
  (b2 = shrunk (with_entry b e) (nr * 4096) f0 ∧ unmapped L m b ∨ unmapped L m b2 ∧ ∀ x, covers (bump_own b2) x → covers own x) →
  unmapped L m' b2.
Proof using.
  clear Hl Hfuel H512. intros Er Hlps (_ & _ & _ & _ & Hr2) Hw H' Hor. unfold unmapped at 1.
  destruct (bk_rng b2) as [[[f2 cur2] sz2]|] eqn:E2; [|done]. intros v Hv.
  destruct Hr2 as (_ & _ & ? & _ & _ & _ & ?).
  assert (¬ (p <= v < p + nr * 4096) ∧ ax_tr m v = None) as [Hout Hnone].
  { destruct Hor as [[-> Hun]|[Hun Hb2]]; unfold unmapped in Hun.
    - unfold shrunk in E2. cbn [with_entry bk bk_hdr bk_ents bk_rng] in E2. rewrite Er in E2, Hun. cbn [bk_rng] in E2.
      case_decide; [done|]. injection E2 as <- <- <-. split; [lia|]. apply Hun. lia.
    - rewrite E2 in Hun. split; [|by apply Hun]. intros Hin. apply (mach_apart L m' s' _ _ U v H' Hin), Hb2.
      unfold bump_own. rewrite E2. apply covers_cons. right. apply covers_app. right.
      apply covers_cons. right. apply covers_cons. by left. }
  rewrite Hw by lia. by rewrite tr_over_out by lia.
Qed.

Lemma wp_request_block m s bs1 b bs2 junk U nr :
  vmm m s (bs1 ++ b :: bs2) junk U → 1 <= nr < 512 → (length (bk_ents b) < fuel)%nat →
  wp (_alloc_pages_block stk fuel vmem (bk b) nr (ly_zone L) (ly_dom L)) m
    (request_post (bs1 ++ b :: bs2) junk U m s nr).
Proof using Hl Hfuel H512.
  intros [H Hch Hat Hun] Hnr Hlen.
  rewrite blocks_own_app, blocks_own_cons in H.
  eapply (mach_perm L m s _ ((stk, 16) :: bump_own b ++ blocks_own bs1 ++ blocks_own bs2 ++ junk)) in H; [|perm].
  assert (b ∈ bs1 ++ b :: bs2) as Hb by set_solver.
  wpcall (wp_alloc_pages_block L Hl fuel Hfuel stk m s b nr _ U H (Hat b Hb) (Hun b Hb) Hnr Hlen H512).
  intros p m' (s' & Hk & Hout). destruct (others_keep m m' bs1 b bs2 junk U Hat Hch Hk) as [Hat' Hch'].
  exists s'. split; [eapply keeps_sub; [|exact Hk]; intros x Hx; rewrite !covers_app; auto|].
  destruct Hout as [(-> & H' & Hb' & Ht & Hs & Hr)|(f & sz & ps & e & obj & f0 & f1 & Er & Hsz & H' & Hb' & Hal & Hw & Hs & Hr)];
    [left|right].
  - split_and!; try done. constructor.
    + eapply mach_perm; [|exact H']. rewrite blocks_own_app, blocks_own_cons. perm.
    + by apply Hch'.
    + intros b2 Hb2. destruct (mid_elem b2 b bs1 bs2 Hb2) as [->|?]; [done|by apply Hat'].
    + intros b2 Hb2. eapply unmapped_keeps; [by apply Hat|done|by apply Hun].
  - exists bs1, b, bs2, f, sz, ps, e, obj, f0, f1. split_and!; try done.
    set (b' := shrunk (with_entry b e) (nr * 4096) f0) in *.
    assert (bk b' = bk b ∧ bk_hdr b' = bk_hdr b) as [Eb Ebh].
    { unfold b', shrunk. cbn [with_entry bk bk_hdr bk_ents bk_rng]. by rewrite Er. }
    constructor.
    + eapply mach_perm; [|exact H']. rewrite blocks_own_app, blocks_own_cons. perm.
    + by apply Hch'.
    + intros b2 Hb2. destruct (mid_elem b2 b' bs1 bs2 Hb2) as [->|?]; [done|by apply Hat'].
    + intros b2 Hb2.
      eapply (mach_perm L m' s' _ ((p, nr * 4096) :: (stk, 16) :: bump_own b' ++ leak (nr * 4096) sz f1 ++
        pages_own L ps ++ recr obj :: blocks_own bs1 ++ blocks_own bs2 ++ junk)) in H'; [|perm].
      eapply (unmapped_taken m m' s' b e f p sz f0 nr ps b2); [done|apply Hal| |done|exact H'|].
      { destruct (mid_elem b2 b' bs1 bs2 Hb2) as [->|?]; [done|by apply Hat']. }
      destruct (mid_elem b2 b' bs1 bs2 Hb2) as [->|Hb2']; [left; split; [done|by apply Hun]|right].
      split; [apply Hun; set_solver|]. intros x Hc. rewrite !covers_cons, !covers_app, covers_cons, !covers_app.
      apply elem_of_app in Hb2' as [Hi|Hi]; pose proof (blocks_covers b2 _ x Hi Hc); tauto.
Qed.

(** A request after one that had no effect. *)
Lemma request_post_trans bs junk U m s m1 s1 nr p m' :
  keeps junk U m m1 → same_tr m m1 → same_free L s s1 → ms_recs _ s1 ≡ₚ ms_recs _ s →
  request_post bs junk U m1 s1 nr p m' → request_post bs junk U m s nr p m'.
Proof using.
  clear Hl Hfuel H512.
  intros Hk Ht Hs Hr (s' & Hk' & Hout). exists s'. split; [by eapply keeps_trans|].
  destruct Hout as [(-> & Hv & Ht' & Hs' & Hr')|(bs1 & b & bs2 & f & sz & ps & e & obj & f0 & f1 & Hout)]; [left|right].
  - split_and!; [done|done|by eapply same_tr_trans| |by rewrite Hr']. intros x. by rewrite (Hs' x), (Hs x).
  - destruct Hout as (? & ? & ? & ? & ? & Hw & Hfr & Hre).
    exists bs1, b, bs2, f, sz, ps, e, obj, f0, f1. split_and!; try done.
    + intros v Hv. by rewrite Hw, Ht.
    + intros x. by rewrite <-Hfr, (Hs x).
    + by rewrite Hre, Hr.
Qed.

Definition blk_of bs : Z := match bs with [] => 0 | b :: _ => bk b end.

Lemma wp_request_blocks k m s bs1 bs2 junk U nr :
  vmm m s (bs1 ++ bs2) junk U → 1 <= nr < 512 →
  (∀ b, b ∈ bs1 ++ bs2 → (length (bk_ents b) < fuel)%nat) → (length bs2 < k)%nat →
  wp (blocks_loop k (λ block, _alloc_pages_block stk fuel vmem block nr (ly_zone L) (ly_dom L)) (blk_of bs2) 0) m
    (request_post (bs1 ++ bs2) junk U m s nr).
Proof using Hl Hfuel H512.
  revert bs1 m s k. induction bs2 as [|b bs2 IH]; intros bs1 m s [|k] Hv Hnr Hlen Hk; cbn [length] in Hk; try lia;
    cbn [blocks_loop blk_of].
  { cbn [Z.eqb negb andb]. wprun. exists s. split; [done|]. left. done. }
  assert (b ∈ bs1 ++ b :: bs2) as Hb by set_solver.
  destruct (vm_at _ _ _ _ _ Hv b Hb) as (Hb0 & _). rewrite (proj2 (Z.eqb_neq (bk b) 0)) by lia.
  cbn [Z.eqb negb andb]. apply wp_bind. wpcall (wp_request_block m s bs1 b bs2 junk U nr Hv Hnr (Hlen b Hb)).
  intros p m1 Hpost. pose proof Hpost as (s1 & Hk1 & [(-> & Hv1 & Ht1 & Hs1 & Hr1)|
    (bs1' & b1 & bs2' & f & sz & ps & e & obj & f0 & f1 & Eb & Er & _ & _)]); wprun.
  - pose proof (vm_blocks _ _ _ _ _ Hv1) as Hch. rewrite fmap_app in Hch. apply chain_app in Hch as [_ Hch].
    cbn in Hch. destruct Hch as (_ & _ & Hch).
    assert (m1.@(blk_next (bk b)) = blk_of bs2) as -> by (destruct bs2; [exact Hch|by destruct Hch]).
    rewrite (cons_middle b), app_assoc in Hv1, Hlen |- *.
    wpcall (IH (bs1 ++ [b]) m1 s1 k Hv1 Hnr Hlen); [lia|].
    intros p m2. by apply request_post_trans.
  - assert (b1 ∈ bs1 ++ b :: bs2) as Hb1 by (rewrite Eb; set_solver).
    destruct (vm_at _ _ _ _ _ Hv b1 Hb1) as (_ & _ & _ & _ & Hr). rewrite Er in Hr. destruct Hr as (_ & _ & Hp & _).
    destruct k as [|k]; [lia|]. cbn [blocks_loop]. rewrite (proj2 (Z.eqb_neq p 0)), andb_false_r by lia. by wprun.
Qed.
End vmm.

Lemma memory_alloc_pages_spec {AM : ArchMemory} {DA : DataAllocator} (L : layout)
    {AL : ArchMemoryLaws (ly_arch L)} {DL : DataAllocatorLaws (ly_vmem L)} stk fuel m s bs junk U nr :
  layout_ok L → memory_kmem (ly_mem L) = ly_vmem L → vmm L stk m s bs junk U → 1 <= nr < 512 →
  (ly_pages L + 1 < fuel)%nat → (512 <= fuel)%nat → (length bs < fuel)%nat →
  (∀ b, b ∈ bs → (length (bk_ents b) < fuel)%nat) →
  wp (memory_alloc_pages stk fuel (ly_mem L) nr (ly_zone L) (ly_dom L)) m (request_post L stk bs junk U m s nr).
Proof.
  intros Hl Ek Hv Hnr Hf H512 Hb Hlen.
  unfold memory_alloc_pages. wprun. rewrite Ek. pose proof (vm_blocks _ _ _ _ _ _ _ Hv) as Hch.
  assert (m.@(vmem_blocks (ly_vmem L)) = blk_of bs) as -> by (destruct bs; [exact Hch|by destruct Hch]).
  by apply (wp_request_blocks L stk Hl fuel Hf H512 fuel m s [] bs).
Qed.

(** ** Properties *)

(** C6: [memory_alloc_pages] of less than a superpage always returns, on an
    address space whose blocks hand out their free range from the start, and
    either returns NULL and leaves every mapping, the free frames, the free
    records and all blocks as they were, or returns the first address of a
    free range: the pages from there on are mapped, each to a frame of its own
    that was free and is not free any more, no other mapping changes, the
    range is shrunk by exactly these pages and the entry is added to its
    block.  Nothing that clients or other parts of the memory manager use is
    written.  Stated of every page table and record allocator that keep their
    contracts. *)
Theorem memory_alloc_pages_correct {AM : ArchMemory} {DA : DataAllocator} (L : layout)
    {AL : ArchMemoryLaws (ly_arch L)} {DL : DataAllocatorLaws (ly_vmem L)}
    (stk : Z) (fuel : nat) (m : gmap Z Z) (s : mst L) (bs : list bump) (junk : list (Z * Z))
    (U : Z → Prop) (nr : Z) :
  layout_ok L → memory_kmem (ly_mem L) = ly_vmem L → vmm L stk m s bs junk U → 1 <= nr < 512 →
  (ly_pages L + 1 < fuel)%nat → (512 <= fuel)%nat → (length bs < fuel)%nat →
  (∀ b, b ∈ bs → (length (bk_ents b) < fuel)%nat) →
  ∃ p m', memory_alloc_pages stk fuel (ly_mem L) nr (ly_zone L) (ly_dom L) m = Ok p m' ∧
    request_post L stk bs junk U m s nr p m'.
Proof. apply memory_alloc_pages_spec. Qed.

(** A small machine: the example page table, a NUMA zone with eight free pages
    at 2 MiB, sixteen records at 0x8000 and one block with a free range of
    sixteen pages at 0x400000.  Beside it, the pointer at 0x7008 and the cells
    of a client: a lock at 0x7000 and a slab cache at 0x7100. *)
Definition alloc_hb : Z := zone_heads 0x2000 0.
Definition alloc_lay : layout :=
  {| ly_vmem := 0x4000; ly_arch := 64; ly_mem := 0x3ff8; ly_phys := 0x1000;
     ly_zone := MEMORY_ZONE_NUMA_AWARE; ly_dom := 0; ly_heads := alloc_hb; ly_p2v := 0; ly_flags := 8;
     ly_lo := 0x200000; ly_pages := 8 |}.

Definition alloc_recs : list Z := (λ i, 0x8000 + 64 * i) <$> seqZ 0 16.
Definition alloc_bump : bump := Bump 0x5000 (0x400000, 0x40ffff, 0) [] (Some (0x5040, 0x400000, 0x10000)).
Definition alloc_f (o : Z) : list Z := if decide (o = 3) then [0x200000] else [].
Definition alloc_U (x : Z) : Prop := 0x7000 <= x < 0x7008 ∨ 0x7100 <= x < 0x7170.

(** The zone alone. *)
Definition alloc_zone : gmap Z Z := ∅.[head alloc_hb 3 <- 0x200000].[phys_numazones 0x1000 <- 0x2000].

Definition alloc_ex : gmap Z Z :=
  pgt_ex.[head alloc_hb 3 <- 0x200000].[phys_numazones 0x1000 <- 0x2000]
    .[memory_phys 0x3ff8 <- 0x1000].[vmem_mem 0x4000 <- 0x3ff8].[vmem_blocks 0x4000 <- 0x5000]
    .[vmem_spec 0x4000 <- 0x8000].[vmem_flags 0x4000 <- 8].[vmem_arch 0x4000 <- 64]
    .[0x8000 <- 0x8040].[0x8040 <- 0x8080].[0x8080 <- 0x80c0].[0x80c0 <- 0x8100].[0x8100 <- 0x8140]
   .[0x8140 <- 0x8180].[0x8180 <- 0x81c0].[0x81c0 <- 0x8200].[0x8200 <- 0x8240].[0x8240 <- 0x8280]
   .[0x8280 <- 0x82c0].[0x82c0 <- 0x8300].[0x8300 <- 0x8340].[0x8340 <- 0x8380].[0x8380 <- 0x83c0]
    .[blk_start 0x5000 <- 0x400000].[blk_end 0x5000 <- 0x40ffff]
    .[blk_atree 0x5000 <- free_atree 0x5040].[blk_stree 0x5000 <- free_stree 0x5040]
    .[free_start 0x5040 <- 0x400000].[free_size 0x5040 <- 0x10000]
    .[node_data (free_atree 0x5040) <- 0x5040].[node_data (free_stree 0x5040) <- 0x5040]
    .[0x7008 <- 0x3ff8].[0x7010 <- 0x7100].[0x7140 <- 16384]
    .[0x7080 <- 98].[0x7081 <- 105].[0x7082 <- 103].[0x7100 <- 98].[0x7101 <- 105].[0x7102 <- 103].

Abbreviation alloc_laws := (x86_64_laws 64 0 0x10000 : ArchMemoryLaws (ly_arch alloc_lay)).
Abbreviation alloc_dl := (kmem_laws 0x4000 : DataAllocatorLaws (ly_vmem alloc_lay)).
Definition alloc_st : mst alloc_lay (AL := alloc_laws) :=
  Mst alloc_lay (AL := alloc_laws) ({[ 0x10000 := 4%nat ]}, spare_pages 7 0x10000) alloc_recs alloc_f.

Lemma alloc_ex_outside x :
  0x100 <= x < 0x10000 ∨ 0x18000 <= x → ax_outside (ArchMemoryLaws := alloc_laws) (ms_ax alloc_lay alloc_st) x.
Proof.
  intros Hx. split_and!; cbn [alloc_st ms_ax fst snd]; [|unfold pgt_cr3; lia|unfold pgt_p2v; lia].
  split; [unfold pgt_free; lia|].
  intros b [[? [<- _]%lookup_singleton_Some]|Hb%elem_of_spare]; [lia|].
  destruct Hb as (i & ? & ->). lia.
Qed.

Lemma pgt_ex_cells x : 0x100 <= x < 0x10000 ∨ 0x18000 <= x → pgt_ex.@x = 0.
Proof.
  assert (map_Forall (λ k _, k < 0x100 ∨ 0x10000 <= k < 0x18000) pgt_ex) as H
    by (apply (bool_decide_unpack _); vm_compute; exact I).
  intros Hx. unfold rd. destruct (pgt_ex !! x) as [v|] eqn:E; [|done].
  specialize (H x v E). cbn in H. lia.
Qed.

Lemma alloc_free_at x : free_at alloc_f x ↔ 0x200000 <= x < 0x208000.
Proof.
  unfold free_at, alloc_f. split.
  - intros (o & a & _ & Ha & Hx). case_decide; [|set_solver]. subst.
    apply list_elem_of_singleton in Ha as ->. unfold in_blk, bsz in Hx. lia.
  - intros Hx. exists 3, 0x200000. split_and!; [split; lia|case_decide; set_solver|].
    unfold in_blk, bsz. lia.
Qed.

Lemma alloc_zone_inv : phys_inv alloc_zone 0x1000 MEMORY_ZONE_NUMA_AWARE 0 alloc_hb alloc_f.
Proof.
  split; [split; [split|..]|done|done|..].
  - intros o a _. unfold alloc_f. case_decide; [|set_solver].
    intros ->%list_elem_of_singleton. subst. by vm_compute.
  - intros o _. unfold alloc_f. case_decide; repeat constructor.
  - intros o a o' a' x _ _. unfold alloc_f. repeat case_decide; subst; set_solver.
  - intros o Ho. unfold alloc_f, alloc_zone. case_decide.
    + subst. simpl. by vm_compute.
    + simpl. rewrite !rd_wr_ne; [done|..].
      * intros E%head_inj. lia.
      * unfold head, alloc_hb, zone_heads, sizeof_zone, phys_numazones. destruct Ho. lia.
  - intros x Hx%alloc_free_at. unfold in_heads, alloc_hb, zone_heads, sizeof_zone. lia.
  - intros x Hx. rewrite alloc_free_at. unfold phys_fields, phys_p2v, phys_max_domain,
      phys_numazones, phys_lock, in_heads, alloc_hb, zone_heads, sizeof_zone in *. lia.
  - intros x Hx%alloc_free_at. assert (alloc_zone.@(phys_p2v 0x1000) = 0) as -> by done. lia.
Qed.

Lemma alloc_zcell x : zcell alloc_lay alloc_f x → 0x1000 <= x < 0x2100 ∨ 0x200000 <= x < 0x208000.
Proof.
  unfold zcell. rewrite alloc_free_at. cbn [alloc_lay ly_heads ly_phys].
  unfold in_heads, alloc_hb, zone_heads, sizeof_zone, phys_fields, phys_p2v,
    phys_max_domain, phys_numazones, phys_lock. lia.
Qed.

Lemma alloc_rec p x : p ∈ alloc_recs → in_rec p x → 0x8000 <= x < 0x8400 ∧ ∃ i, p = 0x8000 + 64 * i ∧ p <= x < p + 64.
Proof.
  intros (i & -> & Hi)%list_elem_of_fmap Hx. apply elem_of_seqZ in Hi. unfold in_rec, sizeof_data in Hx.
  split; [lia|]. by exists i.
Qed.

(** The machine agrees with its parts. *)
Lemma alloc_ex_rd x :
  alloc_ex.@x = if decide (0x3ff8 <= x < 0x9000) then alloc_ex.@x
                else if decide (x = phys_numazones 0x1000) then 0x2000
                else if decide (x = head alloc_hb 3) then 0x200000 else pgt_ex.@x.
Proof.
  destruct (decide (0x3ff8 <= x < 0x9000)); [done|].
  unfold alloc_ex, memory_phys, vmem_mem, vmem_blocks, vmem_spec, vmem_flags, vmem_arch. offs.
  rewrite !(rd_wr_ne _ _ x) by lia. rewrite !rd_wr. repeat case_decide; congruence.
Qed.

Lemma alloc_tables :
  ax_inv (ArchMemoryLaws := alloc_laws) alloc_ex (ms_ax alloc_lay alloc_st) ∧
  ∀ v, ax_tr (ArchMemoryLaws := alloc_laws) alloc_ex v = None.
Proof.
  destruct (ax_frame_tr (ArchMemoryLaws := alloc_laws) pgt_ex alloc_ex (ms_ax alloc_lay alloc_st)) as [H Ht];
    [apply pgt_ex_inv| |split; [exact H|intros v; rewrite Ht; apply pgt_ex_inv]].
  intros x Hx. rewrite alloc_ex_rd, !decide_False; [done|..]; intros Hin; apply Hx, alloc_ex_outside; revert Hin;
    unfold head, alloc_hb, zone_heads, sizeof_zone, phys_numazones; lia.
Qed.

Lemma alloc_quiet x : 0x3ff8 <= x < 0x8000 ∨ 0x400000 <= x → x ≠ 0x4010 →
  quiet alloc_lay (AL := alloc_laws) alloc_st x.
Proof.
  intros Hx Hne. split_and!.
  - apply alloc_ex_outside. lia.
  - unfold vmem_spec. cbn [alloc_lay ly_vmem]. lia.
  - intros p Hp Hin. destruct (alloc_rec p x Hp Hin). lia.
  - intros Hz%alloc_zcell. lia.
Qed.

Lemma alloc_kmem : kmem_recs 0x4000 alloc_ex alloc_recs.
Proof.
  constructor.
  - by vm_compute.
  - apply (bool_decide_unpack _). by vm_compute.
  - intros p q x Hp Hq Hx Hy. destruct (alloc_rec p x Hp Hx) as (_ & i & -> & ?), (alloc_rec q x Hq Hy) as (_ & j & -> & ?). lia.
  - intros p Hp. destruct (alloc_rec p p Hp (in_rec_self p)). lia.
  - intros p Hp Hx. destruct (alloc_rec p _ Hp Hx). unfold vmem_spec in *. lia.
Qed.

Abbreviation alloc_own := ((0x6000, 16) :: blocks_own [alloc_bump] ++ [(0x7008, 1)]).

Lemma alloc_mach :
  mach alloc_lay (AL := alloc_laws) (DL := alloc_dl) alloc_ex alloc_st alloc_own alloc_U.
Proof.
  assert (∀ x, covers alloc_own x →
    0x5000 <= x < 0x5080 ∨ 0x6000 <= x < 0x6010 ∨ x = 0x7008 ∨ 0x400000 <= x < 0x410000) as Hcov.
  { intros x. cbn. rewrite !covers_cons. unfold inr, recr, sizeof_data. cbn [fst snd].
    intros [?|[?|[?|[?|[?|(r & Hr & _)]]]]]; [lia..|]. by apply not_elem_of_nil in Hr. }
  assert (∀ x, static alloc_lay x → 0x3ff8 <= x < 0x4040 ∧ x ≠ 0x4010) as Hst.
  { intros x. unfold static, vmem_mem, vmem_arch, vmem_flags, vmem_blocks, memory_phys.
    cbn [alloc_lay ly_vmem ly_mem]. lia. }
  constructor.
  - apply alloc_tables.
  - apply alloc_kmem.
  - eapply (phys_inv_cells alloc_lay alloc_zone); [apply alloc_zone_inv|]. intros x Hx%alloc_zcell.
    rewrite alloc_ex_rd, decide_False by lia. unfold alloc_zone. rewrite !rd_wr.
    repeat case_decide; try congruence. rewrite pgt_ex_cells by lia. done.
  - split; [apply alloc_ex_outside|intros Hz%alloc_zcell]; unfold vmem_spec in *; cbn [alloc_lay ly_vmem] in *; lia.
  - intros p x Hp Hx. destruct (alloc_rec p x Hp Hx). split; [apply alloc_ex_outside; lia|].
    intros Hz%alloc_zcell. lia.
  - intros x Hz%alloc_zcell. apply alloc_ex_outside. lia.
  - intros x Hx%Hcov. split; [apply alloc_quiet; lia|]. split; [unfold alloc_U; lia|]. intros ?%Hst. lia.
  - intros x. unfold hits.
    change (blocks_own [alloc_bump] ++ [(0x7008, 1)]) with [recr 0x5000; recr 0x5040; (0x400000, 0x10000); (0x7008, 1)].
    rewrite !filter_cons. unfold inr, recr, sizeof_data. cbn [fst snd].
    repeat case_decide; cbn [length]; rewrite ?filter_nil; cbn [length]; lia.
  - intros x [Hx|Hx%Hst]; [unfold alloc_U in Hx|]; apply alloc_quiet; lia.
  - intros x Hx ?%Hst. unfold alloc_U in Hx. lia.
  - intros x. cbn [alloc_st ms_free alloc_lay ly_lo ly_pages]. rewrite alloc_free_at. lia.
  - by vm_compute.
  - by vm_compute.
Qed.

Lemma alloc_vmm :
  vmm alloc_lay (AL := alloc_laws) (DL := alloc_dl) 0x6000 alloc_ex alloc_st [alloc_bump] [(0x7008, 1)] alloc_U.
Proof.
  constructor.
  - apply alloc_mach.
  - by vm_compute.
  - intros b ->%list_elem_of_singleton. unfold bump_at. cbn [alloc_bump bk bk_hdr bk_ents bk_rng].
    split_and!; try (done || lia); try by vm_compute.
    split; [by vm_compute|by intros e ?%not_elem_of_nil].
  - intros b ->%list_elem_of_singleton. cbn [alloc_bump unmapped bk_rng]. intros v _.
    apply alloc_tables.
Qed.

Lemma alloc_lay_ok : layout_ok alloc_lay.
Proof. constructor; cbn; lia || done. Qed.

(** Three pages from the machine. *)
Lemma memory_alloc_pages_witness :
  ∃ p m', memory_alloc_pages 0x6000 512 0x3ff8 3 MEMORY_ZONE_NUMA_AWARE 0 alloc_ex = Ok p m' ∧
    request_post alloc_lay (AL := alloc_laws) (DL := alloc_dl) 0x6000 [alloc_bump] [(0x7008, 1)] alloc_U
      alloc_ex alloc_st 3 p m' ∧ p = 0x400000.
Proof.
  destruct (memory_alloc_pages_correct alloc_lay (AL := alloc_laws) (DL := alloc_dl) 0x6000 512 alloc_ex alloc_st
    [alloc_bump] [(0x7008, 1)] alloc_U 3) as (p & m' & E & Hp).
  - apply alloc_lay_ok.
  - done.
  - apply alloc_vmm.
  - lia.
  - cbn. lia.
  - lia.
  - cbn. lia.
  - intros b ->%list_elem_of_singleton. cbn. lia.
  - exists p, m'. split_and!; [exact E|exact Hp|].
    assert (result (memory_alloc_pages 0x6000 512 0x3ff8 3 MEMORY_ZONE_NUMA_AWARE 0 alloc_ex) = Some 0x400000) as R
      by (vm_compute; reflexivity).
    cbn [alloc_lay ly_mem ly_zone ly_dom] in E. rewrite E in R. by injection R.
Defined.
