(* ===== verification/Slab.v ===== *)
(** * Slab allocator: kernel/slab.c, kernel/kmalloc.c and the wrappers of kmem.c

    A slab is eight pages: a header, one mark byte per object and the objects.
    A cache has three lists of slabs (partial: some objects free, full: all
    objects free, empty: no object free) and sits in a search tree by name.
    The pages come from an interface, [memory_alloc_pages] in the kernel. *)

From S2P Require Import Prelude CMonad PhysMem KString Strfmt Kmem Memory.

Definition MEMORY_SLAB_NUM_PAGES : Z := 8.
Definition MEMORY_SLAB_CACHE_NAME_MAX : Z := 64.
Definition MEMORY_SLAB_ALIGNMENT : Z := 64.

(** ** Fields (memory.h) *)

Definition hdr_next (s : Z) : Z := s.
Definition hdr_cache (s : Z) : Z := s + 8.
Definition hdr_nobjs (s : Z) : Z := s + 16.
Definition hdr_nused (s : Z) : Z := s + 20.
Definition hdr_obj_head (s : Z) : Z := s + 24.
Definition hdr_mark (s i : Z) : Z := s + 32 + i.
Definition sizeof_slab_hdr : Z := 32.

Definition cache_name (c : Z) : Z := c.
Definition cache_size (c : Z) : Z := c + 64.
Definition cache_partial (c : Z) : Z := c + 72.
Definition cache_full (c : Z) : Z := c + 80.
Definition cache_empty (c : Z) : Z := c + 88.
Definition cache_left (c : Z) : Z := c + 96.
Definition cache_right (c : Z) : Z := c + 104.
Definition sizeof_slab_cache : Z := 112.

Definition slab_lock (slab : Z) : Z := slab.
Definition slab_mem (slab : Z) : Z := slab + 8.
Definition slab_root (slab : Z) : Z := slab + 16.

(** [memory_alloc_pages(mem, nr, zone, domain)] *)
Class PageAllocator := {
  alloc_pages : Z → Z → Z → Z → M Z;
}.

Section slab.
Context `{!PageAllocator}.
(** The addresses of the literals "slab_cache" and "kmalloc-%d". *)
Context (slab_cache_str kmalloc_fmt : Z).
(** Enough for every string and list. *)
Context (fuel : nat).

Definition _new_slab (slab objsize : Z) : M Z :=
  mem ← ld (slab_mem slab);
  pages ← alloc_pages mem MEMORY_SLAB_NUM_PAGES MEMORY_ZONE_NUMA_AWARE 0;
  if pages =? 0 then mret 0
  else
    let size := MEMORY_PAGESIZE * MEMORY_SLAB_NUM_PAGES in
    _ ← memset0 pages size;
    _ ← st (hdr_next pages) 0;
    _ ← st (hdr_cache pages) 0;
    let size := size - sizeof_slab_hdr - MEMORY_SLAB_ALIGNMENT in
    _ ← st (hdr_nobjs pages) (i32 (size / u64 (objsize + 1)));
    nobjs ← ld (hdr_nobjs pages);
    let addr := u64 (pages + sizeof_slab_hdr + nobjs) in
    let addr := u64 (u64 (addr + MEMORY_SLAB_ALIGNMENT - 1) / MEMORY_SLAB_ALIGNMENT
                     * MEMORY_SLAB_ALIGNMENT) in
    _ ← st (hdr_obj_head pages) addr;
    _ ← for_up (Z.to_nat nobjs) 0 (λ i, st (hdr_mark pages i) 1);
    mret pages.

Definition name_cmp (a b : Z) : M Z :=
  peek (λ m, kstrncmp fuel m a b MEMORY_SLAB_CACHE_NAME_MAX).

Fixpoint _find_slab_cache (k : nat) (n name : Z) : M Z :=
  match k with
  | O => hang
  | S k =>
    if n =? 0 then mret 0
    else
      ret ← name_cmp (cache_name n) name;
      if 0 =? ret then mret n
      else if ret <? 0 then l ← ld (cache_left n); _find_slab_cache k l name
      else r ← ld (cache_right n); _find_slab_cache k r name
  end.

Fixpoint _add_slab_cache (k : nat) (t n : Z) : M Z :=
  match k with
  | O => hang
  | S k =>
    p ← ld t;
    if p =? 0 then _ ← st t n; mret 0
    else
      ret ← name_cmp (cache_name p) (cache_name n);
      if 0 =? ret then mret (-1)
      else if ret <? 0 then _add_slab_cache k (cache_left p) n
      else _add_slab_cache k (cache_right p) n
  end.

(** The scan of the marks: the first free object, or NULL. *)
Fixpoint take_object (k : nat) (c s i : Z) : M Z :=
  match k with
  | O => mret 0
  | S k =>
    mk ← ld (hdr_mark s i);
    if negb (mk =? 0) then
      head ← ld (hdr_obj_head s); size ← ld (cache_size c);
      _ ← st (hdr_mark s i) 0;
      nused ← ld (hdr_nused s);
      _ ← st (hdr_nused s) (i32 (nused + 1));
      mret (u64 (head + size * i))
    else take_object k c s (i + 1)
  end.

(** "No object found, then try to allocate a new slab" *)
Definition ensure_slab (slab c : Z) : M bool :=
  partial ← ld (cache_partial c); full ← ld (cache_full c);
  if (partial =? 0) && (full =? 0) then
    size ← ld (cache_size c);
    s ← _new_slab slab size;
    if s =? 0 then mret false
    else _ ← st (hdr_cache s) c; _ ← st (cache_full c) s; mret true
  else mret true.

(** "Take one full slab to the partial": the slab keeps its link, so what
    follows it on the full list now follows it on both lists. *)
Definition refill_partial (c : Z) : M unit :=
  partial ← ld (cache_partial c);
  if partial =? 0 then
    full ← ld (cache_full c);
    _ ← kassert (negb (full =? 0));
    _ ← st (cache_partial c) full;
    next ← ld (hdr_next full);
    st (cache_full c) next
  else mret tt.

(** "Check if the slab is still partial or becomes empty" *)
Definition retire_slab (c s : Z) : M unit :=
  nused ← ld (hdr_nused s); nobjs ← ld (hdr_nobjs s);
  if nused =? nobjs then
    next ← ld (hdr_next s);
    _ ← st (cache_partial c) next;
    empty ← ld (cache_empty c);
    _ ← st (hdr_next s) empty;
    st (cache_empty c) s
  else mret tt.

Definition _slab_alloc (slab name : Z) : M Z :=
  root ← ld (slab_root slab);
  c ← _find_slab_cache fuel root name;
  if c =? 0 then mret 0
  else
    ok ← ensure_slab slab c;
    if negb ok then mret 0
    else
      _ ← refill_partial c;
      s ← ld (cache_partial c);
      nobjs ← ld (hdr_nobjs s);
      obj ← take_object (Z.to_nat nobjs) c s 0;
      _ ← retire_slab c s;
      mret obj.

Definition memory_slab_alloc (slab name : Z) : M Z :=
  _ ← lock (slab_lock slab);
  obj ← _slab_alloc slab name;
  _ ← unlock (slab_lock slab);
  mret obj.

Fixpoint _find_slab_for_object (k : nat) (c s obj : Z) : M Z :=
  match k with
  | O => hang
  | S k =>
    if s =? 0 then mret 0
    else
      start ← ld (hdr_obj_head s);
      size ← ld (cache_size c); nobjs ← ld (hdr_nobjs s);
      if (start <=? obj) && (obj <? u64 (start + size * nobjs)) then mret s
      else n ← ld (hdr_next s); _find_slab_for_object k c n obj
  end.

(** [head = &list; while ( *head ) ...]: unlink [s] if it is there. *)
Fixpoint unlink_slab (k : nat) (head s : Z) : M unit :=
  match k with
  | O => hang
  | S k =>
    p ← ld head;
    if p =? 0 then mret tt
    else if p =? s then n ← ld (hdr_next s); st head n
    else unlink_slab k (hdr_next p) s
  end.

(** Move [s] to the head of the list at [to]. *)
Definition move_slab (from to s : Z) : M unit :=
  _ ← unlink_slab fuel from s;
  head ← ld to;
  _ ← st (hdr_next s) head;
  st to s.

(** The part of [memory_slab_free] under the lock. *)
Definition _slab_free (slab name obj : Z) : M Z :=
  root ← ld (slab_root slab);
  c ← _find_slab_cache fuel root name;
  if c =? 0 then mret (-1)
  else
    partial ← ld (cache_partial c);
    s ← _find_slab_for_object fuel c partial obj;
    let waspartial := negb (s =? 0) in
    s ← (if waspartial then mret s
         else empty ← ld (cache_empty c); _find_slab_for_object fuel c empty obj);
    if s =? 0 then mret (-1)
    else
      head ← ld (hdr_obj_head s); size ← ld (cache_size c);
      let idx := i32 (u64 (obj - head) / size) in
      nobjs ← ld (hdr_nobjs s);
      _ ← kassert (idx <? nobjs);
      _ ← st (hdr_mark s idx) 1;
      nused ← ld (hdr_nused s);
      _ ← st (hdr_nused s) (i32 (nused - 1));
      _ ← (if waspartial then mret tt else move_slab (cache_empty c) (cache_partial c) s);
      nused ← ld (hdr_nused s);
      _ ← (if nused =? 0 then move_slab (cache_partial c) (cache_full c) s else mret tt);
      mret 0.

Definition memory_slab_free (slab name obj : Z) : M Z :=
  _ ← lock (slab_lock slab);
  ret ← _slab_free slab name obj;
  _ ← unlock (slab_lock slab);
  mret ret.

(** [kstrlcpy(cache->name, name, ...)] and the other fields of a new cache. *)
Definition init_cache (cache name size partial : Z) : M unit :=
  _ ← lift (λ m, kstrlcpy fuel m (cache_name cache) name MEMORY_SLAB_CACHE_NAME_MAX);
  _ ← st (cache_size cache) size;
  _ ← st (cache_partial cache) partial;
  _ ← st (cache_full cache) 0;
  _ ← st (cache_empty cache) 0;
  _ ← st (cache_left cache) 0;
  st (cache_right cache) 0.

(** A failed [_new_slab] is not tested: the stores to [s->cache] then go to
    the address 8. *)
Definition memory_slab_create_cache (slab name size : Z) : M Z :=
  _ ← lock (slab_lock slab);
  root ← ld (slab_root slab);
  cache ← _find_slab_cache fuel root name;
  if negb (cache =? 0) then _ ← unlock (slab_lock slab); mret (-1)
  else
    cache ← _slab_alloc slab slab_cache_str;
    if cache =? 0 then _ ← unlock (slab_lock slab); mret (-1)
    else
      _ ← init_cache cache name size 0;
      s ← _new_slab slab size;
      _ ← st (hdr_cache s) cache;
      _ ← st (cache_full cache) s;
      ret ← _add_slab_cache fuel (slab_root slab) cache;
      _ ← kassert (ret =? 0);
      _ ← unlock (slab_lock slab);
      mret 0.

Definition _slab_cache_init (slab : Z) : M Z :=
  s ← _new_slab slab sizeof_slab_cache;
  if s =? 0 then mret (-1)
  else
    _ ← st (hdr_mark s 0) 0;
    nused ← ld (hdr_nused s);
    _ ← st (hdr_nused s) (i32 (nused + 1));
    cache ← ld (hdr_obj_head s);
    _ ← init_cache cache slab_cache_str sizeof_slab_cache s;
    _ ← st (hdr_cache s) cache;
    ret ← _add_slab_cache fuel (slab_root slab) cache;
    _ ← kassert (ret =? 0);
    mret 0.

Definition memory_slab_init (slab mem : Z) : M Z :=
  _ ← st (slab_lock slab) 1;
  _ ← st (slab_mem slab) mem;
  _ ← st (slab_root slab) 0;
  ret ← _slab_cache_init slab;
  if ret <? 0 then mret (-1)
  else _ ← st (slab_lock slab) 0; mret 0.

(** ** kmalloc.c *)

Definition kmalloc_sizes : list Z :=
  [8; 16; 32; 64; 96; 128; 192; 256; 512; 1024; 2048; 4096; 8192].

(** [ksnprintf(cachename, 64, "kmalloc-%d", size)]; [tmpstr] is the buffer of
    [ksnprintf]. *)
Definition kmalloc_name (cachename tmpstr size : Z) : M Z :=
  lift (λ m, ksnprintf fuel m tmpstr cachename MEMORY_SLAB_CACHE_NAME_MAX kmalloc_fmt [size]).

Fixpoint kmalloc_init_loop (sizes : list Z) (slab cachename tmpstr : Z) : M Z :=
  match sizes with
  | [] => mret 0
  | size :: sizes =>
    _ ← kmalloc_name cachename tmpstr size;
    ret ← memory_slab_create_cache slab cachename size;
    if ret <? 0 then mret (-1) else kmalloc_init_loop sizes slab cachename tmpstr
  end.

(** The static pointer [_slab] is the cell [slabp]. *)
Definition kmalloc_init (slabp slab cachename tmpstr : Z) : M Z :=
  _ ← st slabp slab;
  kmalloc_init_loop kmalloc_sizes slab cachename tmpstr.

(** [(int)sz <= kmalloc_sizes[i]] for the first such [i], else -1. *)
Fixpoint kmalloc_fit (sizes : list Z) (sz : Z) : Z :=
  match sizes with
  | [] => -1
  | size :: sizes => if i32 sz <=? size then size else kmalloc_fit sizes sz
  end.

Definition kmalloc (slabp cachename tmpstr sz : Z) : M Z :=
  let aligned_size := kmalloc_fit kmalloc_sizes sz in
  if aligned_size <? 0 then mret 0
  else
    _ ← kmalloc_name cachename tmpstr aligned_size;
    slab ← ld slabp;
    memory_slab_alloc slab cachename.

Fixpoint kfree_loop (sizes : list Z) (slabp cachename tmpstr obj : Z) : M unit :=
  match sizes with
  | [] => mret tt
  | size :: sizes =>
    _ ← kmalloc_name cachename tmpstr size;
    slab ← ld slabp;
    ret ← memory_slab_free slab cachename obj;
    if 0 =? ret then mret tt else kfree_loop sizes slabp cachename tmpstr obj
  end.

Definition kfree (slabp cachename tmpstr obj : Z) : M unit :=
  kfree_loop kmalloc_sizes slabp cachename tmpstr obj.

(** [g_kvar->slab] and [g_kvar->mm] *)
Definition kmem_slab_init (kvar_slab kvar_mm : Z) : M Z := memory_slab_init kvar_slab kvar_mm.
Definition kmem_slab_alloc (kvar_slab name : Z) : M Z := memory_slab_alloc kvar_slab name.
Definition kmem_slab_free (kvar_slab name obj : Z) : M Z := memory_slab_free kvar_slab name obj.
Definition kmem_slab_create_cache (kvar_slab name size : Z) : M Z :=
  memory_slab_create_cache kvar_slab name size.

(** [virt_memory_init] of memory.c; [sizeof(virt_memory_t)] is 56. *)
Definition virt_memory_init (slabp cachename tmpstr mem spec : Z) : M Z :=
  vm ← kmalloc slabp cachename tmpstr sizeof_virt_memory;
  if vm =? 0 then mret 0
  else
    _ ← st (vmem_mem vm) mem;
    _ ← st (vmem_blocks vm) 0;
    _ ← st (vmem_spec vm) spec;
    mret vm.
End slab.

(** In the kernel the pages come from [memory_alloc_pages]. *)
Definition kernel_pages (stk : Z) (fuel : nat) `{!ArchMemory, !DataAllocator} : PageAllocator :=
  {| alloc_pages := memory_alloc_pages stk fuel |}.
