(* ===== verification/SlabTheorems.v ===== *)
(** * Slab allocator: theorems

    The invariant of a cache: its slabs are disjoint, every link of its lists
    leads to one of them, and the mark of an object is 0 exactly when the
    object is in use.  It does not ask the lists to be what their names say,
    so it survives what the allocator does to them. *)

From S2P Require Import Prelude CMonad PhysMem KString Strfmt Kmem Memory Slab.

Definition SLAB_BYTES : Z := MEMORY_PAGESIZE * MEMORY_SLAB_NUM_PAGES.
Definition in_slab (s x : Z) : Prop := s <= x < s + SLAB_BYTES.

(** The pages that the allocator gives the slab allocator at [slab] are new to
    its clients: [pa_inv m U] says that the clients use the cells of [U]. *)
Class PageAllocatorLaws {PA : PageAllocator} (slab : Z) := {
  pa_inv : gmap Z Z → (Z → Prop) → Prop;
  pa_write m U a x : pa_inv m U → U a → pa_inv (m.[a <- x]) U;
  pa_clear m U b len : pa_inv m U → (∀ x, b <= x < b + len → U x) → pa_inv (kmemset0 b len m) U;
  pa_alloc m U : pa_inv m U →
    ∃ p m', alloc_pages (m.@(slab_mem slab)) MEMORY_SLAB_NUM_PAGES MEMORY_ZONE_NUMA_AWARE 0 m = Ok p m' ∧
      (∀ x, U x → m'.@x = m.@x) ∧
      ((p = 0 ∧ pa_inv m' U) ∨
       (0 < p ∧ p + SLAB_BYTES <= 2 ^ 63 ∧ (∀ x, in_slab p x → ¬ U x) ∧
        pa_inv m' (λ x, U x ∨ in_slab p x)));
}.

(** ** Layout of a slab *)

Definition slab_nobjs (objsize : Z) : Z := 32672 / (objsize + 1).
Definition slab_head (p objsize : Z) : Z := (p + 32 + slab_nobjs objsize + 63) / 64 * 64.

Lemma slab_layout p objsize :
  0 <= p → 1 <= objsize →
  0 <= slab_nobjs objsize <= 16336 ∧ slab_head p objsize mod 64 = 0 ∧
  p + 32 + slab_nobjs objsize <= slab_head p objsize ∧
  slab_head p objsize + objsize * slab_nobjs objsize <= p + SLAB_BYTES.
Proof.
  intros Hp Ho. unfold slab_head, SLAB_BYTES, MEMORY_PAGESIZE, MEMORY_SLAB_NUM_PAGES.
  assert (0 <= slab_nobjs objsize <= 16336) as Hn.
  { unfold slab_nobjs. split; [apply Z.div_pos; lia|]. apply Z.div_le_upper_bound; lia. }
  assert ((objsize + 1) * slab_nobjs objsize <= 32672) as Hm
    by (unfold slab_nobjs; apply Z.mul_div_le; lia).
  set (n := slab_nobjs objsize) in *.
  pose proof (Z.div_mod (p + 32 + n + 63) 64). pose proof (Z.mod_pos_bound (p + 32 + n + 63) 64).
  split_and!; [lia|lia|apply Z.mod_mul; lia|lia|lia].
Qed.

Section slab.
Context {PA : PageAllocator} (slab : Z) {PL : PageAllocatorLaws slab} (slab_cache_str : Z) (fuel : nat).
Implicit Types (m : gmap Z Z) (U : Z → Prop).

Lemma marks_loop_spec p n i m :
  ∃ m', for_up n i (λ i, st (hdr_mark p i) 1) m = Ok tt m' ∧
    (∀ x, m'.@x = if decide (hdr_mark p i <= x < hdr_mark p (i + Z.of_nat n)) then 1 else m.@x) ∧
    (∀ U, pa_inv m U → (∀ x, hdr_mark p i <= x < hdr_mark p (i + Z.of_nat n) → U x) → pa_inv m' U).
Proof.
  unfold hdr_mark. revert i m. induction n as [|n IH]; intros i m.
  - exists m. split_and!; [done| |done]. intros x. by rewrite decide_False by lia.
  - cbn [for_up]. mrun. destruct (IH (i + 1) (m.[p + 32 + i <- 1])) as (m' & E & Hm & HU).
    exists m'. split_and!; [done| |].
    + intros x. rewrite Hm, rd_wr. repeat case_decide; done || lia.
    + intros U Hi Hx. apply HU; [apply pa_write; [done|apply Hx; lia]|]. intros x ?. apply Hx. lia.
Qed.

(** What [_new_slab] returns: NULL, or a fresh slab with all objects free. *)
Lemma new_slab_spec objsize m U :
  pa_inv m U → 1 <= objsize < 2 ^ 62 →
  ∃ p m', _new_slab slab objsize m = Ok p m' ∧ (∀ x, U x → m'.@x = m.@x) ∧
    ((p = 0 ∧ pa_inv m' U) ∨
     (0 < p ∧ p + SLAB_BYTES <= 2 ^ 63 ∧ (∀ x, in_slab p x → ¬ U x) ∧
      pa_inv m' (λ x, U x ∨ in_slab p x) ∧
      m'.@(hdr_next p) = 0 ∧ m'.@(hdr_nobjs p) = slab_nobjs objsize ∧ m'.@(hdr_nused p) = 0 ∧
      m'.@(hdr_obj_head p) = slab_head p objsize ∧
      ∀ i, 0 <= i < slab_nobjs objsize → m'.@(hdr_mark p i) = 1)).
Proof.
  intros HU Ho. unfold _new_slab. mrun.
  destruct (pa_alloc m U HU)
    as (p & m1 & E & Hfr & [[-> Hi]|(Hp & Hpe & Hnew & Hi)]); rewrite (bind_ok _ _ _ _ _ E).
  { exists 0, m1. auto. }
  rewrite (proj2 (Z.eqb_neq p 0)) by lia. unfold memset0. erewrite bind_ok by done. mrun.
  destruct (slab_layout p objsize) as (Hn & Hal & Hmk & Hend); [lia|lia|].
  change (MEMORY_PAGESIZE * MEMORY_SLAB_NUM_PAGES - sizeof_slab_hdr - MEMORY_SLAB_ALIGNMENT) with 32672.
  rewrite (u64_small (objsize + 1)) by lia. fold (slab_nobjs objsize).
  rewrite i32_small, rd_wr_eq by lia. mrun. unfold SLAB_BYTES, MEMORY_PAGESIZE, MEMORY_SLAB_NUM_PAGES in *.
  unfold MEMORY_SLAB_ALIGNMENT, sizeof_slab_hdr.
  assert (0 <= slab_nobjs objsize * objsize) by nia.
  rewrite (u64_small (p + 32 + slab_nobjs objsize)) by lia.
  replace (p + 32 + slab_nobjs objsize + 64 - 1) with (p + 32 + slab_nobjs objsize + 63) by lia.
  rewrite (u64_small (_ + 63)) by lia. fold (slab_head p objsize). rewrite (u64_small (slab_head p objsize)) by lia.
  match goal with |- context [(for_up _ 0 _ ≫= _) ?x] => set (m2 := x) end.
  assert (∀ x, m2.@x = if decide (x = p + 24) then slab_head p objsize
    else if decide (x = p + 16) then slab_nobjs objsize
    else if decide (p <= x < p + 32768) then 0 else m1.@x) as Hm2.
  { intros x. unfold m2, hdr_obj_head, hdr_nobjs, hdr_cache, hdr_next.
    rewrite !rd_wr, rd_kmemset0. change (4096 * 8) with 32768. repeat case_decide; done || lia. }
  assert (pa_inv m2 (λ x, U x ∨ p <= x < p + 32768)) as Hi2.
  { unfold m2, hdr_obj_head, hdr_nobjs, hdr_cache, hdr_next.
    repeat (apply pa_write; [|right; lia]). apply pa_clear; [done|]. intros x ?. right. lia. }
  destruct (marks_loop_spec p (Z.to_nat (slab_nobjs objsize)) 0 m2) as (m3 & E3 & Hm3 & Hi3).
  rewrite (bind_ok _ _ _ _ _ E3). exists p, m3. unfold hdr_mark in Hm3, Hi3.
  rewrite Z2Nat.id in Hm3, Hi3 by lia.
  split_and!; [done| |].
  { intros x Hx. assert (¬ (p <= x < p + 32768)) as Hout by (intros ?; by apply (Hnew x)).
    rewrite Hm3, decide_False, Hm2 by lia. by rewrite !decide_False by lia; apply Hfr. }
  right. unfold hdr_next, hdr_nobjs, hdr_nused, hdr_obj_head, hdr_mark, in_slab, SLAB_BYTES in *.
  change (MEMORY_PAGESIZE * MEMORY_SLAB_NUM_PAGES) with 32768 in *.
  split_and!; [lia|lia|done|apply Hi3; [done|intros; right; lia]|..].
  1-4: rewrite Hm3, decide_False, Hm2 by lia; repeat case_decide; done || lia.
  intros i Hx. by rewrite Hm3, decide_True by lia.
Qed.

(** ** The invariant of a cache *)

Context (c size : Z).
Implicit Types (S live : gset Z).

(** The cells that hold links of the lists. *)
Definition is_link S a : Prop :=
  a = cache_partial c ∨ a = cache_full c ∨ a = cache_empty c ∨ ∃ s, s ∈ S ∧ a = hdr_next s.

(** Object [i] of slab [s]. *)
Definition object s i : Z := slab_head s size + size * i.

Record slab_inv m S live U : Prop := {
  si_pages : pa_inv m U;
  si_size : m.@(cache_size c) = size ∧ 1 <= size < 2 ^ 62;
  si_cache d : 0 <= d < sizeof_slab_cache → U (c + d);
  si_slab s : s ∈ S → 0 < s ∧ s + SLAB_BYTES <= 2 ^ 63 ∧ m.@(hdr_nobjs s) = slab_nobjs size ∧
    m.@(hdr_obj_head s) = slab_head s size ∧ ∀ x, in_slab s x → U x;
  si_apart s s' x : s ∈ S → s' ∈ S → in_slab s x → in_slab s' x → s = s';
  si_capart s d : s ∈ S → 0 <= d < sizeof_slab_cache → ¬ (s <= c + d < slab_head s size);
  si_link a : is_link S a → m.@a = 0 ∨ m.@a ∈ S;
  si_mark s i : s ∈ S → 0 <= i < slab_nobjs size → m.@(hdr_mark s i) = 0 ↔ object s i ∈ live;
  si_live o : o ∈ live → ∃ s i, s ∈ S ∧ 0 <= i < slab_nobjs size ∧ o = object s i;
}.

Section cells.
Context m S live U (Hi : slab_inv m S live U).

Lemma slab_bounds s :
  s ∈ S → 0 <= slab_nobjs size ∧ s + 32 + slab_nobjs size <= slab_head s size ∧
  slab_head s size + size * slab_nobjs size <= s + SLAB_BYTES.
Proof using Hi.
  intros Hs. destruct (si_slab _ _ _ _ Hi s Hs) as [? _]. destruct (si_size _ _ _ _ Hi).
  destruct (slab_layout s size) as (? & _ & ? & ?); lia.
Qed.

(** Offsets below the objects determine the slab. *)
Lemma hdr_inj s s' d d' :
  s ∈ S → s' ∈ S → 0 <= d < 32 + slab_nobjs size → 0 <= d' < 32 + slab_nobjs size →
  s + d = s' + d' → s = s' ∧ d = d'.
Proof using Hi.
  intros Hs Hs' Hd Hd' E. destruct (slab_bounds s Hs) as (? & ? & ?), (slab_bounds s' Hs') as (_ & ? & ?).
  destruct (si_size _ _ _ _ Hi) as [_ Hsz].
  assert (0 <= size * slab_nobjs size) by (apply Z.mul_nonneg_nonneg; lia).
  assert (s = s') as <-; [|lia]. apply (si_apart _ _ _ _ Hi s s' (s + d)); [done|done|..];
    unfold in_slab; lia.
Qed.

Lemma hdr_cache_ne s d d' :
  s ∈ S → 0 <= d < 32 + slab_nobjs size → 0 <= d' < sizeof_slab_cache → s + d ≠ c + d'.
Proof using Hi.
  intros Hs Hd Hd' E. destruct (slab_bounds s Hs) as (? & ? & ?).
  apply (si_capart _ _ _ _ Hi s d' Hs Hd'). lia.
Qed.

Lemma object_inj s s' i i' :
  s ∈ S → s' ∈ S → 0 <= i < slab_nobjs size → 0 <= i' < slab_nobjs size →
  object s i = object s' i' → s = s' ∧ i = i'.
Proof using Hi.
  intros Hs Hs' Hr Hr' E. destruct (slab_bounds s Hs) as (? & ? & ?), (slab_bounds s' Hs') as (_ & ? & ?).
  destruct (si_size _ _ _ _ Hi) as [_ ?]. unfold object in E.
  assert (s = s') as <-; [|split; [done|nia]].
  apply (si_apart _ _ _ _ Hi s s' (slab_head s size + size * i)); [done|done|..]; unfold in_slab; nia.
Qed.

(** A write that keeps to the links or to fields the invariant does not mention. *)
Lemma slab_inv_wr a x :
  U a → a ≠ cache_size c →
  (∀ s d, s ∈ S → 16 <= d < 20 ∨ 24 <= d < 32 + slab_nobjs size → a ≠ s + d) →
  (is_link S a → x = 0 ∨ x ∈ S) → slab_inv (m.[a <- x]) S live U.
Proof using Hi.
  intros HU Hsz Hne Hlk. destruct Hi as [I1 I2 I3 I4 I5 I6 I7 I8 I9]. constructor; try done.
  - by apply pa_write.
  - by rewrite rd_wr_ne by done.
  - intros s Hs. destruct (I4 s Hs) as (? & ? & ? & ? & ?). destruct (slab_bounds s Hs).
    unfold hdr_nobjs, hdr_obj_head in *. rewrite !rd_wr_ne by (apply Hne; [done|lia]). done.
  - intros b Hb. destruct (decide (a = b)) as [<-|Hab]; [rewrite rd_wr_eq; auto|].
    rewrite rd_wr_ne by done. auto.
  - intros s i Hs Hr. unfold hdr_mark. rewrite rd_wr_ne; [by apply I8|].
    rewrite <-Z.add_assoc. apply Hne; [done|lia].
Qed.

Lemma link_cell a : is_link S a →
  U a ∧ a ≠ cache_size c ∧
  ∀ s d, s ∈ S → 16 <= d < 20 ∨ 24 <= d < 32 + slab_nobjs size → a ≠ s + d.
Proof using Hi.
  unfold is_link, cache_partial, cache_full, cache_empty, cache_size, hdr_next.
  assert (∀ k, 0 <= k < 112 → U (c + k) ∧ (k ≠ 64 → c + k ≠ c + 64) ∧
    ∀ s d, s ∈ S → 16 <= d < 20 ∨ 24 <= d < 32 + slab_nobjs size → c + k ≠ s + d) as Hc.
  { intros k Hk. split_and!; [by apply (si_cache _ _ _ _ Hi)|lia|].
    intros s d Hs Hd E. destruct (slab_bounds s Hs) as [? _].
    by eapply (hdr_cache_ne s d k); [..|symmetry; exact E]; unfold sizeof_slab_cache; try lia. }
  intros [->|[->|[->|(s & Hs & ->)]]]; [destruct (Hc 72)|destruct (Hc 80)|destruct (Hc 88)|];
    [lia|by naive_solver lia|lia|by naive_solver lia|lia|by naive_solver lia|].
  destruct (slab_bounds s Hs) as (? & ? & ?).
  assert (0 <= size * slab_nobjs size) by (apply Z.mul_nonneg_nonneg; [|lia]; destruct (si_size _ _ _ _ Hi); lia).
  split_and!.
  - apply (si_slab _ _ _ _ Hi s Hs). unfold in_slab. lia.
  - intros E. apply (hdr_cache_ne s 0 64 Hs); unfold sizeof_slab_cache; lia.
  - intros s' d Hs' Hd E. destruct (hdr_inj s s' 0 d Hs Hs'); lia.
Qed.

Lemma wr_link a x : is_link S a → x = 0 ∨ x ∈ S → slab_inv (m.[a <- x]) S live U.
Proof using Hi. intros Ha Hx. destruct (link_cell a Ha) as (? & ? & ?). by apply slab_inv_wr. Qed.

(** The fields [cache] and [nused] of a slab. *)
Lemma wr_plain s d x : s ∈ S → 8 <= d < 16 ∨ 20 <= d < 24 → slab_inv (m.[s + d <- x]) S live U.
Proof using Hi.
  intros Hs Hd. destruct (slab_bounds s Hs) as (? & ? & ?).
  assert (0 <= size * slab_nobjs size) by (apply Z.mul_nonneg_nonneg; [|lia]; destruct (si_size _ _ _ _ Hi); lia).
  apply slab_inv_wr.
  - apply (si_slab _ _ _ _ Hi s Hs). unfold in_slab. lia.
  - apply hdr_cache_ne; unfold sizeof_slab_cache; (done || lia).
  - intros s' d' Hs' Hd' E. destruct (hdr_inj s s' d d' Hs Hs'); lia.
  - intros [E|[E|[E|(s' & Hs' & E)]]]; exfalso.
    1-3: revert E; apply hdr_cache_ne; unfold sizeof_slab_cache; (done || lia).
    unfold hdr_next in E. destruct (hdr_inj s s' d 0 Hs Hs'); lia.
Qed.

(** Marking one object. *)
Lemma wr_mark s i x live' :
  s ∈ S → 0 <= i < slab_nobjs size → (x = 0 ↔ object s i ∈ live') →
  (∀ o, o ≠ object s i → o ∈ live' ↔ o ∈ live) → slab_inv (m.[hdr_mark s i <- x]) S live' U.
Proof using Hi.
  intros Hs Hr Hx Hl. destruct (slab_bounds s Hs) as (? & ? & ?).
  destruct (si_size _ _ _ _ Hi) as [Esz Hsz].
  assert (0 <= size * slab_nobjs size) by (apply Z.mul_nonneg_nonneg; lia).
  assert (hdr_mark s i = s + (32 + i)) as Em by (unfold hdr_mark; lia).
  assert (∀ s' d, s' ∈ S → 0 <= d < 32 → hdr_mark s i ≠ s' + d) as Hne.
  { intros s' d Hs' Hd E. rewrite Em in E. destruct (hdr_inj s s' (32 + i) d Hs Hs'); lia. }
  constructor.
  - apply pa_write; [apply Hi|]. apply (si_slab _ _ _ _ Hi s Hs). unfold in_slab. lia.
  - rewrite rd_wr_ne; [done|]. rewrite Em. apply hdr_cache_ne; unfold sizeof_slab_cache; (done || lia).
  - apply Hi.
  - intros s' Hs'. unfold hdr_nobjs, hdr_obj_head. rewrite !rd_wr_ne by (apply Hne; [done|lia]).
    by apply (si_slab _ _ _ _ Hi).
  - apply Hi.
  - apply Hi.
  - intros a Ha. rewrite rd_wr_ne; [by apply Hi|]. intros <-.
    destruct (link_cell (hdr_mark s i) Ha) as (_ & _ & Hn). apply (Hn s (32 + i) Hs); lia.
  - intros s' j Hs' Hj. destruct (decide (s' = s ∧ j = i)) as [[-> ->]|Hd]; [by rewrite rd_wr_eq|].
    rewrite rd_wr_ne, (si_mark _ _ _ _ Hi s' j), Hl; [done| |done|done|].
    + intros E. apply Hd. by destruct (object_inj s' s j i).
    + intros E. unfold hdr_mark in E. apply Hd.
      destruct (hdr_inj s s' (32 + i) (32 + j) Hs Hs'); lia.
  - intros o Ho. destruct (decide (o = object s i)) as [->|Hn]; [by exists s, i|].
    apply (si_live _ _ _ _ Hi), Hl; done.
Qed.
End cells.

(** ** Allocation *)

Lemma take_object_spec m S live U s k i :
  slab_inv m S live U → s ∈ S → 0 <= i → i + Z.of_nat k <= slab_nobjs size →
  ∃ obj m', take_object k c s i m = Ok obj m' ∧
    ((obj = 0 ∧ slab_inv m' S live U) ∨
     (obj ∉ live ∧ slab_inv m' S ({[obj]} ∪ live) U ∧
      ∃ j, i <= j < i + Z.of_nat k ∧ obj = object s j)) ∧
    (∀ a, is_link S a → m'.@a = m.@a).
Proof.
  revert i. induction k as [|k IH]; intros i Hi Hs Hr Hk; cbn [take_object].
  { exists 0, m. split_and!; [done|by left|done]. }
  mrun. destruct (Z.eqb_spec (m.@(hdr_mark s i)) 0) as [E|E]; cbn [negb].
  { destruct (IH (i + 1) Hi Hs) as (obj & m' & E' & Hout & Hl); [lia|lia|]. exists obj, m'.
    split_and!; [done| |done]. destruct Hout as [Hout|(? & ? & j & ? & ?)]; [by left|right].
    split_and!; [done|done|]. exists j. split; [lia|done]. }
  mrun. destruct (si_slab _ _ _ _ Hi s Hs) as (H0 & Hend & Hn & Hh & _). rewrite Hh.
  destruct (si_size _ _ _ _ Hi) as [-> Hsz].
  destruct (slab_bounds m S live U Hi s Hs) as (? & ? & ?).
  rewrite u64_small by nia. fold (object s i). eexists _, _. split; [done|].
  assert (object s i ∉ live) as Hnew.
  { rewrite <-(si_mark _ _ _ _ Hi s i) by (done || lia). done. }
  assert (slab_inv (m.[hdr_mark s i <- 0]) S ({[object s i]} ∪ live) U) as Hi'.
  { eapply (wr_mark m S live U Hi); [done|lia|set_solver|set_solver]. }
  split.
  - right. split_and!; [done|by apply (wr_plain _ _ _ _ Hi'); [|lia]|]. exists i. split; [lia|done].
  - intros a Ha. destruct (link_cell _ _ _ _ Hi a Ha) as (_ & _ & Hne).
    rewrite !rd_wr_ne; [done|..].
    + intros E'. apply (Hne s (32 + i) Hs); [lia|]. rewrite <-E'. unfold hdr_mark. lia.
    + intros E'. destruct Ha as [->|[->|[->|(s' & Hs' & ->)]]].
      1-3: revert E'; apply (hdr_cache_ne m S live U Hi s 20); unfold sizeof_slab_cache; (done || lia).
      unfold hdr_next, hdr_nused in E'. destruct (hdr_inj m S live U Hi s s' 20 0 Hs Hs'); lia.
Qed.

Lemma is_link_mono S S' a : S ⊆ S' → is_link S a → is_link S' a.
Proof. unfold is_link. set_solver. Qed.

Lemma slab_inv_frame m m' S live U :
  slab_inv m S live U → (∀ x, U x → m'.@x = m.@x) → pa_inv m' U → slab_inv m' S live U.
Proof.
  intros Hi Hfr HU.
  assert (∀ s i, s ∈ S → 0 <= i < 32 + slab_nobjs size → m'.@(s + i) = m.@(s + i)) as Hin.
  { intros s i Hs Hr. apply Hfr, (si_slab _ _ _ _ Hi s Hs).
    destruct (slab_bounds m S live U Hi s Hs) as (? & ? & ?). destruct (si_size _ _ _ _ Hi) as [_ ?].
    assert (0 <= size * slab_nobjs size) by (apply Z.mul_nonneg_nonneg; lia). unfold in_slab. lia. }
  constructor; try apply Hi.
  - done.
  - rewrite Hfr; [apply Hi|]. apply (si_cache _ _ _ _ Hi). unfold sizeof_slab_cache. lia.
  - intros s Hs. destruct (slab_bounds m S live U Hi s Hs) as (? & _).
    unfold hdr_nobjs, hdr_obj_head. rewrite !Hin by (done || lia). by apply (si_slab _ _ _ _ Hi).
  - intros a Ha. rewrite Hfr by apply (link_cell m S live U Hi a Ha). by apply (si_link _ _ _ _ Hi).
  - intros s i Hs Hr. unfold hdr_mark. rewrite <-Z.add_assoc, Hin by (done || lia).
    rewrite Z.add_assoc. by apply (si_mark _ _ _ _ Hi).
Qed.

(** A fresh slab joins the cache. *)
Lemma slab_inv_new m m' S live U p :
  slab_inv m S live U → (∀ x, U x → m'.@x = m.@x) →
  0 < p → p + SLAB_BYTES <= 2 ^ 63 → (∀ x, in_slab p x → ¬ U x) →
  pa_inv m' (λ x, U x ∨ in_slab p x) →
  m'.@(hdr_next p) = 0 → m'.@(hdr_nobjs p) = slab_nobjs size →
  m'.@(hdr_obj_head p) = slab_head p size →
  (∀ i, 0 <= i < slab_nobjs size → m'.@(hdr_mark p i) = 1) →
  slab_inv m' ({[p]} ∪ S) live (λ x, U x ∨ in_slab p x).
Proof.
  intros Hi Hfr Hp Hpe Hnew HU Hnx Hno Hhd Hmk.
  destruct (si_size _ _ _ _ Hi) as [Esz Hsz]. destruct (slab_layout p size) as (Hn & _ & Hl1 & Hl2); [lia|lia|].
  assert (0 <= size * slab_nobjs size) as Hpos by (apply Z.mul_nonneg_nonneg; lia).
  assert (∀ s i, s ∈ S → 0 <= i < 32 + slab_nobjs size → U (s + i)) as Hin.
  { intros s i Hs Hr. apply (si_slab _ _ _ _ Hi s Hs). destruct (slab_bounds m S live U Hi s Hs) as (? & ? & ?).
    unfold in_slab. lia. }
  assert (∀ s x, s ∈ S → in_slab s x → in_slab p x → False) as Hdis.
  { intros s x Hs Hx Hpx. apply (Hnew x Hpx). by apply (si_slab _ _ _ _ Hi s Hs). }
  constructor.
  - done.
  - rewrite Hfr; [done|]. apply (si_cache _ _ _ _ Hi). unfold sizeof_slab_cache. lia.
  - intros d Hd. left. by apply (si_cache _ _ _ _ Hi).
  - intros s [->%elem_of_singleton|Hs]%elem_of_union; [split_and!; auto|].
    destruct (si_slab _ _ _ _ Hi s Hs) as (? & ? & E1 & E2 & Hx). unfold hdr_nobjs, hdr_obj_head in *.
    rewrite !Hfr by (apply Hin; [done|lia]). split_and!; auto.
  - intros s s' x [->%elem_of_singleton|Hs]%elem_of_union [->%elem_of_singleton|Hs']%elem_of_union Hx Hx';
      [done| | |by eapply (si_apart _ _ _ _ Hi)]; exfalso; eauto.
  - intros s d [->%elem_of_singleton|Hs]%elem_of_union Hd; [|by apply (si_capart _ _ _ _ Hi)].
    intros Hx. apply (Hnew (c + d)); [unfold in_slab; lia|]. by apply (si_cache _ _ _ _ Hi).
  - intros a Ha. assert (a = hdr_next p ∨ is_link S a) as [->|Ha'] by (unfold is_link in *; set_solver); [auto|].
    rewrite Hfr by apply (link_cell m S live U Hi a Ha'). destruct (si_link _ _ _ _ Hi a Ha'); set_solver.
  - intros s i [->%elem_of_singleton|Hs]%elem_of_union Hr.
    + rewrite Hmk by done. split; [done|]. intros (s & j & Hs & Hj & E)%(si_live _ _ _ _ Hi). exfalso.
      destruct (slab_bounds m S live U Hi s Hs) as (? & ? & ?). unfold object in E.
      apply (Hdis s (slab_head p size + size * i) Hs); unfold in_slab; nia.
    + unfold hdr_mark. rewrite Hfr; [by apply (si_mark _ _ _ _ Hi)|]. rewrite <-Z.add_assoc. apply Hin; [done|lia].
  - intros o Ho. destruct (si_live _ _ _ _ Hi o Ho) as (s & i & ? & ? & ?). exists s, i. set_solver.
Qed.

(** New slabs use cells that no client had. *)
Definition grows S U S' U' : Prop :=
  S ⊆ S' ∧ (∀ x, U x → U' x) ∧ ∀ s x, s ∈ S' → s ∉ S → in_slab s x → ¬ U x.

Lemma grows_refl S U : grows S U S U.
Proof. by split_and!. Qed.

Lemma ensure_slab_spec m S live U :
  slab_inv m S live U →
  ∃ ok m' S' U', ensure_slab slab c m = Ok ok m' ∧ slab_inv m' S' live U' ∧ grows S U S' U' ∧
    (ok = true → m'.@(cache_partial c) ≠ 0 ∨ m'.@(cache_full c) ≠ 0).
Proof.
  intros Hi. unfold ensure_slab. mrun.
  destruct (Z.eqb_spec (m.@(cache_partial c)) 0) as [E1|E1]; cbn [andb];
    [|by exists true, m, S, U; split_and!; auto using grows_refl].
  destruct (Z.eqb_spec (m.@(cache_full c)) 0) as [E2|E2];
    [|by exists true, m, S, U; split_and!; auto using grows_refl].
  mrun. destruct (si_size _ _ _ _ Hi) as [-> Hsz].
  destruct (new_slab_spec size m U) as (p & m1 & E & Hfr & [[-> HU]|(Hp & Hpe & Hnew & HU & Hnx & Hno & _ & Hhd & Hmk)]);
    [apply Hi|done| |]; rewrite (bind_ok _ _ _ _ _ E).
  { exists false, m1, S, U. split_and!; [done| |apply grows_refl|done].
    by apply (slab_inv_frame m). }
  rewrite (proj2 (Z.eqb_neq p 0)) by lia. mrun.
  pose proof (slab_inv_new m m1 S live U p Hi Hfr Hp Hpe Hnew HU Hnx Hno Hhd Hmk) as Hi1.
  assert (p ∈ {[p]} ∪ S) as Hin by set_solver.
  pose proof (wr_plain _ _ _ _ Hi1 p 8 c Hin ltac:(lia)) as Hi2.
  eexists true, _, ({[p]} ∪ S), (λ x, U x ∨ in_slab p x). split_and!; [done| | |].
  - apply (wr_link _ _ _ _ Hi2); [right; by left|by right].
  - split_and!; [set_solver|by left|]. intros s x Hs Hns. assert (s = p) as -> by set_solver. apply Hnew.
  - intros _. right. rewrite rd_wr_eq. lia.
Qed.

Lemma refill_partial_spec m S live U :
  slab_inv m S live U → m.@(cache_partial c) ≠ 0 ∨ m.@(cache_full c) ≠ 0 →
  ∃ m', refill_partial c m = Ok tt m' ∧ slab_inv m' S live U ∧ m'.@(cache_partial c) ∈ S.
Proof.
  intros Hi Hne. unfold refill_partial. mrun.
  assert (is_link S (cache_partial c)) as Hlp by by left.
  assert (is_link S (cache_full c)) as Hlf by (right; by left).
  destruct (Z.eqb_spec (m.@(cache_partial c)) 0) as [E1|E1].
  - destruct Hne as [|Hf]; [done|]. mrun. rewrite (proj2 (Z.eqb_neq _ 0)) by done. cbn [negb kassert]. mrun.
    destruct (si_link _ _ _ _ Hi _ Hlf) as [|Hin]; [done|].
    pose proof (wr_link m S live U Hi _ _ Hlp (or_intror Hin)) as Hi1.
    assert (is_link S (hdr_next (m.@(cache_full c)))) as Hln by (do 3 right; eauto).
    eexists. split_and!; [done|apply (wr_link _ _ _ _ Hi1); [done|by apply (si_link _ _ _ _ Hi1)]|].
    rewrite rd_wr_ne by (unfold cache_full, cache_partial; lia). by rewrite rd_wr_eq.
  - exists m. split_and!; [done|done|]. by destruct (si_link _ _ _ _ Hi _ Hlp).
Qed.

Lemma retire_slab_spec m S live U s :
  slab_inv m S live U → s ∈ S → ∃ m', retire_slab c s m = Ok tt m' ∧ slab_inv m' S live U.
Proof.
  intros Hi Hs. unfold retire_slab. mrun. destruct (_ =? _); [|by exists m]. mrun.
  assert (is_link S (hdr_next s)) as Hln by (do 3 right; eauto).
  eexists. split; [done|].
  assert (slab_inv (m.[cache_partial c <- m.@(hdr_next s)]) S live U) as Hi1.
  { apply (wr_link _ _ _ _ Hi); [by left|by apply (si_link _ _ _ _ Hi)]. }
  apply wr_link; [|do 2 right; by left|by right]. apply wr_link; [done|done|].
  apply (si_link _ _ _ _ Hi1). do 2 right. by left.
Qed.

(** [obj] is a new object of the cache. *)
Definition fresh_object S live obj : Prop :=
  obj ∉ live ∧ ∃ s i, s ∈ S ∧ 0 <= i < slab_nobjs size ∧ obj = object s i.

Lemma slab_alloc_spec name m S live U :
  slab_inv m S live U → c ≠ 0 → _find_slab_cache fuel fuel (m.@(slab_root slab)) name m = Ok c m →
  ∃ obj m' S' U', _slab_alloc fuel slab name m = Ok obj m' ∧ grows S U S' U' ∧
    ((obj = 0 ∧ slab_inv m' S' live U') ∨
     (fresh_object S' live obj ∧ slab_inv m' S' ({[obj]} ∪ live) U')).
Proof.
  intros Hi Hc Hfind. unfold _slab_alloc. mrun. rewrite (bind_ok _ _ _ _ _ Hfind).
  rewrite (proj2 (Z.eqb_neq c 0)) by done.
  destruct (ensure_slab_spec m S live U Hi) as (ok & m1 & S1 & U1 & E1 & Hi1 & Hg & Hne).
  rewrite (bind_ok _ _ _ _ _ E1). destruct ok; cbn [negb]; [|exists 0, m1, S1, U1; split_and!; auto].
  destruct (refill_partial_spec m1 S1 live U1 Hi1 (Hne eq_refl)) as (m2 & E2 & Hi2 & Hp).
  rewrite (bind_ok _ _ _ _ _ E2). mrun. set (s := m2.@(cache_partial c)) in *.
  destruct (si_slab _ _ _ _ Hi2 s Hp) as (_ & _ & -> & _).
  destruct (slab_bounds m2 S1 live U1 Hi2 s Hp) as [Hn _].
  destruct (take_object_spec m2 S1 live U1 s (Z.to_nat (slab_nobjs size)) 0 Hi2 Hp)
    as (obj & m3 & E3 & Hout & _); [lia|lia|]. rewrite (bind_ok _ _ _ _ _ E3).
  destruct Hout as [[-> Hi3]|(Hnew & Hi3 & j & Hj & Eo)];
    destruct (retire_slab_spec m3 S1 _ U1 s Hi3 Hp) as (m4 & E4 & Hi4);
    rewrite (bind_ok _ _ _ _ _ E4); eexists _, m4, S1, U1; (split_and!; [done|done|]).
  - by left.
  - right. split; [|done]. split; [done|]. exists s, j. split_and!; [done|lia|lia|done].
Qed.

(** ** Release

    A list may have become cyclic, so the searches may not end; what they do
    when they end is right, and they never fail an assertion. *)

Definition may_hang {A} (o : outcome A) (P : A → gmap Z Z → Prop) : Prop :=
  match o with Ok a m => P a m | Panic => False | Hang => True end.

Lemma may_hang_bind {A B} (e : M A) (k : A → M B) m (P : A → gmap Z Z → Prop) (Q : B → gmap Z Z → Prop) :
  may_hang (e m) P → (∀ a m', P a m' → may_hang (k a m') Q) → may_hang ((e ≫= k) m) Q.
Proof. unfold mbind, M_bind. destruct (e m); simpl; auto. Qed.

Lemma find_slab_for_object_spec m S live U k s obj :
  slab_inv m S live U → s = 0 ∨ s ∈ S →
  may_hang (_find_slab_for_object k c s obj m) (λ r m', m' = m ∧
    (r = 0 ∨ (r ∈ S ∧ slab_head r size <= obj < slab_head r size + size * slab_nobjs size))).
Proof.
  intros Hi. revert s. induction k as [|k IH]; intros s Hs; cbn [_find_slab_for_object]; [done|].
  destruct (Z.eqb_spec s 0) as [->|Hs0]; [by split; [|left]|]. destruct Hs as [|Hs]; [done|]. mrun.
  destruct (si_slab _ _ _ _ Hi s Hs) as (? & ? & -> & -> & _). destruct (si_size _ _ _ _ Hi) as [-> Hsz].
  destruct (slab_bounds m S live U Hi s Hs) as (? & ? & ?). unfold SLAB_BYTES in *.
  assert (0 <= size * slab_nobjs size) by (apply Z.mul_nonneg_nonneg; lia). rewrite u64_small by lia.
  destruct (Z.leb_spec (slab_head s size) obj), (Z.ltb_spec obj (slab_head s size + size * slab_nobjs size));
    cbn [andb]; [split; [done|right; done]|..]; mrun; apply IH, (si_link _ _ _ _ Hi); do 3 right; eauto.
Qed.

Lemma unlink_slab_spec m S live U k head s :
  slab_inv m S live U → is_link S head → s ∈ S →
  may_hang (unlink_slab k head s m) (λ _ m', slab_inv m' S live U).
Proof.
  intros Hi. revert head. induction k as [|k IH]; intros head Hh Hs; cbn [unlink_slab]; [done|]. mrun.
  destruct (Z.eqb_spec (m.@head) 0) as [E|E]; [done|].
  destruct (si_link _ _ _ _ Hi _ Hh) as [|Hin]; [done|].
  destruct (Z.eqb_spec (m.@head) s).
  - mrun. apply (wr_link _ _ _ _ Hi); [done|]. apply (si_link _ _ _ _ Hi). do 3 right. eauto.
  - apply IH; [|done]. do 3 right. eauto.
Qed.

Lemma move_slab_spec m S live U from to s :
  slab_inv m S live U → is_link S from → is_link S to → s ∈ S →
  may_hang (move_slab fuel from to s m) (λ _ m', slab_inv m' S live U).
Proof.
  intros Hi Hf Ht Hs. unfold move_slab. eapply may_hang_bind; [by apply unlink_slab_spec|].
  intros [] m' Hi'. mrun. cbn. apply wr_link; [|done|by right].
  apply (wr_link _ _ _ _ Hi'); [do 3 right; eauto|by apply (si_link _ _ _ _ Hi')].
Qed.

(** The index of an object in use. *)
Lemma object_index m S live U s obj :
  slab_inv m S live U → obj ∈ live → s ∈ S →
  slab_head s size <= obj < slab_head s size + size * slab_nobjs size →
  ∃ i, 0 <= i < slab_nobjs size ∧ obj = object s i ∧ i32 (u64 (obj - slab_head s size) / size) = i.
Proof.
  intros Hi Hl Hs Hr. destruct (si_live _ _ _ _ Hi obj Hl) as (s' & i & Hs' & Hn & Eo).
  destruct (si_slab _ _ _ _ Hi s Hs) as (? & ? & _).
  destruct (slab_bounds m S live U Hi s Hs) as (? & ? & ?), (slab_bounds m S live U Hi s' Hs') as (_ & ? & ?).
  destruct (si_size _ _ _ _ Hi) as [_ Hsz]. unfold object in Eo.
  assert (s' = s) as Es by (apply (si_apart _ _ _ _ Hi s' s obj); [done|done|..]; unfold in_slab; nia).
  subst s'. exists i. unfold object. split_and!; [lia|lia|done|].
  destruct (slab_layout s size) as (? & _); [lia|lia|]. unfold SLAB_BYTES in *.
  rewrite Eo. replace (slab_head s size + size * i - slab_head s size) with (i * size) by lia.
  rewrite u64_small by nia. rewrite Z.div_mul by lia. apply i32_small. lia.
Qed.

Lemma slab_free_spec name obj m S live U :
  slab_inv m S live U → c ≠ 0 → _find_slab_cache fuel fuel (m.@(slab_root slab)) name m = Ok c m →
  obj ∈ live →
  may_hang (_slab_free fuel slab name obj m) (λ ret m',
    (ret = 0 ∧ slab_inv m' S (live ∖ {[obj]}) U) ∨ (ret = -1 ∧ m' = m)).
Proof.
  intros Hi Hc Hfind Hl. unfold _slab_free. mrun. rewrite (bind_ok _ _ _ _ _ Hfind).
  rewrite (proj2 (Z.eqb_neq c 0)) by done. mrun.
  assert (is_link S (cache_partial c)) as Hlp by by left.
  assert (is_link S (cache_full c)) as Hlf by (right; by left).
  assert (is_link S (cache_empty c)) as Hle by (do 2 right; by left).
  eapply may_hang_bind; [eapply find_slab_for_object_spec; [done|by apply (si_link _ _ _ _ Hi)]|].
  intros s1 m1 [-> Hs1]. cbn zeta.
  apply (may_hang_bind _ _ _ (λ s m', m' = m ∧
    (s = 0 ∨ (s ∈ S ∧ slab_head s size <= obj < slab_head s size + size * slab_nobjs size)))).
  { destruct (Z.eqb_spec s1 0); cbn [negb]; [|done]. mrun.
    eapply find_slab_for_object_spec; [done|by apply (si_link _ _ _ _ Hi)]. }
  intros s m1 [-> Hs]. destruct (Z.eqb_spec s 0) as [->|Hs0]; [by right|].
  destruct Hs as [|[Hs Hr]]; [done|]. mrun.
  destruct (object_index m S live U s obj Hi Hl Hs Hr) as (i & Hir & Eo & Ei).
  destruct (si_slab _ _ _ _ Hi s Hs) as (? & ? & -> & -> & _). rewrite (proj1 (si_size _ _ _ _ Hi)), Ei.
  rewrite (proj2 (Z.ltb_lt i _)) by lia. cbn [kassert]. mrun.
  assert (slab_inv (m.[hdr_mark s i <- 1]) S (live ∖ {[obj]}) U) as Hi1.
  { apply (wr_mark m S live U Hi); [done|lia|split; [done|set_solver]|set_solver]. }
  eapply may_hang_bind.
  { instantiate (1 := λ _ m', slab_inv m' S (live ∖ {[obj]}) U).
    pose proof (wr_plain _ _ _ _ Hi1 s 20) as Hi2.
    destruct (negb (s1 =? 0)); [by apply Hi2; [|lia]|].
    apply move_slab_spec; [by apply Hi2; [|lia]|done..]. }
  intros [] m2 Hi2. mrun. eapply may_hang_bind.
  { instantiate (1 := λ _ m', slab_inv m' S (live ∖ {[obj]}) U).
    destruct (_ =? 0); [by apply move_slab_spec|done]. }
  intros [] m3 Hi3. by left.
Qed.

(** ** Clients of a cache *)

Context (name : Z).

(** The lock is apart from the cache and its slabs, and free. *)
Record cache_inv m S live U : Prop := {
  ci_slab : slab_inv m S live U;
  ci_used : U (slab_lock slab);
  ci_cache d : 0 <= d < sizeof_slab_cache → slab_lock slab ≠ c + d;
  ci_out s : s ∈ S → ¬ in_slab s (slab_lock slab);
  ci_free : m.@(slab_lock slab) = 0;
}.

Lemma cache_inv_lock m S live U x : slab_inv m S live U → U (slab_lock slab) →
  (∀ d, 0 <= d < sizeof_slab_cache → slab_lock slab ≠ c + d) →
  (∀ s, s ∈ S → ¬ in_slab s (slab_lock slab)) →
  slab_inv (m.[slab_lock slab <- x]) S live U.
Proof.
  intros Hi HU Hc Ho. apply (slab_inv_wr _ _ _ _ Hi); [done|apply Hc; unfold sizeof_slab_cache; lia| |].
  - intros s d Hs Hd E. apply (Ho s Hs). destruct (slab_bounds m S live U Hi s Hs) as (? & ? & ?).
    destruct (si_size _ _ _ _ Hi) as [_ ?].
    assert (0 <= size * slab_nobjs size) by (apply Z.mul_nonneg_nonneg; lia). unfold in_slab. lia.
  - intros [E|[E|[E|(s & Hs & E)]]]; exfalso;
      [by eapply (Hc 72)|by eapply (Hc 80)|by eapply (Hc 88)|].
    apply (Ho s Hs). rewrite E. destruct (slab_bounds m S live U Hi s Hs) as (? & ? & ?).
    destruct (si_size _ _ _ _ Hi) as [_ ?].
    assert (0 <= size * slab_nobjs size) by (apply Z.mul_nonneg_nonneg; lia). unfold in_slab, hdr_next. lia.
Qed.

(** The name leads to the cache, with the lock taken. *)
Definition finds m : Prop :=
  let m := m.[slab_lock slab <- 1] in
  _find_slab_cache fuel fuel (m.@(slab_root slab)) name m = Ok c m.

Lemma memory_slab_alloc_spec m S live U :
  cache_inv m S live U → c ≠ 0 → finds m →
  ∃ obj m' S' U', memory_slab_alloc fuel slab name m = Ok obj m' ∧
    ((obj = 0 ∧ cache_inv m' S' live U') ∨
     (fresh_object S' live obj ∧ cache_inv m' S' ({[obj]} ∪ live) U')).
Proof.
  intros [Hi HU Hcd Ho Hl] Hc Hf. unfold memory_slab_alloc, lock, lift_, spin_lock.
  unfold mbind at 1, M_bind at 1. rewrite Hl. cbn [Z.eqb].
  destruct (slab_alloc_spec name _ S live U (cache_inv_lock m S live U 1 Hi HU Hcd Ho) Hc Hf)
    as (obj & m1 & S1 & U1 & E & (HS & HU1 & Hnew) & Hout).
  rewrite (bind_ok _ _ _ _ _ E). unfold unlock. erewrite bind_ok by done.
  assert (∀ s, s ∈ S1 → ¬ in_slab s (slab_lock slab)) as Ho1.
  { intros s Hs. destruct (decide (s ∈ S)) as [|Hn]; [auto|]. intros Hx. by apply (Hnew s _ Hs Hn Hx). }
  eexists obj, _, S1, U1. split; [done|]. unfold spin_unlock.
  destruct Hout as [[-> Hi1]|[Hfr Hi1]]; [left|right]; (split; [done|]);
    constructor; auto using cache_inv_lock; apply rd_wr_eq.
Qed.

Lemma memory_slab_free_spec m S live U obj :
  cache_inv m S live U → c ≠ 0 → finds m → obj ∈ live →
  may_hang (memory_slab_free fuel slab name obj m) (λ ret m',
    (ret = 0 ∧ cache_inv m' S (live ∖ {[obj]}) U) ∨ (ret = -1 ∧ cache_inv m' S live U)).
Proof.
  intros [Hi HU Hcd Ho Hl] Hc Hf Hin. unfold memory_slab_free, lock, lift_, spin_lock.
  unfold mbind at 1, M_bind at 1. rewrite Hl. cbn [Z.eqb].
  pose proof (cache_inv_lock m S live U 1 Hi HU Hcd Ho) as Hi0.
  eapply may_hang_bind; [by apply (slab_free_spec name obj _ S live U Hi0 Hc Hf Hin)|].
  intros ret m1 Hout. unfold unlock. erewrite bind_ok by done. cbn. unfold spin_unlock.
  destruct Hout as [[-> Hi1]|[-> ->]]; [left|right]; (split; [done|]);
    constructor; auto using cache_inv_lock; apply rd_wr_eq.
Qed.
End slab.

(** ** Clients *)

Section clients.
Context {PA : PageAllocator} (slab : Z) {PL : PageAllocatorLaws slab} (fuel : nat) (c size name : Z).

(** Clients allocate, free what they hold, and write into what they hold. *)
Inductive slab_step : gmap Z Z * gset Z → gmap Z Z * gset Z → Prop :=
  | slab_step_alloc m m' obj live :
      finds slab fuel c name m → memory_slab_alloc fuel slab name m = Ok obj m' →
      slab_step (m, live) (m', if obj =? 0 then live else {[obj]} ∪ live)
  | slab_step_free m m' obj ret live :
      obj ∈ live → finds slab fuel c name m → memory_slab_free fuel slab name obj m = Ok ret m' →
      slab_step (m, live) (m', if ret =? 0 then live ∖ {[obj]} else live)
  | slab_step_write m obj a x live :
      obj ∈ live → obj <= a < obj + size → a ≠ slab_lock slab →
      (∀ d, 0 <= d < sizeof_slab_cache → a ≠ c + d) → slab_step (m, live) (m.[a <- x], live).

Definition clients_inv (s : gmap Z Z * gset Z) : Prop :=
  ∃ S U, cache_inv slab c size s.1 S s.2 U.

Lemma client_write m S live U obj a x :
  cache_inv slab c size m S live U → obj ∈ live → obj <= a < obj + size → a ≠ slab_lock slab →
  (∀ d, 0 <= d < sizeof_slab_cache → a ≠ c + d) → cache_inv slab c size (m.[a <- x]) S live U.
Proof.
  intros [Hi HU Hcd Ho Hl] Hin Ha Hal Hac.
  destruct (si_live _ _ _ _ _ _ _ Hi obj Hin) as (s & i & Hs & Hr & ->). unfold object in Ha.
  destruct (slab_bounds _ _ _ _ _ _ _ Hi s Hs) as (? & Hb1 & Hb2). destruct (si_size _ _ _ _ _ _ _ Hi) as [_ Hsz].
  assert (in_slab s a) as Hina by (unfold in_slab; nia).
  assert (∀ s' d, s' ∈ S → 0 <= d < 32 + slab_nobjs size → a ≠ s' + d) as Hne.
  { intros s' d Hs' Hd E. destruct (slab_bounds _ _ _ _ _ _ _ Hi s' Hs') as (_ & ? & ?).
    assert (s = s') as <-; [|nia]. apply (si_apart _ _ _ _ _ _ _ Hi s s' a); [done|done|done|].
    unfold in_slab. nia. }
  constructor; [|done|done|done|by rewrite rd_wr_ne].
  apply (slab_inv_wr _ _ _ _ _ _ _ Hi).
  - by apply (si_slab _ _ _ _ _ _ _ Hi s Hs).
  - apply (Hac 64). unfold sizeof_slab_cache. lia.
  - intros s' d Hs' Hd. apply Hne; [done|lia].
  - intros [E|[E|[E|(s' & Hs' & E)]]]; exfalso.
    + by apply (Hac 72); [unfold sizeof_slab_cache; lia|].
    + by apply (Hac 80); [unfold sizeof_slab_cache; lia|].
    + by apply (Hac 88); [unfold sizeof_slab_cache; lia|].
    + apply (Hne s' 0 Hs'); [lia|]. unfold hdr_next in E. lia.
Qed.

Lemma slab_step_inv s s' : c ≠ 0 → clients_inv s → slab_step s s' → clients_inv s'.
Proof.
  intros Hc (S & U & Hi) Hst. destruct Hst as [m m' obj live Hf E|m m' obj ret live Hin Hf E|
    m obj a x live Hin Ha Hal Hac]; unfold clients_inv; cbn [fst snd] in *.
  - destruct (memory_slab_alloc_spec slab fuel c size name m S live U Hi Hc Hf)
      as (o & m1 & S1 & U1 & E1 & Hout). rewrite E1 in E. injection E as -> ->.
    destruct Hout as [[-> Hi1]|[(Hn & s & i & Hs & Hr & Eo) Hi1]]; [by exists S1, U1|].
    exists S1, U1. rewrite (proj2 (Z.eqb_neq obj 0)); [done|].
    pose proof (ci_slab _ _ _ _ _ _ _ Hi1) as Hs1. destruct (si_slab _ _ _ _ _ _ _ Hs1 s Hs) as [? _].
    destruct (slab_bounds _ _ _ _ _ _ _ Hs1 s Hs) as (? & ? & ?). destruct (si_size _ _ _ _ _ _ _ Hs1) as [_ ?].
    unfold object in Eo. nia.
  - pose proof (memory_slab_free_spec slab fuel c size name m S live U obj Hi Hc Hf Hin) as Hout.
    rewrite E in Hout. destruct Hout as [[-> Hi1]|[-> Hi1]]; by exists S, U.
  - exists S, U. by eapply client_write.
Qed.
End clients.

(** After any run of the clients. *)
Lemma slab_clients_spec {PA : PageAllocator} (slab : Z) {PL : PageAllocatorLaws slab} (fuel : nat)
    (c size name : Z) (m0 m : gmap Z Z) (S0 live : gset Z) (U0 : Z → Prop) :
  c ≠ 0 → cache_inv slab c size m0 S0 ∅ U0 →
  rtc (slab_step slab fuel c size name) (m0, ∅) (m, live) → finds slab fuel c name m →
  (∀ o o' x, o ∈ live → o' ∈ live → o <= x < o + size → o' <= x < o' + size → o = o') ∧
  ∃ obj m', memory_slab_alloc fuel slab name m = Ok obj m' ∧
    (obj = 0 ∨ (obj ∉ live ∧ ∀ o x, o ∈ live → o <= x < o + size → ¬ (obj <= x < obj + size))).
Proof.
  intros Hc Hi0 Hst Hf. assert (clients_inv slab c size (m, live)) as (S & U & Hi).
  { apply (rtc_ind_r (R := slab_step slab fuel c size name) (clients_inv slab c size) (m0, ∅));
      [by exists S0, U0| |exact Hst].
    intros s1 s2 _ H1 H2. by apply (slab_step_inv slab fuel c size name s1 s2 Hc). }
  cbn [fst snd] in Hi.
  assert (∀ m S live U, slab_inv slab c size m S live U → ∀ o o' x, o ∈ live → o' ∈ live →
    o <= x < o + size → o' <= x < o' + size → o = o') as Hdis.
  { clear. intros m S live U Hi o o' x Ho Ho' Hx Hx'.
    destruct (si_live _ _ _ _ _ _ _ Hi o Ho) as (s & i & Hs & Hr & ->).
    destruct (si_live _ _ _ _ _ _ _ Hi o' Ho') as (s' & i' & Hs' & Hr' & ->). unfold object in *.
    destruct (slab_bounds _ _ _ _ _ _ _ Hi s Hs) as (? & ? & ?), (slab_bounds _ _ _ _ _ _ _ Hi s' Hs') as (_ & ? & ?).
    destruct (si_size _ _ _ _ _ _ _ Hi) as [_ ?].
    assert (s = s') as <- by (apply (si_apart _ _ _ _ _ _ _ Hi s s' x); [done|done|..]; unfold in_slab; nia).
    assert (i = i') as <- by nia. done. }
  split; [apply (Hdis m S live U), Hi|].
  destruct (memory_slab_alloc_spec slab fuel c size name m S live U Hi Hc Hf)
    as (obj & m' & S1 & U1 & E & Hout). exists obj, m'. split; [done|].
  destruct Hout as [[-> _]|[[Hn _] Hi1]]; [by left|right]. split; [done|]. intros o x Ho Hx Hx'.
  apply Hn. rewrite <-(Hdis m' S1 ({[obj]} ∪ live) U1 (ci_slab _ _ _ _ _ _ _ Hi1) o obj x); set_solver.
Qed.

(** ** Properties *)

(** C33: a new slab holds as many objects as fit beside one mark byte each;
    the objects start at a multiple of 64 behind the marks and end inside the
    eight pages; all are marked free, and nothing outside the new pages is
    written. *)
Theorem new_slab_correct {PA : PageAllocator} (slab : Z) {PL : PageAllocatorLaws slab} (objsize : Z)
    (m : gmap Z Z) (U : Z → Prop) :
  pa_inv m U → 1 <= objsize < 2 ^ 62 →
  ∃ p m', _new_slab slab objsize m = Ok p m' ∧ (∀ x, U x → m'.@x = m.@x) ∧
    (p ≠ 0 →
      let n := m'.@(hdr_nobjs p) in let head := m'.@(hdr_obj_head p) in
      n = 32672 / (objsize + 1) ∧ head mod 64 = 0 ∧ hdr_mark p n <= head ∧
      head + objsize * n <= p + SLAB_BYTES ∧ m'.@(hdr_nused p) = 0 ∧ m'.@(hdr_next p) = 0 ∧
      ∀ i, 0 <= i < n → m'.@(hdr_mark p i) = 1).
Proof.
  intros HU Ho. destruct (new_slab_spec slab objsize m U HU Ho)
    as (p & m' & E & Hfr & Hout). exists p, m'. split_and!; [done|done|]. intros Hp.
  destruct Hout as [[? _]|(? & _ & _ & _ & Hnx & Hn & Hu & Hh & Hm)]; [done|]. cbn zeta.
  rewrite Hn, Hh. destruct (slab_layout p objsize) as (? & ? & ? & ?); [lia|lia|].
  unfold hdr_mark in *. by split_and!.
Qed.

(** C7: clients of a slab cache never share an object: after any sequence of
    allocations, releases and writes into their own objects, two objects in
    use do not overlap, and the next allocation returns NULL or an object
    that is not in use and lies inside a slab of the cache.  It holds although
    the lists of slabs may be wrong (see [slab_lists_alias]). *)
Theorem slab_clients_safe {PA : PageAllocator} (slab : Z) {PL : PageAllocatorLaws slab} (fuel : nat)
    (c size name : Z) (m0 m : gmap Z Z) (S0 live : gset Z) (U0 : Z → Prop) :
  c ≠ 0 → cache_inv slab c size m0 S0 ∅ U0 →
  rtc (slab_step slab fuel c size name) (m0, ∅) (m, live) → finds slab fuel c name m →
  (∀ o o' x, o ∈ live → o' ∈ live → o <= x < o + size → o' <= x < o' + size → o = o') ∧
  ∃ obj m', memory_slab_alloc fuel slab name m = Ok obj m' ∧
    (obj = 0 ∨ (obj ∉ live ∧ ∀ o x, o ∈ live → o <= x < o + size → ¬ (obj <= x < obj + size))).
Proof. apply slab_clients_spec. Qed.

Lemma find_slab_cache_pure fuel k n name m c m' :
  _find_slab_cache fuel k n name m = Ok c m' → m' = m.
Proof.
  revert n. induction k as [|k IH]; intros n; [done|]. cbn [_find_slab_cache].
  destruct (n =? 0); [by intros [= _ <-]|]. unfold name_cmp, peek. unfold mbind at 1, M_bind at 1.
  destruct (kstrncmp _ _ _ _ _); [|done]. destruct (0 =? _); [by intros [= _ <-]|].
  destruct (_ <? _); mrun; apply IH.
Qed.

(** ** Examples

    Pages are taken one after the other from the address in the cell 8. *)

#[local] Instance bump_pages : PageAllocator := {|
  alloc_pages _ nr _ _ :=
    p ← ld 8; if 2 ^ 40 <? p + nr * 4096 then mret 0 else _ ← st 8 (p + nr * 4096); mret p
|}.

#[local] Program Instance bump_laws (slab : Z) : PageAllocatorLaws slab := {|
  pa_inv m U := 8 < m.@8 ∧ ¬ U 8 ∧ ∀ x, U x → x < m.@8
|}.
Next Obligation.
  intros slab m U a x (H1 & H2 & H3) Ha. rewrite rd_wr_ne; [done|]. by intros ->.
Qed.
Next Obligation.
  intros slab m U b len (H1 & H2 & H3) Ha. rewrite rd_kmemset0, decide_False; [done|]. intros H8.
  by apply H2, Ha.
Qed.
Next Obligation.
  intros slab m U (H1 & H2 & H3). unfold alloc_pages, bump_pages, MEMORY_SLAB_NUM_PAGES. mrun.
  destruct (Z.ltb_spec (2 ^ 40) (m.@8 + 8 * 4096)).
  - exists 0, m. split_and!; [done|done|]. by left.
  - mrun. exists (m.@8), (m.[8 <- m.@8 + 8 * 4096]). split_and!; [done| |].
    + intros x Hx. apply rd_wr_ne. by intros <-.
    + right. rewrite rd_wr_eq. unfold in_slab, SLAB_BYTES, MEMORY_PAGESIZE, MEMORY_SLAB_NUM_PAGES.
      split_and!; [lia|lia|intros x Hx HU; specialize (H3 x HU); lia|lia| |].
      * intros [?|?]; [done|]. lia.
      * intros x [Hx|Hx]; [specialize (H3 x Hx)|]; lia.
Qed.

Fixpoint poke (a : Z) (l : list Z) (m : gmap Z Z) : gmap Z Z :=
  match l with [] => m | b :: l => poke (a + 1) l (m.[a <- b]) end.

(** The name "big" at 0x300, a cache of that name at 0x2000 with objects of
    16384 bytes, one to a slab, as the root of the allocator at 0x400. *)
Definition cache_ex : gmap Z Z :=
  poke 0x300 [98; 105; 103] (poke 0x2000 [98; 105; 103]
    (∅.[8 <- 0x100000].[slab_root 0x400 <- 0x2000].[cache_size 0x2000 <- 16384])).

Lemma cache_ex_inv :
  cache_inv 0x400 0x2000 16384 cache_ex ∅ ∅ (λ x, 0x100 <= x < 0x100000).
Proof.
  constructor; [constructor|..].
  - split; [by vm_compute|split; [lia|]]. intros x Hx.
    assert (cache_ex.@8 = 0x100000) as -> by by vm_compute. lia.
  - split; [by vm_compute|lia].
  - unfold sizeof_slab_cache. lia.
  - set_solver.
  - set_solver.
  - set_solver.
  - intros a [->|[->|[->|(s & Hs & _)]]]; [left; by vm_compute..|set_solver].
  - set_solver.
  - set_solver.
  - unfold slab_lock. lia.
  - unfold sizeof_slab_cache, slab_lock. lia.
  - set_solver.
  - by vm_compute.
Qed.

Lemma new_slab_witness :
  ∃ p m', _new_slab 0x400 100 cache_ex = Ok p m' ∧ p ≠ 0 ∧ m'.@(hdr_nobjs p) = 323.
Proof.
  destruct (new_slab_correct 0x400 100 cache_ex (λ x, 0x100 <= x < 0x100000)) as (p & m' & E & _ & Hp);
    [apply cache_ex_inv|lia|].
  exists p, m'. assert (result (_new_slab 0x400 100 cache_ex) = Some 0x100000) as R by by vm_compute.
  rewrite E in R. injection R as R. assert (p ≠ 0) as Hp0 by lia. split_and!; [done|done|].
  by destruct (Hp Hp0) as [-> _].
Defined.

(** After one allocation, the next object is another one. *)
Lemma slab_clients_witness :
  ∃ m obj, memory_slab_alloc 20 0x400 0x300 cache_ex = Ok 0x100040 m ∧
    (∃ m', memory_slab_alloc 20 0x400 0x300 m = Ok obj m') ∧ obj ≠ 0x100040.
Proof.
  assert (finds 0x400 20 0x2000 0x300 cache_ex) as Hf by by vm_compute.
  destruct (memory_slab_alloc 20 0x400 0x300 cache_ex) as [o m| |] eqn:E;
    [|exfalso; revert E; by vm_compute..].
  assert (o = 0x100040) as ->.
  { assert (result (memory_slab_alloc 20 0x400 0x300 cache_ex) = Some 0x100040) as R by by vm_compute.
    rewrite E in R. by injection R. }
  assert (finds 0x400 20 0x2000 0x300 m) as Hf2.
  { assert (match memory_slab_alloc 20 0x400 0x300 cache_ex with Ok _ m =>
      match _find_slab_cache 20 20 ((m.[0x400 <- 1]).@(slab_root 0x400)) 0x300 (m.[0x400 <- 1]) with
      | Ok c _ => c | _ => 0 end | _ => 0 end = 0x2000) as R by by vm_compute. rewrite E in R.
    unfold finds. change (slab_lock 0x400) with 0x400.
    destruct (_find_slab_cache 20 20 _ _ (m.[0x400 <- 1])) as [c' m1| |] eqn:E2; [|done..].
    apply find_slab_cache_pure in E2 as Em. by rewrite Em, R. }
  destruct (slab_clients_safe 0x400 20 0x2000 16384 0x300 cache_ex m ∅ ({[0x100040]} ∪ ∅)
    (λ x, 0x100 <= x < 0x100000)) as (_ & obj & m' & E' & Hout); [lia|apply cache_ex_inv| |exact Hf2|].
  { apply rtc_once. apply (slab_step_alloc 0x400 20 0x2000 16384 0x300 cache_ex m 0x100040 ∅);
      [exact Hf|exact E]. }
  exists m, obj. split; [reflexivity|]. split; [exists m'; exact E'|]. intros Eo. rewrite Eo in Hout.
  destruct Hout as [?|[Hn _]]; [discriminate|]. apply Hn, elem_of_union_l, elem_of_singleton. reflexivity.
Defined.

(** the lists of a cache can lose their slabs: when a slab moves from the
    full to the partial list it keeps its link, so the next slab is on both.
    With one object to a slab, after two allocations and releases and two more
    allocations the next one returns NULL although pages are left, and the
    release of an address the cache does not know never returns, because a
    slab has become its own successor. *)
Theorem slab_lists_alias :
  let alloc := memory_slab_alloc 50 0x400 0x300 in
  let free := memory_slab_free 50 0x400 0x300 in
  let run := (a ← alloc; b ← alloc; _ ← free a; _ ← free b; _ ← alloc; _ ← alloc; alloc) in
  result (run cache_ex) = Some 0 ∧ is_hang ((_ ← run; free 64) cache_ex) = true ∧
  result ((_ ← run; alloc_pages 0 8 MEMORY_ZONE_NUMA_AWARE 0) cache_ex) ≠ Some 0.
Proof. vm_compute. split_and!; done. Qed.

Lemma kmalloc_fit_spec sizes sz :
  StronglySorted Z.le sizes → (∀ size, size ∈ sizes → 0 < size) → 0 <= sz < 2 ^ 31 →
  (kmalloc_fit sizes sz = -1 ∧ ∀ size, size ∈ sizes → size < sz) ∨
  (kmalloc_fit sizes sz ∈ sizes ∧ sz <= kmalloc_fit sizes sz ∧
   ∀ size, size ∈ sizes → sz <= size → kmalloc_fit sizes sz <= size).
Proof.
  intros Hs Hp Hsz. induction sizes as [|size sizes IH]; cbn [kmalloc_fit]; [left; set_solver|].
  apply StronglySorted_inv in Hs as [Hs Hall]. rewrite Forall_forall in Hall.
  rewrite i32_small by lia. destruct (Z.leb_spec sz size).
  - right. split_and!; [set_solver|done|]. intros size' [->|Hin]%elem_of_cons _; [lia|by apply Hall].
  - destruct IH as [[E IH]|(? & ? & IH)]; [done|intros; apply Hp; set_solver|left|right].
    + split; [done|]. intros size' [->|Hin]%elem_of_cons; auto.
    + split_and!; [set_solver|done|]. intros size' [->|Hin]%elem_of_cons ?; [lia|auto].
Qed.

(** [kmalloc] takes the smallest of its sizes that holds the request, and
    refuses exactly the requests over the largest. *)
Theorem kmalloc_best_fit (sz : Z) :
  0 <= sz < 2 ^ 31 →
  (kmalloc_fit kmalloc_sizes sz = -1 ∧ 8192 < sz) ∨
  (kmalloc_fit kmalloc_sizes sz ∈ kmalloc_sizes ∧ sz <= kmalloc_fit kmalloc_sizes sz ∧
   ∀ size, size ∈ kmalloc_sizes → sz <= size → kmalloc_fit kmalloc_sizes sz <= size).
Proof.
  intros Hsz. destruct (kmalloc_fit_spec kmalloc_sizes sz) as [[E Hn]|Hout]; [..|by right].
  - repeat constructor; lia.
  - unfold kmalloc_sizes. intros size Hin. repeat (apply elem_of_cons in Hin as [->|Hin]; [lia|]).
    by apply not_elem_of_nil in Hin.
  - done.
  - left. split; [done|]. apply Hn. unfold kmalloc_sizes. set_solver.
Qed.

Lemma kmalloc_best_fit_witness : kmalloc_fit kmalloc_sizes 100 = 128.
Proof.
  destruct (kmalloc_best_fit 100) as [[_ ?]|(Hin & Hle & Hmin)]; [lia|lia|].
  assert (kmalloc_fit kmalloc_sizes 100 <= 128) as H by (apply Hmin; [unfold kmalloc_sizes; set_solver|lia]).
  reflexivity.
Defined.

(** A request of 2 GiB or more is cut to a negative [int] and gets an object
    of 8 bytes. *)
Lemma kmalloc_fit_cut : kmalloc_fit kmalloc_sizes (2 ^ 31) = 8.
Proof. reflexivity. Qed.
