(* ===== verification/SlabKernel.v ===== *)
(** * The slab allocator on the kernel's pages

    [memory_alloc_pages] keeps the laws that the slab allocator asks of its
    pages, so the theorems on its clients hold of the kernel as it is put
    together: slab.c on memory.c on physmem.c, pgt.c and kmem.c. *)

From S2P Require Import Prelude CMonad PhysMem KString Strfmt Tree Pgt PgtTheorems PgtRange Kmem KmemTheorems Memory Buddy BuddyTheorems AllocInv AllocPages AllocBlock AllocTheorems Slab SlabTheorems.

Section kernel.
Context {AM : ArchMemory} {DA : DataAllocator} (L : layout).
Context {AL : ArchMemoryLaws (ly_arch L)} {DL : DataAllocatorLaws (ly_vmem L)}.
Context (stk : Z) (fuel : nat) (slab : Z).
Implicit Types (m : gmap Z Z) (s : mst L) (U : Z → Prop) (b : bump) (bs : list bump).

(** The entries of a block and the pages left in its range: one is the most
    entries that the other can become. *)
Definition room b : nat :=
  length (bk_ents b) + match bk_rng b with None => 0 | Some (_, _, sz) => Z.to_nat (sz / 4096) end.

(** The slab allocator's pointer to the memory manager is not a client's cell. *)
Definition pages_inv m U : Prop :=
  ∃ s bs junk, vmm L stk m s bs ((slab_mem slab, 1) :: junk) U ∧ m.@(slab_mem slab) = ly_mem L ∧
    (length bs < fuel)%nat ∧ ∀ b, b ∈ bs → (room b < fuel)%nat.

(** Writes of the clients. *)
Lemma vmm_client m m' s bs junk U :
  vmm L stk m s bs junk U → (∀ x, ¬ U x → m'.@x = m.@x) → vmm L stk m' s bs junk U.
Proof.
  intros [H Hch Hat Hun] Hm. destruct (mach_write L m m' s _ U H) as [H' Ht]; [auto|].
  assert (∀ x, covers (blocks_own bs) x ∨ static L x → m'.@x = m.@x) as Hk.
  { intros x Hx. apply Hm. intros HU. destruct Hx as [Hx|Hx]; [|by apply (mc_apart _ _ _ _ _ H x)].
    destruct (mc_own _ _ _ _ _ H x) as (_ & ? & _); [|done]. rewrite covers_cons, covers_app. auto. }
  constructor; [done| | |].
  - eapply blocks_keeps; [| |exact Hch].
    + apply Hk. right. unfold static. tauto.
    + intros b Hb. apply Hk. left. eapply blocks_covers; [exact Hb|]. unfold bump_own. apply covers_cons. left.
      unfold blk_next. apply recr_in. lia.
  - intros b Hb. eapply bump_keeps; [|by apply Hat]. intros x Hx. apply Hk. left. by eapply blocks_covers.
  - intros b Hb. specialize (Hun b Hb). unfold unmapped in *. destruct (bk_rng b) as [[[? ?] ?]|]; [|done].
    intros v Hv. rewrite Ht. by apply Hun.
Qed.

Lemma pages_client m m' U : pages_inv m U → (∀ x, ¬ U x → m'.@x = m.@x) → pages_inv m' U.
Proof.
  intros (s & bs & junk & Hv & Em & Hl1 & Hl2) Hm. exists s, bs, junk. split_and!; try done.
  - by eapply vmm_client.
  - rewrite Hm; [done|]. intros HU. pose proof (vm_mach _ _ _ _ _ _ _ Hv) as H.
    destruct (mc_own _ _ _ _ _ H (slab_mem slab)) as (_ & ? & _); [|done].
    rewrite covers_cons, covers_app, covers_cons. right. right. left. unfold inr. cbn [fst snd]. lia.
Qed.

Context (Hl : layout_ok L) (Hkm : memory_kmem (ly_mem L) = ly_vmem L).
Context (Hz : ly_zone L = MEMORY_ZONE_NUMA_AWARE) (Hd : ly_dom L = 0).
Context (Hf : (ly_pages L + 1 < fuel)%nat) (H512 : (512 <= fuel)%nat).

Lemma pages_alloc m U :
  pages_inv m U →
  ∃ p m', memory_alloc_pages stk fuel (m.@(slab_mem slab)) MEMORY_SLAB_NUM_PAGES MEMORY_ZONE_NUMA_AWARE 0 m = Ok p m' ∧
    (∀ x, U x → m'.@x = m.@x) ∧
    ((p = 0 ∧ pages_inv m' U) ∨
     (0 < p ∧ p + SLAB_BYTES <= 2 ^ 63 ∧ (∀ x, in_slab p x → ¬ U x) ∧
      pages_inv m' (λ x, U x ∨ in_slab p x))).
Proof using Hl Hkm Hz Hd Hf H512.
  intros (s & bs & junk & Hv & Em & Hl1 & Hl2). rewrite Em.
  destruct (memory_alloc_pages_spec L stk fuel m s bs _ U MEMORY_SLAB_NUM_PAGES Hl Hkm Hv) as (p & m' & E & s' & Hk & Hout);
    [unfold MEMORY_SLAB_NUM_PAGES; lia|done|done|done| |].
  { intros b Hb. specialize (Hl2 b Hb). unfold room in Hl2. lia. }
  rewrite Hz, Hd in E. exists p, m'. split; [done|]. split; [intros x Hx; apply Hk; by left|].
  assert (m'.@(slab_mem slab) = ly_mem L) as Em'.
  { rewrite Hk; [done|]. right. right. apply covers_cons. left. unfold inr. cbn [fst snd]. lia. }
  destruct Hout as [(-> & Hv' & _)|(bs1 & b & bs2 & f & sz & ps & e & obj & f0 & f1 & -> & Er & Hsz & Hv' & _)]; [left|right].
  { split; [done|]. by exists s', bs, junk. }
  destruct (vm_at _ _ _ _ _ _ _ Hv b) as (_ & _ & _ & _ & Hr); [set_solver|]. rewrite Er in Hr.
  destruct Hr as (_ & _ & Hc & Hcm & Hs0 & Hsm & Hend).
  unfold MEMORY_SLAB_NUM_PAGES in *. change (8 * 4096) with 32768 in *.
  change (in_slab p) with (λ x, inr (p, 32768) x). split_and!; [done|unfold SLAB_BYTES, MEMORY_PAGESIZE, MEMORY_SLAB_NUM_PAGES; lia| |].
  { intros x Hx. pose proof (vm_mach _ _ _ _ _ _ _ Hv') as H. apply (mc_own _ _ _ _ _ H).
    rewrite covers_cons, covers_app, covers_cons. auto. }
  apply vmm_give in Hv'.
  eapply (vmm_perm L stk m' s' _ _ ((slab_mem slab, 1) :: leak 32768 sz f1 ++ pages_own L ps ++ recr obj :: junk)) in Hv';
    [|perm].
  eexists s', _, _. split_and!; [exact Hv'|done| |].
  - rewrite length_app in *. cbn [length] in *. done.
  - intros b' Hb'. destruct (mid_elem b' _ bs1 bs2 Hb') as [->|?]; [|apply Hl2; set_solver].
    specialize (Hl2 b ltac:(set_solver)). unfold room in *. rewrite Er in Hl2. unfold shrunk, with_entry.
    cbn [bk_ents bk_rng]. rewrite Er. cbn [bk_ents bk_rng]. rewrite length_app. cbn [length].
    apply mod0_ex in Hsm as [q ->]; [|lia]. rewrite (Z.mul_comm 4096), Z.div_mul in Hl2 by lia.
    case_decide; [lia|]. replace (4096 * q - 32768) with ((q - 8) * 4096) by lia. rewrite Z.div_mul by lia. lia.
Qed.

(** The kernel's pages for the slab allocator. *)
Definition kernel_pages_laws : PageAllocatorLaws (PA := kernel_pages stk fuel) slab.
Proof using AL DL Hl Hkm Hz Hd Hf H512.
  refine (Build_PageAllocatorLaws (kernel_pages stk fuel) slab pages_inv _ _ pages_alloc).
  - intros m U a x Hi Ha. eapply pages_client; [done|]. intros y Hy. apply rd_wr_ne. by intros ->.
  - intros m U b len Hi Hb. eapply pages_client; [done|]. intros y Hy. rewrite rd_kmemset0, decide_False; [done|].
    intros Hx. by apply Hy, Hb.
Defined.
End kernel.

(** ** Properties *)

(** C8: on the kernel's own allocators, from a cache whose slabs come from
    [memory_alloc_pages]: after any sequence of allocations, releases and
    writes of the clients of a slab cache, two objects in use do not overlap,
    and the next allocation returns, with NULL or with an object that is not
    in use.  The pages under the objects, their frames, the page tables, the
    records and the free lists are those of memory.c, pgt.c, kmem.c and
    physmem.c. *)
Theorem kernel_slab_clients_safe {AM : ArchMemory} {DA : DataAllocator} (L : layout)
    {AL : ArchMemoryLaws (ly_arch L)} {DL : DataAllocatorLaws (ly_vmem L)}
    (stk : Z) (fuel : nat) (slab : Z) (Hl : layout_ok L) (Hkm : memory_kmem (ly_mem L) = ly_vmem L)
    (Hz : ly_zone L = MEMORY_ZONE_NUMA_AWARE) (Hd : ly_dom L = 0)
    (Hf : (ly_pages L + 1 < fuel)%nat) (H512 : (512 <= fuel)%nat)
    (c size name : Z) (m0 m : gmap Z Z) (S0 live : gset Z) (U0 : Z → Prop) :
  c ≠ 0 →
  cache_inv (PA := kernel_pages stk fuel) (PL := kernel_pages_laws L stk fuel slab Hl Hkm Hz Hd Hf H512)
    slab c size m0 S0 ∅ U0 →
  rtc (slab_step (PA := kernel_pages stk fuel) slab fuel c size name) (m0, ∅) (m, live) →
  finds slab fuel c name m →
  (∀ o o' x, o ∈ live → o' ∈ live → o <= x < o + size → o' <= x < o' + size → o = o') ∧
  ∃ obj m', @memory_slab_alloc (kernel_pages stk fuel) fuel slab name m = Ok obj m' ∧
    (obj = 0 ∨ (obj ∉ live ∧ ∀ o x, o ∈ live → o <= x < o + size → ¬ (obj <= x < obj + size))).
Proof. apply slab_clients_spec. Qed.

(** The cache of the example machine, without slabs. *)
Abbreviation ex_pages := (kernel_pages 0x6000 512).
Lemma alloc_few : (ly_pages alloc_lay + 1 < 512)%nat.
Proof. cbn. lia. Qed.
Definition alloc_pages_laws : PageAllocatorLaws (PA := ex_pages) 0x7000 :=
  kernel_pages_laws alloc_lay (AL := alloc_laws) (DL := alloc_dl) 0x6000 512 0x7000 alloc_lay_ok eq_refl eq_refl eq_refl
    alloc_few (le_n 512).

Lemma alloc_cache : cache_inv (PA := ex_pages) (PL := alloc_pages_laws) 0x7000 0x7100 16384 alloc_ex ∅ ∅ alloc_U.
Proof.
  constructor; [constructor|..].
  - exists alloc_st, [alloc_bump], []. split_and!; [apply alloc_vmm|by vm_compute|cbn; lia|].
    intros b ->%list_elem_of_singleton. by apply Nat.ltb_lt; vm_compute.
  - split; [by vm_compute|lia].
  - unfold sizeof_slab_cache, alloc_U. lia.
  - set_solver.
  - set_solver.
  - set_solver.
  - intros a [->|[->|[->|(s & Hs & _)]]]; [left; by vm_compute..|set_solver].
  - set_solver.
  - set_solver.
  - unfold slab_lock, alloc_U. lia.
  - unfold sizeof_slab_cache, slab_lock. lia.
  - set_solver.
  - by vm_compute.
Qed.

(** After one allocation, the next object is another one. *)
Lemma kernel_slab_clients_witness :
  ∃ m obj, @memory_slab_alloc ex_pages 512 0x7000 0x7080 alloc_ex = Ok 0x400040 m ∧
    (∃ m', @memory_slab_alloc ex_pages 512 0x7000 0x7080 m = Ok obj m') ∧ obj ≠ 0x400040.
Proof.
  assert (finds 0x7000 512 0x7100 0x7080 alloc_ex) as Hf by by vm_compute.
  destruct (@memory_slab_alloc ex_pages 512 0x7000 0x7080 alloc_ex) as [o m| |] eqn:E;
    [|exfalso; revert E; by vm_compute..].
  assert (o = 0x400040) as ->.
  { assert (result (@memory_slab_alloc ex_pages 512 0x7000 0x7080 alloc_ex) = Some 0x400040) as R by by vm_compute.
    rewrite E in R. by injection R. }
  assert (finds 0x7000 512 0x7100 0x7080 m) as Hf2.
  { assert (match @memory_slab_alloc ex_pages 512 0x7000 0x7080 alloc_ex with Ok _ m =>
      match _find_slab_cache 512 512 ((m.[0x7000 <- 1]).@(slab_root 0x7000)) 0x7080 (m.[0x7000 <- 1]) with
      | Ok c _ => c | _ => 0 end | _ => 0 end = 0x7100) as R by by vm_compute. rewrite E in R.
    unfold finds. change (slab_lock 0x7000) with 0x7000.
    destruct (_find_slab_cache 512 512 _ _ (m.[0x7000 <- 1])) as [c' m1| |] eqn:E2; [|done..].
    apply find_slab_cache_pure in E2 as Em. by rewrite Em, R. }
  destruct (kernel_slab_clients_safe alloc_lay (AL := alloc_laws) (DL := alloc_dl) 0x6000 512 0x7000 alloc_lay_ok
    eq_refl eq_refl eq_refl alloc_few (le_n 512) 0x7100 16384 0x7080 alloc_ex m ∅ ({[0x400040]} ∪ ∅) alloc_U)
    as (_ & obj & m' & E' & Hout); [lia|apply alloc_cache| |exact Hf2|].
  { apply rtc_once. apply (slab_step_alloc (PA := ex_pages) 0x7000 512 0x7100 16384 0x7080 alloc_ex m 0x400040 ∅);
      [exact Hf|exact E]. }
  exists m, obj. split; [reflexivity|]. split; [exists m'; exact E'|]. intros Eo. rewrite Eo in Hout.
  destruct Hout as [?|[Hn _]]; [discriminate|]. apply Hn, elem_of_union_l, elem_of_singleton. reflexivity.
Defined.
