(* ===== verification/Devfs.v ===== *)
(** * Device files: kernel/devfs.c and kernel/sysdriver.c

    A character device has two ring buffers of 8192 bytes, one filled by the
    driver process and read by the others, one the other way round; [head]
    and [tail] are indices, one slot stays unused.  The table [devfs] holds
    up to 1024 entries, each owned by the driver process that registered it. *)

From S2P Require Import Prelude CMonad PhysMem KString Kmem Memory Slab.

Definition SYSDRIVER_DEV_BUFSIZE : Z := 8192.
Definition DEVFS_MAXDEVS : Z := 1024.
Definition DEVFS_CHAR : Z := 0.
Definition DEVFS_BLOCK : Z := 1.
Definition PATH_MAX : Z := 1024.

(** ** Fields *)

Definition fifo_head (f : Z) : Z := f + 8192.
Definition fifo_tail (f : Z) : Z := f + 8200.
Definition sizeof_fifo : Z := 8208.
Definition dev_type (dev : Z) : Z := dev.
Definition dev_ibuf (dev : Z) : Z := dev + 8.
Definition dev_obuf (dev : Z) : Z := dev + 8216.
Definition de_name (e : Z) : Z := e.
Definition de_flags (e : Z) : Z := e + 1024.
Definition de_device (e : Z) : Z := e + 1032.
Definition de_proc (e : Z) : Z := e + 17456.
Definition de_lock (e : Z) : Z := e + 17464.
Definition sizeof_devfs_entry : Z := 17472.
Definition devfs_entry_at (devfs i : Z) : Z := devfs + 8 + 8 * i.
Definition devfs_lock (devfs : Z) : Z := devfs + 8200.

Definition fildes_head (fd : Z) : Z := fd.
Definition fildes_entry (fd : Z) : Z := fd + 24.
Definition task_proc (t : Z) : Z := t + 8.
Definition task_state (t : Z) : Z := t + 28.
Definition tl_task (tle : Z) : Z := tle.
Definition tl_next (tle : Z) : Z := tle + 8.
Definition proc_task (proc : Z) : Z := proc + 2064.
Definition proc_vmem (proc : Z) : Z := proc + 10272.
Definition mount_spec (mount : Z) : Z := mount.
Definition mount_module (mount : Z) : Z := mount + 16.
Definition vnode_inode (vnode : Z) : Z := vnode.
Definition vnode_module (vnode : Z) : Z := vnode + 104.

Definition TASK_READY : Z := 1.
Definition TASK_BLOCKED : Z := 3.

(** ** Ring buffers *)

(** [cur + 1 < SYSDRIVER_DEV_BUFSIZE ? cur + 1 : 0] *)
Definition fifo_next (cur : Z) : Z := if cur + 1 <? SYSDRIVER_DEV_BUFSIZE then cur + 1 else 0.

Definition fifo_putc (f c : Z) : M Z :=
  cur ← ld (fifo_tail f);
  let next := fifo_next cur in
  head ← ld (fifo_head f);
  if head =? next then mret (-1)
  else
    _ ← st (f + cur) (u8 c);
    _ ← st (fifo_tail f) next;
    mret c.

Definition fifo_getc (f : Z) : M Z :=
  head ← ld (fifo_head f); tail ← ld (fifo_tail f);
  if head =? tail then mret (-1)
  else
    cur ← ld (fifo_head f);
    let next := fifo_next cur in
    c ← ld (f + cur);
    _ ← st (fifo_head f) next;
    mret c.

Definition fifo_length (f : Z) : M Z :=
  tail ← ld (fifo_tail f); head ← ld (fifo_head f);
  mret (i32 (if head <=? tail then tail - head else SYSDRIVER_DEV_BUFSIZE + tail - head)).

Definition _chr_ibuf_putc (dev c : Z) : M Z := fifo_putc (dev_ibuf dev) c.
Definition _chr_ibuf_getc (dev : Z) : M Z := fifo_getc (dev_ibuf dev).
Definition _chr_ibuf_length (dev : Z) : M Z := fifo_length (dev_ibuf dev).
Definition _chr_obuf_putc (dev c : Z) : M Z := fifo_putc (dev_obuf dev) c.
Definition _chr_obuf_getc (dev : Z) : M Z := fifo_getc (dev_obuf dev).
Definition _chr_obuf_length (dev : Z) : M Z := fifo_length (dev_obuf dev).
Definition _chr_obuf_available (dev : Z) : M bool :=
  n ← _chr_obuf_length dev; mret (negb (SYSDRIVER_DEV_BUFSIZE - 1 <=? n)).

(** ** The kernel services devfs uses: the named slab caches *)

Class KernelSlab := {
  slab_alloc : Z → M Z;
  slab_free : Z → Z → M Z;
  slab_create : Z → Z → M Z;
}.

(** [kmem_slab_alloc], [kmem_slab_free] and [kmem_slab_create_cache] *)
Definition kernel_slab `{!PageAllocator} (slab_cache_str : Z) (fuel : nat) (kvar_slab : Z) : KernelSlab := {|
  slab_alloc := kmem_slab_alloc fuel kvar_slab;
  slab_free := kmem_slab_free fuel kvar_slab;
  slab_create := kmem_slab_create_cache slab_cache_str fuel kvar_slab;
|}.

Section devfs.
Context {KS : KernelSlab}.
(** The static table, and the names of the slab caches. *)
Context (devfs entry_str vnode_str task_list_str : Z).
(** [this_task()] and [task_switch()] of the architecture. *)
Context (this_task : M Z) (task_switch : M unit).
(** Enough for the strings. *)
Context (fuel : nat).

Definition devfs_mount (spec flags data : Z) : M Z := mret devfs.
Definition devfs_unmount (spec flags : Z) : M Z := mret 0.

(** The scan of [devfs_lookup]: the first entry of that name, if any. *)
Fixpoint devfs_find (k : nat) (i name : Z) : M Z :=
  match k with
  | O => mret 0
  | S k =>
    e ← ld (devfs_entry_at devfs i);
    if e =? 0 then devfs_find k (i + 1) name
    else
      d ← peek (λ m, kstrcmp fuel m name (de_name e));
      if 0 =? d then mret e else devfs_find k (i + 1) name
  end.

Definition vfs_vnode_alloc : M Z := slab_alloc vnode_str.

Definition devfs_lookup (mount parent name : Z) : M Z :=
  fs ← ld (mount_spec mount);
  _ ← lock (devfs_lock fs);
  e ← devfs_find (Z.to_nat DEVFS_MAXDEVS) 0 name;
  vnode ← (if e =? 0 then mret 0
           else
             vnode ← vfs_vnode_alloc;
             if vnode =? 0 then mret 0
             else
               md ← ld (mount_module mount);
               _ ← st (vnode_module vnode) md;
               _ ← st (vnode_inode vnode) e;
               mret vnode);
  _ ← unlock (devfs_lock fs);
  mret vnode.

(** The first free index from [i], or [DEVFS_MAXDEVS]. *)
Fixpoint devfs_slot (k : nat) (i : Z) : M Z :=
  match k with
  | O => mret i
  | S k => e ← ld (devfs_entry_at devfs i); if e =? 0 then mret i else devfs_slot k (i + 1)
  end.

Definition devfs_register (name type proc : Z) : M Z :=
  if negb (DEVFS_CHAR =? type) && negb (DEVFS_BLOCK =? type) then mret (-1)
  else
    _ ← lock (devfs_lock devfs);
    i ← devfs_slot (Z.to_nat DEVFS_MAXDEVS) 0;
    if DEVFS_MAXDEVS <=? i then _ ← unlock (devfs_lock devfs); mret (-1)
    else
      e ← slab_alloc entry_str;
      if e =? 0 then _ ← unlock (devfs_lock devfs); mret (-1)
      else
        _ ← lift (λ m, kstrlcpy fuel m (de_name e) name PATH_MAX);
        _ ← st (dev_type (de_device e)) type;
        _ ← st (de_flags e) 0;
        _ ← st (de_proc e) proc;
        _ ← st (de_lock e) 0;
        _ ← st (devfs_entry_at devfs i) e;
        _ ← unlock (devfs_lock devfs);
        mret i.

Definition devfs_unregister (index proc : Z) : M Z :=
  if DEVFS_MAXDEVS <=? index then mret (-1)
  else
    _ ← lock (devfs_lock devfs);
    e ← ld (devfs_entry_at devfs index);
    if e =? 0 then _ ← unlock (devfs_lock devfs); mret (-1)
    else
      owner ← ld (de_proc e);
      if negb (proc =? owner) then _ ← unlock (devfs_lock devfs); mret (-1)
      else
        _ ← slab_free entry_str e;
        _ ← st (devfs_entry_at devfs index) 0;
        _ ← unlock (devfs_lock devfs);
        mret 0.

(** The range, existence and owner checks of the driver functions; NULL when
    one of them fails. *)
Definition owned_entry (index proc : Z) : M Z :=
  if DEVFS_MAXDEVS <=? index then mret 0
  else
    e ← ld (devfs_entry_at devfs index);
    if e =? 0 then mret 0
    else owner ← ld (de_proc e); mret (if negb (proc =? owner) then 0 else e).

(** The lock is given back only when the buffer is full. *)
Definition devfs_driver_putc (index proc c : Z) : M Z :=
  e ← owned_entry index proc;
  if e =? 0 then mret (-1)
  else
    _ ← lock (de_lock e);
    ret ← _chr_ibuf_putc (de_device e) (i8 c);
    if ret <? 0 then _ ← unlock (de_lock e); mret (-1) else mret 0.

Fixpoint driver_write_loop (k : nat) (e buf i : Z) : M Z :=
  match k with
  | O => mret i
  | S k =>
    c ← ld (buf + i);
    ret ← _chr_ibuf_putc (de_device e) (i8 c);
    if ret <? 0 then mret i else driver_write_loop k e buf (i + 1)
  end.

Definition devfs_driver_write (index proc buf n : Z) : M Z :=
  e ← owned_entry index proc;
  if e =? 0 then mret (-1)
  else
    _ ← lock (de_lock e);
    i ← driver_write_loop (Z.to_nat (i64 n)) e buf 0;
    _ ← unlock (de_lock e);
    mret i.

Definition devfs_driver_getc (index proc : Z) : M Z :=
  e ← owned_entry index proc;
  if e =? 0 then mret (-1)
  else
    _ ← lock (de_lock e);
    ret ← _chr_obuf_getc (de_device e);
    _ ← unlock (de_lock e);
    mret ret.

(** Every type of message is answered with -1. *)
Definition devfs_recv_msg (index proc msg : Z) : M Z :=
  e ← owned_entry index proc;
  if e =? 0 then mret (-1) else _ ← ld msg; mret (-1).

(** [while ( 0 == _chr_ibuf_length(...) )]: block until there is something to
    read; -1 when no list record is left. *)
Fixpoint devfs_wait (k : nat) (t fildes e : Z) : M Z :=
  match k with
  | O => hang
  | S k =>
    n ← _chr_ibuf_length (de_device e);
    if 0 =? n then
      _ ← st (task_state t) TASK_BLOCKED;
      tle ← slab_alloc task_list_str;
      if tle =? 0 then mret (-1)
      else
        _ ← st (tl_task tle) t;
        head ← ld (fildes_head fildes);
        _ ← st (tl_next tle) head;
        _ ← st (fildes_head fildes) tle;
        _ ← task_switch;
        devfs_wait k t fildes e
    else mret 0
  end.

Fixpoint read_loop (k : nat) (e buf len : Z) : M Z :=
  match k with
  | O => mret len
  | S k =>
    c ← _chr_ibuf_getc (de_device e);
    if c <? 0 then mret len
    else _ ← st (buf + len) c; read_loop k e buf (len + 1)
  end.

Definition devfs_read (k : nat) (fildes buf nbyte : Z) : M Z :=
  t ← this_task;
  if t =? 0 then mret (-1)
  else
    e ← ld (fildes_entry fildes);
    type ← ld (dev_type (de_device e));
    if type =? DEVFS_CHAR then
      r ← devfs_wait k t fildes e;
      if r <? 0 then mret (-1) else read_loop (Z.to_nat (i64 nbyte)) e buf 0
    else mret (-1).

Fixpoint write_loop (k : nat) (e buf len : Z) : M Z :=
  match k with
  | O => mret len
  | S k =>
    c ← ld (buf + len);
    ret ← _chr_obuf_putc (de_device e) (i8 c);
    if ret <? 0 then mret len else write_loop k e buf (len + 1)
  end.

Definition devfs_write (fildes buf nbyte : Z) : M Z :=
  t ← this_task;
  if t =? 0 then mret (-1)
  else
    e ← ld (fildes_entry fildes);
    type ← ld (dev_type (de_device e));
    if type =? DEVFS_CHAR then
      room ← _chr_obuf_available (de_device e);
      if negb room then mret 0
      else
        len ← write_loop (Z.to_nat (i64 nbyte)) e buf 0;
        proc ← ld (de_proc e);
        tmp ← ld (proc_task proc);
        _ ← st (task_state tmp) TASK_READY;
        mret len
    else mret (-1).

(** The argument fills in the function table on the stack and calls
    [vfs_register("devfs", ...)] with it; the kernel's is [register_devfs] in
    file [Start].  The size check of the descriptor storage (96 bytes for a
    pointer) always passes. *)
Definition devfs_init (vfs_register : M Z) : M Z :=
  _ ← st (devfs_lock devfs) 0;
  _ ← for_up (Z.to_nat DEVFS_MAXDEVS) 0 (λ i, st (devfs_entry_at devfs i) 0);
  ret ← slab_create entry_str sizeof_devfs_entry;
  if ret <? 0 then mret (-1)
  else
    ret ← vfs_register;
    if ret <? 0 then mret (-1) else mret 0.

(** ** sysdriver.c *)

Definition SYSDRIVER_MSG : Z := 1.
Definition SYSDRIVER_MMAP : Z := 11.
Definition SYSDRIVER_MUNMAP : Z := 12.
Definition SYSDRIVER_REG_DEV : Z := 21.
Definition SYSDRIVER_IN8 : Z := 101.
Definition SYSDRIVER_IN16 : Z := 102.
Definition SYSDRIVER_IN32 : Z := 103.
Definition SYSDRIVER_OUT8 : Z := 111.
Definition SYSDRIVER_OUT16 : Z := 112.
Definition SYSDRIVER_OUT32 : Z := 113.

(** The arguments of the calls: [sysdriver_io_t], [sysdriver_mmio_t],
    [sysdriver_devfs_t] and [sysdriver_msg_t] (whose union is at 8). *)
Definition io_port (io : Z) : Z := io.
Definition io_data (io : Z) : Z := io + 8.
Definition mmio_addr (mmio : Z) : Z := mmio.
Definition mmio_size (mmio : Z) : Z := mmio + 8.
Definition reg_name (msg : Z) : Z := msg.
Definition reg_type (msg : Z) : Z := msg + 8.
Definition msg_type (msg : Z) : Z := msg.
Definition msg_dev (msg : Z) : Z := msg + 4.
Definition msg_c (msg : Z) : Z := msg + 8.
Definition msg_buf (msg : Z) : Z := msg + 8.
Definition msg_nbytes (msg : Z) : Z := msg + 16.
Definition SYSDRIVER_MSG_PUTC : Z := 0.
Definition SYSDRIVER_MSG_GETC : Z := 1.
Definition SYSDRIVER_MSG_WRITE : Z := 3.
Definition DRIVER_DEVICE_CHAR : Z := 0.
Definition DRIVER_DEVICE_BLOCK : Z := 1.

(** The port instructions: [port_in width port] and [port_out width port data]. *)
Context (port_in : Z → Z → M Z) (port_out : Z → Z → Z → M unit).
(** [virt_memory_wire2] of memory.c. *)
Context (wire2 : Z → Z → Z → M Z).

Definition _mmap (t mmio : Z) : M Z :=
  proc ← ld (task_proc t);
  if proc =? 0 then mret (-1) else
  vmem ← ld (proc_vmem proc);
  if vmem =? 0 then mret (-1) else
  addr ← ld (mmio_addr mmio); size ← ld (mmio_size mmio);
  if negb (Z.land addr (MEMORY_PAGESIZE - 1) =? 0) then mret (-1) else
  if negb (Z.land size (MEMORY_PAGESIZE - 1) =? 0) then mret (-1) else
  let npg := size / MEMORY_PAGESIZE in
  ptr ← wire2 vmem addr npg;
  if ptr =? 0 then mret (-1) else _ ← st (mmio_addr mmio) ptr; mret 0.

Definition _munmap (t args : Z) : M Z := mret (-1).

Definition _io (nr io : Z) : M Z :=
  port ← ld (io_port io);
  if nr =? SYSDRIVER_IN8 then d ← port_in 8 port; _ ← st (io_data io) d; mret 0
  else if nr =? SYSDRIVER_IN16 then d ← port_in 16 port; _ ← st (io_data io) d; mret 0
  else if nr =? SYSDRIVER_IN32 then d ← port_in 32 port; _ ← st (io_data io) d; mret 0
  else if nr =? SYSDRIVER_OUT8 then d ← ld (io_data io); _ ← port_out 8 port d; mret 0
  else if nr =? SYSDRIVER_OUT16 then d ← ld (io_data io); _ ← port_out 16 port d; mret 0
  else if nr =? SYSDRIVER_OUT32 then d ← ld (io_data io); _ ← port_out 32 port d; mret 0
  else mret (-1).

Definition _register_device (t msg : Z) : M Z :=
  proc ← ld (task_proc t);
  if proc =? 0 then mret (-1) else
  vmem ← ld (proc_vmem proc);
  if vmem =? 0 then mret (-1) else
  type ← ld (reg_type msg);
  if negb ((type =? DRIVER_DEVICE_CHAR) || (type =? DRIVER_DEVICE_BLOCK)) then mret (-1)
  else
    name ← ld (reg_name msg);
    ret ← devfs_register name (if type =? DRIVER_DEVICE_CHAR then DEVFS_CHAR else DEVFS_BLOCK) proc;
    if ret <? 0 then mret (-1) else mret 0.

Definition _msg (t msg : Z) : M Z :=
  proc ← ld (task_proc t);
  if proc =? 0 then mret (-1) else
  type ← ld (msg_type msg); dev ← ld (msg_dev msg);
  if type =? SYSDRIVER_MSG_PUTC then c ← ld (msg_c msg); devfs_driver_putc dev proc c
  else if type =? SYSDRIVER_MSG_WRITE then
    buf ← ld (msg_buf msg); n ← ld (msg_nbytes msg);
    ret ← devfs_driver_write dev proc buf n; mret (i32 ret)
  else if type =? SYSDRIVER_MSG_GETC then devfs_driver_getc dev proc
  else mret (-1).

Definition sys_driver (nr args : Z) : M Z :=
  t ← this_task;
  if t =? 0 then mret (-1) else
  proc ← ld (task_proc t);
  if proc =? 0 then mret (-1) else
  if nr =? SYSDRIVER_MMAP then _mmap t args
  else if nr =? SYSDRIVER_MUNMAP then _munmap t args
  else if nr =? SYSDRIVER_REG_DEV then _register_device t args
  else if (nr =? SYSDRIVER_IN8) || (nr =? SYSDRIVER_IN16) || (nr =? SYSDRIVER_IN32)
       || (nr =? SYSDRIVER_OUT8) || (nr =? SYSDRIVER_OUT16) || (nr =? SYSDRIVER_OUT32)
       then _io nr args
  else if nr =? SYSDRIVER_MSG then _msg t args
  else mret (-1).
End devfs.
