(* ===== verification/DevfsTheorems.v ===== *)
(** * Device files: theorems

    A ring buffer is a bounded first-in first-out queue of 8191 bytes, when
    its operations run alone and when one writer and one reader interleave
    at any point; the functions on device files keep the queues. *)

From S2P Require Import Prelude CMonad PhysMem KString Kmem Memory Slab Devfs.

Notation BUF := SYSDRIVER_DEV_BUFSIZE.

(** ** Indices *)

Definition fifo_add (i k : Z) : Z := (i + k) mod BUF.

Lemma fifo_next_add i : 0 <= i < BUF → fifo_next i = fifo_add i 1.
Proof.
  unfold fifo_next, fifo_add, BUF. intros Hi. destruct (Z.ltb_spec (i + 1) 8192).
  - by rewrite Z.mod_small by lia.
  - replace (i + 1) with (0 + 1 * 8192) by lia. by rewrite Z.mod_add by lia.
Qed.

Lemma fifo_add_range i k : 0 <= fifo_add i k < BUF.
Proof. unfold fifo_add, BUF. apply Z.mod_pos_bound. lia. Qed.

Lemma fifo_add_add i j k : fifo_add (fifo_add i j) k = fifo_add i (j + k).
Proof. unfold fifo_add, BUF. rewrite Zplus_mod_idemp_l. f_equal. lia. Qed.

Lemma fifo_add_inj i j k : 0 <= j < BUF → 0 <= k < BUF → fifo_add i j = fifo_add i k → j = k.
Proof.
  unfold fifo_add, BUF. intros Hj Hk E.
  pose proof (Z.div_mod (i + j) 8192). pose proof (Z.div_mod (i + k) 8192). lia.
Qed.

(** ** The queue in a ring buffer *)

Record fifo_at (m : gmap Z Z) (f : Z) (q : list Z) : Prop := {
  fa_head : 0 <= m.@(fifo_head f) < BUF;
  fa_tail : m.@(fifo_tail f) = fifo_add (m.@(fifo_head f)) (Z.of_nat (length q));
  fa_len : Z.of_nat (length q) < BUF;
  fa_data i b : q !! i = Some b → m.@(f + fifo_add (m.@(fifo_head f)) (Z.of_nat i)) = b;
}.

Lemma fifo_full_spec m f q :
  fifo_at m f q → (m.@(fifo_head f) = fifo_next (m.@(fifo_tail f)) ↔ Z.of_nat (length q) = BUF - 1).
Proof.
  intros [Hh Ht Hl _]. rewrite fifo_next_add by (rewrite Ht; apply fifo_add_range).
  rewrite Ht, fifo_add_add. set (n := Z.of_nat (length q)) in *. unfold fifo_add, BUF in *. split; intros E.
  - pose proof (Z.div_mod (m.@(fifo_head f) + (n + 1)) 8192). lia.
  - rewrite E. replace (m.@(fifo_head f) + (8192 - 1 + 1)) with (m.@(fifo_head f) + 1 * 8192) by lia.
    rewrite Z.mod_add, Z.mod_small by lia. done.
Qed.

Lemma fifo_empty_spec m f q :
  fifo_at m f q → (m.@(fifo_head f) = m.@(fifo_tail f) ↔ q = []).
Proof.
  intros [Hh Ht Hl _]. rewrite Ht. split.
  - intros E. destruct q as [|b q]; [done|]. exfalso.
    assert (0 = Z.of_nat (length (b :: q))) as E'; [|simpl in E'; lia].
    apply (fifo_add_inj (m.@(fifo_head f))); [unfold BUF; lia|lia|].
    rewrite <-E. unfold fifo_add, BUF in *. by rewrite Z.add_0_r, Z.mod_small by lia.
  - intros ->. unfold fifo_add, BUF in *. simpl. by rewrite Z.add_0_r, Z.mod_small by lia.
Qed.

(** Storing behind the last byte, then publishing it. *)
Lemma fifo_push m f q c :
  fifo_at m f q → Z.of_nat (length q) < BUF - 1 →
  fifo_at (m.[f + m.@(fifo_tail f) <- c].[fifo_tail f <- fifo_next (m.@(fifo_tail f))]) f (q ++ [c]).
Proof.
  intros [Hh Ht Hl Hd] Hr.
  assert (0 <= m.@(fifo_tail f) < BUF) as Htr by (rewrite Ht; apply fifo_add_range).
  assert ((m.[f + m.@(fifo_tail f) <- c].[fifo_tail f <- fifo_next (m.@(fifo_tail f))]).@(fifo_head f) = m.@(fifo_head f)) as Hx.
  { rewrite rd_wr_ne by (unfold fifo_head, fifo_tail; lia).
    apply rd_wr_ne. unfold fifo_head, BUF in *. lia. }
  constructor; rewrite ?Hx.
  - done.
  - rewrite rd_wr_eq, fifo_next_add by done. rewrite Ht, fifo_add_add. rewrite length_app, Nat2Z.inj_add. reflexivity.
  - rewrite length_app. simpl. lia.
  - intros i b Hi. pose proof (fifo_add_range (m.@(fifo_head f)) (Z.of_nat i)) as Hir.
    rewrite rd_wr_ne by (unfold fifo_tail, BUF in *; lia).
    apply lookup_app_Some in Hi as [Hi|[Hle Hi]].
    + rewrite rd_wr_ne; [by apply Hd|]. apply lookup_lt_Some in Hi as Hlt. intros E.
      assert (Z.of_nat (length q) = Z.of_nat i); [|lia].
      apply (fifo_add_inj (m.@(fifo_head f))); [lia|lia|]. rewrite <-Ht. lia.
    + apply list_lookup_singleton_Some in Hi as [Hi ->]. rewrite Ht.
      replace (Z.of_nat i) with (Z.of_nat (length q)) by lia. apply rd_wr_eq.
Qed.

Lemma fifo_pop m f b q :
  fifo_at m f (b :: q) →
  m.@(f + m.@(fifo_head f)) = b ∧
  fifo_at (m.[fifo_head f <- fifo_next (m.@(fifo_head f))]) f q.
Proof.
  intros [Hh Ht Hl Hd]. split.
  { specialize (Hd 0%nat b eq_refl). unfold fifo_add, BUF in *. by rewrite Z.add_0_r, Z.mod_small in Hd by lia. }
  rewrite fifo_next_add by done. constructor; rewrite ?rd_wr_eq.
  - apply fifo_add_range.
  - rewrite rd_wr_ne by (unfold fifo_head, fifo_tail; lia). rewrite Ht, fifo_add_add. f_equal. simpl. lia.
  - simpl in Hl. lia.
  - intros i b' Hi. rewrite fifo_add_add. pose proof (fifo_add_range (m.@(fifo_head f)) (1 + Z.of_nat i)).
    rewrite rd_wr_ne by (unfold fifo_head, BUF in *; lia).
    replace (1 + Z.of_nat i) with (Z.of_nat (S i)) by lia. by apply Hd.
Qed.

(** ** The operations, alone *)

(** Nothing outside the ring buffer changes. *)
Definition fifo_frame (f : Z) (m m' : gmap Z Z) : Prop :=
  ∀ x, ¬ (f <= x < f + sizeof_fifo) → m'.@x = m.@x.

#[export] Instance fifo_frame_preorder f : PreOrder (fifo_frame f).
Proof. split; [by intros m x|]. intros m1 m2 m3 H1 H2 x Hx. rewrite H2, H1; done. Qed.

Lemma fifo_tail_range m f q : fifo_at m f q → 0 <= m.@(fifo_tail f) < BUF.
Proof. intros H. rewrite (fa_tail _ _ _ H). apply fifo_add_range. Qed.

Lemma fifo_frame_tail m f c t :
  0 <= t < BUF → fifo_frame f m (m.[f + t <- c].[fifo_tail f <- fifo_next t]).
Proof.
  unfold fifo_frame, sizeof_fifo, fifo_tail, BUF. intros Ht x Hx. by rewrite !rd_wr_ne by lia.
Qed.

Lemma fifo_frame_head m f h : fifo_frame f m (m.[fifo_head f <- h]).
Proof. unfold fifo_frame, sizeof_fifo, fifo_head. intros x Hx. by rewrite rd_wr_ne by lia. Qed.

Lemma fifo_at_frame m m' f q :
  (∀ x, f <= x < f + sizeof_fifo → m'.@x = m.@x) → fifo_at m f q → fifo_at m' f q.
Proof.
  unfold sizeof_fifo. intros Hf [Hh Ht Hl Hd].
  assert (m'.@(fifo_head f) = m.@(fifo_head f)) as Eh by (apply Hf; unfold fifo_head; lia).
  assert (m'.@(fifo_tail f) = m.@(fifo_tail f)) as Et by (apply Hf; unfold fifo_tail; lia).
  constructor; rewrite ?Eh, ?Et; try done. intros i b Hi.
  pose proof (fifo_add_range (m.@(fifo_head f)) (Z.of_nat i)). unfold BUF in *.
  rewrite Hf by lia. by apply Hd.
Qed.

Lemma fifo_putc_room m f q c :
  fifo_at m f q → Z.of_nat (length q) < BUF - 1 →
  ∃ m', fifo_putc f c m = Ok c m' ∧ fifo_at m' f (q ++ [u8 c]) ∧ fifo_frame f m m'.
Proof.
  intros Hf Hl. unfold fifo_putc. mrun. cbv zeta.
  destruct (Z.eqb_spec (m.@(fifo_head f)) (fifo_next (m.@(fifo_tail f)))) as [E|E].
  { apply (fifo_full_spec _ _ _ Hf) in E. lia. }
  mrun. eexists. split; [done|]. split; [by apply fifo_push|].
  apply fifo_frame_tail. by apply fifo_tail_range in Hf.
Qed.

Lemma fifo_putc_full m f q c :
  fifo_at m f q → BUF - 1 <= Z.of_nat (length q) → fifo_putc f c m = Ok (-1) m.
Proof.
  intros Hf Hl. unfold fifo_putc. mrun. cbv zeta. pose proof (fa_len _ _ _ Hf).
  by rewrite (proj2 (Z.eqb_eq _ _) (proj2 (fifo_full_spec _ _ _ Hf) ltac:(lia))).
Qed.

Lemma fifo_getc_some m f b q :
  fifo_at m f (b :: q) → ∃ m', fifo_getc f m = Ok b m' ∧ fifo_at m' f q ∧ fifo_frame f m m'.
Proof.
  intros Hf. unfold fifo_getc. mrun. cbv zeta.
  destruct (Z.eqb_spec (m.@(fifo_head f)) (m.@(fifo_tail f))) as [E|E].
  { by apply (fifo_empty_spec _ _ _ Hf) in E. }
  mrun. apply fifo_pop in Hf as [-> Hf]. eexists. split; [done|]. split; [done|]. apply fifo_frame_head.
Qed.

Lemma fifo_getc_none m f : fifo_at m f [] → fifo_getc f m = Ok (-1) m.
Proof.
  intros Hf. unfold fifo_getc. mrun.
  by rewrite (proj2 (Z.eqb_eq _ _) (proj2 (fifo_empty_spec _ _ _ Hf) eq_refl)).
Qed.

Lemma fifo_length_run m f q : fifo_at m f q → fifo_length f m = Ok (Z.of_nat (length q)) m.
Proof.
  intros [Hh Ht Hl _]. unfold fifo_length. mrun. rewrite Ht. unfold mret, M_ret. f_equal.
  unfold fifo_add, BUF in *. set (h := m.@(fifo_head f)) in *. set (n := Z.of_nat (length q)) in *.
  assert (0 <= n) by lia. pose proof (Z.div_mod (h + n) 8192). pose proof (Z.mod_pos_bound (h + n) 8192).
  assert ((h + n) mod 8192 = h + n ∨ (h + n) mod 8192 = h + n - 8192) as [E|E] by lia;
    rewrite E; destruct (Z.leb_spec h (h + n)); destruct (Z.leb_spec h (h + n - 8192));
    unfold i32; rewrite Z.mod_small by lia; lia.
Qed.

(** The bounded queue a ring buffer promises. *)
Inductive fifo_op := Putc (c : Z) | Getc | Length.

Definition queue_step (q : list Z) (op : fifo_op) : Z * list Z :=
  match op, q with
  | Putc c, _ => if Z.of_nat (length q) <? BUF - 1 then (c, q ++ [u8 c]) else (-1, q)
  | Getc, [] => (-1, [])
  | Getc, b :: q => (b, q)
  | Length, _ => (Z.of_nat (length q), q)
  end.

Fixpoint queue_run (q : list Z) (ops : list fifo_op) : list Z * list Z :=
  match ops with
  | [] => ([], q)
  | op :: ops => let '(r, q) := queue_step q op in let '(rs, q) := queue_run q ops in (r :: rs, q)
  end.

Definition fifo_step (f : Z) (op : fifo_op) : M Z :=
  match op with Putc c => fifo_putc f c | Getc => fifo_getc f | Length => fifo_length f end.

Fixpoint fifo_run (f : Z) (ops : list fifo_op) : M (list Z) :=
  match ops with
  | [] => mret []
  | op :: ops => r ← fifo_step f op; rs ← fifo_run f ops; mret (r :: rs)
  end.

Lemma fifo_step_refines m f q op :
  fifo_at m f q →
  ∃ m', fifo_step f op m = Ok (queue_step q op).1 m' ∧ fifo_at m' f (queue_step q op).2 ∧ fifo_frame f m m'.
Proof.
  intros Hf. destruct op as [c| |]; simpl.
  - destruct (Z.ltb_spec (Z.of_nat (length q)) (BUF - 1)); [by apply fifo_putc_room|].
    exists m. split; [by eapply fifo_putc_full|done].
  - destruct q; [exists m; split; [by apply fifo_getc_none|done]|by apply fifo_getc_some].
  - exists m. split; [by apply fifo_length_run|done].
Qed.

(** C9: a ring buffer of devfs ([_chr_ibuf_*], [_chr_obuf_*]) refines a
    first-in first-out queue of at most 8191 bytes: every sequence of puts,
    gets and length queries returns what the queue returns (-1 for a put
    when full and a get when empty, the queued length otherwise), leaves the
    buffer with the queue's content, and changes nothing outside it. *)
Theorem fifo_refines_queue m f q ops :
  fifo_at m f q →
  ∃ m', fifo_run f ops m = Ok (queue_run q ops).1 m' ∧
    fifo_at m' f (queue_run q ops).2 ∧ fifo_frame f m m'.
Proof.
  revert m q. induction ops as [|op ops IH]; intros m q Hf; [by exists m|].
  destruct (fifo_step_refines m f q op Hf) as (m1 & E1 & H1 & F1).
  destruct (queue_step q op) as [r q1] eqn:Eq. destruct (IH m1 q1 H1) as (m2 & E2 & H2 & F2).
  exists m2. simpl. rewrite Eq. destruct (queue_run q1 ops) as [rs q2]. simpl in *.
  rewrite (bind_ok _ _ _ _ _ E1), (bind_ok _ _ _ _ _ E2). split; [done|]. split; [done|]. by transitivity m1.
Qed.

(** The zeroed buffer holds the empty queue. *)
Lemma fifo_at_zero f : fifo_at ∅ f [].
Proof. by constructor. Qed.

Lemma fifo_refines_queue_witness :
  result (fifo_run 4096 [Putc 65; Putc 200; Length; Getc; Getc; Getc] ∅) = Some [65; 200; 2; 65; 200; -1].
Proof.
  destruct (fifo_refines_queue ∅ 4096 [] [Putc 65; Putc 200; Length; Getc; Getc; Getc] (fifo_at_zero 4096))
    as (m' & -> & _). reflexivity.
Defined.

(** ** One writer and one reader at the same time

    A read of a device file takes no lock, so its [getc] runs while the
    driver's [putc] does.  The two functions are cut into their single reads
    and writes of the shared memory, which interleave freely. *)

Inductive prog := Ret (r : Z) | Load (a : Z) (k : Z → prog) | Store (a v : Z) (k : prog).

Fixpoint exec (p : prog) : M Z :=
  match p with
  | Ret r => mret r
  | Load a k => v ← ld a; exec (k v)
  | Store a v k => _ ← st a v; exec k
  end.

Definition putc_prog (f c : Z) : prog :=
  Load (fifo_tail f) (λ cur, Load (fifo_head f) (λ head,
    if head =? fifo_next cur then Ret (-1)
    else Store (f + cur) (u8 c) (Store (fifo_tail f) (fifo_next cur) (Ret c)))).

Definition getc_prog (f : Z) : prog :=
  Load (fifo_head f) (λ head, Load (fifo_tail f) (λ tail,
    if head =? tail then Ret (-1)
    else Load (fifo_head f) (λ cur, Load (f + cur) (λ c, Store (fifo_head f) (fifo_next cur) (Ret c))))).

Lemma exec_putc f c m : exec (putc_prog f c) m = fifo_putc f c m.
Proof. unfold fifo_putc. simpl. mrun. cbv zeta. by case_match. Qed.

Lemma exec_getc f m : exec (getc_prog f) m = fifo_getc f m.
Proof. unfold fifo_getc. simpl. mrun. cbv zeta. by case_match. Qed.

(** The memory, the call under way on each side ([None]: between calls) and
    the bytes accepted and delivered by the calls that have returned. *)
Record spsc := Spsc {
  sp_mem : gmap Z Z;
  sp_put : option prog;
  sp_get : option prog;
  sp_sent : list Z;
  sp_received : list Z;
}.

Inductive pstep : prog → gmap Z Z → prog → gmap Z Z → Prop :=
  | step_load a k m : pstep (Load a k) m (k (m.@a)) m
  | step_store a v k m : pstep (Store a v k) m k (m.[a <- v]).

(** A call that returned a negative value sent or received nothing. *)
Definition log (r : Z) (l : list Z) : list Z := if r <? 0 then l else l ++ [r].

Inductive spsc_step (f : Z) : spsc → spsc → Prop :=
  | put_start m g s r c :
      0 <= c < 128 → spsc_step f (Spsc m None g s r) (Spsc m (Some (putc_prog f c)) g s r)
  | put_run m p g s r m' p' :
      pstep p m p' m' → spsc_step f (Spsc m (Some p) g s r) (Spsc m' (Some p') g s r)
  | put_done m g s r x :
      spsc_step f (Spsc m (Some (Ret x)) g s r) (Spsc m None g (log x s) r)
  | get_start m p s r :
      spsc_step f (Spsc m p None s r) (Spsc m p (Some (getc_prog f)) s r)
  | get_run m p g s r m' g' :
      pstep g m g' m' → spsc_step f (Spsc m p (Some g) s r) (Spsc m' p (Some g') s r)
  | get_done m p s r x :
      spsc_step f (Spsc m p (Some (Ret x)) s r) (Spsc m p None s (log x r)).

(** The writer between two of its steps, with the byte published but not yet
    returned. *)
Inductive putting (f : Z) (m : gmap Z Z) (q : list Z) : option prog → list Z → Prop :=
  | put_idle : putting f m q None []
  | put_begin c : 0 <= c < 128 → putting f m q (Some (putc_prog f c)) []
  | put_tail c : 0 <= c < 128 →
      putting f m q (Some (Load (fifo_head f) (λ head,
        if head =? fifo_next (m.@(fifo_tail f)) then Ret (-1)
        else Store (f + m.@(fifo_tail f)) (u8 c)
               (Store (fifo_tail f) (fifo_next (m.@(fifo_tail f))) (Ret c))))) []
  | put_full : putting f m q (Some (Ret (-1))) []
  | put_room c : 0 <= c < 128 → Z.of_nat (length q) < BUF - 1 →
      putting f m q (Some (Store (f + m.@(fifo_tail f)) (u8 c)
        (Store (fifo_tail f) (fifo_next (m.@(fifo_tail f))) (Ret c)))) []
  | put_stored c : 0 <= c < 128 → Z.of_nat (length q) < BUF - 1 →
      m.@(f + m.@(fifo_tail f)) = c →
      putting f m q (Some (Store (fifo_tail f) (fifo_next (m.@(fifo_tail f))) (Ret c))) []
  | put_published c : 0 <= c < 128 → putting f m q (Some (Ret c)) [c].

(** The reader, with the byte taken out but not yet returned. *)
Inductive getting (f : Z) (m : gmap Z Z) (q : list Z) : option prog → list Z → Prop :=
  | get_idle : getting f m q None []
  | get_begin : getting f m q (Some (getc_prog f)) []
  | get_head : getting f m q (Some (Load (fifo_tail f) (λ tail,
        if m.@(fifo_head f) =? tail then Ret (-1)
        else Load (fifo_head f) (λ cur, Load (f + cur) (λ c,
               Store (fifo_head f) (fifo_next cur) (Ret c)))))) []
  | get_empty : getting f m q (Some (Ret (-1))) []
  | get_some : q ≠ [] → getting f m q (Some (Load (fifo_head f) (λ cur, Load (f + cur) (λ c,
        Store (fifo_head f) (fifo_next cur) (Ret c))))) []
  | get_index : q ≠ [] → getting f m q (Some (Load (f + m.@(fifo_head f)) (λ c,
        Store (fifo_head f) (fifo_next (m.@(fifo_head f))) (Ret c)))) []
  | get_byte b : q !! 0%nat = Some b →
      getting f m q (Some (Store (fifo_head f) (fifo_next (m.@(fifo_head f))) (Ret b))) []
  | get_taken b : 0 <= b → getting f m q (Some (Ret b)) [b].

Definition spsc_inv (f : Z) (s : spsc) : Prop :=
  ∃ q a b, fifo_at (sp_mem s) f q ∧ Forall (λ x, 0 <= x) q ∧
    putting f (sp_mem s) q (sp_put s) a ∧ getting f (sp_mem s) q (sp_get s) b ∧
    sp_received s ++ b ++ q = sp_sent s ++ a.

Lemma getting_frame f m m' q x g b :
  m'.@(fifo_head f) = m.@(fifo_head f) → getting f m q g b → getting f m' (q ++ x) g b.
Proof.
  intros Eh Hg. destruct Hg; rewrite <-?Eh; constructor; try done.
  1, 2: by destruct q.
  by apply lookup_app_l_Some.
Qed.

Lemma putting_frame f m m' q q' p a :
  m'.@(fifo_tail f) = m.@(fifo_tail f) →
  m'.@(f + m.@(fifo_tail f)) = m.@(f + m.@(fifo_tail f)) →
  (length q' <= length q)%nat → putting f m q p a → putting f m' q' p a.
Proof.
  intros Et Ed Hl Hp. destruct Hp; rewrite <-?Et; constructor; try done; try lia. by rewrite Et, Ed.
Qed.

(** The slot behind the last byte is the writer's. *)
Lemma fifo_at_slot m f q c :
  fifo_at m f q → Z.of_nat (length q) < BUF - 1 → fifo_at (m.[f + m.@(fifo_tail f) <- c]) f q.
Proof.
  intros Hf Hr. pose proof (fifo_tail_range _ _ _ Hf) as Htr. destruct Hf as [Hh Ht Hl Hd].
  constructor; [| |done|].
  - rewrite rd_wr_ne by (unfold fifo_head, BUF in *; lia). done.
  - rewrite !rd_wr_ne by (unfold fifo_head, fifo_tail, BUF in *; lia). done.
  - intros i b Hi. rewrite (rd_wr_ne _ _ (fifo_head f)) by (unfold fifo_head, BUF in *; lia).
    rewrite rd_wr_ne; [by apply Hd|]. apply lookup_lt_Some in Hi as Hlt. intros E.
    assert (Z.of_nat (length q) = Z.of_nat i); [|lia].
    apply (fifo_add_inj (m.@(fifo_head f))); [lia|lia|]. rewrite <-Ht. lia.
Qed.

Lemma u8_char c : 0 <= c < 128 → u8 c = c.
Proof. intros. unfold u8. by rewrite Z.mod_small by lia. Qed.

Lemma put_step f m q p a p' m' :
  fifo_at m f q → putting f m q (Some p) a → pstep p m p' m' →
  a = [] ∧ ∃ a', fifo_at m' f (q ++ a') ∧ Forall (λ x, 0 <= x) a' ∧
    putting f m' (q ++ a') (Some p') a' ∧ m'.@(fifo_head f) = m.@(fifo_head f).
Proof.
  intros Hf Hp Hs. pose proof (fifo_tail_range _ _ _ Hf) as Htr. pose proof (fa_len _ _ _ Hf) as Hl.
  inversion Hp; subst; inversion Hs; subst; (split; [done|]).
  - exists []. rewrite app_nil_r. split_and!; [done|done|by constructor|done].
  - exists []. rewrite app_nil_r. split_and!; [done|done| |done].
    destruct (Z.eqb_spec (m'.@(fifo_head f)) (fifo_next (m'.@(fifo_tail f)))) as [E|E]; [constructor|].
    constructor; [done|]. destruct (decide (Z.of_nat (length q) = BUF - 1)) as [E'|]; [|lia].
    by apply (fifo_full_spec _ _ _ Hf) in E'.
  - exists []. rewrite app_nil_r.
    assert ((m.[f + m.@(fifo_tail f) <- u8 c]).@(fifo_tail f) = m.@(fifo_tail f)) as Et
      by (rewrite rd_wr_ne; [done|unfold fifo_tail, BUF in *; lia]).
    split_and!; [by apply fifo_at_slot|done| |rewrite rd_wr_ne; [done|unfold fifo_head, BUF in *; lia]].
    rewrite <-Et at 2. constructor; [done|done|]. by rewrite Et, rd_wr_eq, u8_char.
  - exists [m.@(f + m.@(fifo_tail f))]. pose proof (fifo_push m f q (m.@(f + m.@(fifo_tail f))) Hf ltac:(done)) as Hp'.
    split_and!; [|by repeat constructor; lia|by constructor|].
    + revert Hp'. apply fifo_at_frame. intros x _. rewrite !rd_wr. by repeat case_decide; subst.
    + rewrite rd_wr_ne; [done|unfold fifo_head, fifo_tail; lia].
Qed.

Lemma get_step f m q p b p' m' :
  fifo_at m f q → Forall (λ x, 0 <= x) q → getting f m q (Some p) b → pstep p m p' m' →
  b = [] ∧ ∃ b' q', q = b' ++ q' ∧ fifo_at m' f q' ∧ getting f m' q' (Some p') b' ∧
    m'.@(fifo_tail f) = m.@(fifo_tail f) ∧ m'.@(f + m.@(fifo_tail f)) = m.@(f + m.@(fifo_tail f)).
Proof.
  intros Hf Hq Hg Hs. inversion Hg; subst; inversion Hs; subst; (split; [done|]).
  1-4: exists [], q; split_and!; [done|done| |done|done].
  - constructor.
  - destruct (Z.eqb_spec (m'.@(fifo_head f)) (m'.@(fifo_tail f))) as [E|E]; constructor.
    intros ->. by apply E, (fifo_empty_spec _ _ _ Hf).
  - by constructor.
  - destruct q as [|b q]; [done|]. apply fifo_pop in Hf as [-> _]. by constructor.
  - destruct q as [|b' q]; [done|]. match goal with H : (_ :: _) !! _ = Some _ |- _ => injection H as -> end.
    eexists [_], q.
    apply fifo_pop in Hf as Hf'. destruct Hf' as [Eb Hf'].
    pose proof (fifo_tail_range _ _ _ Hf). apply Forall_cons in Hq as [Hb _].
    split_and!; [done|done|by constructor|rewrite rd_wr_ne; [done|unfold fifo_head, fifo_tail; lia]|].
    rewrite rd_wr_ne; [done|unfold fifo_head, BUF in *; lia].
Qed.

Lemma log_published c s : 0 <= c → log c s = s ++ [c].
Proof. intros. unfold log. by destruct (Z.ltb_spec c 0); [lia|]. Qed.

Lemma spsc_step_inv f s s' : spsc_step f s s' → spsc_inv f s → spsc_inv f s'.
Proof.
  intros Hs (q & a & b & Hf & Hq & Hp & Hg & E). destruct Hs; simpl in *.
  - inversion Hp; subst. exists q, [], b. split_and!; [done|done|by constructor|done|done].
  - destruct (put_step _ _ _ _ _ _ _ Hf Hp H) as [-> (a' & Hf' & Ha & Hp' & Eh)].
    exists (q ++ a'), a', b. split_and!; [done|by apply Forall_app|done|by eapply getting_frame|].
    rewrite app_nil_r in E. subst s. simpl. by rewrite <-!app_assoc.
  - exists q, [], b. split_and!; [done|done|constructor|done|]. simpl. rewrite app_nil_r.
    inversion Hp; subst; [by rewrite E, app_nil_r|by rewrite log_published by lia].
  - inversion Hg; subst. exists q, a, []. split_and!; [done|done|done|constructor|done].
  - destruct (get_step _ _ _ _ _ _ _ Hf Hq Hg H) as [-> (b' & q' & -> & Hf' & Hg' & Et & Ed)].
    apply Forall_app in Hq as [_ Hq]. exists q', a, b'. split_and!; [done|done| |done|done].
    eapply putting_frame; [done|done| |done]. rewrite length_app. lia.
  - exists q, a, []. split_and!; [done|done|done|constructor|]. simpl.
    inversion Hg; subst; [done|]. rewrite log_published by done. by rewrite <-app_assoc.
Qed.

Lemma spsc_reachable_inv f m s : fifo_at m f [] → rtc (spsc_step f) (Spsc m None None [] []) s → spsc_inv f s.
Proof.
  intros Hf Hr. revert Hr. apply (rtc_ind_r (R := spsc_step f) (spsc_inv f)).
  - exists [], [], []. split_and!; [done|done|constructor|constructor|done].
  - intros s1 s2 _ Hs. by apply spsc_step_inv.
Qed.


Ltac spsc_now tac := eapply rtc_l; [tac; first [apply step_load|apply step_store|lia|idtac]|].


(** ** The device functions *)

(** The ring buffer filled by the driver of the entry [e]. *)
Definition entry_ibuf (e : Z) : Z := dev_ibuf (de_device e).

(** [len] bytes at [buf] outside the entry [e]. *)
Definition buf_apart (e buf len : Z) : Prop :=
  ∀ x, buf <= x < buf + len → ¬ (e <= x < e + sizeof_devfs_entry).

(** What of [n] more bytes fits behind the queue [q]. *)
Definition fits (q : list Z) (n : nat) : nat := Nat.min n (Z.to_nat (BUF - 1) - length q).

Lemma ibuf_inside e x : entry_ibuf e <= x < entry_ibuf e + sizeof_fifo → e <= x < e + sizeof_devfs_entry.
Proof. unfold entry_ibuf, dev_ibuf, de_device, sizeof_fifo, sizeof_devfs_entry. lia. Qed.

Lemma i8_char b : 0 <= b < 128 → i8 b = b.
Proof. intros. unfold i8. rewrite Z.mod_small by lia. lia. Qed.

Lemma fits_full q n : BUF - 1 <= Z.of_nat (length q) → fits q n = 0%nat.
Proof. unfold fits, BUF. lia. Qed.

Lemma fits_room q b bs :
  Z.of_nat (length q) < BUF - 1 → fits q (length (b :: bs)) = S (fits (q ++ [b]) (length bs)).
Proof. unfold fits, BUF. rewrite length_app. cbn [length]. lia. Qed.

Lemma driver_write_loop_run bs : ∀ m e buf i q,
  fifo_at m (entry_ibuf e) q → bytes_at m (buf + i) bs → Forall (λ b, 0 <= b < 128) bs →
  buf_apart e (buf + i) (Z.of_nat (length bs)) →
  ∃ m', driver_write_loop (length bs) e buf i m = Ok (i + Z.of_nat (fits q (length bs))) m' ∧
    fifo_at m' (entry_ibuf e) (q ++ take (fits q (length bs)) bs) ∧ fifo_frame (entry_ibuf e) m m'.
Proof.
  induction bs as [|b bs IH]; intros m e buf i q Hf Hb Hc Ha; rewrite ?bytes_at_lookup in Hb.
  { exists m. rewrite firstn_nil, app_nil_r. simpl. by rewrite Z.add_0_r. }
  apply Forall_cons in Hc as [Hc Hcs]. cbn [length driver_write_loop]. mrun.
  pose proof (Hb 0%nat b eq_refl) as E0. rewrite Z.add_0_r in E0. rewrite E0, i8_char by done.
  destruct (Z.ltb_spec (Z.of_nat (length q)) (BUF - 1)) as [Hr|Hr].
  - destruct (fifo_putc_room m _ q b Hf Hr) as (m1 & E1 & Hf1 & F1). rewrite u8_char in Hf1 by done.
    unfold _chr_ibuf_putc. rewrite (bind_ok _ _ _ _ _ E1), (proj2 (Z.ltb_ge b 0)) by lia.
    destruct (IH m1 e buf (i + 1) (q ++ [b]) Hf1) as (m2 & E2 & Hf2 & F2).
    + apply bytes_at_lookup. intros j x Hj. rewrite F1; [|intros [? ?]%ibuf_inside; eapply Ha; [|done]; apply lookup_lt_Some in Hj; simpl; lia].
      replace (buf + (i + 1) + Z.of_nat j) with (buf + i + Z.of_nat (S j)) by lia. by apply Hb.
    + done.
    + intros x Hx. apply Ha. simpl. lia.
    + exists m2. change (S (length bs)) with (length (b :: bs)). rewrite fits_room by done. split; [|split].
      * rewrite E2. f_equal. lia.
      * cbn [take]. by rewrite <-app_assoc in Hf2.
      * by transitivity m1.
  - exists m. unfold _chr_ibuf_putc. rewrite (bind_ok _ _ _ _ _ (fifo_putc_full m _ q b Hf Hr)).
    change (S (length bs)) with (length (b :: bs)). rewrite fits_full by done.
    cbn [take]. rewrite app_nil_r. split; [|done]. simpl. by rewrite Z.add_0_r.
Qed.

Lemma owned_entry_run m devfs index proc e :
  index < DEVFS_MAXDEVS → m.@(devfs_entry_at devfs index) = e → m.@(de_proc e) = proc →
  owned_entry devfs index proc m = Ok e m.
Proof.
  unfold owned_entry. intros Hi He Hp. rewrite (proj2 (Z.leb_gt _ _) Hi). mrun. rewrite He.
  destruct (Z.eqb_spec e 0) as [->|]; [done|]. mrun. by rewrite Hp, Z.eqb_refl.
Qed.

Lemma devfs_driver_write_spec m devfs index proc buf bs e q :
  index < DEVFS_MAXDEVS → m.@(devfs_entry_at devfs index) = e → e ≠ 0 → m.@(de_proc e) = proc →
  m.@(de_lock e) = 0 → fifo_at m (entry_ibuf e) q → bytes_at m buf bs →
  Forall (λ b, 0 <= b < 128) bs → buf_apart e buf (Z.of_nat (length bs)) →
  Z.of_nat (length bs) < 2 ^ 63 →
  ∃ m', devfs_driver_write devfs index proc buf (Z.of_nat (length bs)) m
          = Ok (Z.of_nat (fits q (length bs))) m' ∧
    fifo_at m' (entry_ibuf e) (q ++ take (fits q (length bs)) bs) ∧ fifo_frame (entry_ibuf e) m m'.
Proof.
  intros Hi He Hn Hp Hl Hf Hb Hc Ha Hlen. unfold devfs_driver_write.
  rewrite (bind_ok _ _ _ _ _ (owned_entry_run m devfs index proc e Hi He Hp)).
  rewrite (proj2 (Z.eqb_neq e 0)) by done.
  assert (lock (de_lock e) m = Ok tt (m.[de_lock e <- 1])) as El
    by (unfold lock, lift_, spin_lock; by rewrite Hl).
  rewrite (bind_ok _ _ _ _ _ El). unfold i64. rewrite Z.mod_small by lia.
  rewrite Z.add_simpl_r, Nat2Z.id.
  destruct (driver_write_loop_run bs (m.[de_lock e <- 1]) e buf 0 q) as (m2 & E2 & Hf2 & F2).
  - eapply fifo_at_frame; [|done]. intros x Hx. apply rd_wr_ne. intros <-.
    unfold entry_ibuf, dev_ibuf, de_device, de_lock, sizeof_fifo in Hx. lia.
  - rewrite bytes_at_lookup in *. intros j x Hj. rewrite Z.add_0_r, rd_wr_ne; [by apply Hb|]. intros Ej.
    apply (Ha (buf + Z.of_nat j)); [apply lookup_lt_Some in Hj; lia|].
    rewrite <-Ej. unfold de_lock, sizeof_devfs_entry. lia.
  - done.
  - by rewrite Z.add_0_r.
  - assert (∀ x, entry_ibuf e <= x < entry_ibuf e + sizeof_fifo → de_lock e ≠ x) as Hd
      by (unfold entry_ibuf, dev_ibuf, de_device, de_lock, sizeof_fifo; lia).
    exists (m2.[de_lock e <- 0]). rewrite (bind_ok _ _ _ _ _ E2). split; [done|]. split.
    + eapply fifo_at_frame; [|done]. intros x Hx. apply rd_wr_ne. by apply Hd.
    + intros x Hx. rewrite rd_wr. case_decide as Ex; [by rewrite <-Ex|]. rewrite F2 by done. by apply rd_wr_ne.
Qed.

(** [devfs_driver_write] by the owner of a device, with the entry's lock
    free, appends to the device's queue the characters (0 to 127) it is
    given, up to the 8191 bytes the buffer holds, returns how many it took,
    releases the lock and changes nothing outside the buffer. *)
Theorem devfs_driver_write_correct m devfs index proc buf bs e q :
  index < DEVFS_MAXDEVS → m.@(devfs_entry_at devfs index) = e → e ≠ 0 → m.@(de_proc e) = proc →
  m.@(de_lock e) = 0 → fifo_at m (entry_ibuf e) q → bytes_at m buf bs →
  Forall (λ b, 0 <= b < 128) bs → buf_apart e buf (Z.of_nat (length bs)) →
  Z.of_nat (length bs) < 2 ^ 63 →
  ∃ m', devfs_driver_write devfs index proc buf (Z.of_nat (length bs)) m
          = Ok (Z.of_nat (fits q (length bs))) m' ∧
    fifo_at m' (entry_ibuf e) (q ++ take (fits q (length bs)) bs) ∧ fifo_frame (entry_ibuf e) m m'.
Proof. apply devfs_driver_write_spec. Qed.

Lemma read_loop_run k : ∀ m e buf len q,
  fifo_at m (entry_ibuf e) q → Forall (λ b, 0 <= b) q → buf_apart e (buf + len) (Z.of_nat k) →
  ∃ m', read_loop k e buf len m = Ok (len + Z.of_nat (Nat.min k (length q))) m' ∧
    fifo_at m' (entry_ibuf e) (drop k q) ∧ bytes_at m' (buf + len) (take k q) ∧
    (∀ x, ¬ (entry_ibuf e <= x < entry_ibuf e + sizeof_fifo) → ¬ (buf + len <= x < buf + len + Z.of_nat k) →
      m'.@x = m.@x).
Proof.
  induction k as [|k IH]; intros m e buf len q Hf Hq Ha.
  { exists m. simpl. rewrite Z.add_0_r. by split_and!. }
  cbn [read_loop]. destruct q as [|b q].
  { exists m. unfold _chr_ibuf_getc. rewrite (bind_ok _ _ _ _ _ (fifo_getc_none m _ Hf)).
    simpl. rewrite Z.add_0_r. by split_and!. }
  destruct (fifo_getc_some m _ b q Hf) as (m1 & E1 & Hf1 & F1). apply Forall_cons in Hq as [Hb Hq].
  unfold _chr_ibuf_getc. rewrite (bind_ok _ _ _ _ _ E1), (proj2 (Z.ltb_ge b 0)) by done. mrun.
  assert (∀ x, entry_ibuf e <= x < entry_ibuf e + sizeof_fifo → buf + len ≠ x) as Hd.
  { intros x Hx <-. apply ibuf_inside in Hx. revert Hx. apply Ha. lia. }
  destruct (IH (m1.[buf + len <- b]) e buf (len + 1) q) as (m2 & E2 & Hf2 & B2 & F2).
  - eapply fifo_at_frame; [|done]. intros x Hx. apply rd_wr_ne. by apply Hd.
  - done.
  - intros x Hx. apply Ha. lia.
  - exists m2. split_and!; [|done| |].
    + rewrite E2. f_equal. cbn [length Nat.min]. lia.
    + rewrite bytes_at_lookup in *. intros [|i] x Hi; simpl in Hi.
      * injection Hi as ->. rewrite Z.add_0_r, F2; [apply rd_wr_eq| |lia]. intros Hx. by apply (Hd _ Hx).
      * rewrite <-(B2 i x Hi). f_equal. lia.
    + intros x Hx1 Hx2. rewrite F2 by (done || lia). rewrite rd_wr_ne by lia. by apply F1.
Qed.

Section read.
Context {KS : KernelSlab} (task_list_str : Z) (this_task : M Z) (task_switch : M unit).

Lemma devfs_read_spec m k fildes buf nbyte t e q :
  this_task m = Ok t m → t ≠ 0 → m.@(fildes_entry fildes) = e → m.@(dev_type (de_device e)) = DEVFS_CHAR →
  fifo_at m (entry_ibuf e) q → q ≠ [] → Forall (λ b, 0 <= b) q →
  0 <= nbyte < 2 ^ 63 → buf_apart e buf nbyte →
  let n := Nat.min (Z.to_nat nbyte) (length q) in
  ∃ m', devfs_read task_list_str this_task task_switch (S k) fildes buf nbyte m = Ok (Z.of_nat n) m' ∧
    fifo_at m' (entry_ibuf e) (drop n q) ∧ bytes_at m' buf (take n q) ∧
    (∀ x, ¬ (entry_ibuf e <= x < entry_ibuf e + sizeof_fifo) → ¬ (buf <= x < buf + nbyte) → m'.@x = m.@x).
Proof.
  intros Ht Ht0 He Hty Hf Hne Hq Hn Ha n. unfold devfs_read.
  rewrite (bind_ok _ _ _ _ _ Ht), (proj2 (Z.eqb_neq t 0)) by done. mrun. rewrite He, Hty.
  rewrite Z.eqb_refl. cbn [devfs_wait]. unfold _chr_ibuf_length.
  rewrite !bind_assoc, (bind_ok _ _ _ _ _ (fifo_length_run m _ q Hf)).
  rewrite (proj2 (Z.eqb_neq 0 (Z.of_nat (length q)))) by (destruct q; simpl; [done|lia]). mrun.
  simpl. unfold i64. rewrite Z.mod_small, Z.add_simpl_r by lia.
  destruct (read_loop_run (Z.to_nat nbyte) m e buf 0 q Hf Hq) as (m' & E & Hf' & B & F).
  { rewrite Z.add_0_r, Z2Nat.id by lia. done. }
  exists m'. rewrite E. rewrite !Z.add_0_r in *. split; [done|]. subst n. split_and!.
  - destruct (decide (Z.to_nat nbyte <= length q)%nat); [by rewrite Nat.min_l|].
    rewrite Nat.min_r, drop_ge by lia. rewrite drop_ge in Hf' by lia. done.
  - by rewrite <-take_take, (firstn_all q).
  - intros x Hx1 Hx2. apply F; [done|]. by rewrite Z2Nat.id by lia.
Qed.

(** C35: [devfs_read] on a character device that has bytes queued does not
    block: it copies the first [nbyte] of them (or all, when there are
    fewer) in order to the caller's buffer, returns their number, takes
    exactly these out of the queue and changes nothing else. *)
Theorem devfs_read_correct m k fildes buf nbyte t e q :
  this_task m = Ok t m → t ≠ 0 → m.@(fildes_entry fildes) = e → m.@(dev_type (de_device e)) = DEVFS_CHAR →
  fifo_at m (entry_ibuf e) q → q ≠ [] → Forall (λ b, 0 <= b) q →
  0 <= nbyte < 2 ^ 63 → buf_apart e buf nbyte →
  let n := Nat.min (Z.to_nat nbyte) (length q) in
  ∃ m', devfs_read task_list_str this_task task_switch (S k) fildes buf nbyte m = Ok (Z.of_nat n) m' ∧
    fifo_at m' (entry_ibuf e) (drop n q) ∧ bytes_at m' buf (take n q) ∧
    (∀ x, ¬ (entry_ibuf e <= x < entry_ibuf e + sizeof_fifo) → ¬ (buf <= x < buf + nbyte) → m'.@x = m.@x).
Proof. apply devfs_read_spec. Qed.
End read.

(** An index that is out of range, unused or another process's. *)
Definition not_owner (m : gmap Z Z) (devfs index proc : Z) : Prop :=
  DEVFS_MAXDEVS <= index ∨ m.@(devfs_entry_at devfs index) = 0 ∨
  m.@(de_proc (m.@(devfs_entry_at devfs index))) ≠ proc.

Lemma owned_entry_refuses m devfs index proc :
  not_owner m devfs index proc → owned_entry devfs index proc m = Ok 0 m.
Proof.
  unfold owned_entry. intros H. destruct (Z.leb_spec DEVFS_MAXDEVS index); [done|].
  mrun. destruct (Z.eqb_spec (m.@(devfs_entry_at devfs index)) 0) as [|]; [done|]. mrun.
  destruct (Z.eqb_spec proc (m.@(de_proc (m.@(devfs_entry_at devfs index))))); [|done].
  destruct H as [|[|]]; [lia|done|congruence].
Qed.


(** [devfs_driver_putc] leaves the entry locked when it succeeds: the
    character is queued and 0 returned, but the next call of any of the
    driver's functions on the device spins forever. *)
Theorem devfs_driver_putc_keeps_lock m devfs index proc c e q :
  index < DEVFS_MAXDEVS → m.@(devfs_entry_at devfs index) = e → e ≠ 0 → m.@(de_proc e) = proc →
  m.@(de_lock e) = 0 → fifo_at m (entry_ibuf e) q → Z.of_nat (length q) < BUF - 1 → 0 <= c < 128 →
  ¬ (e <= devfs_entry_at devfs index < e + sizeof_devfs_entry) →
  ∃ m', devfs_driver_putc devfs index proc c m = Ok 0 m' ∧ fifo_at m' (entry_ibuf e) (q ++ [c]) ∧
    (∀ c', devfs_driver_putc devfs index proc c' m' = Hang) ∧
    (∀ buf n, devfs_driver_write devfs index proc buf n m' = Hang) ∧
    devfs_driver_getc devfs index proc m' = Hang.
Proof.
  intros Hi He Hn Hp Hl Hf Hr Hc Ha.
  pose proof (owned_entry_run m devfs index proc e Hi He Hp) as E.
  assert (lock (de_lock e) m = Ok tt (m.[de_lock e <- 1])) as El
    by (unfold lock, lift_, spin_lock; by rewrite Hl).
  destruct (fifo_putc_room (m.[de_lock e <- 1]) (entry_ibuf e) q c) as (m1 & E1 & Hf1 & F1); [|done|].
  { eapply fifo_at_frame; [|done]. intros x Hx. apply rd_wr_ne. intros <-.
    unfold entry_ibuf, dev_ibuf, de_device, de_lock, sizeof_fifo in Hx. lia. }
  rewrite u8_char in Hf1 by done.
  assert (∀ x, ¬ (e <= x < e + sizeof_devfs_entry) ∨ x = de_proc e → m1.@x = m.@x) as Fm.
  { intros x Hx. rewrite F1, rd_wr_ne; [done| |]; unfold entry_ibuf, dev_ibuf, de_device, de_proc, de_lock,
      sizeof_fifo, sizeof_devfs_entry in *; lia. }
  assert (m1.@(de_lock e) = 1) as Hl1.
  { rewrite F1, rd_wr_eq; [done|]. unfold entry_ibuf, dev_ibuf, de_device, de_lock, sizeof_fifo. lia. }
  assert (owned_entry devfs index proc m1 = Ok e m1) as E'.
  { apply owned_entry_run; [done|by rewrite Fm by tauto|by rewrite Fm by tauto]. }
  assert (lock (de_lock e) m1 = Hang) as El1 by (unfold lock, lift_, spin_lock; by rewrite Hl1).
  assert (e =? 0 = false) as E0 by by apply Z.eqb_neq.
  exists m1. split_and!; [|done|..].
  - unfold devfs_driver_putc. rewrite (bind_ok _ _ _ _ _ E), E0, (bind_ok _ _ _ _ _ El), i8_char by done.
    unfold _chr_ibuf_putc. rewrite (bind_ok _ _ _ _ _ E1). by rewrite (proj2 (Z.ltb_ge c 0)) by lia.
  - intros c'. unfold devfs_driver_putc. rewrite (bind_ok _ _ _ _ _ E'), E0. unfold mbind at 1, M_bind. by rewrite El1.
  - intros b n. unfold devfs_driver_write. rewrite (bind_ok _ _ _ _ _ E'), E0. unfold mbind at 1, M_bind. by rewrite El1.
  - unfold devfs_driver_getc. rewrite (bind_ok _ _ _ _ _ E'), E0. unfold mbind at 1, M_bind. by rewrite El1.
Qed.

(** ** A concrete device *)

(** The table at 4096 with one character device at 65536, owned by the
    process at 40; "Hi" at 1000. *)
Definition demo_dev : gmap Z Z :=
  list_to_map [(devfs_entry_at 4096 0, 65536); (de_proc 65536, 40); (1000, 72); (1001, 105); (fildes_entry 2000, 65536)].

Lemma demo_dev_empty : fifo_at demo_dev (entry_ibuf 65536) [].
Proof.
  apply (fifo_at_frame ∅); [|apply fifo_at_zero]. intros x Hx.
  unfold rd, demo_dev. f_equal. rewrite lookup_empty. apply not_elem_of_list_to_map_1.
  unfold entry_ibuf, dev_ibuf, de_device, sizeof_fifo in Hx. cbn. rewrite !elem_of_cons, elem_of_nil.
  unfold devfs_entry_at, de_proc, fildes_entry. lia.
Qed.

Lemma demo_apart a n : a + n <= 65536 → buf_apart 65536 a n.
Proof. intros Ha x Hx. lia. Qed.

Lemma devfs_driver_write_witness :
  ∃ m', devfs_driver_write 4096 0 40 1000 2 demo_dev = Ok 2 m' ∧ fifo_at m' (entry_ibuf 65536) [72; 105].
Proof.
  destruct (devfs_driver_write_correct demo_dev 4096 0 40 1000 [72; 105] 65536 []) as (m' & E & Hf & _).
  1-5: by vm_compute.
  - apply demo_dev_empty.
  - by vm_compute.
  - by repeat constructor.
  - by apply demo_apart.
  - by vm_compute.
  - exists m'. by split.
Defined.


Lemma devfs_driver_putc_witness :
  ∃ m', devfs_driver_putc 4096 0 40 65 demo_dev = Ok 0 m' ∧ devfs_driver_getc 4096 0 40 m' = Hang.
Proof.
  destruct (devfs_driver_putc_keeps_lock demo_dev 4096 0 40 65 65536 []) as (m' & E & _ & _ & _ & G);
    [by vm_compute..|apply demo_dev_empty|by vm_compute|by vm_compute| |by exists m'].
  unfold devfs_entry_at, sizeof_devfs_entry. lia.
Defined.

(** The device with "Hi" queued. *)
Definition demo_queued : gmap Z Z :=
  demo_dev.[entry_ibuf 65536 <- 72].[entry_ibuf 65536 + 1 <- 105].[fifo_tail (entry_ibuf 65536) <- 2].

Lemma demo_queued_at : fifo_at demo_queued (entry_ibuf 65536) [72; 105].
Proof.
  constructor; [by vm_compute..|]. intros [|[|i]] b Hi; simplify_eq/=; by vm_compute.
Qed.

Lemma devfs_read_witness :
  ∃ KS m', devfs_read (KS := KS) 0 (mret 8) (mret tt) 1 2000 3000 1 demo_queued = Ok 1 m' ∧ m'.@3000 = 72 ∧
    fifo_at m' (entry_ibuf 65536) [105].
Proof.
  exists {| slab_alloc := λ _, mret 0; slab_free := λ _ _, mret 0; slab_create := λ _ _, mret 0 |}.
  edestruct (devfs_read_correct (KS := {| slab_alloc := λ _, mret 0; slab_free := λ _ _, mret 0; slab_create := λ _ _, mret 0 |})
    0 (mret 8) (mret tt) demo_queued 0 2000 3000 1 8 65536 [72; 105])
    as (m' & E & Hf & B & _); [done|done|by vm_compute|by vm_compute|apply demo_queued_at|done|by repeat constructor|done| |].
  - by apply demo_apart.
  - exists m'. split; [exact E|]. split; [|exact Hf]. apply B.
Defined.
