(* ===== verification/DevfsTypes.v ===== *)
(** * Type safety of the device files

    The structures devfs.c works on have C types; the memory of the model
    has none.  This file gives every cell of these structures a type
    ([ctype]: a byte, an index of a ring buffer, a pointer to a structure of a
    kind, ...) and shows that every call keeps all cells inside their types
    and writes no other cell, whatever its arguments.

    [devfs_register] does not initialize the ring buffers of an entry, and a
    file that is open keeps its pointer to an entry that has been freed.  The
    invariant holds in spite of that because a slab cache is type-stable
    memory: an object's cells belong to one structure for ever.  The entries
    that have been registered so far, whose owner is set, are the world [w] of
    the typing judgement; it only grows. *)

From S2P Require Import Prelude CMonad KString Kmem Slab Devfs.

Create HintDb devty.

(** ** Types *)

Inductive kind := KEntry | KProc | KTask | KTaskList | KVnode | KFildes | KMount.

Inductive ctype :=
  | TInt                        (** any scalar *)
  | TByte                       (** [uint8_t], [char] *)
  | TIndex                      (** an index of a ring buffer *)
  | TOneOf (vs : list Z)        (** an enumeration or a flag *)
  | TPtr (k : kind)             (** a pointer to a structure *)
  | TOpt (k : kind)             (** a pointer to a structure, or NULL *)
  | TOwner                      (** the owner of an entry: NULL before it is registered *)
  | TSlot                       (** NULL, or an entry that has been registered *)
  | TEntry.                     (** an entry that has been registered *)

Definition is_byte (v : Z) : Prop := 0 <= v < 256.
Definition is_index (v : Z) : Prop := 0 <= v < SYSDRIVER_DEV_BUFSIZE.

Definition fifo_field (o : Z) : option ctype :=
  if decide (0 <= o < 8192) then Some TByte
  else if decide (o = 8192 ∨ o = 8200) then Some TIndex else None.

Definition entry_field (o : Z) : option ctype :=
  if decide (0 <= o < 1024) then Some TByte
  else if decide (o = 1024) then Some TInt
  else if decide (o = 1032) then Some (TOneOf [DEVFS_CHAR; DEVFS_BLOCK])
  else if decide (1040 <= o < 9248) then fifo_field (o - 1040)
  else if decide (9248 <= o < 17456) then fifo_field (o - 9248)
  else if decide (o = 17456) then Some TOwner
  else if decide (o = 17464) then Some (TOneOf [0; 1]) else None.

(** The fields that devfs.c uses. *)
Definition field (devfs : Z) (k : kind) (o : Z) : option ctype :=
  match k with
  | KEntry => entry_field o
  | KProc => if decide (o = 2064) then Some (TPtr KTask) else None
  | KTask => if decide (o = 28) then Some (TOneOf [0; 1; 2; 3; 4]) else None
  | KTaskList => if decide (o = 0) then Some (TOpt KTask) else if decide (o = 8) then Some (TOpt KTaskList) else None
  | KVnode => if decide (o = 0) then Some TSlot else if decide (o = 104) then Some TInt else None
  | KFildes => if decide (o = 0) then Some (TOpt KTaskList) else if decide (o = 24) then Some TEntry else None
  | KMount => if decide (o = 0) then Some (TOneOf [devfs]) else if decide (o = 16) then Some TInt else None
  end.

Section types.
Context (devfs : Z).
(** Where the structures are, and the type of every cell. *)
Context (obj : kind → Z → Prop) (ty : Z → option ctype).

Record layout_typed : Prop := {
  lt_field k a o T : obj k a → field devfs k o = Some T → ty (a + o) = Some T;
  lt_slot i : 0 <= i < DEVFS_MAXDEVS → ty (devfs_entry_at devfs i) = Some TSlot;
  lt_lock : ty (devfs_lock devfs) = Some (TOneOf [0; 1]);
}.

Definition has_type (w : gset Z) (v : Z) (T : ctype) : Prop :=
  match T with
  | TInt => True
  | TByte => is_byte v
  | TIndex => is_index v
  | TOneOf vs => v ∈ vs
  | TPtr k => obj k v
  | TOpt k => v = 0 ∨ obj k v
  | TOwner => v = 0 ∨ obj KProc v
  | TSlot => v = 0 ∨ v ∈ w
  | TEntry => v ∈ w
  end.

(** The memory in a world. *)
Record typed (w : gset Z) (m : gmap Z Z) : Prop := {
  ty_cell a T : ty a = Some T → has_type w (m.@a) T;
  ty_live e : e ∈ w → obj KEntry e ∧ obj KProc (m.@(de_proc e));
}.

(** Cells without a type are not the file system's. *)
Definition untouched (m m' : gmap Z Z) : Prop := ∀ x, ty x = None → m'.@x = m.@x.

#[export] Instance untouched_preorder : PreOrder untouched.
Proof. split; [by intros m x|]. intros m1 m2 m3 H1 H2 x Hx. by rewrite H2, H1. Qed.

(** [c] keeps a typed memory typed, and its result satisfies [Q]. *)
Definition sound {A} (w : gset Z) (c : M A) (Q : gset Z → A → Prop) : Prop := ∀ m, typed w m →
  match c m with
  | Ok a m' => ∃ w', w ⊆ w' ∧ typed w' m' ∧ untouched m m' ∧ Q w' a
  | _ => True
  end.

Lemma has_type_mono w w' v T : w ⊆ w' → has_type w v T → has_type w' v T.
Proof. destruct T; simpl; set_solver. Qed.

(** ** Rules *)

Lemma sound_mono {A} w (c : M A) (Q Q' : gset Z → A → Prop) :
  sound w c Q → (∀ w' a, w ⊆ w' → Q w' a → Q' w' a) → sound w c Q'.
Proof.
  intros Hc HQ m Hm. specialize (Hc m Hm). destruct (c m) as [a m'| |]; [|done..].
  destruct Hc as (w' & ? & ? & ? & ?). exists w'. eauto.
Qed.

Lemma sound_any {A} w (c : M A) Q : sound w c Q → sound w c (λ _ _, True).
Proof. intros H. by eapply sound_mono. Qed.

Lemma sound_ret {A} w (a : A) (Q : gset Z → A → Prop) : Q w a → sound w (mret a) Q.
Proof. intros HQ m Hm. exists w. by split_and!. Qed.

Lemma sound_bind {A B} w (c : M A) (k : A → M B) Q :
  sound w c (λ w' a, sound w' (k a) Q) → sound w (c ≫= k) Q.
Proof.
  intros Hc m Hm. specialize (Hc m Hm). unfold mbind, M_bind. destruct (c m) as [a m1| |]; [|done..].
  destruct Hc as (w1 & Hw1 & Hm1 & Hu1 & Hk). specialize (Hk m1 Hm1). destruct (k a m1) as [b m2| |]; [|done..].
  destruct Hk as (w2 & Hw2 & Hm2 & Hu2 & HQ). exists w2. split_and!; [by etrans|done|by etrans|done].
Qed.

(** A read gives a value of the cell's type; what is not typed may be read. *)
Lemma sound_ld_any w a : sound w (ld a) (λ w' v, w' = w).
Proof. intros m Hm. exists w. by split_and!. Qed.

Lemma sound_ld w a T : ty a = Some T → sound w (ld a) (λ w' v, w' = w ∧ has_type w v T).
Proof. intros Ha m Hm. exists w. split_and!; [done..|]. by apply (ty_cell _ _ Hm). Qed.

Lemma sound_owner w e : e ∈ w → sound w (ld (de_proc e)) (λ w' p, w' = w ∧ obj KProc p).
Proof. intros He m Hm. exists w. split_and!; [done..|]. by apply (ty_live _ _ Hm). Qed.

(** A registered entry is one. *)
Lemma sound_live {A} w e (c : M A) Q : e ∈ w → (obj KEntry e → sound w c Q) → sound w c Q.
Proof. intros He Hc m Hm. by apply Hc, Hm; apply (ty_live _ _ Hm). Qed.

Lemma sound_peek {A} w (f : gmap Z Z → option A) : sound w (peek f) (λ w' _, w' = w).
Proof. intros m Hm. unfold peek. destruct (f m); [|done]. exists w. by split_and!. Qed.

Lemma sound_hang {A} w (Q : gset Z → A → Prop) : sound w hang Q.
Proof. by intros m Hm. Qed.

Lemma sound_if {A} w (b : bool) (c c' : M A) Q :
  (b = true → sound w c Q) → (b = false → sound w c' Q) → sound w (if b then c else c') Q.
Proof. destruct b; auto. Qed.

Context (L : layout_typed).

Lemma ty_owner e : obj KEntry e → ty (de_proc e) = Some TOwner.
Proof using L. intros He. by apply (lt_field L KEntry). Qed.

Lemma typed_wr w m a v T :
  ty a = Some T → has_type w v T → T ≠ TOwner → typed w m → typed w (m.[a <- v]) ∧ untouched m (m.[a <- v]).
Proof using L.
  intros Ha Hv HT Hm. split; [constructor|].
  - intros x X Hx. destruct (decide (x = a)) as [->|]; [|by rewrite rd_wr_ne by done; apply (ty_cell _ _ Hm)].
    rewrite rd_wr_eq. congruence.
  - intros e He. destruct (ty_live _ _ Hm e He) as [Ho Hp]. split; [done|].
    rewrite rd_wr_ne; [done|]. intros E. pose proof (ty_owner e Ho). congruence.
  - intros x Hx. rewrite rd_wr_ne; [done|]. congruence.
Qed.

Lemma sound_st w a v T :
  ty a = Some T → has_type w v T → T ≠ TOwner → sound w (st a v) (λ w' _, w' = w).
Proof using L. intros Ha Hv HT m Hm. exists w. by destruct (typed_wr w m a v T Ha Hv HT Hm). Qed.

(** Setting the owner makes an entry one of the registered. *)
Lemma sound_st_owner w e p :
  obj KEntry e → obj KProc p → sound w (st (de_proc e) p) (λ w' _, w' = {[ e ]} ∪ w).
Proof using L.
  intros He Hp m Hm. pose proof (ty_owner e He) as Ho. exists ({[ e ]} ∪ w). split_and!; [set_solver|constructor| |done].
  - intros x X Hx. destruct (decide (x = de_proc e)) as [->|].
    + rewrite rd_wr_eq. assert (X = TOwner) as -> by congruence. by right.
    + rewrite rd_wr_ne by done. eapply has_type_mono; [|by apply (ty_cell _ _ Hm)]. set_solver.
  - intros e' He'. destruct (decide (de_proc e' = de_proc e)) as [E|E].
    + unfold de_proc in E. assert (e' = e) as -> by lia. by rewrite rd_wr_eq.
    + rewrite rd_wr_ne by done. apply (ty_live _ _ Hm). apply elem_of_union in He' as [->%elem_of_singleton|]; [|done].
      by destruct E.
  - intros x Hx. rewrite rd_wr_ne; [done|]. congruence.
Qed.

Lemma sound_flag w l v :
  ty l = Some (TOneOf [0; 1]) → v = 0 ∨ v = 1 → sound w (st l v) (λ w' _, w' = w).
Proof using L. intros Hl Hv. eapply sound_st; [done| |done]. simpl. set_solver. Qed.

Lemma sound_lock w l : ty l = Some (TOneOf [0; 1]) → sound w (lock l) (λ w' _, w' = w).
Proof using L.
  intros Hl m Hm. pose proof (sound_flag w l 1 Hl (or_intror eq_refl) m Hm) as H.
  unfold lock, lift_, spin_lock. by destruct (m.@l =? 0).
Qed.

Lemma sound_unlock w l : ty l = Some (TOneOf [0; 1]) → sound w (unlock l) (λ w' _, w' = w).
Proof using L. intros Hl. exact (sound_flag w l 0 Hl (or_introl eq_refl)). Qed.

(** ** Ring buffers *)

Record fifo_typed (f : Z) : Prop := {
  ft_buf i : is_index i → ty (f + i) = Some TByte;
  ft_head : ty (fifo_head f) = Some TIndex;
  ft_tail : ty (fifo_tail f) = Some TIndex;
}.

Lemma fifo_next_index i : is_index i → is_index (fifo_next i).
Proof. unfold is_index, fifo_next. case_match; lia. Qed.

Lemma u8_byte c : is_byte (u8 c).
Proof. unfold is_byte, u8. apply Z.mod_pos_bound. lia. Qed.

#[local] Hint Resolve ft_buf ft_head ft_tail fifo_next_index u8_byte : devty.

(** One statement of a program: a typed read, any read, a typed write. *)
Ltac snext H := apply sound_bind; eapply sound_mono; [eapply H|cbv beta; intros ? ? _ ?].
Ltac sread v Hv := snext sound_ld; [solve [eauto with devty]|]; destruct_and?; subst;
  match goal with H : has_type _ ?x _ |- _ => rename x into v; rename H into Hv end.
Ltac sany := snext sound_ld_any; subst.
Ltac swrite := snext sound_st; [solve [eauto with devty]|solve [simpl; eauto with devty]|done|]; subst.
Ltac sif := apply sound_if; intros ?.

Lemma sound_putc w f c : fifo_typed f → sound w (fifo_putc f c) (λ w' _, w' = w).
Proof using L.
  intros F. unfold fifo_putc. sread cur Hc. sany. sif; [by apply sound_ret|].
  swrite. swrite. by apply sound_ret.
Qed.

Lemma sound_getc w f : fifo_typed f → sound w (fifo_getc f) (λ w' r, w' = w ∧ (r < 0 ∨ is_byte r)).
Proof using L.
  intros F. unfold fifo_getc. sany. sany. sif; [apply sound_ret; split; [done|lia]|].
  sread cur Hc. sread c Hb. swrite. apply sound_ret. by split; [|right].
Qed.

Lemma sound_length w f : sound w (fifo_length f) (λ w' _, w' = w).
Proof. unfold fifo_length. sany. sany. by apply sound_ret. Qed.

(** ** Fields of the structures *)

Lemma ty_name e i : obj KEntry e → 0 <= i < PATH_MAX → ty (de_name e + i) = Some TByte.
Proof using L.
  intros He Hi. apply (lt_field L KEntry); [done|]. unfold field, entry_field, PATH_MAX in *.
  by rewrite decide_True by lia.
Qed.

Lemma entry_fifo e b : obj KEntry e → b = 1040 ∨ b = 9248 → fifo_typed (e + b).
Proof using L.
  intros He Hb. assert (∀ i T, 0 <= i < 8208 → fifo_field i = Some T → ty (e + b + i) = Some T) as H.
  { intros i T Hi HT. rewrite <-Z.add_assoc. apply (lt_field L KEntry); [done|]. unfold field, entry_field.
    rewrite !decide_False by lia. destruct Hb as [-> | ->].
    - rewrite decide_True by lia. by replace (1040 + i - 1040) with i by lia.
    - rewrite decide_False, decide_True by lia. by replace (9248 + i - 9248) with i by lia. }
  constructor.
  - unfold is_index, SYSDRIVER_DEV_BUFSIZE. intros i Hi. apply H; [lia|]. unfold fifo_field. by rewrite decide_True.
  - by apply H.
  - by apply H.
Qed.

Lemma ibuf_typed e : obj KEntry e → fifo_typed (dev_ibuf (de_device e)).
Proof using L. intros He. unfold dev_ibuf, de_device. rewrite <-Z.add_assoc. apply entry_fifo; auto. Qed.
Lemma obuf_typed e : obj KEntry e → fifo_typed (dev_obuf (de_device e)).
Proof using L. intros He. unfold dev_obuf, de_device. rewrite <-Z.add_assoc. apply entry_fifo; auto. Qed.

Lemma ty_dev_type e : obj KEntry e → ty (dev_type (de_device e)) = Some (TOneOf [DEVFS_CHAR; DEVFS_BLOCK]).
Proof using L. intros He. by apply (lt_field L KEntry). Qed.
Lemma ty_flags e : obj KEntry e → ty (de_flags e) = Some TInt.
Proof using L. intros He. by apply (lt_field L KEntry). Qed.
Lemma ty_entry_lock e : obj KEntry e → ty (de_lock e) = Some (TOneOf [0; 1]).
Proof using L. intros He. by apply (lt_field L KEntry). Qed.
Lemma ty_proc_task p : obj KProc p → ty (proc_task p) = Some (TPtr KTask).
Proof using L. intros Hp. by apply (lt_field L KProc). Qed.
Lemma ty_state t : obj KTask t → ty (task_state t) = Some (TOneOf [0; 1; 2; 3; 4]).
Proof using L. intros Ht. by apply (lt_field L KTask). Qed.
Lemma ty_tl_task r : obj KTaskList r → ty (tl_task r) = Some (TOpt KTask).
Proof using L. intros Hr. unfold tl_task. rewrite <-(Z.add_0_r r). by apply (lt_field L KTaskList). Qed.
Lemma ty_tl_next r : obj KTaskList r → ty (tl_next r) = Some (TOpt KTaskList).
Proof using L. intros Hr. by apply (lt_field L KTaskList). Qed.
Lemma ty_inode v : obj KVnode v → ty (vnode_inode v) = Some TSlot.
Proof using L. intros Hv. unfold vnode_inode. rewrite <-(Z.add_0_r v). by apply (lt_field L KVnode). Qed.
Lemma ty_module v : obj KVnode v → ty (vnode_module v) = Some TInt.
Proof using L. intros Hv. by apply (lt_field L KVnode). Qed.
Lemma ty_fildes_head f : obj KFildes f → ty (fildes_head f) = Some (TOpt KTaskList).
Proof using L. intros Hf. unfold fildes_head. rewrite <-(Z.add_0_r f). by apply (lt_field L KFildes). Qed.
Lemma ty_fildes_entry f : obj KFildes f → ty (fildes_entry f) = Some TEntry.
Proof using L. intros Hf. by apply (lt_field L KFildes). Qed.
Lemma ty_mount_spec o : obj KMount o → ty (mount_spec o) = Some (TOneOf [devfs]).
Proof using L. intros Ho. unfold mount_spec. rewrite <-(Z.add_0_r o). by apply (lt_field L KMount). Qed.

Lemma ready_state : TASK_READY ∈ [0; 1; 2; 3; 4].
Proof. by do 1 right; left. Qed.
Lemma blocked_state : TASK_BLOCKED ∈ [0; 1; 2; 3; 4].
Proof. by do 3 right; left. Qed.
#[local] Hint Resolve ibuf_typed obuf_typed ty_dev_type ty_flags ty_entry_lock ty_proc_task ty_state ty_tl_task
  ty_tl_next ty_inode ty_module ty_fildes_head ty_fildes_entry ty_mount_spec ready_state blocked_state : devty.

(** ** The calls

    The slab caches return storage of their kind, [this_task] a task, and
    what runs during [task_switch] keeps the types as well. *)
Context {KS : KernelSlab} (entry_str vnode_str task_list_str : Z) (this_task : M Z) (task_switch : M unit).

Record services_typed : Prop := {
  sv_alloc w name k : (name, k) ∈ [(entry_str, KEntry); (vnode_str, KVnode); (task_list_str, KTaskList)] →
    sound w (slab_alloc name) (λ _ o, o = 0 ∨ obj k o);
  sv_free w e : obj KEntry e → sound w (slab_free entry_str e) (λ w' _, w' = w);
  sv_create w name sz : sound w (slab_create name sz) (λ _ _, True);
  sv_this_task w : sound w this_task (λ w' t, w' = w ∧ (t = 0 ∨ obj KTask t));
  sv_switch w : sound w task_switch (λ _ _, True);
}.
Context (S : services_typed).

(** The names and buffers of the callers. *)
Definition bytes_typed (buf len : Z) : Prop := ∀ i, 0 <= i < len → ty (buf + i) = Some TByte.

Lemma sound_owned w index proc :
  0 <= index → sound w (owned_entry devfs index proc) (λ w' e, w' = w ∧ (e = 0 ∨ obj KEntry e)).
Proof using L.
  intros Hi. unfold owned_entry. sif; [apply sound_ret; auto|].
  assert (ty (devfs_entry_at devfs index) = Some TSlot) by (apply (lt_slot L); lia).
  sread e He. sif; [apply sound_ret; auto|]. destruct He as [|He]; [lia|].
  eapply sound_live; [done|]. intros Ho. sany. apply sound_ret. split; [done|]. case_match; auto.
Qed.

(** The body of a driver's call, with the entry. *)
Lemma sound_owned_call w index proc (k : Z → M Z) :
  0 <= index → (∀ e, obj KEntry e → sound w (k e) (λ _ _, True)) →
  sound w (e ← owned_entry devfs index proc; if e =? 0 then mret (-1) else k e) (λ _ _, True).
Proof using L.
  intros Hi Hk. snext sound_owned; [done|]. destruct_and?; subst. sif; [by apply sound_ret|].
  apply Hk. match goal with H : _ ∨ _ |- _ => destruct H; [lia|done] end.
Qed.

Lemma sound_driver_putc w index proc c :
  0 <= index → sound w (devfs_driver_putc devfs index proc c) (λ _ _, True).
Proof using L.
  intros Hi. apply sound_owned_call; [done|]. intros e He.
  snext sound_lock; [eauto with devty|]. subst. snext sound_putc; [eauto with devty|]. subst.
  sif; [|by apply sound_ret]. snext sound_unlock; [eauto with devty|]. by apply sound_ret.
Qed.

Lemma sound_driver_write_loop e : obj KEntry e → ∀ k w buf i, sound w (driver_write_loop k e buf i) (λ w' _, w' = w).
Proof using L.
  intros He k. induction k as [|k IH]; intros w buf i; simpl; [by apply sound_ret|].
  sany. snext sound_putc; [eauto with devty|]. subst. sif; [by apply sound_ret|apply IH].
Qed.

Lemma sound_driver_write w index proc buf n :
  0 <= index → sound w (devfs_driver_write devfs index proc buf n) (λ _ _, True).
Proof using L.
  intros Hi. apply sound_owned_call; [done|]. intros e He.
  snext sound_lock; [eauto with devty|]. subst. snext sound_driver_write_loop; [done|]. subst.
  snext sound_unlock; [eauto with devty|]. by apply sound_ret.
Qed.

Lemma sound_driver_getc w index proc :
  0 <= index → sound w (devfs_driver_getc devfs index proc) (λ _ _, True).
Proof using L.
  intros Hi. apply sound_owned_call; [done|]. intros e He.
  snext sound_lock; [eauto with devty|]. subst. snext sound_getc; [eauto with devty|]. destruct_and?; subst.
  snext sound_unlock; [eauto with devty|]. by apply sound_ret.
Qed.

Lemma sound_recv_msg w index proc msg :
  0 <= index → sound w (devfs_recv_msg devfs index proc msg) (λ _ _, True).
Proof using L. intros Hi. apply sound_owned_call; [done|]. intros e He. sany. by apply sound_ret. Qed.

Lemma sound_wait fd t e : obj KFildes fd → obj KTask t → obj KEntry e →
  ∀ k w, sound w (devfs_wait task_list_str task_switch k t fd e) (λ _ _, True).
Proof using L S.
  intros Hf Ht He k. induction k as [|k IH]; intros w; simpl; [apply sound_hang|].
  snext sound_length. subst. sif; [|by apply sound_ret]. swrite.
  snext sv_alloc; [done|do 2 right; left|]. sif; [by apply sound_ret|].
  match goal with H : _ ∨ _ |- _ => destruct H; [lia|] end.
  swrite. sread h Hh. swrite. swrite. snext sv_switch; [done|]. apply IH.
Qed.

Lemma sound_read_loop e buf : obj KEntry e → ∀ k w len,
  0 <= len → bytes_typed buf (len + Z.of_nat k) → sound w (read_loop k e buf len) (λ _ _, True).
Proof using L.
  intros He k. induction k as [|k IH]; intros w len Hl Hb; simpl; [by apply sound_ret|].
  snext sound_getc; [eauto with devty|]. destruct_and?; subst. sif; [by apply sound_ret|].
  assert (ty (buf + len) = Some TByte) by (apply Hb; lia).
  match goal with H : _ ∨ is_byte _ |- _ => destruct H; [lia|] end.
  swrite. apply IH; [lia|]. by replace (len + 1 + Z.of_nat k) with (len + Z.of_nat (Datatypes.S k)) by lia.
Qed.

(** The entry of an open file, and the task that calls. *)
Lemma sound_fildes w fd (k : Z → Z → M Z) : obj KFildes fd →
  (∀ t e, obj KTask t → e ∈ w → obj KEntry e → sound w (k t e) (λ _ _, True)) →
  sound w (t ← this_task; if t =? 0 then mret (-1) else e ← ld (fildes_entry fd); k t e) (λ _ _, True).
Proof using L S.
  intros Hf Hk. snext sv_this_task; [done|]. destruct_and?; subst. sif; [by apply sound_ret|].
  sread e He. eapply sound_live; [done|]. intros Ho. apply Hk; [|done..].
  match goal with H : _ ∨ _ |- _ => destruct H; [lia|done] end.
Qed.

Lemma sound_devfs_read w k fd buf nbyte : obj KFildes fd → bytes_typed buf (i64 nbyte) →
  sound w (devfs_read task_list_str this_task task_switch k fd buf nbyte) (λ _ _, True).
Proof using L S.
  intros Hf Hb. apply sound_fildes; [done|]. intros t e Ht _ He. sread type Hty.
  sif; [|by apply sound_ret]. snext sound_wait; [done..|]. sif; [by apply sound_ret|].
  apply sound_read_loop; [done..|]. intros i Hi. apply Hb. lia.
Qed.

Lemma sound_write_loop e : obj KEntry e → ∀ k w buf len, sound w (write_loop k e buf len) (λ w' _, w' = w).
Proof using L.
  intros He k. induction k as [|k IH]; intros w buf len; simpl; [by apply sound_ret|].
  sany. snext sound_putc; [eauto with devty|]. subst. sif; [by apply sound_ret|apply IH].
Qed.

Lemma sound_devfs_write w fd buf nbyte : obj KFildes fd →
  sound w (devfs_write this_task fd buf nbyte) (λ _ _, True).
Proof using L S.
  intros Hf. apply sound_fildes; [done|]. intros t e Ht Hw He. sread type Hty.
  sif; [|by apply sound_ret]. apply sound_bind. unfold _chr_obuf_available. snext sound_length. subst. apply sound_ret.
  sif; [by apply sound_ret|]. snext sound_write_loop; [done|]. subst. snext sound_owner; [done|].
  destruct_and?; subst. sread tmp Htmp. swrite. by apply sound_ret.
Qed.

Lemma copy_loop_typed w dst src : bytes_typed dst PATH_MAX → bytes_typed src PATH_MAX → ∀ fuel m i m' i',
  copy_loop (λ i, i <? u64 (PATH_MAX - 1)) fuel m dst src i = Some (m', i') → 0 <= i < PATH_MAX → typed w m →
  typed w m' ∧ untouched m m' ∧ 0 <= i' < PATH_MAX.
Proof using L.
  intros Hd Hs fuel. induction fuel as [|fuel IH]; intros m i m' i' E Hi Hm; [done|]. simpl in E.
  destruct (negb (m.@(src + i) =? 0) && (i <? u64 (PATH_MAX - 1))) eqn:Eb; [|by simplify_eq].
  apply andb_true_iff in Eb as [_ Hlt%Z.ltb_lt]. change (u64 (PATH_MAX - 1)) with (PATH_MAX - 1) in Hlt.
  assert (u64 (i + 1) = i + 1) as Eu by (unfold u64, PATH_MAX in *; rewrite Z.mod_small; lia). rewrite Eu in E.
  destruct (typed_wr w m (dst + i) (m.@(src + i)) TByte) as [Hm1 Hu1];
    [by apply Hd|apply (ty_cell _ _ Hm), Hs; done|done|done|].
  destruct (IH _ _ _ _ E) as (Hm2 & Hu2 & Hi'); [lia|done|]. split_and!; [done|by etrans|lia..].
Qed.

Lemma sound_strlcpy w fuel e name : obj KEntry e → bytes_typed name PATH_MAX →
  sound w (lift (λ m, kstrlcpy fuel m (de_name e) name PATH_MAX)) (λ w' _, w' = w).
Proof using L.
  intros He Hn m Hm. unfold lift, kstrlcpy.
  assert (bytes_typed (de_name e) PATH_MAX) as Hb by (intros i Hi; by apply ty_name).
  destruct (copy_loop _ _ _ _ _ _) as [[m1 i]|] eqn:E; [|done]. simpl.
  destruct (copy_loop_typed w _ _ Hb Hn _ _ _ _ _ E) as (Hm1 & Hu1 & Hi); [done..|].
  destruct (kstrlen_loop _ _ _ _) as [r|]; [|done]. simpl.
  destruct (typed_wr w m1 (de_name e + i) 0 TByte) as [Hm2 Hu2]; [by apply Hb|done|done|done|].
  exists w. split_and!; [done|done|by etrans|done].
Qed.

Lemma sound_slot : ∀ k w i, sound w (devfs_slot devfs k i) (λ w' j, w' = w ∧ i <= j).
Proof.
  intros k. induction k as [|k IH]; intros w i; simpl; [by apply sound_ret|].
  sany. sif; [by apply sound_ret|]. eapply sound_mono; [apply IH|]. cbv beta. intros w' j _ [-> Hj]. split; [done|lia].
Qed.

Lemma sound_register w fuel name type proc : bytes_typed name PATH_MAX → obj KProc proc →
  sound w (devfs_register devfs entry_str fuel name type proc) (λ _ _, True).
Proof using L S.
  intros Hn Hp. pose proof (lt_lock L) as Hk. unfold devfs_register. apply sound_if; intros Et; [by apply sound_ret|].
  snext sound_lock; [done|]. subst. snext sound_slot. destruct_and?; subst.
  sif; [snext sound_unlock; [done|]; by apply sound_ret|].
  snext sv_alloc; [done|left|]. sif; [snext sound_unlock; [done|]; by apply sound_ret|].
  match goal with H : _ ∨ obj _ ?x |- _ => destruct H as [|He]; [lia|]; rename x into e end.
  snext sound_strlcpy; [done..|]. subst.
  assert (type ∈ [DEVFS_CHAR; DEVFS_BLOCK]) as Hty.
  { apply andb_false_iff in Et as [?|?]; rewrite !elem_of_cons; [left|right; left]; lia. }
  swrite. swrite. snext sound_st_owner; [done..|]. subst.
  snext sound_flag; [eauto with devty|by left|]. subst.
  snext sound_st; [apply (lt_slot L); lia|right; set_solver|done|]. subst.
  snext sound_unlock; [done|]. by apply sound_ret.
Qed.

Lemma sound_unregister w index proc : 0 <= index →
  sound w (devfs_unregister devfs entry_str index proc) (λ _ _, True).
Proof using L S.
  intros Hi. pose proof (lt_lock L) as Hk. unfold devfs_unregister. sif; [by apply sound_ret|].
  assert (ty (devfs_entry_at devfs index) = Some TSlot) as Hs by (apply (lt_slot L); lia).
  snext sound_lock; [done|]. subst. sread e He. sif; [snext sound_unlock; [done|]; by apply sound_ret|].
  destruct He as [|He]; [lia|]. eapply sound_live; [done|]. intros Ho. sany.
  sif; [snext sound_unlock; [done|]; by apply sound_ret|]. snext sv_free; [done..|]. subst.
  snext sound_st; [done|by left|done|]. subst. snext sound_unlock; [done|]. by apply sound_ret.
Qed.

Lemma sound_find fuel name : ∀ k w i, 0 <= i → i + Z.of_nat k <= DEVFS_MAXDEVS →
  sound w (devfs_find devfs fuel k i name) (λ w' e, w' = w ∧ (e = 0 ∨ e ∈ w)).
Proof using L.
  intros k. induction k as [|k IH]; intros w i Hi Hk; simpl; [apply sound_ret; auto|].
  assert (ty (devfs_entry_at devfs i) = Some TSlot) by (apply (lt_slot L); lia).
  sread e He. sif; [apply IH; lia|]. snext @sound_peek; subst. sif; [apply sound_ret; auto|apply IH; lia].
Qed.

Lemma sound_lookup w fuel mount parent name : obj KMount mount →
  sound w (devfs_lookup devfs vnode_str fuel mount parent name) (λ _ _, True).
Proof using L S.
  intros Ho. pose proof (lt_lock L) as Hk. unfold devfs_lookup. sread fs Hfs.
  apply list_elem_of_singleton in Hfs as ->. snext sound_lock; [done|]. subst.
  snext sound_find; [done|by vm_compute|]. destruct_and?; subst.
  apply sound_bind. apply sound_mono with (λ _ _, True); [|intros w' v _ _; snext sound_unlock; [done|]; by apply sound_ret].
  sif; [by apply sound_ret|]. match goal with H : _ ∨ _ ∈ _ |- _ => destruct H as [|He]; [lia|] end.
  apply sound_bind. eapply sound_mono; [eapply sv_alloc; [done|right; left]|]. cbv beta. intros w' v Hw Hv.
  sif; [by apply sound_ret|]. destruct Hv as [|Hv]; [lia|].
  sany. swrite. snext sound_st; [eauto with devty|right; set_solver|done|]. by apply sound_ret.
Qed.

Lemma sound_for_up f : (∀ w i, 0 <= i < DEVFS_MAXDEVS → sound w (f i) (λ w' _, w' = w)) → ∀ k w i,
  0 <= i → i + Z.of_nat k <= DEVFS_MAXDEVS → sound w (for_up k i f) (λ w' _, w' = w).
Proof.
  intros Hf k. induction k as [|k IH]; intros w i Hi Hk; simpl; [by apply sound_ret|].
  snext Hf; [lia|]. subst. apply IH; lia.
Qed.

Lemma sound_init w vfs_register : (∀ w, sound w vfs_register (λ _ _, True)) →
  sound w (devfs_init devfs entry_str vfs_register) (λ _ _, True).
Proof using L S.
  intros Hv. unfold devfs_init. snext sound_flag; [apply (lt_lock L)|by left|]. subst.
  snext sound_for_up; [|done|by vm_compute|].
  - intros w1 i Hi. eapply sound_st; [by apply (lt_slot L)|by left|done].
  - subst. snext sv_create; [done|]. sif; [by apply sound_ret|]. snext Hv. sif; by apply sound_ret.
Qed.

(** ** All calls, with any arguments of the C types

    An index is the number of a slot or above; a name is a string, a buffer
    has the room the caller says. *)
Inductive devfs_call : M Z → Prop :=
  | call_init reg : (∀ w, sound w reg (λ _ _, True)) → devfs_call (devfs_init devfs entry_str reg)
  | call_register fuel name type proc : bytes_typed name PATH_MAX → obj KProc proc →
      devfs_call (devfs_register devfs entry_str fuel name type proc)
  | call_unregister index proc : 0 <= index → devfs_call (devfs_unregister devfs entry_str index proc)
  | call_lookup fuel mount parent name : obj KMount mount →
      devfs_call (devfs_lookup devfs vnode_str fuel mount parent name)
  | call_driver_putc index proc c : 0 <= index → devfs_call (devfs_driver_putc devfs index proc c)
  | call_driver_write index proc buf n : 0 <= index → devfs_call (devfs_driver_write devfs index proc buf n)
  | call_driver_getc index proc : 0 <= index → devfs_call (devfs_driver_getc devfs index proc)
  | call_recv_msg index proc msg : 0 <= index → devfs_call (devfs_recv_msg devfs index proc msg)
  | call_read k fd buf nbyte : obj KFildes fd → bytes_typed buf (i64 nbyte) →
      devfs_call (devfs_read task_list_str this_task task_switch k fd buf nbyte)
  | call_write fd buf nbyte : obj KFildes fd → devfs_call (devfs_write this_task fd buf nbyte).

Definition devfs_step (m m' : gmap Z Z) : Prop := ∃ c r, devfs_call c ∧ c m = Ok r m'.

Lemma sound_call w c : devfs_call c → sound w c (λ _ _, True).
Proof using L S.
  destruct 1; [by apply sound_init|by apply sound_register|by apply sound_unregister|by apply sound_lookup
    |by apply sound_driver_putc|by apply sound_driver_write|by apply sound_driver_getc|by apply sound_recv_msg
    |by apply sound_devfs_read|by apply sound_devfs_write].
Qed.

Lemma typed_steps w m m' : rtc devfs_step m m' → typed w m → ∃ w', w ⊆ w' ∧ typed w' m' ∧ untouched m m'.
Proof using L S.
  intros Hr. revert w. induction Hr as [m|m m1 m2 (c & r & Hc & E) _ IH]; intros w Hm; [by exists w|].
  pose proof (sound_call w c Hc m Hm) as H. rewrite E in H. destruct H as (w1 & Hw1 & Hm1 & Hu1 & _).
  destruct (IH w1 Hm1) as (w2 & Hw2 & Hm2 & Hu2). exists w2. split_and!; [by etrans|done|by etrans].
Qed.
End types.

(** ** Properties *)


(** A table at 0x1000, one entry in the slab cache, one process with its task,
    and a name at 0x4000. *)
Definition kinds : list kind := [KEntry; KProc; KTask; KTaskList; KVnode; KMount].
Definition number (k : kind) : Z :=
  match k with KEntry => 1 | KProc => 2 | KTask => 3 | KTaskList => 4 | KVnode => 5 | KMount => 6 | KFildes => 7 end.
Definition place (k : kind) : Z := 0x10000 * number k.
Definition obj_ex (k : kind) (a : Z) : Prop := k ≠ KFildes ∧ a = place k.
Definition ty_ex (a : Z) : option ctype :=
  if decide (0x1008 <= a < 0x3008) then Some TSlot
  else if decide (a = devfs_lock 0x1000) then Some (TOneOf [0; 1])
  else if decide (0x4000 <= a < 0x4400) then Some TByte
  else if decide (a < 0x10000) then None
  else k ← kinds !! Z.to_nat (a / 0x10000 - 1); field 0x1000 k (a - place k).

Definition typed_ex : gmap Z Z :=
  ∅.[proc_task 0x20000 <- 0x30000].[mount_spec 0x60000 <- 0x1000].[0x4000 <- 116].[0x4001 <- 116].[0x4002 <- 121].

Definition typed_slab : KernelSlab := {|
  slab_alloc := λ name, mret (if name =? 1 then 0x10000 else 0);
  slab_free := λ _ _, mret 0;
  slab_create := λ _ _, mret 0;
|}.

Lemma field_small k o T : field 0x1000 k o = Some T → 0 <= o < 0x10000.
Proof. destruct k; unfold field, entry_field, fifo_field; intros H; repeat case_decide; simplify_eq; lia. Qed.

Lemma layout_ex : layout_typed 0x1000 obj_ex ty_ex.
Proof.
  constructor; [|intros i Hi; unfold ty_ex, devfs_entry_at, DEVFS_MAXDEVS in *; by rewrite decide_True by lia|done].
  intros k a o T [Hk ->] Hf. pose proof (field_small _ _ _ Hf). unfold ty_ex.
  assert (1 <= number k) by (by destruct k). unfold place.
  rewrite !decide_False by (unfold devfs_lock; lia).
  rewrite (Z.mul_comm 65536), Z.div_add_l, Z.div_small, Z.add_0_r by lia.
  assert (kinds !! Z.to_nat (number k - 1) = Some k) as -> by (by destruct k).
  simpl. unfold place. by replace (number k * 65536 + o - 65536 * number k) with o by lia.
Qed.

Lemma typed_ex_zero a : a ∉ [proc_task 0x20000; mount_spec 0x60000; 0x4000; 0x4001; 0x4002] → typed_ex.@a = 0.
Proof. rewrite !not_elem_of_cons. intros (? & ? & ? & ? & ? & _). unfold typed_ex. by rewrite !rd_wr_ne by done. Qed.

(** Zero is a value of all types but those of pointers that are never NULL. *)
Lemma zero_typed k o T : k ≠ KFildes → field 0x1000 k o = Some T →
  (k = KProc ∧ o = 2064) ∨ (k = KMount ∧ o = 0) ∨ has_type obj_ex ∅ 0 T.
Proof.
  intros Hk H. destruct k; unfold field, entry_field, fifo_field in H; repeat case_decide; simplify_eq; auto;
    right; right; simpl; unfold is_byte, is_index, SYSDRIVER_DEV_BUFSIZE; first [lia|by left|set_solver].
Qed.

Lemma typed_ex_ok : typed obj_ex ty_ex ∅ typed_ex.
Proof.
  constructor; [|set_solver]. intros a T Ha.
  destruct (decide (a ∈ [proc_task 0x20000; mount_spec 0x60000; 0x4000; 0x4001; 0x4002])) as [Hin|Hn].
  - rewrite !elem_of_cons, elem_of_nil in Hin.
    destruct Hin as [->|[->|[->|[->|[->|[]]]]]]; vm_compute in Ha; simplify_eq; vm_compute; [done|left|..]; done.
  - rewrite typed_ex_zero by done. unfold ty_ex in Ha. repeat case_decide; simplify_eq; [by left|simpl; set_solver|done|].
    destruct (kinds !! _) as [k|] eqn:E; [|done]. simpl in Ha.
    assert (k ≠ KFildes) as Hk by (intros ->; apply list_elem_of_lookup_2 in E; set_solver).
    destruct (zero_typed _ _ _ Hk Ha) as [[-> Ho]|[[-> Ho]|]]; [|..|done]; exfalso; apply Hn; rewrite !elem_of_cons;
      unfold proc_task, mount_spec, place, number in *; lia.
Qed.

Lemma services_ex : services_typed obj_ex ty_ex (KS := typed_slab) 1 2 3 (mret 0x30000) (mret tt).
Proof.
  constructor; intros.
  - apply sound_ret. case_match; [right|by left].
    match goal with H : _ ∈ _ |- _ => rewrite !elem_of_cons, elem_of_nil in H; destruct H as [|[|[|[]]]] end; simplify_eq; done.
  - by apply sound_ret.
  - by apply sound_ret.
  - apply sound_ret. split; [done|]. by right.
  - by apply sound_ret.
Qed.

