(* ===== verification/DevfsNames.v ===== *)
(** * The names of device files: registering and looking up

    The contract of [devfs_register] and [devfs_lookup] of devfs.c, and two
    things the driver calls do not check or do: the lower bound of an index,
    and the ring buffers of an entry that was used before. *)

From S2P Require Import Prelude CMonad KString Kmem Slab Devfs DevfsTheorems.

Section names.
Context {KS : KernelSlab} (devfs entry_str vnode_str : Z) (fuel : nat).

(** The cells of [struct devfs]: the table and its lock. *)
Definition in_table (x : Z) : Prop := devfs_entry_at devfs 0 <= x <= devfs_lock devfs.
Definition in_entry (e x : Z) : Prop := e <= x < e + sizeof_devfs_entry.

Lemma slot_in_table i : 0 <= i < DEVFS_MAXDEVS → in_table (devfs_entry_at devfs i).
Proof. unfold in_table, devfs_entry_at, devfs_lock, DEVFS_MAXDEVS. lia. Qed.

Lemma slot_not_lock i : 0 <= i < DEVFS_MAXDEVS → devfs_entry_at devfs i ≠ devfs_lock devfs.
Proof. unfold devfs_entry_at, devfs_lock, DEVFS_MAXDEVS. lia. Qed.

Lemma lock_free m l : m.@l = 0 → lock l m = Ok tt (m.[l <- 1]).
Proof. intros E. unfold lock, lift_, spin_lock. by rewrite E. Qed.

(** ** The free slot *)

Lemma devfs_slot_first k : ∀ m i j, 0 <= i <= j → j < i + Z.of_nat k →
  (∀ n, i <= n < j → m.@(devfs_entry_at devfs n) ≠ 0) → m.@(devfs_entry_at devfs j) = 0 →
  devfs_slot devfs k i m = Ok j m.
Proof.
  induction k as [|k IH]; intros m i j Hi Hj Hn E; [lia|]. simpl. mrun.
  destruct (decide (i = j)) as [->|]; [by rewrite E|].
  rewrite (proj2 (Z.eqb_neq _ 0)) by (apply Hn; lia). apply IH; [lia..| |done]. intros n' ?. apply Hn. lia.
Qed.

(** What registering [name] (the string [l]) needs: a free lock and slot [i],
    an entry [e] from the slab cache, away from the table and the name. *)
Record registering (m m1 : gmap Z Z) (name : Z) (l : list Z) (i e : Z) : Prop := {
  rg_lock : m.@(devfs_lock devfs) = 0;
  rg_index : 0 <= i < DEVFS_MAXDEVS;
  rg_used j : 0 <= j < i → m.@(devfs_entry_at devfs j) ≠ 0;
  rg_slot : m.@(devfs_entry_at devfs i) = 0;
  rg_same x : in_table x → m1.@x = (m.[devfs_lock devfs <- 1]).@x;
  rg_alloc : slab_alloc entry_str (m.[devfs_lock devfs <- 1]) = Ok e m1;
  rg_nonnull : e ≠ 0;
  rg_string : cstr m1 name l;
  rg_length : Z.of_nat (length l) < PATH_MAX;
  rg_fuel : (length l < fuel)%nat;
  rg_name x : name <= x <= name + Z.of_nat (length l) → ¬ in_table x;
  rg_apart x : in_entry e x → ¬ in_table x ∧ ¬ (name <= x <= name + Z.of_nat (length l));
}.

(** The entry that [devfs_register] leaves behind. *)
Record registered (m : gmap Z Z) (l : list Z) (type proc e : Z) : Prop := {
  rd_name : cstr m (de_name e) l;
  rd_type : m.@(dev_type (de_device e)) = type;
  rd_flags : m.@(de_flags e) = 0;
  rd_proc : m.@(de_proc e) = proc;
  rd_lock : m.@(de_lock e) = 0;
}.

(** Filling in the entry and the slot, and releasing the lock. *)
Definition publish (i e type proc : Z) (m : gmap Z Z) : gmap Z Z :=
  m.[dev_type (de_device e) <- type].[de_flags e <- 0].[de_proc e <- proc].[de_lock e <- 0]
   .[devfs_entry_at devfs i <- e].[devfs_lock devfs <- 0].

Definition entry_cells (e : Z) : list Z := [dev_type (de_device e); de_flags e; de_proc e; de_lock e].

Section publish.
Context (i e type proc : Z) (m : gmap Z Z).
Context (Hi : 0 <= i < DEVFS_MAXDEVS) (Hap : ∀ x, in_entry e x → ¬ in_table x).

Lemma publish_slot : (publish i e type proc m).@(devfs_entry_at devfs i) = e.
Proof using Hi. unfold publish. by rewrite rd_wr_ne, rd_wr_eq by (by apply not_eq_sym, slot_not_lock). Qed.

Lemma publish_lock : (publish i e type proc m).@(devfs_lock devfs) = 0.
Proof. apply rd_wr_eq. Qed.

Lemma publish_frame x : x ∉ entry_cells e → x ≠ devfs_entry_at devfs i → x ≠ devfs_lock devfs →
  (publish i e type proc m).@x = m.@x.
Proof.
  unfold entry_cells. rewrite !not_elem_of_cons. intros (? & ? & ? & ? & _) ? ?. unfold publish.
  by rewrite !rd_wr_ne by congruence.
Qed.

(** An address of the entry is not in the table. *)
Lemma entry_not_slot x : in_entry e x → x ≠ devfs_entry_at devfs i ∧ x ≠ devfs_lock devfs.
Proof using Hi Hap.
  intros Hx. split; intros ->; apply (Hap _ Hx); [by apply slot_in_table|].
  unfold in_table, devfs_entry_at, devfs_lock. lia.
Qed.

Lemma publish_field x : in_entry e x →
  (publish i e type proc m).@x = m.[dev_type (de_device e) <- type].[de_flags e <- 0].[de_proc e <- proc].[de_lock e <- 0].@x.
Proof using Hi Hap. intros Hx. destruct (entry_not_slot x Hx). unfold publish. by rewrite !rd_wr_ne by congruence. Qed.

Lemma publish_registered l : cstr m (de_name e) l → Z.of_nat (length l) < PATH_MAX →
  registered (publish i e type proc m) l type proc e.
Proof using Hi Hap.
  unfold PATH_MAX. intros Hc Hl. constructor; [|rewrite publish_field..].
  2, 4, 6, 8: by rewrite !rd_wr; unfold dev_type, de_device, de_flags, de_proc, de_lock; repeat (case_decide; [lia|]); rewrite ?decide_True.
  2-5: unfold in_entry, dev_type, de_device, de_flags, de_proc, de_lock, sizeof_devfs_entry; lia.
  eapply cstr_frame; [|exact Hc]. intros x Hx. unfold de_name in Hx.
  assert (in_entry e x) as Hx' by (unfold in_entry, sizeof_devfs_entry; lia). destruct (entry_not_slot x Hx').
  apply publish_frame; [|done..]. unfold entry_cells, dev_type, de_device, de_flags, de_proc, de_lock.
  rewrite !not_elem_of_cons. split_and!; [lia..|apply not_elem_of_nil].
Qed.
End publish.

Lemma devfs_register_spec m m1 name l i e type proc :
  registering m m1 name l i e → type = DEVFS_CHAR ∨ type = DEVFS_BLOCK →
  ∃ m', devfs_register devfs entry_str fuel name type proc m = Ok i m' ∧
    registered m' l type proc e ∧ m'.@(devfs_entry_at devfs i) = e ∧ m'.@(devfs_lock devfs) = 0 ∧
    (∀ x, ¬ (de_name e <= x < de_name e + PATH_MAX) → x ∉ entry_cells e →
       x ≠ devfs_entry_at devfs i → x ≠ devfs_lock devfs → m'.@x = m1.@x).
Proof.
  intros [Hk Hi Hu Hs _ Ha Hn Hc Hl Hf _ Hap] Ht. unfold devfs_register.
  assert (negb (DEVFS_CHAR =? type) && negb (DEVFS_BLOCK =? type) = false) as -> by (by destruct Ht as [-> | ->]).
  rewrite (bind_ok _ _ _ _ _ (lock_free m _ Hk)).
  rewrite (bind_ok _ _ _ i (m.[devfs_lock devfs <- 1])).
  2: { apply devfs_slot_first; [lia|unfold DEVFS_MAXDEVS in *; lia|..].
       - intros n Hn'. rewrite rd_wr_ne by (apply not_eq_sym, slot_not_lock; lia). apply Hu. lia.
       - by rewrite rd_wr_ne by (by apply not_eq_sym, slot_not_lock). }
  rewrite (proj2 (Z.leb_gt _ _)) by lia. rewrite (bind_ok _ _ _ _ _ Ha). rewrite (proj2 (Z.eqb_neq e 0)) by done.
  destruct (kstrlcpy_correct m1 (de_name e) name PATH_MAX l fuel) as (m2 & E2 & Hc2 & F2); [done|done| |done|..].
  { unfold PATH_MAX in Hl. lia. }
  { intros a b Hx Hb Ex. destruct (Hap (name + a)) as [_ []]; [|lia].
    rewrite Ex. unfold in_entry, de_name, PATH_MAX, sizeof_devfs_entry in *. lia. }
  assert (lift (λ m, kstrlcpy fuel m (de_name e) name PATH_MAX) m1 = Ok (Z.of_nat (length l)) m2) as El
    by (unfold lift; by rewrite E2).
  rewrite (bind_ok _ _ _ _ _ El). mrun. exists (publish i e type proc m2). split; [reflexivity|].
  rewrite firstn_all2 in Hc2 by (unfold PATH_MAX in *; lia). split_and!.
  - apply publish_registered; [done| |done..]. intros x Hx. by apply Hap.
  - by apply publish_slot.
  - apply publish_lock.
  - intros x Hx1 Hx2 Hx3 Hx4. rewrite publish_frame by done. by apply F2.
Qed.
(** ** Looking up *)

(** The slots in front of [i] are free or hold entries of other names. *)
Definition no_earlier (m : gmap Z Z) (i : Z) (l : list Z) : Prop := ∀ j, 0 <= j < i →
  m.@(devfs_entry_at devfs j) = 0 ∨ ∃ l', cstr m (de_name (m.@(devfs_entry_at devfs j))) l' ∧ l' ≠ l.

(** The comparison with the name of an entry. *)
Lemma name_compare name l e l' m : cstr m name l → cstr m (de_name e) l' → (length l < fuel)%nat →
  Z.of_nat (length l) < PATH_MAX →
  ∃ d, peek (λ m, kstrcmp fuel m name (de_name e)) m = Ok d m ∧ (0 =? d) = bool_decide (l' = l).
Proof.
  intros Hn Hc Hf Hl. destruct (kstrcmp_correct m name (de_name e) l l' fuel) as (d & Ed & _ & Hd); [done..| |done|].
  { unfold PATH_MAX in Hl. lia. }
  exists d. unfold peek. rewrite Ed. split; [done|]. case_bool_decide as Hb.
  - apply Z.eqb_eq. symmetry. by apply Hd.
  - apply Z.eqb_neq. intros E. by apply Hb, eq_sym, Hd.
Qed.

Lemma devfs_find_first name l e i m : cstr m name l → (length l < fuel)%nat → Z.of_nat (length l) < PATH_MAX →
  m.@(devfs_entry_at devfs i) = e → e ≠ 0 → cstr m (de_name e) l → no_earlier m i l →
  ∀ k j, 0 <= j <= i → i < j + Z.of_nat k → devfs_find devfs fuel k j name m = Ok e m.
Proof.
  intros Hn Hf Hl He H0 Hc Hb k. induction k as [|k IH]; intros j Hj Hk; [lia|]. cbn [devfs_find]. mrun.
  destruct (decide (j = i)) as [->|].
  - rewrite He, (proj2 (Z.eqb_neq e 0)) by done.
    destruct (name_compare name l e l m) as (d & Ed & Eb); [done..|]. rewrite (bind_ok _ _ _ _ _ Ed), Eb.
    by rewrite bool_decide_true.
  - assert (devfs_find devfs fuel k (j + 1) name m = Ok e m) as IH' by (apply IH; lia).
    destruct (Hb j) as [-> | (l' & Hc' & Hne)]; [lia|done|]. case_match; [done|].
    destruct (name_compare name l _ l' m Hn Hc') as (d & Ed & Eb); [done..|]. rewrite (bind_ok _ _ _ _ _ Ed), Eb.
    by rewrite bool_decide_false.
Qed.

(** The vnodes come from another cache: taking one changes neither the table
    nor the mount point. *)
Record vnode_alloc (mount : Z) (m : gmap Z Z) (v : Z) (m' : gmap Z Z) : Prop := {
  va_run : vfs_vnode_alloc vnode_str m = Ok v m';
  va_same x : in_table x ∨ x = mount_module mount → m'.@x = m.@x;
  va_apart : v ≠ 0 → ¬ in_table (vnode_inode v) ∧ ¬ in_table (vnode_module v);
}.

Lemma devfs_lookup_spec m v m2 mount parent name l e i :
  m.@(mount_spec mount) = devfs → m.@(devfs_lock devfs) = 0 → 0 <= i < DEVFS_MAXDEVS →
  m.@(devfs_entry_at devfs i) = e → e ≠ 0 →
  let m1 := m.[devfs_lock devfs <- 1] in
  cstr m1 name l → (length l < fuel)%nat → Z.of_nat (length l) < PATH_MAX → cstr m1 (de_name e) l → no_earlier m1 i l →
  vnode_alloc mount m1 v m2 →
  ∃ m', devfs_lookup devfs vnode_str fuel mount parent name m = Ok v m' ∧ m'.@(devfs_lock devfs) = 0 ∧
    (v ≠ 0 → m'.@(vnode_inode v) = e ∧ m'.@(vnode_module v) = m1.@(mount_module mount)).
Proof.
  intros Es Hk Hi He H0 m1 Hn Hf Hl Hc Hb [Hr Hv Ha]. unfold devfs_lookup. mrun. rewrite Es.
  rewrite (bind_ok _ _ _ _ _ (lock_free m _ Hk)). fold m1.
  rewrite (bind_ok _ _ _ e m1).
  2: { apply (devfs_find_first name l e i); [done..| |done|done|done|lia|lia].
       unfold m1. by rewrite rd_wr_ne by (by apply not_eq_sym, slot_not_lock). }
  rewrite (proj2 (Z.eqb_neq e 0)) by done. mrun. rewrite (bind_ok _ _ _ _ _ Hr).
  destruct (Z.eqb_spec v 0) as [->|Hv0]; mrun.
  - eexists. split; [reflexivity|]. split; [apply rd_wr_eq|done].
  - eexists. split; [reflexivity|]. unfold spin_unlock. split; [apply rd_wr_eq|intros _].
    destruct (Ha Hv0) as [Ha1 Ha2]. assert (in_table (devfs_lock devfs)) as Ht by (unfold in_table, devfs_entry_at, devfs_lock; lia).
    rewrite (rd_wr_ne _ (devfs_lock devfs)), (rd_wr_ne _ (devfs_lock devfs)) by (intros E; rewrite E in Ht; done).
    rewrite rd_wr_eq, rd_wr_ne, rd_wr_eq by (unfold vnode_inode, vnode_module; lia). split; [done|]. apply Hv. by right.
Qed.
(** ** Registering, then looking up *)

(** The entries in front of slot [i] have other names, kept outside of the
    new entry and the table. *)
Definition other_names (m m1 : gmap Z Z) (i e : Z) (l : list Z) : Prop := ∀ j, 0 <= j < i →
  ∃ l', cstr m1 (de_name (m.@(devfs_entry_at devfs j))) l' ∧ l' ≠ l ∧
    ∀ x, de_name (m.@(devfs_entry_at devfs j)) <= x <= de_name (m.@(devfs_entry_at devfs j)) + Z.of_nat (length l') →
      ¬ in_entry e x ∧ ¬ in_table x.

Definition mounted (m1 : gmap Z Z) (mount e : Z) : Prop :=
  m1.@(mount_spec mount) = devfs ∧ ∀ x, x = mount_spec mount ∨ x = mount_module mount → ¬ in_entry e x ∧ ¬ in_table x.

(** What the registered entry and the lock leave as they were. *)
Lemma after_register m m1 name l i e type proc :
  registering m m1 name l i e → type = DEVFS_CHAR ∨ type = DEVFS_BLOCK →
  ∃ m', devfs_register devfs entry_str fuel name type proc m = Ok i m' ∧
    registered m' l type proc e ∧ m'.@(devfs_entry_at devfs i) = e ∧ m'.@(devfs_lock devfs) = 0 ∧
    (∀ x, ¬ in_entry e x → ¬ in_table x → m'.@x = m1.@x) ∧
    (∀ j, 0 <= j < i → m'.@(devfs_entry_at devfs j) = m.@(devfs_entry_at devfs j)).
Proof.
  intros R Ht. destruct (devfs_register_spec _ _ _ _ _ _ _ proc R Ht) as (m' & E & Hr & Hs & Hk & Hfr).
  destruct R as [_ Hi _ _ Hsame _ _ _ _ _ _ Hap].
  assert (∀ x, ¬ in_entry e x → x ∉ entry_cells e ∧ ¬ (de_name e <= x < de_name e + PATH_MAX)) as Hout.
  { intros x Hx. unfold in_entry, sizeof_devfs_entry, entry_cells, dev_type, de_device, de_flags, de_proc, de_lock, de_name, PATH_MAX in *.
    rewrite !not_elem_of_cons. split_and!; [lia..|apply not_elem_of_nil|lia]. }
  exists m'. split_and!; [done..| |].
  - intros x Hx Hx'. destruct (Hout x Hx). apply Hfr; [done..| |]; intros ->; apply Hx'; [by apply slot_in_table|].
    unfold in_table, devfs_entry_at, devfs_lock. lia.
  - intros j Hj. assert (in_table (devfs_entry_at devfs j)) as Hin by (apply slot_in_table; lia).
    assert (¬ in_entry e (devfs_entry_at devfs j)) as Hx by (intros Hx; by destruct (Hap _ Hx)).
    destruct (Hout _ Hx). rewrite Hfr; [|done|done|unfold devfs_entry_at; lia|apply slot_not_lock; lia].
    rewrite Hsame by done. by rewrite rd_wr_ne by (apply not_eq_sym, slot_not_lock; lia).
Qed.

Lemma register_lookup_spec m m1 name l i e type proc mount parent :
  registering m m1 name l i e → type = DEVFS_CHAR ∨ type = DEVFS_BLOCK → other_names m m1 i e l → mounted m1 mount e →
  (∀ m', ∃ v m2, vnode_alloc mount m' v m2) →
  ∃ m' v m2 m'', devfs_register devfs entry_str fuel name type proc m = Ok i m' ∧ registered m' l type proc e ∧
    vfs_vnode_alloc vnode_str (m'.[devfs_lock devfs <- 1]) = Ok v m2 ∧
    devfs_lookup devfs vnode_str fuel mount parent name m' = Ok v m'' ∧ m''.@(devfs_lock devfs) = 0 ∧
    (v ≠ 0 → m''.@(vnode_inode v) = e ∧ m''.@(vnode_module v) = m1.@(mount_module mount)).
Proof.
  intros R Ht Ho [Es Hm] HV. destruct (after_register _ _ _ _ _ _ _ proc R Ht) as (m' & E & Hr & Hs & Hk & Hfr & Hsl).
  destruct (HV (m'.[devfs_lock devfs <- 1])) as (v & m2 & V).
  assert (in_table (devfs_lock devfs)) as Hlt by (unfold in_table, devfs_entry_at, devfs_lock; lia).
  assert (∀ x, ¬ in_entry e x → ¬ in_table x → (m'.[devfs_lock devfs <- 1]).@x = m1.@x) as Hfr'.
  { intros x Hx Hx'. rewrite rd_wr_ne by (intros <-; done). by apply Hfr. }
  pose proof (rg_index _ _ _ _ _ _ R) as Hi. pose proof (rg_length _ _ _ _ _ _ R) as Hl.
  assert (m'.@(mount_spec mount) = devfs) as Es' by (destruct (Hm (mount_spec mount)) as []; [by left|]; by rewrite Hfr).
  assert (cstr (m'.[devfs_lock devfs <- 1]) name l) as Hn.
  { eapply cstr_frame; [|apply (rg_string _ _ _ _ _ _ R)]. intros x Hx. apply Hfr'.
    - intros Hx'. destruct (rg_apart _ _ _ _ _ _ R x Hx') as [_ []]. lia.
    - apply (rg_name _ _ _ _ _ _ R). lia. }
  assert (cstr (m'.[devfs_lock devfs <- 1]) (de_name e) l) as He.
  { eapply cstr_frame; [|apply (rd_name _ _ _ _ _ Hr)]. intros x Hx. apply rd_wr_ne. intros <-.
    destruct (rg_apart _ _ _ _ _ _ R (devfs_lock devfs)) as []; [|done].
    unfold in_entry, de_name, sizeof_devfs_entry, PATH_MAX in *. lia. }
  assert (no_earlier (m'.[devfs_lock devfs <- 1]) i l) as Hb.
  { intros j Hj. right. rewrite rd_wr_ne by (apply not_eq_sym, slot_not_lock; lia). rewrite Hsl by done.
    destruct (Ho j Hj) as (l' & Hc & Hne & Hap). exists l'. split; [|done]. eapply cstr_frame; [|exact Hc].
    intros x Hx. destruct (Hap x) as []; [lia|]. by apply Hfr'. }
  destruct (devfs_lookup_spec m' v m2 mount parent name l e i Es' Hk Hi Hs (rg_nonnull _ _ _ _ _ _ R) Hn
    (rg_fuel _ _ _ _ _ _ R) Hl He Hb V) as (m'' & El & Hk'' & Hv).
  exists m', v, m2, m''. split_and!; [done|done|apply V|done|done|].
  intros Hv0. destruct (Hv Hv0) as [-> ->]. split; [done|]. destruct (Hm (mount_module mount)) as []; [by right|]. by apply Hfr'.
Qed.
End names.

(** ** Properties *)


(** [devfs_register] does not initialize the ring buffers: what is queued in
    an entry that another device used before is queued in the new device. *)
Theorem registered_device_keeps_bytes {KS : KernelSlab} (devfs entry_str : Z) (fuel : nat) (m m1 : gmap Z Z)
    (name : Z) (l : list Z) (i e type proc : Z) (q : list Z) :
  registering devfs entry_str fuel m m1 name l i e → type = DEVFS_CHAR ∨ type = DEVFS_BLOCK →
  fifo_at m1 (entry_ibuf e) q →
  ∃ m', devfs_register devfs entry_str fuel name type proc m = Ok i m' ∧ m'.@(devfs_entry_at devfs i) = e ∧
    m'.@(de_proc e) = proc ∧ fifo_at m' (entry_ibuf e) q.
Proof.
  intros R Ht Hq. destruct (devfs_register_spec _ _ _ _ _ _ _ _ _ _ proc R Ht) as (m' & E & Hr & Hs & _ & Hfr).
  exists m'. split_and!; [done|done|apply Hr|]. eapply fifo_at_frame; [|done].
  intros x Hx. unfold entry_ibuf, dev_ibuf, de_device, sizeof_fifo in Hx.
  assert (in_entry e x) as Hin by (unfold in_entry, sizeof_devfs_entry; lia).
  destruct (entry_not_slot devfs i e (rg_index _ _ _ _ _ _ _ _ _ R)) with (x := x) as []; [|done|].
  { intros y Hy. by destruct (rg_apart _ _ _ _ _ _ _ _ _ R y Hy). }
  apply Hfr; [unfold de_name, PATH_MAX; lia| |done..].
  unfold entry_cells, dev_type, de_device, de_flags, de_proc, de_lock. rewrite !not_elem_of_cons.
  split_and!; [lia..|apply not_elem_of_nil].
Qed.

(** The index of a driver's call is compared with the size of the table only:
    a negative one takes a pointer from the memory in front of the table. *)
Theorem negative_index_accepted m devfs index proc e :
  index < 0 → m.@(devfs_entry_at devfs index) = e → m.@(de_proc e) = proc →
  owned_entry devfs index proc m = Ok e m ∧ ¬ in_table devfs (devfs_entry_at devfs index).
Proof.
  intros Hi He Hp. split; [apply owned_entry_run; [|done..]; unfold DEVFS_MAXDEVS; lia|].
  unfold in_table, devfs_entry_at. lia.
Qed.

(** A name at 4000, the table at 8192, an entry at 65536, a mount point at
    100000 and a vnode at 200000; one device is registered in slot 0. *)
Definition names_slab : KernelSlab := {|
  slab_alloc := λ name, mret (if name =? 1 then 65536 else 200000);
  slab_free := λ _ _, mret 0;
  slab_create := λ _ _, mret 0;
|}.
Definition names_ex : gmap Z Z :=
  ∅.[4000 <- 116].[devfs_entry_at 8192 0 <- 300000].[300000 <- 107].[mount_spec 100000 <- 8192].[mount_module 100000 <- 7]
   .[entry_ibuf 65536 <- 72].[fifo_tail (entry_ibuf 65536) <- 1].

Lemma names_ex_registering :
  registering (KS := names_slab) 8192 1 4 names_ex (names_ex.[devfs_lock 8192 <- 1]) 4000 [116] 1 65536.
Proof.
  constructor; try done.
  - intros j Hj. by replace j with 0 by lia.
  - split; [by vm_compute|set_solver].
  - cbn. lia.
  - cbn [length]. unfold in_table, devfs_entry_at, devfs_lock. lia.
  - unfold in_entry, in_table, devfs_entry_at, devfs_lock, sizeof_devfs_entry. cbn [length]. lia.
Qed.


Lemma registered_device_keeps_bytes_witness :
  ∃ m', devfs_register (KS := names_slab) 8192 1 4 4000 0 40 names_ex = Ok 1 m' ∧ fifo_at m' (entry_ibuf 65536) [72].
Proof.
  destruct (registered_device_keeps_bytes (KS := names_slab) 8192 1 4 names_ex (names_ex.[devfs_lock 8192 <- 1]) 4000 [116] 1 65536
    0 40 [72] names_ex_registering (or_introl eq_refl)) as (m' & E & _ & _ & H); [|by exists m'].
  constructor; [by vm_compute..|]. intros [|i] b Hi; simplify_eq/=; by vm_compute.
Defined.
