(* ===== verification/Vfs.v ===== *)
(** * File systems: kernel/vfs.c and kernel/initramfs.c

    A file system module registers a name and a table of functions; mounting
    it attaches its data to a vnode.  The functions are reached through
    pointers stored in memory, so a call through the table is an argument of
    the model that dispatches on the pointer; the section [dispatch] at the
    end has those of the kernel.  The initial ram file system is a table of 128 entries
    with the files behind it. *)

From S2P Require Import Prelude CMonad PhysMem KString Kmem Memory Slab Devfs.

Definition VFS_MAXTYPE : Z := 64.
Definition VFS_MAXFS : Z := 32.
Definition VFS_DIR_DELIMITER : Z := 47.

(** ** Fields *)

Definition module_spec (e : Z) : Z := e.
Definition module_type (e : Z) : Z := e + 8.
Definition module_ifs (e : Z) : Z := e + 72.
Definition ifs_mount_p (ifs : Z) : Z := ifs.
Definition ifs_unmount_p (ifs : Z) : Z := ifs + 8.
Definition ifs_lookup_p (ifs : Z) : Z := ifs + 16.
Definition ifs_lock_p (ifs : Z) : Z := ifs + 168.
Definition ifs_unlock_p (ifs : Z) : Z := ifs + 176.
Definition sizeof_vfs_interfaces : Z := 184.
Definition sizeof_vfs_module : Z := 256.
Definition mount_vnode (mount : Z) : Z := mount + 8.
Definition mount_vnode_cache (mount : Z) : Z := mount + 24.
Definition sizeof_vfs_mount : Z := 32.
Definition vnode_mount (vnode : Z) : Z := vnode + 112.
Definition sizeof_vfs_vnode : Z := 128.

Definition memcpy (dst src n : Z) : M unit := λ m, Ok tt (kmemcpy (Z.to_nat n) m dst src).
Definition strcmp_ (fuel : nat) (a b : Z) : M Z := peek (λ m, kstrcmp fuel m a b).

Section vfs.
Context {KS : KernelSlab}.
(** [vfs.modules], the cell [g_kvar->rootfs] and the names of the caches. *)
Context (modules rootfs module_str mount_str vnode_str : Z).
(** Calls through [ifs.mount], [ifs.unmount] and [ifs.lookup]. *)
Context (call_mount : Z → Z → Z → Z → M Z) (call_unmount : Z → Z → Z → M Z)
        (call_lookup : Z → Z → Z → Z → M Z).
Context (fuel : nat).

Definition module_at (i : Z) : Z := modules + 8 * i.

Definition vfs_init : M Z :=
  _ ← for_up (Z.to_nat VFS_MAXFS) 0 (λ i, st (module_at i) 0);
  ret ← slab_create module_str sizeof_vfs_module;
  if ret <? 0 then mret (-1) else
  ret ← slab_create mount_str sizeof_vfs_mount;
  if ret <? 0 then mret (-1) else
  ret ← slab_create vnode_str sizeof_vfs_vnode;
  if ret <? 0 then mret (-1) else
  vnode ← slab_alloc vnode_str;
  if vnode =? 0 then mret (-1) else
  _ ← memset0 vnode sizeof_vfs_vnode;
  _ ← st rootfs vnode;
  mret 0.

(** The first free position from [pos], or [VFS_MAXFS]. *)
Fixpoint vfs_slot (k : nat) (pos : Z) : M Z :=
  match k with
  | O => mret pos
  | S k => e ← ld (module_at pos); if e =? 0 then mret pos else vfs_slot k (pos + 1)
  end.

Definition vfs_register (type ifs spec : Z) : M Z :=
  pos ← vfs_slot (Z.to_nat VFS_MAXFS) 0;
  if VFS_MAXFS <=? pos then mret (-1) else
  len ← peek (λ m, kstrlen fuel m type);
  if VFS_MAXTYPE <=? len then mret (-1) else
  e ← slab_alloc module_str;
  if e =? 0 then mret (-1) else
  _ ← st (module_spec e) spec;
  _ ← lift_ (A := unit) (λ m, kstrcpy fuel m (module_type e) type);
  _ ← memcpy (module_ifs e) ifs sizeof_vfs_interfaces;
  _ ← st (module_at pos) e;
  mret 0.

Definition _search_vnode_rec (mount vnode dirname : Z) : M Z :=
  md ← ld (mount_module mount);
  f ← ld (ifs_lookup_p (module_ifs md));
  if f =? 0 then mret 0 else call_lookup f mount vnode dirname.

(** The walk over [path]; a component (a delimiter behind at least one other
    character) panics, the last one is not looked up. *)
Fixpoint search_path (k : nat) (path dir : Z) : M unit :=
  match k with
  | O => hang
  | S k =>
    c ← ld path;
    if c =? 0 then mret tt
    else if c =? VFS_DIR_DELIMITER then
      if 1 <=? path - dir then panic else search_path k (path + 1) (path + 1)
    else search_path k (path + 1) dir
  end.

Definition _search_vnode (path cur : Z) : M Z :=
  vnode ← (if cur =? 0 then ld rootfs else mret cur);
  if vnode =? 0 then mret 0
  else _ ← search_path fuel path path; mret vnode.

(** The registered module of that type, or NULL. *)
Fixpoint vfs_find_module (k : nat) (i type : Z) : M Z :=
  match k with
  | O => mret 0
  | S k =>
    e ← ld (module_at i);
    if e =? 0 then vfs_find_module k (i + 1) type
    else
      d ← strcmp_ fuel (module_type e) type;
      if 0 =? d then mret e else vfs_find_module k (i + 1) type
  end.

Definition vfs_mount (type dir flags data : Z) : M Z :=
  e ← vfs_find_module (Z.to_nat VFS_MAXFS) 0 type;
  if e =? 0 then mret (-1) else
  f ← ld (ifs_mount_p (module_ifs e));
  if f =? 0 then mret (-1) else
  vnode ← _search_vnode dir 0;
  if vnode =? 0 then mret (-1) else
  mt ← ld (vnode_mount vnode);
  if negb (mt =? 0) then mret (-1) else
  mount ← slab_alloc mount_str;
  if mount =? 0 then mret (-1) else
  f ← ld (ifs_mount_p (module_ifs e)); spec ← ld (module_spec e);
  s ← call_mount f spec flags data;
  if s =? 0 then mret (-1) else
  _ ← st (mount_spec mount) s;
  _ ← st (mount_vnode mount) vnode;
  _ ← st (mount_module mount) e;
  _ ← st (mount_vnode_cache mount) 0;
  _ ← st (vnode_mount vnode) mount;
  mret 0.

Definition vfs_unmount (dir flags : Z) : M Z :=
  vnode ← _search_vnode dir 0;
  if vnode =? 0 then mret (-1) else
  mt ← ld (vnode_mount vnode);
  if negb (mt =? 0) then mret (-1) else
  mt ← ld (vnode_mount vnode);
  if mt =? 0 then mret (-1) else
  md ← ld (mount_module mt);
  if md =? 0 then mret (-1) else
  f ← ld (ifs_unmount_p (module_ifs md));
  if f =? 0 then mret (-1) else
  spec ← ld (mount_spec mt);
  ret ← call_unmount f spec flags;
  if ret <? 0 then mret (-1) else
  mt ← ld (vnode_mount vnode);
  _ ← slab_free mount_str mt;
  _ ← st (vnode_mount vnode) 0;
  mret 0.

Definition vfs_lookup (dir cur : Z) : M Z :=
  vnode ← _search_vnode dir cur;
  if vnode =? 0 then mret 0 else mret vnode.
End vfs.

(** ** initramfs.c *)

Definition INITRAMFS_BASE : Z := 0xc0030000.
Definition INITRAMFS_NUM_ENTRIES : Z := 128.

(** [struct initrd_entry], packed: [name[15]], [attr], [offset], [size]. *)
Definition initrd_at (i : Z) : Z := INITRAMFS_BASE + 32 * i.
Definition initrd_name (e : Z) : Z := e.
Definition initrd_offset (e : Z) : Z := e + 16.
Definition initrd_size (e : Z) : Z := e + 24.
Definition fs_base (fs : Z) : Z := fs.
Definition fs_lock (fs : Z) : Z := fs + 8.
Definition sizeof_initramfs_device : Z := 16.
(** [struct initramfs_fildes] in [fildes->fsdata]. *)
Definition fildes_size (fd : Z) : Z := fd + 24 + 16.
(** [struct stat]: two 32-bit ids and the size. *)
Definition sizeof_stat : Z := 16.
Definition stat_size (buf : Z) : Z := buf + 8.

Section initramfs.
Context {KS : KernelSlab}.
(** [kmalloc] and [kfree]; [initramfs.lock]; the cache of the vnodes. *)
Context (malloc : Z → M Z) (mfree : Z → M unit) (initramfs_lk vnode_str : Z).
Context (fuel : nat).

Definition initramfs_mount (spec flags data : Z) : M Z :=
  fs ← malloc sizeof_initramfs_device;
  if fs =? 0 then mret 0 else
  _ ← st (fs_base fs) INITRAMFS_BASE;
  _ ← st (fs_lock fs) 0;
  mret fs.

Definition initramfs_unmount (spec flags : Z) : M Z := _ ← mfree spec; mret 0.

(** The entry of that name from [i] on, or NULL. *)
Fixpoint initrd_find (k : nat) (i name : Z) : M Z :=
  match k with
  | O => mret 0
  | S k =>
    d ← strcmp_ fuel name (initrd_name (initrd_at i));
    if 0 =? d then mret (initrd_at i) else initrd_find k (i + 1) name
  end.

Definition initramfs_lookup (mount parent name : Z) : M Z :=
  _ ← ld (mount_spec mount);
  _ ← lock initramfs_lk;
  e ← initrd_find (Z.to_nat INITRAMFS_NUM_ENTRIES) 0 name;
  if e =? 0 then _ ← unlock initramfs_lk; mret 0
  else
    vnode ← vfs_vnode_alloc vnode_str;
    if vnode =? 0 then _ ← unlock initramfs_lk; mret 0
    else
      md ← ld (mount_module mount);
      _ ← st (vnode_module vnode) md;
      off ← ld (initrd_offset e);
      _ ← st (vnode_inode vnode) off;
      _ ← unlock initramfs_lk;
      mret vnode.

Definition initramfs_open (mount vnode name : Z) : M Z := mret 0.
Definition initramfs_close (mount vnode : Z) : M Z := mret 0.

Definition initramfs_fstat (fildes buf : Z) : M Z :=
  _ ← memset0 buf sizeof_stat;
  size ← ld (fildes_size fildes);
  _ ← st (stat_size buf) size;
  mret 0.

(** [off] is signed, [size] and the file size are not: the comparison of the
    rest with [size] is unsigned. *)
Definition initramfs_readfile (path buf size off : Z) : M Z :=
  e ← initrd_find (Z.to_nat INITRAMFS_NUM_ENTRIES) 0 path;
  if e =? 0 then mret (-1)
  else
    o ← ld (initrd_offset e);
    let ptr := u64 (INITRAMFS_BASE + o) in
    fsize ← ld (initrd_size e);
    if i64 fsize <=? off then mret 0
    else if size <? u64 (fsize - off) then
      _ ← memcpy buf (u64 (ptr + off)) size; mret (i64 size)
    else
      _ ← memcpy buf (u64 (ptr + off)) (u64 (fsize - off));
      mret (i64 (u64 (fsize - off))).

Definition initramfs_lock (mount vnode : Z) : M Z := mret 0.
Definition initramfs_unlock (mount vnode : Z) : M Z := mret 0.

(** [ifs] is the table on the stack; the addresses of the functions and
    [vfs_register("initramfs", ...)] are arguments.  The size check of the
    descriptor storage (96 bytes for 24) always passes. *)
Definition initramfs_init (ifs f_mount f_unmount f_lookup f_lock f_unlock : Z)
    (vfs_register : Z → M Z) : M Z :=
  _ ← memset0 ifs sizeof_vfs_interfaces;
  _ ← st (ifs_mount_p ifs) f_mount;
  _ ← st (ifs_unmount_p ifs) f_unmount;
  _ ← st (ifs_lookup_p ifs) f_lookup;
  _ ← st (ifs_lock_p ifs) f_lock;
  _ ← st (ifs_unlock_p ifs) f_unlock;
  ret ← vfs_register ifs;
  if ret <? 0 then mret (-1)
  else _ ← st initramfs_lk 0; mret 0.
End initramfs.

(** ** The function tables of the kernel *)

(** Calls through the tables that [devfs_init] and [initramfs_init] register;
    another pointer is a jump to no function. *)
Section dispatch.
Context {KS : KernelSlab}.
Context (malloc : Z → M Z) (mfree : Z → M unit) (initramfs_lk vnode_str devfs : Z) (fuel : nat).
Context (f_devfs_mount f_devfs_unmount f_devfs_lookup
         f_initramfs_mount f_initramfs_unmount f_initramfs_lookup : Z).

Definition fs_mount (f spec flags data : Z) : M Z :=
  if f =? f_devfs_mount then devfs_mount devfs spec flags data
  else if f =? f_initramfs_mount then initramfs_mount malloc spec flags data
  else panic.

Definition fs_unmount (f spec flags : Z) : M Z :=
  if f =? f_devfs_unmount then devfs_unmount spec flags
  else if f =? f_initramfs_unmount then initramfs_unmount mfree spec flags
  else panic.

Definition fs_lookup (f mount parent name : Z) : M Z :=
  if f =? f_devfs_lookup then devfs_lookup devfs vnode_str fuel mount parent name
  else if f =? f_initramfs_lookup then initramfs_lookup initramfs_lk vnode_str fuel mount parent name
  else panic.
End dispatch.
