(* ===== verification/VfsTheorems.v ===== *)
(** * File systems: theorems

    Reading a file of the initial ram file system copies exactly the bytes of
    the first entry of that name; mounting attaches a registered file system
    once; and unmounting never succeeds. *)

From S2P Require Import Prelude CMonad PhysMem KString Kmem Memory Slab Devfs Vfs.

Lemma bind_memcpy {B} (k : unit → M B) m dst src n :
  (memcpy dst src n ≫= k) m = k tt (kmemcpy (Z.to_nat n) m dst src).
Proof. done. Qed.

(** ** Names *)

Lemma strcmp_run m fuel a b la lb :
  cstr m a la → cstr m b lb → (length la < fuel)%nat → Z.of_nat (length la) < 2 ^ 64 →
  strcmp_ fuel a b m = Ok (str_diff la lb) m.
Proof.
  intros Ha Hb Hf Hl. unfold strcmp_, peek, kstrcmp.
  by rewrite (kstrcmp_loop_spec m a b la lb) by (rewrite ?Z.add_0_r; done).
Qed.

Lemma strcmp_test m a b la lb :
  cstr m a la → cstr m b lb → (0 =? str_diff la lb) = bool_decide (la = lb).
Proof.
  intros [_ Ha] [_ Hb]. rewrite Z.eqb_sym. apply eq_true_iff_eq.
  rewrite Z.eqb_eq, bool_decide_eq_true. by apply str_diff_0.
Qed.

(** ** initramfs *)

(** The names of the [length ns] entries from index [i] on. *)
Definition initrd_names (m : gmap Z Z) (i : Z) (ns : list (list Z)) : Prop :=
  ∀ j n, ns !! j = Some n → cstr m (initrd_name (initrd_at (i + Z.of_nat j))) n.

Lemma initrd_find_run fuel m name p ns : ∀ i,
  cstr m name p → (length p < fuel)%nat → Z.of_nat (length p) < 2 ^ 64 → initrd_names m i ns →
  initrd_find fuel (length ns) i name m =
    Ok (from_option (λ jn : nat * list Z, initrd_at (i + Z.of_nat jn.1)) 0 (list_find (p =.) ns)) m.
Proof.
  induction ns as [|n ns IH]; intros i Hp Hf Hl Hns; [done|].
  pose proof (Hns 0%nat n eq_refl) as H0. rewrite Z.add_0_r in H0.
  cbn [length initrd_find]. rewrite (bind_ok _ _ _ _ _ (strcmp_run m fuel _ _ _ _ Hp H0 Hf Hl)).
  rewrite (strcmp_test _ _ _ _ _ Hp H0). cbn [list_find].
  destruct (decide (p = n)) as [->|Hne].
  - rewrite bool_decide_true by done. simpl. by rewrite Z.add_0_r.
  - rewrite bool_decide_false by done. rewrite IH; [|done..|].
    + destruct (list_find (p =.) ns) as [[j x]|]; [|done]. unfold mret, M_ret. simpl. do 2 f_equal. lia.
    + intros j x Hj. replace (i + 1 + Z.of_nat j) with (i + Z.of_nat (S j)) by lia. by apply Hns.
Qed.

(** A file of the table: the [j]th entry is the first of the name [p], its
    [fsize] bytes start at [INITRAMFS_BASE + o]. *)
Record initrd_file (m : gmap Z Z) (ns : list (list Z)) (p : list Z) (j : nat) (o fsize : Z) : Prop := {
  if_table : length ns = Z.to_nat INITRAMFS_NUM_ENTRIES;
  if_names : initrd_names m 0 ns;
  if_first : list_find (p =.) ns = Some (j, p);
  if_offset : m.@(initrd_offset (initrd_at (Z.of_nat j))) = o;
  if_size : m.@(initrd_size (initrd_at (Z.of_nat j))) = fsize;
  if_range : 0 <= o ∧ 0 <= fsize ∧ INITRAMFS_BASE + o + fsize < 2 ^ 63;
}.

Lemma initrd_at_nonzero i : 0 <= i → (initrd_at i =? 0) = false.
Proof. intros. apply Z.eqb_neq. unfold initrd_at, INITRAMFS_BASE. lia. Qed.

(** C28: [initramfs_readfile] of an existing file at an offset [off >= 0]
    returns how many bytes there are from the offset on, at most [size], puts
    exactly these bytes of the first entry of that name into the buffer and
    changes nothing else; at or behind the end it returns 0. *)
Theorem initramfs_readfile_correct m fuel path p ns j o fsize buf size off :
  cstr m path p → (length p < fuel)%nat → Z.of_nat (length p) < 2 ^ 64 →
  initrd_file m ns p j o fsize → 0 <= off → 0 <= size < 2 ^ 63 →
  let n := Z.max 0 (Z.min size (fsize - off)) in
  let src := INITRAMFS_BASE + o + off in
  (∀ x y, 0 <= x < n → 0 <= y < n → src + x ≠ buf + y) →
  ∃ m', initramfs_readfile fuel path buf size off m = Ok n m' ∧
    ∀ x, m'.@x = if decide (buf <= x < buf + n) then m.@(src + (x - buf)) else m.@x.
Proof.
  intros Hp Hf Hl [Hlen Hns Hj Ho Hs Hr] Hoff Hsize n src Hdj. unfold initramfs_readfile.
  rewrite <-Hlen, (bind_ok _ _ _ _ _ (initrd_find_run fuel m path p ns 0 Hp Hf Hl Hns)).
  rewrite Hj. cbn [from_option fst]. rewrite Z.add_0_l, initrd_at_nonzero by lia. mrun. rewrite Ho, Hs. cbv zeta.
  assert (i64 fsize = fsize) as -> by (unfold i64; rewrite Z.mod_small by (unfold INITRAMFS_BASE in *; lia); lia).
  destruct (Z.leb_spec fsize off) as [Hend|Hend].
  { exists m. replace n with 0 by lia. split; [done|]. intros x. by rewrite decide_False by lia. }
  assert (u64 (fsize - off) = fsize - off) as -> by (apply u64_small; unfold INITRAMFS_BASE in *; lia).
  assert (u64 (u64 (INITRAMFS_BASE + o) + off) = src) as ->
    by (rewrite (u64_small (INITRAMFS_BASE + o)), u64_small by (unfold INITRAMFS_BASE in *; lia); done).
  assert (∀ k, 0 <= k < 2 ^ 63 → i64 k = k) as Hi by (intros; unfold i64; rewrite Z.mod_small by lia; lia).
  assert (n = if size <? fsize - off then size else fsize - off) as En
    by (destruct (Z.ltb_spec size (fsize - off)); lia).
  destruct (Z.ltb_spec size (fsize - off)); rewrite bind_memcpy, Hi, <-En
    by (unfold INITRAMFS_BASE in *; lia);
    (eexists; split; [done|]); intros x; rewrite kmemcpy_spec; rewrite ?Z2Nat.id by lia; done.
Qed.

(** [initramfs_readfile] of a name the table does not have returns -1 and
    writes nothing. *)
Theorem initramfs_readfile_missing m fuel path p ns buf size off :
  cstr m path p → (length p < fuel)%nat → Z.of_nat (length p) < 2 ^ 64 →
  length ns = Z.to_nat INITRAMFS_NUM_ENTRIES → initrd_names m 0 ns → p ∉ ns →
  initramfs_readfile fuel path buf size off m = Ok (-1) m.
Proof.
  intros Hp Hf Hl Hlen Hns Hn. unfold initramfs_readfile.
  rewrite <-Hlen, (bind_ok _ _ _ _ _ (initrd_find_run fuel m path p ns 0 Hp Hf Hl Hns)).
  destruct (list_find (p =.) ns) as [[j x]|] eqn:E; [|done].
  apply list_find_Some in E as (E & <- & _). by apply list_elem_of_lookup_2 in E.
Qed.

(** "a" at 100 and as the first entry of the table, with five bytes at the
    offset 4096. *)
Definition initrd_ex : gmap Z Z :=
  list_to_map [(100, 97); (initrd_at 0, 97); (initrd_offset (initrd_at 0), 4096); (initrd_size (initrd_at 0), 5);
               (INITRAMFS_BASE + 4097, 8); (INITRAMFS_BASE + 4098, 9)].

Lemma initrd_ex_zero x : x < INITRAMFS_BASE + 4096 → x ≠ 100 → x ≠ initrd_at 0 →
  x ≠ initrd_offset (initrd_at 0) → x ≠ initrd_size (initrd_at 0) → initrd_ex.@x = 0.
Proof.
  intros. unfold rd, initrd_ex. rewrite not_elem_of_list_to_map_1; [done|].
  cbn. rewrite !elem_of_cons, elem_of_nil. lia.
Qed.

Lemma initrd_ex_file : initrd_file initrd_ex ([97] :: replicate 127 []) [97] 0 4096 5.
Proof.
  split; [by vm_compute| |by vm_compute..].
  intros [|j] n Hj; [injection Hj as <-; split; [by vm_compute|set_solver]|].
  - change (replicate 127 [] !! j = Some n) in Hj. apply lookup_replicate in Hj as [-> Hj]. split; [|set_solver]. split; [|done].
    apply initrd_ex_zero; unfold initrd_name, initrd_at, initrd_offset, initrd_size, INITRAMFS_BASE; lia.
Qed.

Lemma initramfs_readfile_witness :
  ∃ m', initramfs_readfile 5 100 2000 2 1 initrd_ex = Ok 2 m' ∧ m'.@2000 = 8 ∧ m'.@2001 = 9 ∧ m'.@2002 = 0.
Proof.
  destruct (initramfs_readfile_correct initrd_ex 5 100 [97] ([97] :: replicate 127 []) 0 4096 5 2000 2 1)
    as (m' & E & F).
  - split; [by vm_compute|set_solver].
  - simpl. lia.
  - simpl. lia.
  - apply initrd_ex_file.
  - lia.
  - lia.
  - unfold INITRAMFS_BASE. lia.
  - exists m'. rewrite E, !F. by split_and!.
Defined.

(** ** Paths *)

(** No directory has to be looked up: delimiters, then at most one name. *)
Definition flat_path (l : list Z) : Prop :=
  ∃ n c, l = replicate n VFS_DIR_DELIMITER ++ c ∧ VFS_DIR_DELIMITER ∉ c.

Lemma search_name m c : ∀ k path dir,
  cstr m path c → VFS_DIR_DELIMITER ∉ c → (length c < k)%nat → search_path k path dir m = Ok tt m.
Proof.
  induction c as [|x c IH]; intros [|k] path dir Hc Hd Hk; simpl in Hk; try lia; cbn [search_path]; mrun.
  - apply cstr_nil in Hc. by rewrite Hc.
  - apply cstr_cons in Hc as (-> & Hx & Hc). apply not_elem_of_cons in Hd as [Hd1 Hd].
    rewrite (proj2 (Z.eqb_neq x 0)), (proj2 (Z.eqb_neq x VFS_DIR_DELIMITER)) by done.
    apply IH; [done|done|lia].
Qed.

Lemma search_flat m l k path :
  cstr m path l → flat_path l → (length l < k)%nat → search_path k path path m = Ok tt m.
Proof.
  intros Hl (n & c & -> & Hc). revert k path Hl.
  induction n as [|n IH]; intros k path Hl Hk; [by eapply search_name|].
  destruct k as [|k]; [lia|]. cbn [replicate app length] in *.
  apply cstr_cons in Hl as (E & _ & Hl). cbn [search_path]. mrun. rewrite E, Z.sub_diag. simpl.
  apply IH; [done|lia].
Qed.

Section vfs_laws.
Context {KS : KernelSlab} (modules rootfs mount_str : Z).
Context (call_mount : Z → Z → Z → Z → M Z) (call_unmount : Z → Z → Z → M Z) (fuel : nat).

Lemma search_vnode_root m path l vnode :
  m.@rootfs = vnode → vnode ≠ 0 → cstr m path l → flat_path l → (length l < fuel)%nat →
  _search_vnode rootfs fuel path 0 m = Ok vnode m.
Proof.
  intros Hr Hv Hc Hf Hl. unfold _search_vnode. rewrite Z.eqb_refl. mrun. rewrite Hr.
  rewrite (proj2 (Z.eqb_neq vnode 0)) by done. by rewrite (bind_ok _ _ _ _ _ (search_flat m l fuel path Hc Hf Hl)).
Qed.

Lemma search_vnode_same m path cur r m' : _search_vnode rootfs fuel path cur m = Ok r m' → m' = m.
Proof.
  assert (∀ k p d u m', search_path k p d m = Ok u m' → m' = m) as Hs.
  { induction k as [|k IH]; intros p d u m1; cbn [search_path]; [done|]. mrun.
    repeat case_match; try done; [by intros [= _ ->]|by apply IH|by apply IH]. }
  unfold _search_vnode. destruct (cur =? 0); mrun; (case_match; [by intros [= _ ->]|]);
    unfold mbind, M_bind; destruct (search_path fuel path path m) eqn:E; try done;
    apply Hs in E as ->; by intros [= _ ->].
Qed.

(** [vfs_unmount] never unmounts: it refuses a vnode with a mount point
    as "already mounted" and one without as "not a mount point".  Whatever
    it returns is -1 with the memory unchanged, and on a path without
    directories, the root included, it does return. *)
Theorem vfs_unmount_always_fails m dir flags :
  (∀ r m', vfs_unmount rootfs mount_str call_unmount fuel dir flags m = Ok r m' → r = -1 ∧ m' = m) ∧
  (∀ l, m.@rootfs ≠ 0 → cstr m dir l → flat_path l → (length l < fuel)%nat →
     vfs_unmount rootfs mount_str call_unmount fuel dir flags m = Ok (-1) m).
Proof.
  assert (∀ v, v ≠ 0 → _search_vnode rootfs fuel dir 0 m = Ok v m →
    vfs_unmount rootfs mount_str call_unmount fuel dir flags m = Ok (-1) m) as Hv.
  { intros v Hv E. unfold vfs_unmount. rewrite (bind_ok _ _ _ _ _ E), (proj2 (Z.eqb_neq v 0)) by done.
    mrun. destruct (Z.eqb_spec (m.@(vnode_mount v)) 0) as [E0|E0]; [|done]. simpl. mrun. by rewrite E0. }
  split.
  - intros r m'. destruct (_search_vnode rootfs fuel dir 0 m) as [v m1| |] eqn:E.
    + pose proof (search_vnode_same _ _ _ _ _ E) as ->. destruct (decide (v = 0)) as [->|Hn].
      * unfold vfs_unmount. rewrite (bind_ok _ _ _ _ _ E). by intros [= <- <-].
      * rewrite (Hv v Hn eq_refl). by intros [= <- <-].
    + unfold vfs_unmount, mbind at 1, M_bind at 1. by rewrite E.
    + unfold vfs_unmount, mbind at 1, M_bind at 1. by rewrite E.
  - intros l Hr Hc Hf Hl. apply (Hv (m.@rootfs)); [done|]. by eapply search_vnode_root.
Qed.

(** The types of the registered modules, [None] for a free position. *)
Definition module_types (m : gmap Z Z) (i : Z) (ts : list (option (list Z))) : Prop :=
  ∀ j t, ts !! j = Some t → let e := m.@(module_at modules (i + Z.of_nat j)) in
    match t with None => e = 0 | Some t => e ≠ 0 ∧ cstr m (module_type e) t ∧
      (length t < fuel)%nat ∧ Z.of_nat (length t) < 2 ^ 64 end.

Lemma find_module_run m type t ts : ∀ i,
  cstr m type t → module_types m i ts →
  vfs_find_module modules fuel (length ts) i type m =
    Ok (from_option (λ jn : nat * option (list Z), m.@(module_at modules (i + Z.of_nat jn.1))) 0
          (list_find (Some t =.) ts)) m.
Proof.
  induction ts as [|x ts IH]; intros i Hc Ht; [done|].
  pose proof (Ht 0%nat x eq_refl) as H0. rewrite Z.add_0_r in H0. cbn [length vfs_find_module]. mrun.
  assert (module_types m (i + 1) ts) as Ht'.
  { intros j y Hj. replace (i + 1 + Z.of_nat j) with (i + Z.of_nat (S j)) by lia. by apply Ht. }
  assert (∀ o : option (nat * option (list Z)),
    from_option (λ jn, m.@(module_at modules (i + 1 + Z.of_nat jn.1))) 0 o =
    from_option (λ jn, m.@(module_at modules (i + Z.of_nat jn.1))) 0 (prod_map S id <$> o)) as Hs.
  { intros [[j y]|]; [|done].
    change (m.@(module_at modules (i + 1 + Z.of_nat j)) = m.@(module_at modules (i + Z.of_nat (S j)))).
    by replace (i + Z.of_nat (S j)) with (i + 1 + Z.of_nat j) by lia. }
  cbn [list_find]. destruct x as [x|].
  - destruct H0 as (He & Hx & Hl1 & Hl2). rewrite (proj2 (Z.eqb_neq _ 0) He).
    rewrite (bind_ok _ _ _ _ _ (strcmp_run m fuel _ _ _ _ Hx Hc Hl1 Hl2)), (strcmp_test _ _ _ _ _ Hx Hc).
    destruct (decide (Some t = Some x)) as [[= ->]|Hne].
    + rewrite bool_decide_true by done. simpl. by rewrite Z.add_0_r.
    + rewrite bool_decide_false by congruence. by rewrite IH, Hs.
  - rewrite H0, decide_False by done. simpl. by rewrite IH, Hs.
Qed.

(** The module [e] is the first one registered for the type [t], and can be
    mounted; [dir] leads to the root vnode. *)
Record mountable (m : gmap Z Z) (type : Z) (t : list Z) (dir e vnode : Z) : Prop := {
  mb_type : cstr m type t;
  mb_module : ∃ ts i, length ts = Z.to_nat VFS_MAXFS ∧ module_types m 0 ts ∧
    list_find (Some t =.) ts = Some (i, Some t) ∧ m.@(module_at modules (Z.of_nat i)) = e;
  mb_mount : m.@(ifs_mount_p (module_ifs e)) ≠ 0;
  mb_root : m.@rootfs = vnode ∧ vnode ≠ 0;
  mb_dir : ∃ l, cstr m dir l ∧ flat_path l ∧ (length l < fuel)%nat;
}.

Lemma mountable_module m type t dir e vnode :
  mountable m type t dir e vnode →
  vfs_find_module modules fuel (Z.to_nat VFS_MAXFS) 0 type m = Ok e m ∧ e ≠ 0.
Proof.
  intros [Hc (ts & i & Hlen & Ht & Hi & He) _ _ _]. split.
  - rewrite <-Hlen, (find_module_run m type t ts 0 Hc Ht), Hi. cbn [from_option fst]. by rewrite Z.add_0_l, He.
  - apply list_find_Some in Hi as (Hi & _ & _). apply Ht in Hi as [Hi _]. by rewrite Z.add_0_l, He in Hi.
Qed.

Lemma mountable_vnode m type t dir e vnode :
  mountable m type t dir e vnode → _search_vnode rootfs fuel dir 0 m = Ok vnode m.
Proof. intros [_ _ _ [Hr Hv] (l & Hl & Hf & Hk)]. by eapply search_vnode_root. Qed.

(** C29: [vfs_mount] of a registered file system on the root: when something
    is mounted there it fails and changes nothing; otherwise the file
    system's own mount function is called with the module's data, and the
    new mount point records its result, the vnode and the module, and hangs
    off the vnode, so that a second mount fails.  Nothing else is written. *)
Theorem vfs_mount_correct m m1 m2 type t dir e vnode flags data mount s :
  mountable m type t dir e vnode →
  (m.@(vnode_mount vnode) ≠ 0 →
     vfs_mount modules rootfs mount_str call_mount fuel type dir flags data m = Ok (-1) m) ∧
  (m.@(vnode_mount vnode) = 0 → slab_alloc mount_str m = Ok mount m1 → mount ≠ 0 →
   (∀ x, e <= x < e + sizeof_vfs_module → m1.@x = m.@x) →
   call_mount (m.@(ifs_mount_p (module_ifs e))) (m.@(module_spec e)) flags data m1 = Ok s m2 → s ≠ 0 →
   ¬ (mount <= vnode_mount vnode < mount + sizeof_vfs_mount) →
   ∃ m', vfs_mount modules rootfs mount_str call_mount fuel type dir flags data m = Ok 0 m' ∧
     m'.@(vnode_mount vnode) = mount ∧ m'.@(mount_spec mount) = s ∧
     m'.@(mount_vnode mount) = vnode ∧ m'.@(mount_module mount) = e ∧
     (∀ x, x ≠ vnode_mount vnode → ¬ (mount <= x < mount + sizeof_vfs_mount) → m'.@x = m2.@x)).
Proof.
  intros Hm. destruct (mountable_module _ _ _ _ _ _ Hm) as [Ee He]. pose proof (mountable_vnode _ _ _ _ _ _ Hm) as Ev.
  destruct Hm as [_ _ Hf [_ Hv] _]. unfold vfs_mount.
  rewrite (bind_ok _ _ _ _ _ Ee), (proj2 (Z.eqb_neq e 0)) by done. mrun.
  rewrite (proj2 (Z.eqb_neq _ 0)) by done.
  rewrite (bind_ok _ _ _ _ _ Ev), (proj2 (Z.eqb_neq vnode 0)) by done. mrun. split.
  { intros Hb. by rewrite (proj2 (Z.eqb_neq _ 0)). }
  intros Hb Ea Ha F1 Ec Hs Hd. rewrite Hb. cbn [Z.eqb negb].
  rewrite (bind_ok _ _ _ _ _ Ea), (proj2 (Z.eqb_neq mount 0)) by done. mrun.
  rewrite !F1 by (unfold ifs_mount_p, module_ifs, module_spec, sizeof_vfs_module; lia).
  rewrite (bind_ok _ _ _ _ _ Ec), (proj2 (Z.eqb_neq s 0)) by done. mrun.
  unfold mount_spec, mount_vnode, mount_module, mount_vnode_cache, sizeof_vfs_mount in *.
  eexists. split; [done|].
  split_and!; [by rewrite rd_wr_eq|..|intros x Hx Hx'; by rewrite !rd_wr_ne by lia];
    repeat (first [rewrite rd_wr_eq|rewrite rd_wr_ne by lia]); done.
Qed.
End vfs_laws.

(** devfs ("d") registered at 0x8000 in the table at 0x7000; the root vnode at
    0x6000; "d" at 100, "/" at 200. *)
Definition vfs_ex : gmap Z Z :=
  list_to_map [(100, 100); (200, 47); (0x5000, 0x6000); (0x7000, 0x8000);
               (module_type 0x8000, 100); (ifs_mount_p (module_ifs 0x8000), 0x1111)].

Lemma vfs_ex_zero x :
  x ∉ [100; 200; 0x5000; 0x7000; module_type 0x8000; ifs_mount_p (module_ifs 0x8000)] → vfs_ex.@x = 0.
Proof. intros Hx. unfold rd, vfs_ex. by rewrite not_elem_of_list_to_map_1. Qed.

Lemma vfs_ex_mountable : mountable 0x7000 0x5000 5 vfs_ex 100 [100] 200 0x8000 0x6000.
Proof.
  split.
  - split; [by vm_compute|set_solver].
  - exists (Some [100] :: replicate 31 None), 0%nat. split; [by vm_compute|]. split; [|by vm_compute].
    intros [|j] x Hj.
    + injection Hj as <-. cbv zeta. split; [by vm_compute|]. split; [|split; [simpl; lia|by vm_compute]].
      split; [by vm_compute|set_solver].
    + change (replicate 31 None !! j = Some x) in Hj. apply lookup_replicate in Hj as [-> Hj]. cbv zeta.
      apply vfs_ex_zero. rewrite !elem_of_cons, elem_of_nil.
      unfold module_at, module_type, ifs_mount_p, module_ifs. lia.
  - by vm_compute.
  - by vm_compute.
  - exists [47]. split; [split; [by vm_compute|set_solver]|]. split; [|simpl; lia].
    exists 1%nat, []. split; [done|set_solver].
Qed.

Lemma vfs_mount_witness :
  ∃ KS m', vfs_mount (KS := KS) 0x7000 0x5000 0
      (fs_mount (λ _, mret 0) 0x4000 0x1111 0x2222) 5 100 200 0 0 vfs_ex = Ok 0 m' ∧
    m'.@(vnode_mount 0x6000) = 0x9000 ∧ m'.@(mount_spec 0x9000) = 0x4000.
Proof.
  pose (KS := {| slab_alloc := λ _, mret 0x9000; slab_free := λ _ _, mret 0; slab_create := λ _ _, mret 0 |} : KernelSlab).
  exists KS. edestruct (vfs_mount_correct (KS := KS) 0x7000 0x5000 0 (fs_mount (λ _, mret 0) 0x4000 0x1111 0x2222) 5
    vfs_ex vfs_ex vfs_ex 100 [100] 200 0x8000 0x6000 0 0 0x9000 0x4000 vfs_ex_mountable) as [_ H].
  destruct H as (m' & E & H1 & H2 & _); [by vm_compute|reflexivity|done|done|reflexivity|done| |by exists m'].
  unfold vnode_mount, sizeof_vfs_mount. lia.
Defined.
