(* ===== verification/Proc.v ===== *)
(** * Processes, tasks, scheduler and system calls

    kernel/proc.c, task.c, sched.c and syscall.c, with the functions of
    arch/x86_64/task.c and arch.c they are built on: the clock interrupt
    [ksignal_clock], address spaces [arch_memory_new] and the first process.
    A process has one task; a task is ready, running, blocked or terminated.
    The run queue is a list of ready tasks through [next]; sleeping processes
    are a list of timer events.  Every tick the clock fires timer events and,
    when the current task has used up its credit, picks the next one. *)

From S2P Require Import Prelude CMonad PhysMem KString Pgt Kmem Memory Slab Devfs Vfs.

(** ** Fields and constants *)

Definition TASK_CREATED : Z := 0.
Definition TASK_RUNNING : Z := 2.
Definition TASK_TERMINATED : Z := 4.
Definition task_arch (t : Z) : Z := t.
Definition task_kstack (t : Z) : Z := t + 16.
Definition task_id (t : Z) : Z := t + 24.
Definition task_next (t : Z) : Z := t + 32.
Definition task_credit (t : Z) : Z := t + 40.
Definition task_signaled (t : Z) : Z := t + 44.
Definition sizeof_task : Z := 48.
Definition sizeof_task_list : Z := 16.
Definition proc_pid (p : Z) : Z := p.
Definition proc_name (p : Z) : Z := p + 4.
Definition proc_cwd (p : Z) : Z := p + 1028.
Definition proc_parent (p : Z) : Z := p + 2056.
Definition proc_fd (p i : Z) : Z := p + 2072 + 8 * i.
Definition proc_uid (p : Z) : Z := p + 10264.
Definition proc_gid (p : Z) : Z := p + 10268.
Definition proc_code_addr (p : Z) : Z := p + 10280.
Definition proc_code_size (p : Z) : Z := p + 10288.
Definition proc_exit_status (p : Z) : Z := p + 10296.
Definition sizeof_proc : Z := 10304.
Definition sizeof_fildes : Z := 128.
Definition te_jiffies (e : Z) : Z := e.
Definition te_proc (e : Z) : Z := e + 8.
Definition te_next (e : Z) : Z := e + 16.
Definition tv_sec (ts : Z) : Z := ts.
Definition tv_nsec (ts : Z) : Z := ts + 8.

(** [struct arch_task] and [struct arch_cpu_data] *)
Definition at_rp (a : Z) : Z := a.
Definition at_sp0 (a : Z) : Z := a + 8.
Definition at_cr3 (a : Z) : Z := a + 16.
Definition at_xregs (a : Z) : Z := a + 24.
Definition at_task (a : Z) : Z := a + 32.
Definition sizeof_arch_task : Z := 40.
Definition cpu_cur_task (cpu : Z) : Z := cpu.
Definition cpu_next_task (cpu : Z) : Z := cpu + 8.
Definition cpu_idle_task (cpu : Z) : Z := cpu + 16.
Definition cpu_fpu_task (cpu : Z) : Z := cpu + 24.
Definition CPU_TASK (i : Z) : Z := 0xc0060000 + 104 + Z.shiftl i 8.

(** [struct stackframe64] *)
Definition sf_gs (rp : Z) : Z := rp.
Definition sf_fs (rp : Z) : Z := rp + 2.
Definition sf_ip (rp : Z) : Z := rp + 124.
Definition sf_cs (rp : Z) : Z := rp + 132.
Definition sf_flags (rp : Z) : Z := rp + 140.
Definition sf_sp (rp : Z) : Z := rp + 148.
Definition sf_ss (rp : Z) : Z := rp + 156.
Definition sizeof_stackframe64 : Z := 164.

Definition KSTACK_SIZE : Z := 8192.
Definition KSTACK_GUARD : Z := 16.
Definition PROC_PROG_ADDR : Z := 0x80000000.
Definition PROC_PROG_SIZE : Z := 0x40000000.
Definition PROC_STACK_SIZE : Z := 0x10000.
Definition PROC_NR : Z := 65536.
Definition HZ : Z := 100.
Definition MEMORY_VMF_EXEC : Z := 4.
Definition MEMORY_MAP_USER : Z := 8.
Definition GDT_RING0_CODE_SEL : Z := 8.
Definition GDT_RING0_DATA_SEL : Z := 16.
Definition GDT_RING3_CODE64_SEL : Z := 40.
Definition GDT_RING3_DATA64_SEL : Z := 48.
Definition sizeof_pgt : Z := 24.

(** The variables of [g_kvar] these files use: the cells [procs], [runqueue],
    [jiffies], [timer] and [task_mgr.lock], the [memory_t] and the free lists
    of the kernel zone. *)
Record kvar := Kvar {
  kv_procs : Z; kv_runqueue : Z; kv_jiffies : Z; kv_timer : Z; kv_task_lock : Z;
  kv_mm : Z; kv_kernel_heads : Z;
}.

(** The addresses of the string literals. *)
Record literals := Literals {
  SLAB_PROC : Z; SLAB_FILDES : Z; SLAB_TASK_STACK : Z; SLAB_TASK : Z; SLAB_TASK_LIST : Z;
  TIMER_EVENT : Z; VIRT_MEMORY_SLAB_NAME : Z; VIRT_MEMORY_SLAB_DATA_NAME : Z; PGT_SLAB_NAME : Z;
  ARCH_TASK_NAME : Z; SLASH : Z; INIT : Z;
}.

Section proc.
Context {KS : KernelSlab} {PA : PageAllocator}.
Context (kv : kvar) (lit : literals).
(** [kmalloc]; the processor this runs on; the assembly routines. *)
Context (malloc : Z → M Z) (lapic_id : Z) (ctxsw : Z → M Z) (task_switch : M unit)
        (task_replace : Z → M unit).
(** Scratch cells of the memory manager, and fuel for lists and strings. *)
Context (stk ccl : Z) (fuel : nat).

(** ** task.c *)

Definition task_mgr_init (atsize : Z) : M Z :=
  ret ← slab_create (SLAB_PROC lit) sizeof_proc;
  if ret <? 0 then mret (-1) else
  ret ← slab_create (SLAB_FILDES lit) sizeof_fildes;
  if ret <? 0 then mret (-1) else
  ret ← slab_create (SLAB_TASK_STACK lit) KSTACK_SIZE;
  if ret <? 0 then mret (-1) else
  ret ← slab_create (SLAB_TASK lit) (sizeof_task + atsize);
  if ret <? 0 then mret (-1) else
  ret ← slab_create (SLAB_TASK_LIST lit) sizeof_task_list;
  if ret <? 0 then mret (-1) else
  let nr := (8 * PROC_NR + MEMORY_PAGESIZE - 1) / MEMORY_PAGESIZE in
  procs ← alloc_pages (kv_mm kv) nr MEMORY_ZONE_KERNEL 0;
  _ ← st (kv_procs kv) procs;
  if procs =? 0 then mret (-1) else
  _ ← for_up (Z.to_nat PROC_NR) 0 (λ i, procs ← ld (kv_procs kv); st (procs + 8 * i) 0);
  _ ← st (kv_task_lock kv) 0;
  mret 0.

Definition task_alloc : M Z :=
  t ← slab_alloc (SLAB_TASK lit);
  if t =? 0 then mret 0 else
  _ ← st (task_arch t) (t + sizeof_task);
  ks ← slab_alloc (SLAB_TASK_STACK lit);
  _ ← st (task_kstack t) ks;
  if ks =? 0 then _ ← slab_free (SLAB_TASK lit) t; mret 0 else
  _ ← st (task_proc t) 0;
  _ ← st (task_id t) 0;
  _ ← st (task_state t) TASK_READY;
  _ ← st (task_next t) 0;
  _ ← st (task_credit t) 0;
  mret t.

(** ** arch/x86_64/task.c *)

Definition task_init (t entry : Z) : M Z :=
  a ← ld (task_arch t);
  _ ← st (at_task a) t;
  ks ← ld (task_kstack t);
  let rp := u64 (ks + KSTACK_SIZE - KSTACK_GUARD - sizeof_stackframe64) in
  _ ← st (at_rp a) rp;
  _ ← memset0 rp sizeof_stackframe64;
  _ ← st (at_sp0 a) (u64 (ks + KSTACK_SIZE - KSTACK_GUARD));
  _ ← st (sf_sp rp) (PROC_PROG_ADDR + PROC_PROG_SIZE - 16);
  _ ← st (sf_ip rp) entry;
  _ ← st (sf_cs rp) (GDT_RING3_CODE64_SEL + 3);
  _ ← st (sf_ss rp) (GDT_RING3_DATA64_SEL + 3);
  _ ← st (sf_fs rp) (GDT_RING3_DATA64_SEL + 3);
  _ ← st (sf_gs rp) (GDT_RING3_DATA64_SEL + 3);
  _ ← st (sf_flags rp) 0x202;
  xregs ← malloc 4096;
  _ ← st (at_xregs a) xregs;
  _ ← memset0 xregs 4096;
  proc ← ld (task_proc t);
  if proc =? 0 then mret 0 else
  vmem ← ld (proc_vmem proc); pgt ← ld (vmem_arch vmem); cr3 ← ld (pgt_cr3 pgt);
  _ ← st (at_cr3 a) cr3;
  mret 0.

Definition task_exec (t : Z) : M unit := a ← ld (task_arch t); task_replace a.

Definition this_task : M Z :=
  a ← ld (cpu_cur_task (CPU_TASK lapic_id)); ld (at_task a).

(** ** sched.c *)

Fixpoint sched_loop (k : nat) (i : Z) : M unit :=
  match k with
  | O => mret tt
  | S k =>
    procs ← ld (kv_procs kv);
    p ← ld (procs + 8 * i);
    if p =? 0 then sched_loop k (i + 1) else
    t ← ld (proc_task p);
    if t =? 0 then sched_loop k (i + 1) else
    s ← ld (task_state t);
    if negb (TASK_READY =? s) then sched_loop k (i + 1) else
    _ ← st (task_credit t) 10;
    rq ← ld (kv_runqueue kv);
    _ ← st (task_next t) rq;
    _ ← st (kv_runqueue kv) t;
    sched_loop k (i + 1)
  end.

Definition sched_schedule : M unit := sched_loop (Z.to_nat PROC_NR) 0.

(** ** arch.c: the clock *)

(** Fire the events at the head of the list that are over. *)
Fixpoint timer_fire (k : nat) (e : Z) : M Z :=
  match k with
  | O => hang
  | S k =>
    if e =? 0 then mret 0 else
    j ← ld (te_jiffies e); now ← ld (kv_jiffies kv);
    if negb (j <? now) then mret e else
    p ← ld (te_proc e); t ← ld (proc_task p);
    _ ← st (task_state t) TASK_READY;
    next ← ld (te_next e);
    _ ← slab_free (TIMER_EVENT lit) e;
    timer_fire k next
  end.

(** "Schedule next task": the part behind the credit check. *)
Definition clock_switch : M unit :=
  let cpu := CPU_TASK 0 in
  rq ← ld (kv_runqueue kv);
  _ ← (if rq =? 0 then sched_schedule else mret tt);
  cur ← ld (cpu_cur_task cpu);
  _ ← (if cur =? 0 then mret tt else t ← ld (at_task cur); st (task_state t) TASK_READY);
  t ← ld (kv_runqueue kv);
  if t =? 0 then idle ← ld (cpu_idle_task cpu); st (cpu_next_task cpu) idle
  else
    next ← ld (task_next t);
    _ ← st (kv_runqueue kv) next;
    a ← ld (task_arch t);
    _ ← st (cpu_next_task cpu) a;
    st (task_state t) TASK_RUNNING.

Definition ksignal_clock : M unit :=
  if negb (lapic_id =? 0) then mret tt else
  j ← ld (kv_jiffies kv);
  _ ← st (kv_jiffies kv) (u64 (j + 1));
  e ← ld (kv_timer kv);
  e ← timer_fire fuel e;
  _ ← st (kv_timer kv) e;
  cur ← ld (cpu_cur_task (CPU_TASK 0));
  if cur =? 0 then clock_switch else
  t ← this_task;
  c ← ld (task_credit t);
  _ ← st (task_credit t) (i32 (c - 1));
  if 0 <? i32 (c - 1) then mret tt else clock_switch.

(** ** asm.S: what the switches do to memory

    [sp] is the stack pointer they save; the registers, the page table and
    the interrupt return are the processor's. *)

Definition CPU_TSS (i : Z) : Z := 0xc0060000 + Z.shiftl i 8.
Definition tss_sp0 (tss : Z) : Z := tss + 4.

(** Leave the interrupt: to the next task when one is scheduled. *)
Definition task_restart (sp : Z) : M unit :=
  let cpu := CPU_TASK lapic_id in
  next ← ld (cpu_next_task cpu);
  if next =? 0 then mret tt else
  cur ← ld (cpu_cur_task cpu);
  _ ← (if cur =? 0 then mret tt else st (at_rp cur) sp);
  _ ← st (cpu_cur_task cpu) next;
  _ ← st (cpu_next_task cpu) 0;
  sp0 ← ld (at_sp0 next);
  st (tss_sp0 (CPU_TSS lapic_id)) sp0.

(** Give up the processor: to the next task, or to the idle task. *)
Definition task_switch_out (sp : Z) : M unit :=
  let cpu := CPU_TASK lapic_id in
  cur ← ld (cpu_cur_task cpu);
  if cur =? 0 then mret tt else
  next ← ld (cpu_next_task cpu);
  next ← (if next =? 0 then ld (cpu_idle_task cpu) else mret next);
  _ ← st (at_rp cur) sp;
  _ ← st (cpu_cur_task cpu) next;
  _ ← st (cpu_next_task cpu) 0;
  sp0 ← ld (at_sp0 next);
  st (tss_sp0 (CPU_TSS lapic_id)) sp0.

(** ** arch.c: address spaces *)

Definition vmem_data_alloc (vmem : Z) : M Z :=
  data ← slab_alloc (VIRT_MEMORY_SLAB_DATA_NAME lit);
  if data =? 0 then mret 0 else _ ← memset0 data sizeof_data; mret data.

Definition vmem_data_free (vmem data : Z) : M unit :=
  ret ← slab_free (VIRT_MEMORY_SLAB_DATA_NAME lit) data;
  kassert (ret =? 0).

#[local] Instance vmem_allocator : DataAllocator := {
  data_alloc := vmem_data_alloc;
  data_free := vmem_data_free;
}.

Definition vmem_callback_init : M Z :=
  ret ← slab_create (VIRT_MEMORY_SLAB_NAME lit) sizeof_virt_memory;
  if ret <? 0 then mret (-1) else
  ret ← slab_create (VIRT_MEMORY_SLAB_DATA_NAME lit) sizeof_data;
  if ret <? 0 then mret (-1) else
  ret ← slab_create (PGT_SLAB_NAME lit) sizeof_pgt;
  if ret <? 0 then mret (-1) else
  ret ← task_mgr_init sizeof_arch_task;
  if ret <? 0 then mret (-1) else mret 0.

(** [g_kvar->mm.ifs.new] *)
Definition arch_memory_new : M Z :=
  vmem ← slab_alloc (VIRT_MEMORY_SLAB_NAME lit);
  if vmem =? 0 then mret 0 else
  pages ← lift (λ m, phys_mem_buddy_alloc m (kv_kernel_heads kv) 9);
  if pages =? 0 then mret 0 else
  pgt ← slab_alloc (PGT_SLAB_NAME lit);
  if pgt =? 0 then _ ← slab_free (VIRT_MEMORY_SLAB_NAME lit) vmem; mret 0 else
  _ ← pgt_init pgt pages 512 KERNEL_LMAP;
  _ ← st (vmem_arch vmem) pgt;
  ret ← virt_memory_new fuel vmem (kv_mm kv) 0;
  if ret <? 0 then
    _ ← lift_ (A := unit) (λ m, phys_mem_buddy_free fuel m (kv_kernel_heads kv) pages 9);
    _ ← slab_free (PGT_SLAB_NAME lit) pgt;
    _ ← slab_free (VIRT_MEMORY_SLAB_NAME lit) vmem;
    mret 0
  else
    _ ← st (vmem_flags vmem) MEMORY_MAP_USER;
    mret vmem.

(** ** proc.c *)

Definition _alloc_vmem : M Z :=
  vmem ← arch_memory_new;
  if vmem =? 0 then mret 0 else
  b ← virt_memory_block_add fuel vmem PROC_PROG_ADDR (PROC_PROG_ADDR + PROC_PROG_SIZE - 1);
  if b =? 0 then mret 0 else
  obj ← virt_memory_alloc_object vmem PROC_PROG_SIZE;
  if obj =? 0 then mret 0 else
  e ← virt_memory_alloc_entry fuel vmem obj PROC_PROG_ADDR 0x00200000 0 MEMORY_VMF_EXEC;
  if e =? 0 then mret 0 else
  e ← virt_memory_alloc_entry fuel vmem obj (PROC_PROG_ADDR + PROC_PROG_SIZE - PROC_STACK_SIZE)
        PROC_STACK_SIZE (PROC_PROG_SIZE - PROC_STACK_SIZE) (Z.lor MEMORY_VMF_RW MEMORY_VMF_EXEC);
  if e =? 0 then mret 0 else mret vmem.

Definition proc_new (pid : Z) : M Z :=
  proc ← slab_alloc (SLAB_PROC lit);
  if proc =? 0 then mret 0 else
  _ ← memset0 proc sizeof_proc;
  vmem ← _alloc_vmem;
  _ ← st (proc_vmem proc) vmem;
  if vmem =? 0 then _ ← slab_free (SLAB_PROC lit) proc; mret 0 else
  t ← task_alloc;
  _ ← st (proc_task proc) t;
  if t =? 0 then _ ← slab_free (SLAB_PROC lit) proc; mret 0 else
  _ ← st (task_proc t) proc;
  _ ← st (proc_pid proc) pid;
  _ ← memset0 (proc_name proc) PATH_MAX;
  _ ← memset0 (proc_cwd proc) PATH_MAX;
  _ ← lift_ (A := unit) (λ m, kstrcpy fuel m (proc_cwd proc) (SLASH lit));
  _ ← st (proc_parent proc) 0;
  _ ← st (proc_uid proc) 0;
  _ ← st (proc_gid proc) 0;
  _ ← st (proc_code_addr proc) 0;
  _ ← st (proc_code_size proc) 0;
  _ ← st (proc_exit_status proc) 0;
  mret proc.

Definition proc_fork (op pid : Z) : M Z :=
  np ← slab_alloc (SLAB_PROC lit);
  if np =? 0 then mret 0 else
  _ ← memset0 np sizeof_proc;
  vmem ← arch_memory_new;
  _ ← st (proc_vmem np) vmem;
  if vmem =? 0 then _ ← slab_free (SLAB_PROC lit) np; mret 0 else
  ovmem ← ld (proc_vmem op);
  ret ← virt_memory_fork stk fuel ccl vmem ovmem;
  if ret <? 0 then _ ← slab_free (SLAB_PROC lit) np; mret 0 else
  t ← task_alloc;
  _ ← st (proc_task np) t;
  if t =? 0 then _ ← slab_free (SLAB_PROC lit) np; mret 0 else
  _ ← st (task_proc t) np;
  _ ← task_init t 0;
  ks ← ld (task_kstack t); ot ← ld (proc_task op); oks ← ld (task_kstack ot);
  _ ← memcpy ks oks KSTACK_SIZE;
  _ ← st (proc_pid np) pid;
  _ ← memcpy (proc_name np) (proc_name op) PATH_MAX;
  _ ← memcpy (proc_cwd np) (proc_cwd op) PATH_MAX;
  _ ← st (proc_parent np) 0;
  uid ← ld (proc_uid op); _ ← st (proc_uid np) uid;
  gid ← ld (proc_gid op); _ ← st (proc_gid np) gid;
  ca ← ld (proc_code_addr op); _ ← st (proc_code_addr np) ca;
  cs ← ld (proc_code_size op); _ ← st (proc_code_size np) cs;
  _ ← st (proc_exit_status np) 0;
  _ ← st (proc_parent np) op;
  mret np.

Definition proc_use (proc : Z) : M unit :=
  vmem ← ld (proc_vmem proc); a ← ld (vmem_arch vmem); _ ← ctxsw a; mret tt.

(** ** arch.c: the first process and the idle task *)

(** The start and size of a file of the initial ram disk, or [None]. *)
Definition _initrd_find_file (fname : Z) : M (option (Z * Z)) :=
  e ← initrd_find fuel (Z.to_nat INITRAMFS_NUM_ENTRIES) 0 fname;
  if e =? 0 then mret None else
  off ← ld (initrd_offset e); size ← ld (initrd_size e);
  mret (Some (u64 (INITRAMFS_BASE + off), size)).

Definition _init_new : M Z :=
  f ← _initrd_find_file (INIT lit);
  match f with
  | None => mret 0
  | Some (start, size) =>
    proc ← proc_new 1;
    if proc =? 0 then mret 0 else
    procs ← ld (kv_procs kv);
    _ ← st procs proc;
    t ← ld (proc_task proc); a ← ld (task_arch t);
    _ ← proc_use proc;
    _ ← memcpy PROC_PROG_ADDR start size;
    ret ← task_init t PROC_PROG_ADDR;
    if ret <? 0 then mret 0 else
    vmem ← ld (proc_vmem proc); pgt ← ld (vmem_arch vmem); cr3 ← ld (pgt_cr3 pgt);
    _ ← st (at_cr3 a) cr3;
    mret proc
  end.

Definition _prepare_multitasking : M Z :=
  proc ← _init_new;
  if proc =? 0 then panic else
  f ← _initrd_find_file (INIT lit);
  match f with
  | None => panic
  | Some _ =>
    ret ← slab_create (ARCH_TASK_NAME lit) sizeof_arch_task;
    if ret <? 0 then panic else
    t ← ld (proc_task proc); a ← ld (task_arch t);
    _ ← st (cpu_next_task (CPU_TASK 0)) a;
    mret 0
  end.

(** [idle] is the address of [task_idle]. *)
Definition _prepare_idle_task (idle id : Z) : M Z :=
  t ← task_alloc;
  if t =? 0 then mret (-1) else
  a ← ld (task_arch t);
  _ ← st (at_task a) t;
  ks ← ld (task_kstack t);
  let rp := u64 (ks + KSTACK_SIZE - KSTACK_GUARD - sizeof_stackframe64) in
  let sp := u64 (ks + KSTACK_SIZE - KSTACK_GUARD) in
  _ ← st (at_rp a) rp;
  _ ← memset0 rp sizeof_stackframe64;
  _ ← st (at_sp0 a) sp;
  _ ← st (sf_sp rp) sp;
  _ ← st (sf_ip rp) idle;
  _ ← st (sf_cs rp) GDT_RING0_CODE_SEL;
  _ ← st (sf_ss rp) GDT_RING0_DATA_SEL;
  _ ← st (sf_fs rp) GDT_RING0_DATA_SEL;
  _ ← st (sf_gs rp) GDT_RING0_DATA_SEL;
  _ ← st (sf_flags rp) 0x202;
  _ ← st (at_xregs a) 0;
  pgt ← ld (vmem_arch (memory_kmem (kv_mm kv))); cr3 ← ld (pgt_cr3 pgt);
  _ ← st (at_cr3 a) cr3;
  let cpu := CPU_TASK id in
  _ ← st (cpu_cur_task cpu) 0;
  _ ← st (cpu_next_task cpu) a;
  _ ← st (cpu_idle_task cpu) a;
  _ ← st (cpu_fpu_task cpu) 0;
  mret 0.

(** ** syscall.c *)

(** The loop around [hlt] never ends. *)
Definition sys_exit (status : Z) : M unit :=
  t ← this_task;
  _ ← st (task_state t) TASK_TERMINATED;
  p ← ld (task_proc t);
  _ ← st (proc_exit_status p) status;
  hang.

(** The current process, NULL when there is no task or it has no process. *)
Definition caller : M (Z * Z) :=
  t ← this_task;
  if t =? 0 then mret (0, 0) else p ← ld (task_proc t); mret (t, p).

(** The first free pid from [i + 1] on, or -1. *)
Fixpoint find_pid (k : nat) (i : Z) : M Z :=
  match k with
  | O => mret (-1)
  | S k =>
    procs ← ld (kv_procs kv);
    p ← ld (procs + 8 * i);
    if p =? 0 then mret (i + 1) else find_pid k (i + 1)
  end.

Definition sys_fork_c (task ret0 ret1 : Z) : M Z :=
  '(t, p) ← caller;
  if (p : Z) =? 0 then mret (-1) else
  pid ← find_pid (Z.to_nat PROC_NR) 0;
  if pid <? 0 then mret (-1) else
  proc ← proc_fork p pid;
  if proc =? 0 then mret (-1) else
  _ ← st (proc_parent proc) p;
  procs ← ld (kv_procs kv);
  _ ← st (procs + 8 * (pid - 1)) proc;
  nt ← ld (proc_task proc); a ← ld (task_arch nt);
  _ ← st task a;
  _ ← st ret0 0;
  _ ← st ret1 pid;
  mret 0.

(** [sys_read], [sys_write] and [sys_fstat] look the descriptor up (the index
    is not checked) and fail. *)
Definition sys_read (fildes buf nbyte : Z) : M Z :=
  '(t, p) ← caller;
  if (p : Z) =? 0 then mret (-1) else
  fd ← ld (proc_fd p fildes);
  if fd =? 0 then mret (-1) else _ ← ld (proc_fd p fildes); mret (-1).

Definition sys_write (fildes buf nbyte : Z) : M Z :=
  '(t, p) ← caller;
  if (p : Z) =? 0 then mret (-1) else
  fd ← ld (proc_fd p fildes);
  if fd =? 0 then mret (-1) else _ ← ld (proc_fd p fildes); mret (-1).

Definition sys_fstat (fildes buf : Z) : M Z :=
  '(t, p) ← caller;
  if (p : Z) =? 0 then mret (-1) else
  fd ← ld (proc_fd p fildes);
  if fd =? 0 then mret (-1) else _ ← ld (proc_fd p fildes); mret (-1).

(** Skips to the first delimiter, and fails. *)
Fixpoint open_scan (k : nat) (path : Z) : M unit :=
  match k with
  | O => hang
  | S k =>
    c ← ld path;
    if c =? 0 then mret tt else if c =? VFS_DIR_DELIMITER then mret tt else open_scan k (path + 1)
  end.

Definition sys_open (path oflag : Z) : M Z := _ ← open_scan fuel path; mret (-1).

Definition sys_execve (path argv envp : Z) : M Z :=
  fd ← sys_open path 0;
  if fd <? 0 then mret (-1) else mret (-1).

Definition sys_mmap (addr len prot flags fd offset : Z) : M Z := mret (u64 (-1)).
Definition sys_mount (type dir flags data : Z) : M Z := mret (-1).

(** The time to fire, in jiffies. *)
Definition fire_time (sec nsec now : Z) : Z :=
  u64 (i64 (sec * HZ) + Z.quot (i64 (nsec * HZ)) 1000000000 + now).

(** [while ( NULL != *ep && fire < ( *ep)->jiffies )], then insert at [ep]. *)
Fixpoint timer_insert (k : nat) (ep e fire : Z) : M unit :=
  match k with
  | O => hang
  | S k =>
    p ← ld ep;
    if p =? 0 then _ ← st (te_next e) p; st ep e
    else
      j ← ld (te_jiffies p);
      if fire <? j then timer_insert k (te_next p) e fire
      else _ ← st (te_next e) p; st ep e
  end.

(** Up to the switch: the task and the time it waits for, [None] when the call
    fails. *)
Definition sleep_enter (rqtp : Z) : M (option (Z * Z)) :=
  '(t, p) ← caller;
  if (p : Z) =? 0 then mret None else
  sec ← ld (tv_sec rqtp); nsec ← ld (tv_nsec rqtp); now ← ld (kv_jiffies kv);
  let fire := fire_time sec nsec now in
  e ← slab_alloc (TIMER_EVENT lit);
  if e =? 0 then mret None else
  _ ← st (te_jiffies e) fire;
  p ← ld (task_proc t);
  _ ← st (te_proc e) p;
  _ ← st (te_next e) 0;
  _ ← timer_insert fuel (kv_timer kv) e fire;
  _ ← st (task_state t) TASK_BLOCKED;
  _ ← st (task_signaled t) 0;
  mret (Some (t, fire)).

(** "Will be resumed from here when awake" *)
Definition sleep_leave (t fire rmtp : Z) : M Z :=
  s ← ld (task_signaled t);
  if s =? 0 then mret 0 else
  _ ← (if rmtp =? 0 then mret tt else
       now ← ld (kv_jiffies kv);
       if fire <? now then _ ← st (tv_sec rmtp) 0; st (tv_nsec rmtp) 0
       else
         now ← ld (kv_jiffies kv);
         let delta := u64 (fire - now) in
         _ ← st (tv_sec rmtp) (delta / HZ);
         st (tv_nsec rmtp) (u64 (delta mod HZ * 1000000000) / HZ));
  _ ← st (task_signaled t) 0;
  mret (-1).

Definition sys_nanosleep (rqtp rmtp : Z) : M Z :=
  o ← sleep_enter rqtp;
  match o with
  | None => mret (-1)
  | Some (t, fire) => _ ← task_switch; sleep_leave t fire rmtp
  end.

Definition sys_initexec (path argv envp : Z) : M Z :=
  '(t, p) ← caller;
  if (p : Z) =? 0 then mret (-1) else
  f ← _initrd_find_file path;
  match f with
  | None => mret (-1)
  | Some (start, size) =>
    if start =? 0 then mret (-1) else
    ret ← task_init t PROC_PROG_ADDR;
    if ret <? 0 then mret (-1) else
    p ← ld (task_proc t);
    _ ← lift (λ m, kstrlcpy fuel m (proc_name p) path PATH_MAX);
    _ ← memcpy PROC_PROG_ADDR start size;
    _ ← task_exec t;
    mret 0
  end.
End proc.
