(* ===== verification/ProcTheorems.v ===== *)
(** * Processes, scheduler and timer: theorems

    The high-level scheduler queues exactly the ready tasks, the clock hands
    the processor to the queued tasks one after the other, and the list of
    timer events is kept in an order in which the clock fires all of them or
    none. *)

From S2P Require Import Prelude CMonad PhysMem KString Pgt Kmem Memory Slab Devfs Vfs Proc.

(** ** Tasks in memory

    A task object is a [task_t] with its [struct arch_task] behind it.  [T]
    are the tasks, [K] the variables of the kernel. *)

Definition TASK_BYTES : Z := sizeof_task + sizeof_arch_task.
Definition in_task (t x : Z) : Prop := t <= x < t + TASK_BYTES.

Record tasks_env (T : list Z) (K : Z → Prop) : Prop := {
  te_positive t : t ∈ T → 0 < t;
  te_apart t t' x : t ∈ T → t' ∈ T → in_task t x → in_task t' x → t = t';
  te_kernel t x : t ∈ T → in_task t x → ¬ K x;
}.

Ltac task_cells := unfold in_task, TASK_BYTES, sizeof_task, sizeof_arch_task, task_arch, task_kstack, task_id,
  task_state, task_next, task_credit, task_signaled, at_rp, at_sp0, at_cr3, at_xregs, at_task, task_proc in *.

Lemma task_field T K t t' a b :
  tasks_env T K → t ∈ T → t' ∈ T → 0 <= a < TASK_BYTES → 0 <= b < TASK_BYTES → a ≠ b → t + a ≠ t' + b.
Proof.
  intros HT Ht Ht' Ha Hb Hne E. assert (t = t'); [|lia].
  apply (te_apart _ _ HT t t' (t + a)); [done..| |]; unfold in_task; lia.
Qed.

Lemma kernel_field T K t a x : tasks_env T K → t ∈ T → 0 <= a < TASK_BYTES → K x → t + a ≠ x.
Proof. intros HT Ht Ha Hx <-. eapply te_kernel; [done..| |done]. unfold in_task; lia. Qed.

(** ** The run queue *)

Section sched.
Context (kv : kvar).

(** The tasks of the processes [ps] that are ready. *)
Definition is_ready (m : gmap Z Z) (p : Z) : Prop :=
  p ≠ 0 ∧ m.@(proc_task p) ≠ 0 ∧ m.@(task_state (m.@(proc_task p))) = TASK_READY.
#[export] Instance is_ready_dec m p : Decision (is_ready m p).
Proof. unfold is_ready. apply _. Defined.
Definition ready_tasks (m : gmap Z Z) (ps : list Z) : list Z :=
  (λ p, m.@(proc_task p)) <$> filter (is_ready m) ps.

(** The process table from index [i] on; the cells the scheduler reads are
    variables of the kernel or fields of tasks. *)
Record sched_env (T : list Z) (K : Z → Prop) (m : gmap Z Z) (i : Z) (ps queue : list Z) : Prop := {
  se_tasks : tasks_env T K;
  se_cells : K (kv_runqueue kv) ∧ K (kv_procs kv) ∧ kv_procs kv ≠ kv_runqueue kv;
  se_table j p : ps !! j = Some p →
    let x := m.@(kv_procs kv) + 8 * (i + Z.of_nat j) in m.@x = p ∧ K x ∧ x ≠ kv_runqueue kv;
  se_procs p : p ∈ ps → p ≠ 0 → K (proc_task p) ∧ proc_task p ≠ kv_runqueue kv ∧
    (m.@(proc_task p) ≠ 0 → m.@(proc_task p) ∈ T);
  se_queue : chain 32 m (kv_runqueue kv) queue ∧ (∀ t, t ∈ queue → t ∈ T);
  se_once : NoDup (ready_tasks m ps ++ queue);
}.

(** What the scheduler reads is the same. *)
Definition sched_same (T : list Z) (K : Z → Prop) (m m' : gmap Z Z) : Prop :=
  (∀ x, K x → x ≠ kv_runqueue kv → m'.@x = m.@x) ∧ (∀ t, t ∈ T → m'.@(task_state t) = m.@(task_state t)).

Lemma ready_same T K m m' i ps q :
  sched_same T K m m' → sched_env T K m i ps q → ready_tasks m' ps = ready_tasks m ps.
Proof.
  intros [Hk Ht] Hs. pose proof (se_procs _ _ _ _ _ _ Hs) as Hp. clear Hs. unfold ready_tasks.
  induction ps as [|p ps IH]; [done|].
  assert (p ≠ 0 → m'.@(proc_task p) = m.@(proc_task p)) as Ep.
  { intros Hn. destruct (Hp p) as (? & ? & _); [set_solver|done|]. by apply Hk. }
  assert (is_ready m' p ↔ is_ready m p) as Er.
  { unfold is_ready. destruct (decide (p = 0)) as [|Hn]; [naive_solver|]. rewrite Ep by done.
    destruct (decide (m.@(proc_task p) = 0)) as [|Ht0]; [naive_solver|].
    rewrite Ht; [done|]. apply Hp; [set_solver|done|done]. }
  specialize (IH ltac:(intros; apply Hp; set_solver)). rewrite !filter_cons.
  destruct (decide (is_ready m' p)) as [Hr|Hr]; destruct (decide (is_ready m p)) as [Hr'|Hr']; try tauto.
  rewrite !fmap_cons, IH. f_equal. apply Ep. apply Hr'.
Qed.

Lemma ready_cons m p ps :
  ready_tasks m (p :: ps) = (if decide (is_ready m p) then [m.@(proc_task p)] else []) ++ ready_tasks m ps.
Proof. unfold ready_tasks. rewrite filter_cons. by case_decide. Qed.

Lemma sched_env_tail T K m i p ps q : sched_env T K m i (p :: ps) q → sched_env T K m (i + 1) ps q.
Proof.
  intros [HT Hc Ht Hp Hq Ho]. constructor; [done..| |set_solver|done|].
  - intros j x Hj. specialize (Ht (S j) x Hj). by replace (i + 1 + Z.of_nat j) with (i + Z.of_nat (S j)) by lia.
  - rewrite ready_cons, <-app_assoc in Ho. by apply list.NoDup_app in Ho as (_ & _ & Ho).
Qed.

Lemma ready_in T K m i ps q t : sched_env T K m i ps q → t ∈ ready_tasks m ps → t ∈ T.
Proof.
  intros Hs (p & -> & [Hr Hp]%list_elem_of_filter)%list_elem_of_fmap.
  apply (se_procs _ _ _ _ _ _ Hs); [done|apply Hr..].
Qed.

Definition enqueue (t : Z) (m : gmap Z Z) : gmap Z Z :=
  m.[task_credit t <- 10].[task_next t <- m.@(kv_runqueue kv)].[kv_runqueue kv <- t].

Lemma enqueue_rd T K t m x :
  tasks_env T K → K (kv_runqueue kv) → t ∈ T → (enqueue t m).@x =
    if decide (x = kv_runqueue kv) then t else if decide (x = task_next t) then m.@(kv_runqueue kv)
    else if decide (x = task_credit t) then 10 else m.@x.
Proof. intros. unfold enqueue. rewrite !rd_wr. repeat case_decide; congruence. Qed.

Lemma enqueue_same T K t m :
  tasks_env T K → K (kv_runqueue kv) → t ∈ T → sched_same T K m (enqueue t m).
Proof.
  intros HT HK Ht. split.
  - intros x Hx Hne. rewrite (enqueue_rd T K) by done. rewrite !decide_False; [done|..|done].
    + intros ->. by apply (kernel_field T K t 40 (t + 40)).
    + intros ->. by apply (kernel_field T K t 32 (t + 32)).
  - intros t' Ht'. rewrite (enqueue_rd T K) by done. rewrite !decide_False; [done|..].
    + by apply (task_field T K t' t 28 40).
    + by apply (task_field T K t' t 28 32).
    + by apply (kernel_field T K t' 28).
Qed.

Lemma enqueue_chain T K t m q :
  tasks_env T K → K (kv_runqueue kv) → t ∈ T → t ∉ q → (∀ x, x ∈ q → x ∈ T) →
  chain 32 m (kv_runqueue kv) q → chain 32 (enqueue t m) (kv_runqueue kv) (t :: q).
Proof.
  intros HT HK Ht Hn Hq Hc.
  assert (∀ x, x ∈ (λ p, p + 32) <$> q → x ≠ kv_runqueue kv ∧ x ≠ task_next t ∧ x ≠ task_credit t) as Hx.
  { intros x (t' & -> & Hx)%list_elem_of_fmap. pose proof (Hq t' Hx). split_and!.
    - by apply (kernel_field T K t' 32).
    - unfold task_next. intros E. assert (t' = t); [lia|congruence].
    - by apply (task_field T K t' t 32 40). }
  split; [rewrite (enqueue_rd T K), decide_True by done; done|].
  split; [pose proof (te_positive _ _ HT t Ht); lia|].
  assert (task_next t ≠ kv_runqueue kv) by by apply (kernel_field T K t 32).
  destruct q as [|t' q]; cbn [chain].
  - change (t + 32) with (task_next t). rewrite (enqueue_rd T K), decide_False, decide_True by done. done.
  - destruct Hc as (E & H0 & Hc). change (t + 32) with (task_next t).
    rewrite (enqueue_rd T K), decide_False, decide_True by done. split; [done|]. split; [done|].
    revert Hc. apply chain_frame. intros x Hx'. rewrite (enqueue_rd T K) by done.
    destruct (Hx x) as (? & ? & ?); [done|]. by rewrite !decide_False.
Qed.

Lemma sched_env_enqueue T K m i p ps q :
  sched_env T K m i (p :: ps) q → is_ready m p → let t := m.@(proc_task p) in
  t ∈ T ∧ sched_env T K (enqueue t m) (i + 1) ps (t :: q) ∧ ready_tasks (enqueue t m) ps = ready_tasks m ps.
Proof.
  intros Hs Hr t. pose proof (sched_env_tail _ _ _ _ _ _ _ Hs) as Hs'.
  assert (t ∈ T) as HtT by (apply (se_procs _ _ _ _ _ _ Hs); [set_solver|apply Hr..]).
  destruct Hs as [HT (HK & HK2 & HK3) _ Hp [Hq Hq'] Ho].
  rewrite ready_cons, decide_True in Ho by done. apply list.NoDup_cons in Ho as [Hn Ho].
  rewrite elem_of_app in Hn. pose proof (enqueue_same T K t m HT HK HtT) as Hsame. pose proof Hsame as [Hk _].
  pose proof (ready_same T K m _ (i + 1) ps q Hsame Hs') as Er. split; [done|]. split; [|done].
  constructor; [done|done|..].
  - intros j x Hj. rewrite (Hk (kv_procs kv)) by done.
    destruct (se_table _ _ _ _ _ _ Hs' j x Hj) as (E & Hx & Hne). split; [|done]. by rewrite Hk.
  - intros x Hx H0. destruct (Hp x) as (H1 & H2 & H3); [set_solver|done|]. by rewrite Hk.
  - split; [|set_solver]. apply (enqueue_chain T K); try done. tauto.
  - rewrite Er. apply list.NoDup_app in Ho as (N1 & N2 & N3). apply list.NoDup_app. split; [done|]. split.
    + intros x Hx [->|Hx']%elem_of_cons; [tauto|]. by apply (N2 x).
    + apply list.NoDup_cons. tauto.
Qed.

(** Every ready task ends up in the queue, the last one first; its credit is
    10; nothing but the queue and these two fields is written. *)
Lemma sched_loop_run T K ps : ∀ m i q,
  sched_env T K m i ps q →
  ∃ m', sched_loop kv (length ps) i m = Ok tt m' ∧
    chain 32 m' (kv_runqueue kv) (reverse (ready_tasks m ps) ++ q) ∧
    (∀ t, t ∈ ready_tasks m ps → m'.@(task_credit t) = 10) ∧
    (∀ x, x ≠ kv_runqueue kv → (∀ t, t ∈ ready_tasks m ps → x ≠ task_next t ∧ x ≠ task_credit t) → m'.@x = m.@x).
Proof.
  induction ps as [|p ps IH]; intros m i q Hs.
  { exists m. split; [done|]. split; [apply Hs|]. split; [set_solver|done]. }
  cbn [length sched_loop]. mrun. destruct (se_table _ _ _ _ _ _ Hs 0%nat p eq_refl) as (E & _ & _).
  rewrite Z.add_0_r in E. rewrite E.
  destruct (decide (is_ready m p)) as [Hr|Hr].
  - destruct (sched_env_enqueue _ _ _ _ _ _ _ Hs Hr) as (HtT & Hs' & Er).
    destruct (IH _ _ _ Hs') as (m' & E' & Hc & Hcr & Hfr). rewrite Er in *.
    rewrite ready_cons, decide_True by done. cbn [app].
    assert (∀ t, t ∈ ready_tasks m (p :: ps) → t ∈ T) as Hin by (intros ? Hx; exact (ready_in _ _ _ _ _ _ _ Hs Hx)). rewrite ready_cons, decide_True in Hin by done.
    destruct Hs as [HT (HK & HK2 & HK3) _ _ _ Ho]. rewrite ready_cons, decide_True in Ho by done.
    destruct Hr as (Hp0 & Ht0 & Hst). set (t := m.@(proc_task p)) in *.
    rewrite (proj2 (Z.eqb_neq p 0)) by done. mrun. fold t. rewrite (proj2 (Z.eqb_neq t 0)) by done. mrun.
    rewrite Hst, Z.eqb_refl. cbn [negb]. mrun.
    rewrite (rd_wr_ne m (task_credit t) (kv_runqueue kv)) by (by apply (kernel_field T K t 40)).
    exists m'. split; [exact E'|]. apply list.NoDup_cons in Ho as [Hn Ho]. rewrite elem_of_app in Hn.
    split; [by rewrite reverse_cons, <-app_assoc|]. split.
    + intros x [->|Hx]%elem_of_cons; [|by apply Hcr]. rewrite Hfr.
      * rewrite (enqueue_rd T K) by done. rewrite decide_False, decide_False, decide_True; [done|done|..].
        -- by apply (task_field T K t t 40 32).
        -- by apply (kernel_field T K t 40).
      * by apply (kernel_field T K t 40).
      * intros t' Ht'. assert (t' ∈ T) as Ht'T by (apply Hin; set_solver).
        split; [by apply (task_field T K t t' 40 32)|]. unfold task_credit. intros Et. assert (t = t') by lia. subst t'. tauto.
    + intros x Hx Hx'. rewrite Hfr; [|done|set_solver]. rewrite (enqueue_rd T K) by done.
      destruct (Hx' t) as [? ?]; [set_solver|]. by rewrite !decide_False.
  - rewrite ready_cons, decide_False by done.
    destruct (IH m (i + 1) q (sched_env_tail _ _ _ _ _ _ _ Hs)) as (m' & E' & HH).
    exists m'. split; [|done]. rewrite <-E'.
    unfold is_ready in Hr. destruct (Z.eqb_spec p 0); [done|]. mrun.
    destruct (Z.eqb_spec (m.@(proc_task p)) 0); [done|]. mrun.
    destruct (Z.eqb_spec TASK_READY (m.@(task_state (m.@(proc_task p))))); [|done]. exfalso. apply Hr. done.
Qed.
End sched.

(** ** The clock *)

Section clock.
Context {KS : KernelSlab} (kv : kvar) (lit : literals).

Notation cpu := (CPU_TASK 0).
Notation tss := (tss_sp0 (CPU_TSS 0)).

(** The run queue and the current task are tasks of [T]; [None] when the
    processor has no task yet. *)
Record clock_env (T : list Z) (K : Z → Prop) (m : gmap Z Z) (queue : list Z) (cur : option Z) : Prop := {
  ce_tasks : tasks_env T K;
  ce_kernel x : x ∈ [kv_runqueue kv; cpu_cur_task cpu; cpu_next_task cpu; tss] → K x;
  ce_runqueue : kv_runqueue kv ∉ [cpu_cur_task cpu; cpu_next_task cpu; tss];
  ce_arch t : t ∈ T → m.@(task_arch t) = t + sizeof_task ∧ m.@(at_task (t + sizeof_task)) = t;
  ce_queue : chain 32 m (kv_runqueue kv) queue;
  ce_queued t : t ∈ queue → t ∈ T;
  ce_once : NoDup queue;
  ce_cur : m.@(cpu_cur_task cpu) = from_option (λ t, t + sizeof_task) 0 cur;
  ce_cur_in t : cur = Some t → t ∈ T;
}.

(** The cells a switch may write besides the queue and the current task. *)
Definition switch_cell (T : list Z) (x : Z) : Prop :=
  x ∈ [kv_runqueue kv; cpu_cur_task cpu; cpu_next_task cpu; tss] ∨
  ∃ t, t ∈ T ∧ (x = task_state t ∨ x = at_rp (t + sizeof_task)).

Lemma clock_env_frame T K m m' q q' cur cur' :
  clock_env T K m q cur → (∀ x, ¬ switch_cell T x → m'.@x = m.@x) →
  chain 32 m' (kv_runqueue kv) q' → (∀ t, t ∈ q' → t ∈ T) → NoDup q' →
  m'.@(cpu_cur_task cpu) = from_option (λ t, t + sizeof_task) 0 cur' →
  (∀ t, cur' = Some t → t ∈ T) → clock_env T K m' q' cur'.
Proof.
  intros [HT HK Hr Ha _ _ _ _ _] F Hc Hq Hn Ec Hcin. constructor; try done. intros t Ht.
  assert (∀ a, 0 <= a < TASK_BYTES → a ≠ 28 → a ≠ 48 → ¬ switch_cell T (t + a)) as Hs.
  { intros a Ha0 H28 H48 [Hx|(t' & Ht' & [Hx|Hx])].
    - exact (kernel_field T K t a _ HT Ht Ha0 (HK _ Hx) eq_refl).
    - by apply (task_field T K t t' a 28).
    - unfold at_rp, sizeof_task in Hx. by apply (task_field T K t t' a 48). }
  destruct (Ha t Ht) as [E1 E2]. split.
  - rewrite F; [done|]. unfold task_arch. rewrite <-(Z.add_0_r t). by apply Hs.
  - rewrite F; [done|]. unfold at_task, sizeof_task. rewrite <-Z.add_assoc. by apply Hs.
Qed.

(** The queue without the cells a switch writes. *)
Lemma queue_cell T K m q cur t x :
  clock_env T K m q cur → t ∈ T → x = task_next t → ¬ switch_cell T x.
Proof.
  intros [HT HK _ _ _ _ _ _ _] Ht -> [Hx|(t' & Ht' & [Hx|Hx])].
  - by eapply (kernel_field T K t 32); [..|apply HK, Hx|].
  - by apply (task_field T K t t' 32 28).
  - unfold at_rp, sizeof_task in Hx. by apply (task_field T K t t' 32 48).
Qed.

Lemma queue_frame T K m m' q cur t :
  clock_env T K m (t :: q) cur → (∀ x, ¬ switch_cell T x → m'.@x = m.@x) →
  m'.@(kv_runqueue kv) = m.@(task_next t) → chain 32 m' (kv_runqueue kv) q.
Proof.
  intros He F Er. pose proof (ce_queue _ _ _ _ _ He) as (_ & _ & Hc).
  assert (∀ x, x ∈ (λ p, p + 32) <$> t :: q → m'.@x = m.@x) as Hx.
  { intros x (t' & -> & Hx)%list_elem_of_fmap. apply F. eapply queue_cell; [done| |done].
    by apply (ce_queued _ _ _ _ _ He). }
  destruct q as [|t' q]; cbn [chain] in *; [by rewrite Er|].
  destruct Hc as (E & H0 & Hc). split; [by rewrite Er|]. split; [done|].
  revert Hc. apply chain_frame. intros x Hx'. apply Hx. set_solver.
Qed.

Lemma task_state_kernel T K m q cur t x :
  clock_env T K m q cur → t ∈ T → x ∈ [kv_runqueue kv; cpu_cur_task cpu; cpu_next_task cpu; tss] → task_state t ≠ x.
Proof. intros [HT HK _ _ _ _ _ _ _] Ht Hx. apply (kernel_field T K t 28); [done..|by apply HK]. Qed.

(** "the current task is ready again" *)
Definition requeue (cur : option Z) (m : gmap Z Z) : gmap Z Z :=
  match cur with Some t => m.[task_state t <- TASK_READY] | None => m end.

Lemma requeue_run T K m q cur :
  clock_env T K m q cur →
  (if m.@(cpu_cur_task cpu) =? 0 then mret tt
   else t ← ld (at_task (m.@(cpu_cur_task cpu))); st (task_state t) TASK_READY) m = Ok tt (requeue cur m).
Proof.
  intros He. pose proof He as [HT _ _ Ha _ _ _ Ec Hin]. rewrite Ec.
  destruct cur as [t|]; [|done]. cbn [from_option]. pose proof (Hin t eq_refl) as Ht.
  rewrite (proj2 (Z.eqb_neq _ 0)) by (pose proof (te_positive _ _ HT t Ht); unfold sizeof_task; lia). mrun. by rewrite (proj2 (Ha t Ht)).
Qed.

Lemma requeue_env T K m q cur : clock_env T K m q cur → clock_env T K (requeue cur m) q cur.
Proof.
  intros He. destruct cur as [t|]; [|done]. pose proof (ce_cur_in _ _ _ _ _ He t eq_refl) as Ht.
  apply (clock_env_frame T K m _ q q (Some t) (Some t)); try apply He; simpl.
  - intros x Hx. apply rd_wr_ne. intros <-. apply Hx. right. eauto.
  - apply chain_wr; [|apply He]. intros Hx. unfold cells in Hx. rewrite elem_of_cons in Hx.
    destruct Hx as [Hx|(t' & Hx & Ht')%list_elem_of_fmap].
    + revert Hx. eapply task_state_kernel; [done|done|set_solver].
    + revert Hx. apply (task_field T K t t' 28 32); [apply He|done|by apply (ce_queued _ _ _ _ _ He)|done..].
  - rewrite rd_wr_ne; [apply He|]. eapply task_state_kernel; [done|done|set_solver].
Qed.

Lemma clock_switch_run T K m t q cur :
  clock_env T K m (t :: q) cur →
  ∃ m', clock_switch kv m = Ok tt m' ∧ m'.@(cpu_next_task cpu) = t + sizeof_task ∧
    m'.@(task_state t) = TASK_RUNNING ∧
    (∀ t0, cur = Some t0 → t0 ≠ t → m'.@(task_state t0) = TASK_READY) ∧
    (∀ t0, t0 ∈ T → cur ≠ Some t0 → t0 ≠ t → m'.@(task_state t0) = m.@(task_state t0)) ∧
    (∀ x, ¬ switch_cell T x → m'.@x = m.@x) ∧ clock_env T K m' q cur.
Proof.
  intros He. pose proof (requeue_run T K m _ cur He) as Er. pose proof (requeue_env T K m _ cur He) as He1.
  set (m1 := requeue cur m) in *. pose proof He1 as [HT HK Hr Ha Hq Hqin Hn Ec Hcin].
  assert (t ∈ T) as HtT by (apply Hqin; set_solver).
  assert (m.@(kv_runqueue kv) = t ∧ t ≠ 0) as [Et Ht0] by (destruct (ce_queue _ _ _ _ _ He) as (? & ? & _); done).
  pose (m' := m1.[kv_runqueue kv <- m1.@(task_next t)].[cpu_next_task cpu <- t + sizeof_task].[task_state t <- TASK_RUNNING]).
  assert (clock_switch kv m = Ok tt m') as Erun.
  { unfold clock_switch. mrun. rewrite Et, (proj2 (Z.eqb_neq t 0)) by done. mrun.
    rewrite (bind_ok _ _ _ _ _ Er). mrun. destruct Hq as (Eq & _ & _). rewrite Eq.
    rewrite (proj2 (Z.eqb_neq t 0)) by done. mrun. rewrite rd_wr_ne; [by rewrite (proj1 (Ha t HtT))|].
    apply not_eq_sym. unfold task_arch. rewrite <-(Z.add_0_r t). apply (kernel_field T K t 0); [done..|apply HK; set_solver]. }
  assert (∀ t0, t0 ∈ T → m'.@(task_state t0) = if decide (t0 = t) then TASK_RUNNING else m1.@(task_state t0)) as Es.
  { intros t0 Ht0'. unfold m'. rewrite rd_wr. unfold task_state at 1 2. case_decide; [by rewrite decide_True by lia|].
    rewrite decide_False by (intros ->; done).
    rewrite !rd_wr_ne; [done|apply not_eq_sym..]; (eapply task_state_kernel; [done|done|set_solver]). }
  assert (∀ x, ¬ switch_cell T x → m'.@x = m1.@x) as F1.
  { intros x Hx. unfold m'. rewrite !rd_wr_ne; [done|..]; intros <-; apply Hx; [left; set_solver..|right; eauto]. }
  assert (∀ x, ¬ switch_cell T x → m1.@x = m.@x) as F0.
  { intros x Hx. unfold m1, requeue. destruct cur as [t0|]; [|done]. apply rd_wr_ne. intros <-.
    apply Hx. right. exists t0. split; [by apply Hcin|tauto]. }
  exists m'. split; [done|]. split; [|split; [|split; [|split; [|split]]]].
  - unfold m'. rewrite rd_wr_ne, rd_wr_eq; [done|]. eapply task_state_kernel; [done|done|set_solver].
  - by rewrite Es, decide_True.
  - intros t0 -> Hne. rewrite Es, decide_False by (done || apply Hcin; done). unfold m1. simpl. apply rd_wr_eq.
  - intros t0 Ht0' Hc Hne. rewrite Es, decide_False by done. unfold m1, requeue. destruct cur as [t1|]; [|done].
    apply rd_wr_ne. unfold task_state. intros E. assert (t1 = t0) by lia. congruence.
  - intros x Hx. by rewrite F1, F0.
  - apply (clock_env_frame T K m1 m' (t :: q) q cur cur); [done|done|..|done].
    + apply (queue_frame T K m1 m' q cur t); [done|done|]. unfold m'.
      rewrite rd_wr_ne by (eapply task_state_kernel; [done|done|set_solver]).
      rewrite rd_wr_ne by (intros E; apply Hr; rewrite <-E; set_solver). apply rd_wr_eq.
    + set_solver.
    + by apply list.NoDup_cons in Hn as [_ ?].
    + unfold m'. rewrite rd_wr_ne by (eapply task_state_kernel; [done|done|set_solver]).
      rewrite !rd_wr_ne; [done|..]; [intros E; apply Hr; rewrite E; set_solver|done].
Qed.

Lemma task_restart_run T K m q cur t sp :
  clock_env T K m q cur → t ∈ T → m.@(cpu_next_task cpu) = t + sizeof_task →
  ∃ m', task_restart 0 sp m = Ok tt m' ∧ clock_env T K m' q (Some t) ∧
    (∀ t0, t0 ∈ T → m'.@(task_state t0) = m.@(task_state t0)).
Proof.
  intros He Ht En. pose proof He as [HT HK Hr Ha Hq Hqin Hn Ec Hcin].
  pose proof (te_positive _ _ HT t Ht) as Hpos.
  pose (m1 := match cur with Some t0 => m.[at_rp (t0 + sizeof_task) <- sp] | None => m end).
  assert (∀ t0 a x, t0 ∈ T → 0 <= a < TASK_BYTES → x ∈ [kv_runqueue kv; cpu_cur_task cpu; cpu_next_task cpu; tss] →
    t0 + a ≠ x) as Hk by (intros; apply (kernel_field T K); [done..|by apply HK]).
  assert (∀ x, x ∈ [kv_runqueue kv; cpu_cur_task cpu; cpu_next_task cpu; tss] → m1.@x = m.@x) as E1.
  { intros x Hx. unfold m1. destruct cur as [t0|]; [|done]. apply rd_wr_ne. apply Hk; [by apply Hcin|done|done]. }
  pose (m' := m1.[cpu_cur_task cpu <- t + sizeof_task].[cpu_next_task cpu <- 0].[tss <-
    (m1.[cpu_cur_task cpu <- t + sizeof_task].[cpu_next_task cpu <- 0]).@(at_sp0 (t + sizeof_task))]).
  assert (∀ x, x ∉ [cpu_cur_task cpu; cpu_next_task cpu; tss] → m'.@x = m1.@x) as E'.
  { intros x Hx. unfold m'. rewrite !rd_wr_ne; [done|..]; intros <-; apply Hx; set_solver. }
  exists m'. split; [|split].
  - unfold task_restart. mrun. rewrite En, (proj2 (Z.eqb_neq _ 0)) by (unfold sizeof_task; lia). mrun. rewrite Ec.
    destruct cur as [t0|]; cbn [from_option]; [|done].
    rewrite (proj2 (Z.eqb_neq _ 0)); [done|].
    pose proof (te_positive _ _ HT t0 (Hcin t0 eq_refl)). unfold sizeof_task; lia.
  - apply (clock_env_frame T K m m' q q cur (Some t)); [done|..].
    + intros x Hx. rewrite E' by (intros Hx'; apply Hx; left; set_solver). unfold m1. destruct cur as [t0|]; [|done].
      apply rd_wr_ne. intros <-. apply Hx. right. exists t0. split; [by apply Hcin|tauto].
    + revert Hq. apply chain_frame. intros x Hx. unfold cells in Hx. apply elem_of_cons in Hx as [->|Hx].
      * rewrite E' by done. apply E1. set_solver.
      * apply list_elem_of_fmap in Hx as (t' & -> & Hx). rewrite E'.
        -- unfold m1. destruct cur as [t0|]; [|done]. apply rd_wr_ne.
           apply (task_field T K t0 t' 48 32); [done|by apply Hcin|by apply Hqin|done..].
        -- intros Hx'. apply (Hk t' 32 (t' + 32)); [by apply Hqin|done|set_solver|done].
    + done.
    + done.
    + unfold m'. rewrite rd_wr_ne by done. rewrite rd_wr_ne by done. apply rd_wr_eq.
    + by intros ? [= ->].
  - intros t0 Ht0. rewrite E'.
    + unfold m1. destruct cur as [t1|]; [|done]. apply rd_wr_ne.
      apply (task_field T K t1 t0 48 28); [done|by apply Hcin|done..].
    + intros Hx. apply (Hk t0 28 (t0 + 28)); [done|done|set_solver|done].
Qed.

(** [k] expirations of the credit: each time the clock picks a task and the
    interrupt returns to it; the tasks that got the processor. *)
Fixpoint turns (sp : Z) (k : nat) : M (list Z) :=
  match k with
  | O => mret []
  | S k =>
    _ ← clock_switch kv;
    _ ← task_restart 0 sp;
    cur ← ld (cpu_cur_task cpu);
    rest ← turns sp k;
    mret (cur :: rest)
  end.

Lemma turns_run T K sp q : ∀ m cur, clock_env T K m q cur → (∀ t0, cur = Some t0 → t0 ∉ q) →
  ∃ m', turns sp (length q) m = Ok ((λ t, t + sizeof_task) <$> q) m' ∧
    clock_env T K m' [] (from_option Some cur (last q)) ∧
    (∀ t0, t0 ∈ q → m'.@(task_state t0) = if decide (last q = Some t0) then TASK_RUNNING else TASK_READY) ∧
    (∀ t0, cur = Some t0 → q ≠ [] → m'.@(task_state t0) = TASK_READY) ∧
    (∀ t0, t0 ∈ T → q = [] ∨ cur ≠ Some t0 → t0 ∉ q → m'.@(task_state t0) = m.@(task_state t0)).
Proof.
  induction q as [|t q IH]; intros m cur He Hcq.
  { exists m. split; [done|]. split; [by destruct cur|]. split; [set_solver|done]. }
  destruct (clock_switch_run T K m t q cur He) as (m1 & E1 & N1 & S1 & R1 & F1 & _ & He1).
  assert (t ∈ T) as Ht by (apply (ce_queued _ _ _ _ _ He); set_solver).
  destruct (task_restart_run T K m1 q cur t sp He1 Ht N1) as (m2 & E2 & He2 & F2).
  pose proof (ce_once _ _ _ _ _ He) as [Hn Hnq]%list.NoDup_cons.
  destruct (IH m2 (Some t) He2) as (m' & E' & He' & S' & R' & F'); [by intros ? [= ->]|].
  exists m'. cbn [length turns]. rewrite (bind_ok _ _ _ _ _ E1), (bind_ok _ _ _ _ _ E2). mrun.
  rewrite (bind_ok _ _ _ _ _ E'), (ce_cur _ _ _ _ _ He2). split; [done|].
  split; [|split; [|split]].
  - rewrite last_cons. by destruct (last q).
  - intros t0 Ht0. rewrite last_cons. destruct (decide (t0 = t)) as [->|Hne].
    + destruct q as [|t1 q']; [rewrite (F' t Ht (or_introl eq_refl)) by set_solver; rewrite F2, S1 by done; by rewrite decide_True|].
      rewrite (R' t eq_refl) by done. rewrite decide_False; [done|].
      intros El. apply Hn, last_Some_elem_of. destruct (last (t1 :: q')) eqn:E; [done|].
      by apply last_None in E.
    + apply elem_of_cons in Ht0 as [->|Ht0]; [done|]. rewrite (S' t0 Ht0).
      destruct (last q) eqn:El; [done|]. apply last_None in El as ->. set_solver.
  - intros t0 -> _. assert (t0 ∉ t :: q) as Hx by by apply Hcq. apply not_elem_of_cons in Hx as [Hx1 Hx2].
    assert (t0 ∈ T) by by apply (ce_cur_in _ _ _ _ _ He).
    rewrite F', F2, R1 by (done || (right; congruence)). done.
  - intros t0 Ht0 [?|Hc] Hx; [done|]. apply not_elem_of_cons in Hx as [Hx1 Hx2].
    rewrite F', F2, F1 by (done || (right; congruence)). done.
Qed.

(** the clock serves the run queue in order: in as many turns as there
    are tasks in the queue each of them gets the processor exactly once, in
    the order of the queue; then the queue is empty, the last task is the
    current one and running, and those before it are ready again. *)
Theorem clock_round_robin T K m q t cur sp :
  clock_env T K m (q ++ [t]) cur → (∀ t0, cur = Some t0 → t0 ∉ q ++ [t]) →
  ∃ m', turns sp (length (q ++ [t])) m = Ok ((λ t, t + sizeof_task) <$> q ++ [t]) m' ∧
    clock_env T K m' [] (Some t) ∧ m'.@(task_state t) = TASK_RUNNING ∧
    (∀ t0, t0 ∈ q → m'.@(task_state t0) = TASK_READY).
Proof.
  intros He Hc. destruct (turns_run T K sp (q ++ [t]) m cur He Hc) as (m' & E & He' & S' & _).
  exists m'. rewrite last_snoc in *. split; [done|]. split; [done|]. split.
  - rewrite S' by set_solver. by rewrite decide_True.
  - intros t0 Ht0. rewrite S' by set_solver. rewrite decide_False; [done|]. intros [= ->].
    pose proof (ce_once _ _ _ _ _ He) as (_ & Hd & _)%list.NoDup_app. apply (Hd t0 Ht0). set_solver.
Qed.

Lemma clock_env_same T K m m' q cur :
  clock_env T K m q cur →
  m'.@(kv_runqueue kv) = m.@(kv_runqueue kv) → m'.@(cpu_cur_task cpu) = m.@(cpu_cur_task cpu) →
  (∀ t, t ∈ T → m'.@(task_arch t) = m.@(task_arch t) ∧
    m'.@(at_task (t + sizeof_task)) = m.@(at_task (t + sizeof_task)) ∧ m'.@(task_next t) = m.@(task_next t)) →
  clock_env T K m' q cur.
Proof.
  intros [HT HK Hr Ha Hq Hqin Hn Ec Hcin] Er Ecur Ht. constructor; try done.
  - intros t Hin. destruct (Ht t Hin) as (-> & -> & _). by apply Ha.
  - revert Hq. apply chain_frame. intros x Hx. unfold cells in Hx. apply elem_of_cons in Hx as [->|Hx]; [done|].
    apply list_elem_of_fmap in Hx as (t & -> & Hx). by apply Ht, Hqin.
  - by rewrite Ecur.
Qed.

(** A variable of the kernel outside those of the switch. *)
Definition clock_var (K : Z → Prop) (x : Z) : Prop :=
  K x ∧ x ∉ [kv_runqueue kv; cpu_cur_task cpu; cpu_next_task cpu; tss].

Lemma clock_env_var T K m q cur x v :
  clock_env T K m q cur → clock_var K x → clock_env T K (m.[x <- v]) q cur.
Proof.
  intros He [Hx Hne]. eapply clock_env_same; [done|..].
  1, 2: apply rd_wr_ne; set_solver.
  intros t Ht. pose proof (ce_tasks _ _ _ _ _ He) as HT.
  assert (∀ a, 0 <= a < TASK_BYTES → (m.[x <- v]).@(t + a) = m.@(t + a)) as Ha.
  { intros a Ha. apply rd_wr_ne, not_eq_sym. by apply (kernel_field T K t a). }
  split_and!; [|unfold at_task, sizeof_task; rewrite <-Z.add_assoc|]; [|by apply Ha..].
  unfold task_arch. rewrite <-(Z.add_0_r t). by apply Ha.
Qed.

Lemma clock_env_credit T K m q cur t v :
  clock_env T K m q cur → t ∈ T → clock_env T K (m.[task_credit t <- v]) q cur.
Proof.
  intros He Ht. pose proof (ce_tasks _ _ _ _ _ He) as HT.
  eapply clock_env_same; [done|..].
  1, 2: apply rd_wr_ne; apply (kernel_field T K t 40); [done..|apply (ce_kernel _ _ _ _ _ He); set_solver].
  intros t' Ht'.
  assert (∀ a, 0 <= a < TASK_BYTES → a ≠ 40 → (m.[task_credit t <- v]).@(t' + a) = m.@(t' + a)) as Ha.
  { intros a Ha Hne. apply rd_wr_ne. by apply (task_field T K t t' 40 a). }
  split_and!; [|unfold at_task, sizeof_task; rewrite <-Z.add_assoc|]; [|by apply Ha..].
  unfold task_arch. rewrite <-(Z.add_0_r t'). by apply Ha.
Qed.

Lemma this_task_run T K m q t : clock_env T K m q (Some t) → this_task 0 m = Ok t m.
Proof.
  intros He. unfold this_task. mrun. rewrite (ce_cur _ _ _ _ _ He). cbn [from_option].
  unfold ld. by rewrite (proj2 (ce_arch _ _ _ _ _ He t (ce_cur_in _ _ _ _ _ He t eq_refl))).
Qed.

(** a task that has exited does not stay so: when its credit is used up
    the clock marks the current task ready whatever its state was, so a
    terminated task is scheduled again in the next round. *)
Theorem exited_task_ready_again T K m t t1 q fuel :
  clock_env T K m (t1 :: q) (Some t) → t ≠ t1 →
  clock_var K (kv_jiffies kv) → clock_var K (kv_timer kv) → m.@(kv_timer kv) = 0 →
  kv_jiffies kv ≠ kv_timer kv → (0 < fuel)%nat →
  m.@(task_state t) = TASK_TERMINATED → m.@(task_credit t) = 1 →
  ∃ m', ksignal_clock kv lit 0 fuel m = Ok tt m' ∧ m'.@(task_state t) = TASK_READY.
Proof.
  intros He Hne Hj Htm Et Hjt Hf _ Hc. unfold ksignal_clock. cbn [Z.eqb negb]. mrun.
  rewrite (rd_wr_ne _ (kv_jiffies kv) (kv_timer kv)) by done. rewrite Et.
  destruct fuel as [|fuel]; [lia|]. cbn [timer_fire]. rewrite Z.eqb_refl. mrun.
  set (m1 := m.[_ <- _].[kv_timer kv <- 0]).
  assert (clock_env T K m1 (t1 :: q) (Some t)) as He1 by (unfold m1; by repeat apply clock_env_var).
  assert (t ∈ T) as Ht by by apply (ce_cur_in _ _ _ _ _ He1).
  pose proof (ce_tasks _ _ _ _ _ He1) as HT. pose proof (te_positive _ _ HT t Ht).
  rewrite (ce_cur _ _ _ _ _ He1). cbn [from_option]. rewrite (proj2 (Z.eqb_neq _ 0)) by (unfold sizeof_task; lia).
  rewrite (bind_ok _ _ _ _ _ (this_task_run T K m1 _ t He1)). mrun.
  assert (m1.@(task_credit t) = 1) as ->.
  { unfold m1. rewrite !rd_wr_ne; [done|apply not_eq_sym, (kernel_field T K t 40); [done|done|done|]..];
      [apply Hj|apply Htm]. }
  change (0 <? i32 (1 - 1)) with false. cbn iota.
  destruct (clock_switch_run T K _ t1 q (Some t) (clock_env_credit T K m1 _ _ t (i32 (1 - 1)) He1 Ht))
    as (m' & E & _ & _ & Hr & _). exists m'. split; [done|]. by apply Hr.
Qed.
End clock.

(** C16: the high-level scheduler puts the tasks of all ready processes, and
    no others, in front of the run queue, each once and the last process
    first, gives each a credit of ten ticks, and writes nothing else. *)
Theorem sched_schedule_correct (kv : kvar) T K m ps q :
  sched_env kv T K m 0 ps q → length ps = Z.to_nat PROC_NR →
  ∃ m', sched_schedule kv m = Ok tt m' ∧
    chain 32 m' (kv_runqueue kv) (reverse (ready_tasks m ps) ++ q) ∧
    (∀ t, t ∈ ready_tasks m ps → m'.@(task_credit t) = 10) ∧
    (∀ x, x ≠ kv_runqueue kv → (∀ t, t ∈ ready_tasks m ps → x ≠ task_next t ∧ x ≠ task_credit t) → m'.@x = m.@x).
Proof. intros Hs Hl. unfold sched_schedule. rewrite <-Hl. by apply (sched_loop_run kv T K). Qed.

(** ** Timer events *)

Section timer.
Context {KS : KernelSlab} (kv : kvar) (lit : literals).

(** The events in the order of the list; a later one first. *)
Definition events (m : gmap Z Z) (es : list Z) : Prop := chain 16 m (kv_timer kv) es.
Definition latest_first (m : gmap Z Z) (es : list Z) : Prop :=
  StronglySorted (λ e e', m.@(te_jiffies e') <= m.@(te_jiffies e)) es.

(** Events are 24 bytes and away from the head of the list. *)
Record events_env (es : list Z) : Prop := {
  ev_apart e e' x : e ∈ es → e' ∈ es → e <= x < e + 24 → e' <= x < e' + 24 → e = e';
  ev_head e : e ∈ es → ¬ (e <= kv_timer kv < e + 24);
  ev_once : NoDup es;
}.

Lemma events_env_cells e es : events_env (e :: es) → NoDup (cells 16 (kv_timer kv) (e :: es)).
Proof.
  intros [Ha Hh Hn]. unfold cells. apply list.NoDup_cons. split.
  - intros (x & Hx & Hin)%list_elem_of_fmap. apply (Hh x Hin). lia.
  - apply NoDup_fmap_2; [|done]. intros x y. lia.
Qed.

Lemma timer_link m l1 l2 e :
  let c := lastc 16 (kv_timer kv) l1 in
  events m (l1 ++ l2) → NoDup (cells 16 (kv_timer kv) (l1 ++ e :: l2)) → e ≠ 0 →
  events (m.[te_next e <- m.@c].[c <- e]) (l1 ++ e :: l2).
Proof.
  intros c Hc Hn He.
  assert (∀ x, x ∈ cells 16 (kv_timer kv) (l1 ++ l2) → te_next e ≠ x) as Hx.
  { intros x Hx <-. unfold cells in Hx, Hn. rewrite fmap_app, fmap_cons, app_comm_cons in Hn.
    rewrite fmap_app, app_comm_cons in Hx. apply list.NoDup_app in Hn as (_ & Hd & [Hn _]%list.NoDup_cons).
    apply elem_of_app in Hx as [Hx|Hx]; [|done]. apply (Hd _ Hx). set_solver. }
  eapply chain_insert; [exact Hc|done|done|apply rd_wr_eq|..].
  - rewrite rd_wr_ne; [apply rd_wr_eq|]. apply not_eq_sym, Hx.
    pose proof (lastc_cells 16 (kv_timer kv) l1). unfold cells in *. rewrite fmap_app. set_solver.
  - intros x Hxc Hne. rewrite !rd_wr_ne; [done|by apply Hx|by apply not_eq_sym].
Qed.

Lemma timer_insert_run e fire es : ∀ k m l1,
  events m (l1 ++ es) → e ≠ 0 → NoDup (cells 16 (kv_timer kv) (l1 ++ e :: es)) → (length es < k)%nat →
  ∃ l2 l3 m', es = l2 ++ l3 ∧ timer_insert k (lastc 16 (kv_timer kv) l1) e fire m = Ok tt m' ∧
    events m' (l1 ++ l2 ++ e :: l3) ∧
    (∀ x, x ∈ l2 → fire < m.@(te_jiffies x)) ∧ (∀ x, l3 !! 0%nat = Some x → m.@(te_jiffies x) <= fire) ∧
    (∀ x, x ≠ te_next e → x ∉ cells 16 (kv_timer kv) (l1 ++ es) → m'.@x = m.@x).
Proof.
  assert (∀ l1 l2 x, x ∉ cells 16 (kv_timer kv) (l1 ++ l2) → lastc 16 (kv_timer kv) l1 ≠ x) as Hlast.
  { intros l1 l2 x Hx <-. apply Hx. pose proof (lastc_cells 16 (kv_timer kv) l1).
    unfold cells in *. rewrite fmap_app. set_solver. }
  induction es as [|p es IH]; intros [|k] m l1 Hc He Hn Hk; simpl in Hk; try lia; cbn [timer_insert]; mrun.
  - exists [], [], (m.[te_next e <- m.@(lastc 16 (kv_timer kv) l1)].[lastc 16 (kv_timer kv) l1 <- e]).
    pose proof (proj1 (chain_app 16 m (kv_timer kv) l1 []) Hc) as [_ E]. simpl in E. split; [done|].
    split; [by rewrite (proj2 (Z.eqb_eq _ 0) E); mrun|]. split; [by apply timer_link|]. split; [set_solver|]. split; [done|].
    intros x H1 H2. rewrite !rd_wr_ne; [done|done|by eapply Hlast].
  - pose proof (proj1 (chain_app 16 m (kv_timer kv) l1 (p :: es)) Hc) as [_ (E & Hp & _)].
    rewrite (proj2 (Z.eqb_neq _ 0)) by (by rewrite E). mrun.
    destruct (Z.ltb_spec fire (m.@(te_jiffies (m.@(lastc 16 (kv_timer kv) l1))))) as [Hlt|Hle]; rewrite E in Hlt || rewrite E in Hle.
    + destruct (IH k m (l1 ++ [p])) as (l2 & l3 & m' & -> & E' & Hc' & H1 & H2 & H3).
      * by rewrite <-app_assoc.
      * done.
      * rewrite <-app_assoc. unfold cells in *. revert Hn. rewrite !fmap_app. simpl. rewrite !app_comm_cons.
        apply NoDup_Permutation_proper. apply Permutation_app_head. simpl. constructor.
      * lia.
      * exists (p :: l2), l3, m'. rewrite lastc_app in E'. split; [done|]. split; [by rewrite E|].
        split; [by rewrite <-app_assoc in Hc'|]. split; [|split; [done|]].
        -- intros x [->|Hx]%elem_of_cons; [done|by apply H1].
        -- intros x Hx1 Hx2. apply H3; [done|]. by rewrite <-app_assoc.
    + exists [], (p :: es), (m.[te_next e <- m.@(lastc 16 (kv_timer kv) l1)].[lastc 16 (kv_timer kv) l1 <- e]).
      split; [done|]. split; [done|]. split; [by apply timer_link|]. split; [set_solver|].
      split; [by intros x [= ->]|]. intros x H1 H2. rewrite !rd_wr_ne; [done|done|by eapply Hlast].
Qed.

Lemma latest_first_app m l1 l2 e :
  latest_first m (l1 ++ l2) → (∀ x, x ∈ l1 → m.@(te_jiffies e) < m.@(te_jiffies x)) →
  (∀ x, l2 !! 0%nat = Some x → m.@(te_jiffies x) <= m.@(te_jiffies e)) → latest_first m (l1 ++ e :: l2).
Proof.
  intros Hs H1 H2. induction l1 as [|x l1 IH]; simpl in *.
  - constructor; [done|]. destruct l2 as [|y l2]; [done|]. specialize (H2 y eq_refl).
    apply StronglySorted_inv in Hs as [_ Hs]. constructor; [done|]. eapply Forall_impl; [exact Hs|]. simpl. lia.
  - apply StronglySorted_inv in Hs as [Hs Hx]. constructor; [apply IH; [done|set_solver]|].
    apply Forall_app in Hx as [Hx1 Hx2]. apply Forall_app. split; [done|]. constructor; [|done].
    specialize (H1 x). assert (x ∈ x :: l1) by set_solver. specialize (H1 ltac:(done)). lia.
Qed.

(** The process behind an event, and the cells the clock reads. *)
Definition event_task (m : gmap Z Z) (e : Z) : Z := m.@(proc_task (m.@(te_proc e))).
Definition timer_reads (m : gmap Z Z) (es : list Z) (x : Z) : Prop :=
  x = kv_jiffies kv ∨ ∃ e, e ∈ es ∧ x ∈ [te_jiffies e; te_proc e; te_next e; proc_task (m.@(te_proc e))].

(** Releasing an event succeeds and leaves the cells in use alone. *)
Class SlabFrees (U : Z → Prop) : Prop :=
  slab_frees name obj m : ∃ r m', slab_free name obj m = Ok r m' ∧ ∀ x, U x → m'.@x = m.@x.

Record timer_env (U : Z → Prop) (m : gmap Z Z) (es : list Z) : Prop := {
  tv_reads x : timer_reads m es x → U x;
  tv_state e : e ∈ es → U (task_state (event_task m e)) ∧ ¬ timer_reads m es (task_state (event_task m e));
}.

Lemma timer_fire_all (U : Z → Prop) `{!SlabFrees U} m0 ES : timer_env U m0 ES → ∀ es c k m,
  (∀ e, e ∈ es → e ∈ ES) → chain 16 m0 c es → (∀ x, timer_reads m0 ES x → m.@x = m0.@x) →
  (∀ e, e ∈ es → m0.@(te_jiffies e) < m0.@(kv_jiffies kv)) → (length es < k)%nat →
  ∃ m', timer_fire kv lit k (m0.@c) m = Ok 0 m' ∧ (∀ x, timer_reads m0 ES x → m'.@x = m0.@x) ∧
    (∀ e, e ∈ es → m'.@(task_state (event_task m0 e)) = TASK_READY) ∧
    (∀ x, U x → (∀ e, e ∈ es → x ≠ task_state (event_task m0 e)) → m'.@x = m.@x).
Proof.
  intros [HR HS]. induction es as [|e es IH]; intros c [|k] m Hin Hc Hm Hj Hk; simpl in Hk; try lia.
  { exists m. cbn [timer_fire]. rewrite Hc. split; [done|]. split; [done|]. split; [set_solver|done]. }
  destruct Hc as (Ec & He0 & Hc). rewrite Ec. cbn [timer_fire]. rewrite (proj2 (Z.eqb_neq e 0)) by done. mrun.
  assert (e ∈ ES) as HeE by (apply Hin; set_solver).
  assert (∀ x, x ∈ [te_jiffies e; te_proc e; te_next e; proc_task (m0.@(te_proc e))] → timer_reads m0 ES x) as Hrd
    by (intros x Hx; right; eauto).
  rewrite (Hm (te_jiffies e)), (Hm (kv_jiffies kv)) by (first [by left|apply Hrd; set_solver]).
  rewrite (proj2 (Z.ltb_lt _ _)) by (apply Hj; set_solver). cbn [negb]. mrun.
  rewrite (Hm (te_proc e)), (Hm (proc_task (m0.@(te_proc e)))) by (apply Hrd; set_solver).
  change (m0.@(proc_task (m0.@(te_proc e)))) with (event_task m0 e).
  destruct (HS e HeE) as [HU HnR]. set (s := task_state (event_task m0 e)) in *.
  rewrite rd_wr_ne by (intros E; apply HnR; rewrite E; apply Hrd; set_solver).
  rewrite (Hm (te_next e)) by (apply Hrd; set_solver).
  destruct (slab_frees (TIMER_EVENT lit) e (m.[s <- TASK_READY])) as (r & m1 & E1 & F1).
  rewrite (bind_ok _ _ _ _ _ E1).
  destruct (IH (te_next e) k m1) as (m' & E' & R' & S' & F').
  - set_solver.
  - exact Hc.
  - intros x Hx. rewrite F1 by by apply HR. rewrite rd_wr_ne by (intros <-; done). by apply Hm.
  - intros x Hx. apply Hj. set_solver.
  - lia.
  - exists m'. split; [done|]. split; [done|]. split.
    + intros x [->|Hx]%elem_of_cons; [|by apply S'].
      destruct (decide (s ∈ (λ x, task_state (event_task m0 x)) <$> es)) as [(y & Ey & Hy)%list_elem_of_fmap|Hno].
      * fold s. rewrite Ey. by apply S'.
      * fold s. rewrite F'; [|done|].
        -- rewrite F1 by done. apply rd_wr_eq.
        -- intros y Hy E. apply Hno. rewrite E. by apply (list_elem_of_fmap_2 (λ x, task_state (event_task m0 x))).
    + intros x HUx Hx. rewrite F'; [|done|set_solver]. rewrite F1 by done. apply rd_wr_ne.
      intros <-. apply (Hx e); [set_solver|done].
Qed.


(** [timer_insert], the insertion of [sys_nanosleep], puts an event
    behind all events that are later and in front of the others: the list
    stays sorted with the latest event first, holds exactly one event more,
    and no cell but the links is written. *)
Theorem timer_insert_sorted m es e k :
  events m es → latest_first m es → events_env (e :: es) → e ≠ 0 → (length es < k)%nat →
  ∃ l1 l2 m', es = l1 ++ l2 ∧ timer_insert k (kv_timer kv) e (m.@(te_jiffies e)) m = Ok tt m' ∧
    events m' (l1 ++ e :: l2) ∧ latest_first m' (l1 ++ e :: l2) ∧
    (∀ x, x ∉ cells 16 (kv_timer kv) (e :: es) → m'.@x = m.@x).
Proof.
  intros Hc Hs He H0 Hk.
  destruct (timer_insert_run e (m.@(te_jiffies e)) es k m [] Hc H0 (events_env_cells _ _ He) Hk)
    as (l1 & l2 & m' & -> & E & Hc' & H1 & H2 & F).
  exists l1, l2, m'. split; [done|]. split; [done|]. split; [done|].
  assert (∀ x, x ∉ cells 16 (kv_timer kv) (e :: l1 ++ l2) → m'.@x = m.@x) as F'.
  { intros x Hx. apply F; [|unfold cells in *; set_solver]. intros ->. apply Hx. unfold cells, te_next. set_solver. }
  split; [|done].
  assert (∀ y, y ∈ e :: l1 ++ l2 → m'.@(te_jiffies y) = m.@(te_jiffies y)) as Ej.
  { intros y Hy. apply F'. unfold cells. intros [Ex|(z & Ez & Hz)%list_elem_of_fmap]%elem_of_cons.
    - apply (ev_head _ He y Hy). unfold te_jiffies in Ex. lia.
    - unfold te_jiffies in Ez. assert (y = z) by (apply (ev_apart _ He y z y); [done|done|lia|lia]). lia. }
  pose proof (latest_first_app m l1 l2 e Hs H1 H2) as Hl. unfold latest_first in *.
  revert Hl. assert (∀ y, y ∈ l1 ++ e :: l2 → m'.@(te_jiffies y) = m.@(te_jiffies y)) as Ej'.
  { intros y Hy. apply Ej. set_solver. }
  revert Ej'. generalize (l1 ++ e :: l2). clear. intros l Ej Hl. induction Hl as [|y l Hl IH Hy]; [constructor|].
  constructor; [apply IH; set_solver|]. rewrite list.Forall_forall in *. intros z Hz. rewrite !Ej by set_solver. by apply Hy.
Qed.
End timer.

(** ** Concrete runs *)

Definition kv_ex : kvar := Kvar 0x1000 0x1008 0x1010 0x1018 0x1020 0 0.
Definition lit_ex : literals := Literals 0 0 0 0 0 0 0 0 0 0 0 0.
Definition slab_ex : KernelSlab :=
  {| slab_alloc := λ _, mret 0; slab_free := λ _ _, mret 0; slab_create := λ _ _, mret 0 |}.

(** Two tasks; every cell outside them is the kernel's. *)
Definition tasks_ex : list Z := [0x3000; 0x4000].
Definition kernel_ex (x : Z) : Prop := ¬ in_task 0x3000 x ∧ ¬ in_task 0x4000 x.

Lemma tasks_ex_env : tasks_env tasks_ex kernel_ex.
Proof.
  unfold tasks_ex, kernel_ex. constructor.
  - intros t. rewrite !elem_of_cons, elem_of_nil. lia.
  - intros t t' x. rewrite !elem_of_cons, !elem_of_nil. task_cells. lia.
  - intros t x. rewrite !elem_of_cons, elem_of_nil. intros [->|[->|[]]]; tauto.
Qed.

(** The process at 0x2000 with the first task, which is ready. *)
Definition sched_ex : gmap Z Z :=
  list_to_map [(0x1000, 0x100000); (0x100000, 0x5000); (proc_task 0x5000, 0x3000); (task_state 0x3000, TASK_READY)].

Lemma sched_ex_zero x : x ∉ [0x1000; 0x100000; proc_task 0x5000; task_state 0x3000] → sched_ex.@x = 0.
Proof. intros Hx. unfold rd, sched_ex. by rewrite not_elem_of_list_to_map_1. Qed.

Lemma sched_ex_rest n : ready_tasks sched_ex (replicate n 0) = [].
Proof.
  unfold ready_tasks. induction n as [|n IH]; [done|]. cbn [replicate].
  rewrite filter_cons_False; [done|]. by intros [? _].
Qed.

Lemma sched_ex_ready n : ready_tasks sched_ex (0x5000 :: replicate n 0) = [0x3000].
Proof. rewrite ready_cons, sched_ex_rest, decide_True; by vm_compute. Qed.

Lemma sched_ex_env n : sched_env kv_ex tasks_ex kernel_ex sched_ex 0 (0x5000 :: replicate n 0) [].
Proof.
  assert (sched_ex.@(proc_task 0x5000) = 0x3000) as Et by by vm_compute.
  assert (∀ p, p ∈ 0x5000 :: replicate n 0 → p ≠ 0 → p = 0x5000) as Hp.
  { intros p [->|Hin]%elem_of_cons; [done|]. by apply elem_of_replicate in Hin as [-> _]. }
  constructor.
  - apply tasks_ex_env.
  - unfold kernel_ex, kv_ex. task_cells. cbn. lia.
  - intros j p Hj. assert (sched_ex.@(kv_procs kv_ex) = 0x100000) as -> by by vm_compute. cbv zeta.
    split; [|unfold kernel_ex, kv_ex; task_cells; cbn [kv_runqueue]; lia].
    destruct j as [|j]; [by injection Hj as <-|].
    change (replicate n 0 !! j = Some p) in Hj. apply lookup_replicate in Hj as [-> Hj].
    apply sched_ex_zero. rewrite !elem_of_cons, elem_of_nil. unfold proc_task, task_state. lia.
  - intros p Hin H0. rewrite (Hp p Hin H0). split; [unfold kernel_ex, proc_task; task_cells; lia|].
    split; [unfold kv_ex, proc_task; cbn; lia|]. rewrite Et. intros _. unfold tasks_ex. set_solver.
  - split; [by vm_compute|set_solver].
  - rewrite app_nil_r, sched_ex_ready. apply NoDup_singleton.
Qed.

Lemma sched_schedule_witness :
  ∃ m', sched_schedule kv_ex sched_ex = Ok tt m' ∧ m'.@0x1008 = 0x3000 ∧ m'.@(task_credit 0x3000) = 10.
Proof.
  destruct (sched_schedule_correct kv_ex _ _ _ _ _ (sched_ex_env (Z.to_nat 65535)))
    as (m' & E & Hc & Hcr & _).
  { rewrite length_cons, length_replicate. symmetry. apply (Z2Nat.inj_succ 65535). apply Z.leb_le. reflexivity. }
  rewrite sched_ex_ready in *. exists m'. split; [exact E|]. clear E.
  split; [exact (proj1 Hc)|]. apply Hcr. by apply list_elem_of_singleton.
Defined.

(** The second task queued, the first one current, terminated and at its last
    tick. *)
Definition clock_ex : gmap Z Z :=
  list_to_map [(0x1008, 0x4000); (cpu_cur_task (CPU_TASK 0), 0x3030); (0x3000, 0x3030); (0x4000, 0x4030);
    (at_task 0x3030, 0x3000); (at_task 0x4030, 0x4000); (task_state 0x3000, TASK_TERMINATED); (task_credit 0x3000, 1)].

Lemma clock_ex_env : clock_env kv_ex tasks_ex kernel_ex clock_ex ([] ++ [0x4000]) (Some 0x3000).
Proof.
  constructor.
  - apply tasks_ex_env.
  - intros x. rewrite !elem_of_cons, elem_of_nil. unfold kernel_ex, kv_ex, cpu_cur_task, cpu_next_task, tss_sp0.
    change (CPU_TASK 0) with 0xc0060068. change (CPU_TSS 0) with 0xc0060000. task_cells. cbn [kv_runqueue]. lia.
  - rewrite !elem_of_cons, elem_of_nil. unfold kv_ex, cpu_cur_task, cpu_next_task, tss_sp0.
    change (CPU_TASK 0) with 0xc0060068. change (CPU_TSS 0) with 0xc0060000. cbn [kv_runqueue]. lia.
  - intros t. unfold tasks_ex. rewrite !elem_of_cons, elem_of_nil. intros [->|[->|[]]]; by vm_compute.
  - by vm_compute.
  - unfold tasks_ex. set_solver.
  - apply NoDup_singleton.
  - by vm_compute.
  - intros t [= <-]. unfold tasks_ex. set_solver.
Qed.

Lemma clock_round_robin_witness :
  ∃ m', turns kv_ex 0 1 clock_ex = Ok [0x4030] m' ∧ m'.@(task_state 0x4000) = TASK_RUNNING.
Proof.
  destruct (clock_round_robin kv_ex tasks_ex kernel_ex clock_ex [] 0x4000 (Some 0x3000) 0 clock_ex_env)
    as (m' & E & _ & S & _); [by intros ? [= <-] ?%list_elem_of_singleton|]. by exists m'.
Defined.

Lemma exited_task_witness :
  ∃ m', ksignal_clock (KS := slab_ex) kv_ex lit_ex 0 1 clock_ex = Ok tt m' ∧ m'.@(task_state 0x3000) = TASK_READY.
Proof.
  assert (∀ x, x ∈ [0x1010; 0x1018] → clock_var kv_ex kernel_ex x) as Hv.
  { intros x Hx. unfold clock_var, kernel_ex, kv_ex, cpu_cur_task, cpu_next_task, tss_sp0.
    change (CPU_TASK 0) with 0xc0060068. change (CPU_TSS 0) with 0xc0060000. cbn [kv_runqueue].
    rewrite !elem_of_cons, !elem_of_nil in *. task_cells. lia. }
  apply (exited_task_ready_again (KS := slab_ex) kv_ex lit_ex tasks_ex kernel_ex clock_ex 0x3000 0x4000 [] 1 clock_ex_env);
    [done|apply Hv; set_solver|apply Hv; set_solver|by vm_compute|done|lia|by vm_compute|by vm_compute].
Defined.

(** Two sleepers, the one at 0x6100 until 100 and the other until 10, at 50. *)
Definition timer_ex : gmap Z Z :=
  list_to_map [(0x1010, 50); (0x1018, 0x6100); (0x6100, 100); (0x6108, 0x5000); (0x6110, 0x6000);
    (0x6000, 10); (0x6008, 0x9000); (proc_task 0x5000, 0x3000); (proc_task 0x9000, 0x4000);
    (task_state 0x4000, TASK_BLOCKED)].

#[export] Instance slab_ex_frees U : SlabFrees (KS := slab_ex) U.
Proof. intros name obj m. by exists 0, m. Qed.

Lemma timer_ex_env : timer_env kv_ex (λ _, True) timer_ex [0x6100; 0x6000].
Proof.
  constructor; [done|]. intros e He. split; [done|]. unfold timer_reads, kv_ex. cbn [kv_jiffies].
  assert (event_task timer_ex 0x6100 = 0x3000 ∧ event_task timer_ex 0x6000 = 0x4000) as [E1 E2] by by vm_compute.
  assert (timer_ex.@(te_proc 0x6100) = 0x5000 ∧ timer_ex.@(te_proc 0x6000) = 0x9000) as [P1 P2] by by vm_compute.
  assert (task_state (event_task timer_ex e) = 0x301c ∨ task_state (event_task timer_ex e) = 0x401c) as Hs.
  { rewrite !elem_of_cons, elem_of_nil in He. destruct He as [->|[->|[]]]; rewrite ?E1, ?E2; [left|right]; done. }
  intros [Hx|(e' & He' & Hx)]; [rewrite Hx in Hs; destruct Hs; discriminate|].
  rewrite !elem_of_cons, elem_of_nil in He'. destruct He' as [->|[->|[]]];
    rewrite ?P1, ?P2, !elem_of_cons, elem_of_nil in Hx; unfold te_jiffies, te_proc, te_next, proc_task in Hx; lia.
Qed.


(** A third sleeper at 0x6200 until 60. *)
Lemma timer_insert_witness :
  ∃ m', timer_insert 3 0x1018 0x6200 60 (timer_ex.[0x6200 <- 60]) = Ok tt m' ∧
    events kv_ex m' [0x6100; 0x6200; 0x6000].
Proof.
  destruct (timer_insert_sorted kv_ex (timer_ex.[0x6200 <- 60]) [0x6100; 0x6000] 0x6200 3)
    as (l1 & l2 & m' & E & Er & Hc & Hs & _).
  - by vm_compute.
  - repeat constructor; by vm_compute.
  - constructor.
    + intros e e' x. rewrite !elem_of_cons, !elem_of_nil. lia.
    + intros e. rewrite !elem_of_cons, elem_of_nil. unfold kv_ex. cbn [kv_timer]. lia.
    + repeat (apply list.NoDup_cons; split; [set_solver|]). constructor.
  - done.
  - simpl. lia.
  - exists m'. split; [exact Er|].
    assert (timer_insert 3 0x1018 0x6200 60 (timer_ex.[0x6200 <- 60]) =
      Ok tt (timer_ex.[0x6200 <- 60].[0x6210 <- 0x6000].[0x6110 <- 0x6200])) as Er' by by vm_compute.
    change (timer_insert 3 0x1018 0x6200 60 (timer_ex.[0x6200 <- 60]) = Ok tt m') in Er.
    rewrite Er' in Er. injection Er as <-. by vm_compute.
Defined.
