(* ===== verification/ProcMachine.v ===== *)
(** * A machine for the clock, the schedulers and sleeping processes

    What [ksignal_clock] (arch.c) with [sched_schedule] (sched.c), the switches
    of asm.S and [sys_nanosleep] (syscall.c) do to the tasks: a machine on
    lists and functions, whose steps are functions.  [ProcClock] shows that the
    code does on memory what the machine does.  Here: a task that waits for
    the processor gets it within a bound, whether the other tasks compute or
    sleep. *)

From S2P Require Import Prelude CMonad PhysMem KString Pgt Kmem Memory Slab Devfs Vfs Proc.

(** ** The state *)

(** A sleeping process: its timer event, when it is over and the process. *)
Record sleeper := Sleeper { sl_event : Z; sl_until : Z; sl_proc : Z }.

(** The time, the timer events, the run queue, the current task ([None]
    before the first one), the task to go on with, and of every task its
    state and its credit. *)
Record clk := Clk {
  ck_now : Z; ck_sleep : list sleeper; ck_queue : list Z; ck_cur : option Z; ck_next : option Z;
  ck_state : Z → Z; ck_credit : Z → Z;
}.

Definition with_state (s : clk) st : clk :=
  Clk (ck_now s) (ck_sleep s) (ck_queue s) (ck_cur s) (ck_next s) st (ck_credit s).
Definition with_credit (s : clk) cr : clk :=
  Clk (ck_now s) (ck_sleep s) (ck_queue s) (ck_cur s) (ck_next s) (ck_state s) cr.
Definition with_queue (s : clk) q : clk :=
  Clk (ck_now s) (ck_sleep s) q (ck_cur s) (ck_next s) (ck_state s) (ck_credit s).
Definition with_next (s : clk) o : clk :=
  Clk (ck_now s) (ck_sleep s) (ck_queue s) (ck_cur s) o (ck_state s) (ck_credit s).
Definition with_timer (s : clk) now l : clk :=
  Clk now l (ck_queue s) (ck_cur s) (ck_next s) (ck_state s) (ck_credit s).

Ltac clk_simpl := cbn [with_state with_credit with_queue with_next with_timer
  ck_now ck_sleep ck_queue ck_cur ck_next ck_state ck_credit] in *.

Definition set_all (ts : list Z) (v : Z) (f : Z → Z) : Z → Z := foldr (λ t f, <[t := v]> f) f ts.

Lemma fn_upd (f : Z → Z) t v t' : <[t := v]> f t' = if decide (t = t') then v else f t'.
Proof. case_decide; subst; [apply fn_lookup_insert|by apply fn_lookup_insert_ne]. Qed.

Lemma set_all_at ts v f t : set_all ts v f t = if decide (t ∈ ts) then v else f t.
Proof.
  induction ts as [|t' ts IH]; cbn [set_all foldr]; [by rewrite decide_False by set_solver|].
  rewrite fn_upd. fold (set_all ts v f). rewrite IH. repeat case_decide; set_solver.
Qed.

Section machine.
(** The processes of the table, their tasks, and the idle task. *)
Context (procs : list Z) (ptask : Z → Z) (idle : Z).

Definition ptasks : list Z := ptask <$> procs.

(** The events in front of the list that are over at [now], and the others. *)
Fixpoint over (now : Z) (l : list sleeper) : list sleeper * list sleeper :=
  match l with
  | [] => ([], [])
  | e :: l => if sl_until e <? now then let '(a, b) := over now l in (e :: a, b) else ([], e :: l)
  end.

Definition expire (s : clk) : clk :=
  let now := u64 (ck_now s + 1) in
  let '(fired, rest) := over now (ck_sleep s) in
  with_state (with_timer s now rest) (set_all (ptask ∘ sl_proc <$> fired) TASK_READY (ck_state s)).

(** An empty run queue is filled with the tasks that are ready, the last
    process first, each with a credit of ten. *)
Definition refill (s : clk) : clk :=
  match ck_queue s with
  | [] => let q := reverse (filter (λ t, ck_state s t = TASK_READY) ptasks) in
      with_credit (with_queue s q) (set_all q 10 (ck_credit s))
  | _ => s
  end.

Definition switch (s : clk) : clk :=
  let s := refill s in
  let s := match ck_cur s with Some t => with_state s (<[t := TASK_READY]> (ck_state s)) | None => s end in
  match ck_queue s with
  | [] => with_next s (Some idle)
  | t :: q => with_state (with_next (with_queue s q) (Some t)) (<[t := TASK_RUNNING]> (ck_state s))
  end.

(** The clock, and the return from the interrupt. *)
Definition tick (s : clk) : clk :=
  let s := expire s in
  match ck_cur s with
  | None => switch s
  | Some t =>
      let c := i32 (ck_credit s t - 1) in
      let s := with_credit s (<[t := c]> (ck_credit s)) in
      if 0 <? c then s else switch s
  end.

Definition resume (s : clk) : clk :=
  match ck_next s with
  | None => s
  | Some t => Clk (ck_now s) (ck_sleep s) (ck_queue s) (Some t) None (ck_state s) (ck_credit s)
  end.

Definition interrupt (s : clk) : clk := resume (tick s).

(** A process goes to sleep: its event goes behind all that are later, its task
    is blocked, and the processor goes to the next task or the idle task. *)
Fixpoint add_sleeper (x : sleeper) (l : list sleeper) : list sleeper :=
  match l with
  | [] => [x]
  | y :: l => if sl_until x <? sl_until y then y :: add_sleeper x l else x :: y :: l
  end.

Definition block (t : Z) (x : sleeper) (s : clk) : clk :=
  with_state (with_timer s (ck_now s) (add_sleeper x (ck_sleep s))) (<[t := TASK_BLOCKED]> (ck_state s)).

Definition leave (s : clk) : clk :=
  Clk (ck_now s) (ck_sleep s) (ck_queue s) (Some (default idle (ck_next s))) None (ck_state s) (ck_credit s).

(** The steps, [true] for a clock interrupt; a process that asks to sleep may be refused. *)
Inductive clk_step : bool → clk → clk → Prop :=
  | step_clock s : clk_step true s (interrupt s)
  | step_sleep s t e d p : ck_cur s = Some t → p ∈ procs → ptask p = t →
      e ∉ sl_event <$> ck_sleep s → clk_step false s (leave (block t (Sleeper e d p) s))
  | step_refused s : clk_step false s s.

Inductive clk_run : list bool → clk → clk → Prop :=
  | run_nil s : clk_run [] s s
  | run_cons b l s s' s'' : clk_step b s s' → clk_run l s' s'' → clk_run (b :: l) s s''.

(** ** No task starves *)

(** Tasks are queued once, not while they have the processor, and with a full
    credit; the current one has at most that.  The credit of the idle task,
    which is only ever counted down, does not wrap for [b] interrupts. *)
Record clk_ok (b : nat) (s : clk) : Prop := {
  co_once : NoDup (ck_queue s);
  co_queue t : t ∈ ck_queue s → t ∈ ptasks ∧ ck_cur s ≠ Some t ∧ ck_credit s t = 10;
  co_cur t : ck_cur s = Some t → - 2 ^ 31 < ck_credit s t <= 10;
  co_idle : - 2 ^ 31 + Z.of_nat b < ck_credit s idle <= 1;
  co_next : ck_next s = None;
}.

(** [t] is ready and does not have the processor. *)
Definition waits (t : Z) (s : clk) : Prop :=
  t ∈ ptasks ∧ ck_cur s ≠ Some t ∧ ck_state s t = TASK_READY.

(** The ticks left to the current task, and those of the tasks in front of [t]. *)
Definition left_of (s : clk) : Z := match ck_cur s with Some t => Z.max 1 (ck_credit s t) | None => 1 end.
Definition ahead (t : Z) (q : list Z) : nat :=
  match list_find (t =.) q with Some (i, _) => i | None => length q + length ptasks end.
Definition wait (t : Z) (s : clk) : Z := left_of s + 10 * Z.of_nat (ahead t (ck_queue s)).

Lemma ahead_cons t h q : h ≠ t → ahead t (h :: q) = S (ahead t q).
Proof.
  intros Hne. unfold ahead. cbn [list_find]. rewrite decide_False by done.
  destruct (list_find (t =.) q) as [[i x]|]; done.
Qed.

Lemma ahead_in t q : t ∈ q → (ahead t q < length q)%nat.
Proof.
  intros Ht. unfold ahead. destruct (list_find_elem_of (t =.) q t Ht eq_refl) as [[i x] E]. rewrite E.
  apply list_find_Some in E as (E & _ & _). by apply lookup_lt_Some in E.
Qed.
Lemma over_app now l a b : over now l = (a, b) → l = a ++ b ∧ Forall (λ e, sl_until e < now) a.
Proof.
  revert a. induction l as [|e l IH]; intros a; cbn [over]; [by intros [= <- <-]|].
  destruct (Z.ltb_spec (sl_until e) now); [|by intros [= <- <-]].
  destruct (over now l) as [a' b'] eqn:E. intros [= <- <-]. destruct (IH a' eq_refl) as [-> ?]. auto.
Qed.

Lemma add_sleeper_at x a b :
  (∀ y, y ∈ a → sl_until x < sl_until y) → (∀ y, b !! 0%nat = Some y → sl_until y <= sl_until x) →
  add_sleeper x (a ++ b) = a ++ x :: b.
Proof using.
  clear ptask idle procs.
  intros Ha Hb. induction a as [|y a IH]; cbn [app add_sleeper].
  - destruct b as [|y b]; cbn [add_sleeper]; [done|]. by rewrite (proj2 (Z.ltb_ge _ _)) by (by apply Hb).
  - rewrite (proj2 (Z.ltb_lt _ _)) by (apply Ha, elem_of_cons; by left). f_equal. apply IH. intros z Hz. apply Ha, elem_of_cons. by right.
Qed.

Lemma switch_sleep s : ck_sleep (switch s) = ck_sleep s.
Proof.
  unfold switch. assert (ck_sleep (refill s) = ck_sleep s) as E by (unfold refill; by destruct (ck_queue s)).
  rewrite <-E. destruct (ck_cur (refill s)); destruct (ck_queue _); done.
Qed.

Lemma expire_same s : ck_queue (expire s) = ck_queue s ∧ ck_cur (expire s) = ck_cur s ∧
  ck_next (expire s) = ck_next s ∧ ck_credit (expire s) = ck_credit s.
Proof. unfold expire. by destruct (over _ _) as [a b]. Qed.

Lemma expire_ready s t : ck_state s t = TASK_READY → ck_state (expire s) t = TASK_READY.
Proof.
  intros E. unfold expire. destruct (over _ _) as [a b]. clk_simpl. rewrite set_all_at. by case_decide.
Qed.

Context (Hnd : NoDup ptasks) (Hidle : idle ∉ ptasks).

Lemma refill_queue s t :
  NoDup (ck_queue s) → (∀ t, t ∈ ck_queue s → t ∈ ptasks ∧ ck_credit s t = 10) → t ∈ ptasks → ck_state s t = TASK_READY →
  NoDup (ck_queue (refill s)) ∧ (∀ t, t ∈ ck_queue (refill s) → t ∈ ptasks ∧ ck_credit (refill s) t = 10) ∧
  ck_queue (refill s) ≠ [] ∧ (ahead t (ck_queue (refill s)) <= ahead t (ck_queue s))%nat ∧
  ck_state (refill s) = ck_state s ∧ ck_credit (refill s) idle = ck_credit s idle.
Proof using Hnd Hidle.
  intros Hq Hin Ht Hr. unfold refill. destruct (ck_queue s) as [|h q] eqn:E; [|by rewrite E].
  clk_simpl. set (q := reverse _).
  assert (∀ x, x ∈ q → x ∈ ptasks) as Hsub.
  { intros x. unfold q. by intros [_ ?]%elem_of_reverse%list_elem_of_filter. }
  assert (t ∈ q) as Htq by (by apply elem_of_reverse, list_elem_of_filter).
  assert (NoDup q) as Hndq by (unfold q; rewrite reverse_Permutation; by apply NoDup_filter).
  split_and!; try done.
  - intros x Hx. split; [by apply Hsub|]. rewrite set_all_at. by rewrite decide_True.
  - intros Eq. rewrite Eq in Htq. by apply not_elem_of_nil in Htq.
  - pose proof (ahead_in t q Htq) as Ha. unfold ahead at 2. cbn [list_find length].
    pose proof (submseteq_length q ptasks (NoDup_submseteq q ptasks Hndq Hsub)). lia.
  - rewrite set_all_at, decide_False; [done|]. intros ?%Hsub. done.
Qed.

Lemma switch_wait b s t :
  NoDup (ck_queue s) → (∀ t, t ∈ ck_queue s → t ∈ ptasks ∧ ck_credit s t = 10) → t ∈ ptasks → ck_state s t = TASK_READY →
  - 2 ^ 31 + Z.of_nat b < ck_credit s idle <= 1 →
  ck_cur (resume (switch s)) = Some t ∨
  clk_ok b (resume (switch s)) ∧ waits t (resume (switch s)) ∧
  wait t (resume (switch s)) < 1 + 10 * Z.of_nat (ahead t (ck_queue s)).
Proof using Hnd Hidle.
  intros Hq Hin Ht Hr Hb. destruct (refill_queue s t Hq Hin Ht Hr) as (Hq' & Hin' & Hne & Ha & Es & Ei).
  unfold switch. set (s2 := match ck_cur (refill s) with Some _ => _ | None => _ end).
  assert (ck_queue s2 = ck_queue (refill s) ∧ ck_credit s2 = ck_credit (refill s)) as [Eq2 Ecr2]
    by (unfold s2; by destruct (ck_cur (refill s))).
  assert (ck_state s2 t = TASK_READY) as Er2.
  { unfold s2. destruct (ck_cur (refill s)) as [t0|]; [|by rewrite Es]. clk_simpl. rewrite fn_upd, Es. by case_decide. }
  rewrite <-Eq2, <-Ecr2 in *. clearbody s2. destruct (ck_queue s2) as [|h q]; [done|].
  cbn [resume ck_next with_state with_next with_queue]. clk_simpl.
  destruct (decide (h = t)) as [->|Hht]; [by left|right]. apply list.NoDup_cons in Hq' as [Hh Hq'].
  rewrite ahead_cons in Ha by done. destruct (Hin' h ltac:(set_solver)) as [_ Hc10]. split_and!.
  - constructor; clk_simpl; [done| |by intros ? [= <-]; lia|by rewrite Ei|done].
    intros x Hx. destruct (Hin' x ltac:(set_solver)). split_and!; [done| |done]. intros [= ->]. done.
  - split; [done|]. clk_simpl. split; [congruence|]. by rewrite fn_upd, decide_False.
  - unfold wait, left_of. clk_simpl. lia.
Qed.

(** A clock interrupt brings [t] nearer to the processor. *)
Lemma wait_clock b s t : clk_ok (S b) s → waits t s →
  ck_cur (interrupt s) = Some t ∨
  clk_ok b (interrupt s) ∧ waits t (interrupt s) ∧ wait t (interrupt s) < wait t s.
Proof using Hnd Hidle.
  intros [Hq Hin Hcur Hid Hnx] (Ht & Hc & Hr). destruct (expire_same s) as (Eq & Ec & En & Ecr).
  apply expire_ready in Hr. unfold interrupt, tick, wait, left_of. rewrite <-Ec, <-Eq, <-Ecr in *. rewrite <-En in Hnx.
  set (s1 := expire s) in *. clearbody s1. clear Ec Eq En Ecr s.
  destruct (ck_cur s1) as [t0|] eqn:Ecur.
  2: { apply switch_wait; [done| |done|done|lia]. intros x Hx. destruct (Hin x Hx) as (? & _ & ?). done. }
  specialize (Hcur t0 eq_refl). rewrite i32_small by lia.
  set (s2 := with_credit s1 _).
  assert (∀ x, x ∈ ck_queue s1 → ck_credit s2 x = 10) as Hq10.
  { intros x Hx. destruct (Hin x Hx) as (? & ? & ?). unfold s2. clk_simpl. by rewrite fn_upd, decide_False by congruence. }
  assert (- 2 ^ 31 + Z.of_nat b < ck_credit s2 idle <= 1) as Hid2.
  { unfold s2. clk_simpl. rewrite fn_upd. case_decide; [subst t0|]; lia. }
  destruct (Z.ltb_spec 0 (ck_credit s1 t0 - 1)) as [Hpos|Hneg].
  - right. unfold resume. change (ck_next s2) with (ck_next s1). rewrite Hnx. split_and!.
    + constructor; [done| | |done|done]; change (ck_cur s2) with (ck_cur s1); rewrite Ecur.
      * intros x Hx. destruct (Hin x Hx) as (? & ? & _). auto.
      * intros ? [= <-]. unfold s2. clk_simpl. rewrite fn_upd, decide_True by done. lia.
    + split; [done|]. change (ck_cur s2) with (ck_cur s1). by rewrite Ecur.
    + unfold s2. clk_simpl. rewrite Ecur, fn_upd, decide_True by done. lia.
  - destruct (switch_wait b s2 t) as [?|(? & ? & Hw)]; try done.
    + intros x Hx. split; [by apply Hin|by apply Hq10].
    + by left.
    + right. split_and!; [done|done|]. change (ck_queue s2) with (ck_queue s1) in Hw. unfold wait, left_of in Hw. lia.
Qed.

(** When another task goes to sleep, [t] does not wait longer. *)
Lemma wait_sleep b s t t0 x : clk_ok b s → waits t s → ck_cur s = Some t0 →
  let s' := leave (block t0 x s) in clk_ok b s' ∧ waits t s' ∧ wait t s' <= wait t s.
Proof using Hidle.
  intros [Hq Hin Hcur Hid Hnx] (Ht & Hc & Hr) Ec. unfold leave, block. clk_simpl. rewrite Hnx. cbn [default].
  split_and!.
  - constructor; clk_simpl; [done| |intros ? [= <-]; lia|done|done].
    intros y Hy. destruct (Hin y Hy) as (? & _ & ?). split_and!; [done| |done]. congruence.
  - split; [done|]. clk_simpl. split; [congruence|]. rewrite fn_upd, decide_False; [done|congruence].
  - unfold wait, left_of. clk_simpl. rewrite Ec. cbn [default]. lia.
Qed.

(** Nothing waits longer than ten ticks for the current task, for each task in
    the queue and for each process. *)
Lemma wait_bound b s t : clk_ok b s → wait t s <= 10 * Z.of_nat (1 + length (ck_queue s) + length procs).
Proof.
  intros Hok. unfold wait, left_of.
  assert (ahead t (ck_queue s) <= length (ck_queue s) + length procs)%nat as Ha.
  { unfold ahead. destruct (list_find _ _) as [[i x]|] eqn:E; [|by unfold ptasks; rewrite length_fmap].
    apply list_find_Some in E as (E & _ & _). apply lookup_lt_Some in E. lia. }
  assert (match ck_cur s with Some t0 => Z.max 1 (ck_credit s t0) | None => 1 end <= 10).
  { destruct (ck_cur s) as [t0|] eqn:Ec; [|lia]. pose proof (co_cur _ _ Hok t0 Ec). lia. }
  lia.
Qed.

Lemma wait_pos t s : 0 < wait t s.
Proof. unfold wait, left_of. destruct (ck_cur s); lia. Qed.

(** The credit of the idle task is only ever counted down.  When it wraps, the
    idle task keeps the processor for as long as the credit is positive. *)
Lemma idle_stays s n : ck_cur s = Some idle → ck_next s = None → ck_credit s idle = - 2 ^ 31 → (n < 2 ^ 31)%Z →
  ∀ k, Z.of_nat k = n → ck_cur (Nat.iter k interrupt s) = Some idle ∧ ck_next (Nat.iter k interrupt s) = None ∧
    ck_credit (Nat.iter k interrupt s) idle = if decide (k = 0)%nat then - 2 ^ 31 else 2 ^ 31 - n.
Proof using.
  clear Hnd Hidle. intros Hc Hn Hcr Hlt k. revert n Hlt. induction k as [|k IH]; intros n Hlt Hk; [done|].
  destruct (IH (n - 1)) as (Hc' & Hn' & Hcr'); [lia|lia|]. cbn [Nat.iter nat_rect]. fold (Nat.iter k interrupt s).
  set (s' := Nat.iter k interrupt s) in *. clearbody s'. destruct (expire_same s') as (_ & Ec & En & Ecr).
  assert (i32 (ck_credit s' idle - 1) = 2 ^ 31 - n) as E.
  { rewrite Hcr'. case_decide; [subst k; replace n with 1 by lia; done|]. rewrite i32_small; lia. }
  unfold interrupt, tick. rewrite Ec, Hc', Ecr, E, (proj2 (Z.ltb_lt _ _)) by lia.
  unfold resume. clk_simpl. rewrite En, Hn'. clk_simpl. rewrite Ec, fn_upd, decide_True, decide_False by lia. by rewrite En.
Qed.
End machine.

