(* ===== verification/ProcClock.v ===== *)
(** * The clock, the schedulers and sleeping in memory

    [clk_at] says how a state of the machine of [ProcMachine] lies in memory.
    [ksignal_clock] with [task_restart], and [sys_nanosleep] up to its switch,
    do on memory what the machine does, for every sequence of interrupts and
    calls; so the bound on the waiting of a ready task holds of the code. *)

From S2P Require Import Prelude CMonad PhysMem KString Pgt Kmem Memory Slab Devfs Vfs Proc ProcTheorems ProcMachine.

(** ** The machine in memory *)

(** The variables and fields that the clock uses. *)
Inductive fld :=
  | Fjiffies | Frunqueue | Ftimer | Fcur | Fnext | Ftss | Fidle | Fprocs | Fentry (j : nat) | Fptask (p : Z)
  | Farch (t : Z) | Fback (t : Z) | Fowner (t : Z) | Fstate (t : Z) | Fcredit (t : Z) | Flink (t : Z) | Frp (t : Z)
  | Fsignaled (t : Z)
  | Funtil (e : Z) | Fproc (e : Z) | Fevent (e : Z).

#[export] Instance fld_eq_dec : EqDecision fld.
Proof. solve_decision. Defined.

Definition written (f : fld) : bool :=
  match f with
  | Fjiffies | Frunqueue | Ftimer | Fcur | Fnext | Ftss | Fstate _ | Fcredit _ | Flink _ | Frp _
  | Fsignaled _ | Funtil _ | Fproc _ | Fevent _ => true
  | _ => false
  end.

Definition hd0 (l : list Z) : Z := match l with [] => 0 | x :: _ => x end.
Definition first_event (l : list sleeper) : Z := hd0 (sl_event <$> l).
Definition arch_of (o : option Z) : Z := match o with Some t => t + sizeof_task | None => 0 end.

(** The cache of the timer events [E]: [U] are the cells of the clock, and
    [ec_inv] says which events are allocated. *)
Class EventCache {KS : KernelSlab} (name : Z) (E : list Z) (U : Z → Prop) := {
  ec_inv : gmap Z Z → list Z → Prop;
  ec_frame m m' es : ec_inv m es → (∀ x, ¬ U x → m'.@x = m.@x) → ec_inv m' es;
  ec_perm m es es' : ec_inv m es → es ≡ₚ es' → ec_inv m es';
  ec_free m e es : ec_inv m (e :: es) →
    ∃ r m', slab_free name e m = Ok r m' ∧ ec_inv m' es ∧ ∀ x, U x → m'.@x = m.@x;
  ec_alloc m es : ec_inv m es →
    ∃ e m', slab_alloc name m = Ok e m' ∧ (∀ x, U x → m'.@x = m.@x) ∧
      (e = 0 ∧ ec_inv m' es ∨ e ∈ E ∧ e ∉ es ∧ ec_inv m' (e :: es));
}.

Section refine.
Context {KS : KernelSlab} (kv : kvar) (lit : literals) (fuel : nat).
(** The process table, the tasks of the processes, the idle task, all tasks
    and all timer events. *)
Context (tab : Z) (table : list Z) (ptask : Z → Z) (idle : Z) (T E : list Z).

Definition has_task (p : Z) : Prop := p ≠ 0 ∧ ptask p ≠ 0.
#[local] Instance has_task_dec p : Decision (has_task p).
Proof. unfold has_task. apply _. Defined.
Definition tasked : list Z := filter has_task table.

Definition loc (f : fld) : Z :=
  match f with
  | Fjiffies => kv_jiffies kv | Frunqueue => kv_runqueue kv | Ftimer => kv_timer kv
  | Fcur => cpu_cur_task (CPU_TASK 0) | Fnext => cpu_next_task (CPU_TASK 0) | Ftss => tss_sp0 (CPU_TSS 0)
  | Fidle => cpu_idle_task (CPU_TASK 0) | Fprocs => kv_procs kv | Fentry j => tab + 8 * Z.of_nat j
  | Fptask p => proc_task p
  | Farch t => task_arch t | Fback t => at_task (t + sizeof_task) | Fstate t => task_state t
  | Fcredit t => task_credit t | Flink t => task_next t | Frp t => at_rp (t + sizeof_task)
  | Fowner t => task_proc t | Fsignaled t => task_signaled t
  | Funtil e => te_jiffies e | Fproc e => te_proc e | Fevent e => te_next e
  end.

Definition valid (f : fld) : Prop :=
  match f with
  | Fentry j => (j < length table)%nat
  | Fptask p => p ∈ table ∧ p ≠ 0
  | Farch t | Fback t | Fowner t | Fstate t | Fcredit t | Flink t | Frp t | Fsignaled t => t ∈ T
  | Funtil e | Fproc e | Fevent e => e ∈ E
  | _ => True
  end.

(** The value of a field in the state [s]; what a queued task or a timer event
    links to is the next of the list. *)
Definition holds (s : clk) (f : fld) (v : Z) : Prop :=
  match f with
  | Fjiffies => v = ck_now s
  | Frunqueue => v = hd0 (ck_queue s)
  | Ftimer => v = first_event (ck_sleep s)
  | Fcur => v = arch_of (ck_cur s)
  | Fnext => v = arch_of (ck_next s)
  | Ftss | Frp _ | Fsignaled _ => False
  | Fidle => v = idle + sizeof_task
  | Fprocs => v = tab
  | Fentry j => table !! j = Some v
  | Fptask p => v = ptask p
  | Farch t => v = t + sizeof_task
  | Fback t => v = t
  | Fowner t => v ∈ tasked ∧ ptask v = t ∨ t = idle ∧ v = 0
  | Fstate t => v = ck_state s t
  | Fcredit t => v = ck_credit s t
  | Flink t => ∃ q1 q2, ck_queue s = q1 ++ t :: q2 ∧ v = hd0 q2
  | Funtil e => ∃ x, x ∈ ck_sleep s ∧ sl_event x = e ∧ v = sl_until x
  | Fproc e => ∃ x, x ∈ ck_sleep s ∧ sl_event x = e ∧ v = sl_proc x
  | Fevent e => ∃ l1 x l2, ck_sleep s = l1 ++ x :: l2 ∧ sl_event x = e ∧ v = first_event l2
  end.

Definition fields_at (m : gmap Z Z) (P : fld → Z → Prop) : Prop := ∀ f v, valid f → P f v → m.@(loc f) = v.
Definition clk_mem (m : gmap Z Z) (s : clk) : Prop := fields_at m (holds s).

Definition clock_cell (x : Z) : Prop := ∃ f, valid f ∧ x = loc f.

(** What the clock writes is at addresses of its own; tasks belong to one
    process each. *)
Record clk_lay : Prop := {
  cl_apart f g : valid f → valid g → written f = true → loc f = loc g → f = g;
  cl_task t : t ∈ T → 0 < t;
  cl_event e : e ∈ E → e ≠ 0;
  cl_procs p : p ∈ tasked → ptask p ∈ T;
  cl_once : NoDup (ptasks tasked ptask);
  cl_idle : idle ∈ T ∧ idle ∉ ptasks tasked ptask;
  cl_all t : t ∈ T → t = idle ∨ t ∈ ptasks tasked ptask;
  cl_length : length table = Z.to_nat PROC_NR;
}.

Record clk_wf (s : clk) : Prop := {
  cw_once : NoDup (ck_queue s);
  cw_queue t : t ∈ ck_queue s → t ∈ T;
  cw_cur t : ck_cur s = Some t → t ∈ T;
  cw_next t : ck_next s = Some t → t ∈ T;
  cw_sleep x : x ∈ ck_sleep s → sl_event x ∈ E ∧ sl_proc x ∈ tasked;
  cw_events : NoDup (sl_event <$> ck_sleep s);
}.

Context {EC : EventCache (TIMER_EVENT lit) E clock_cell}.

Record clk_at (m : gmap Z Z) (s : clk) : Prop := {
  ca_mem : clk_mem m s;
  ca_wf : clk_wf s;
  ca_cache : ec_inv m (sl_event <$> ck_sleep s);
}.

Context (L : clk_lay).

(** One store: the other fields keep their values. *)
Lemma fld_st m (P P' : fld → Z → Prop) f v :
  fields_at m P → valid f → written f = true →
  (∀ g u, valid g → P' g u → g = f ∧ u = v ∨ g ≠ f ∧ P g u) → fields_at (m.[loc f <- v]) P'.
Proof using L.
  intros Hm Hf Hw Hs g u Hg Hu. destruct (Hs g u Hg Hu) as [[-> ->]|[Hne Hu']]; [apply rd_wr_eq|].
  rewrite rd_wr_ne; [by apply Hm|]. intros El. by apply Hne, eq_sym, (cl_apart L).
Qed.

Lemma clk_st m s s' f v :
  clk_mem m s → valid f → written f = true →
  (∀ g u, valid g → holds s' g u → g = f ∧ u = v ∨ g ≠ f ∧ holds s g u) → clk_mem (m.[loc f <- v]) s'.
Proof using L. apply fld_st. Qed.

Lemma clk_ext m s s' : (∀ g u, holds s' g u → holds s g u) → clk_mem m s → clk_mem m s'.
Proof using. intros Hs Hm g u Hg Hu. by apply Hm, Hs. Qed.

Lemma cache_st m f v es : ec_inv m es → valid f → ec_inv (m.[loc f <- v]) es.
Proof using. intros Hi Hf. eapply ec_frame; [done|]. intros x Hx. apply rd_wr_ne. intros <-. apply Hx. by exists f. Qed.
(** Only cells of the clock change. *)
Definition clock_only (m m' : gmap Z Z) : Prop := ∀ x, ¬ clock_cell x → m'.@x = m.@x.

Lemma clock_only_trans m1 m2 m3 : clock_only m1 m2 → clock_only m2 m3 → clock_only m1 m3.
Proof using. intros H1 H2 x Hx. by rewrite H2, H1. Qed.

Lemma clock_only_st m f v : valid f → clock_only m (m.[loc f <- v]).
Proof using. intros Hf x Hx. apply rd_wr_ne. intros <-. apply Hx. by exists f. Qed.

Lemma clk_keep m m' s : (∀ x, clock_cell x → m'.@x = m.@x) → clk_mem m s → clk_mem m' s.
Proof using. intros Hm Hs f v Hf Hv. rewrite Hm by (by exists f). by apply Hs. Qed.

(** A field that is not the written one keeps its value by conversion. *)
Ltac other_fields := try (right; split; [discriminate|eassumption]).

Lemma st_state m s t v : clk_mem m s → t ∈ T →
  clk_mem (m.[task_state t <- v]) (with_state s (<[t := v]> (ck_state s))).
Proof using L.
  intros Hm Ht. apply (clk_st m s _ (Fstate t) v); [done..|]. intros [] u Hg Hu; other_fields.
  cbn [holds] in Hu. clk_simpl. rewrite fn_upd in Hu. case_decide as E0; [left; by subst|right]. split; [congruence|done].
Qed.

Lemma st_credit m s t v : clk_mem m s → t ∈ T →
  clk_mem (m.[task_credit t <- v]) (with_credit s (<[t := v]> (ck_credit s))).
Proof using L.
  intros Hm Ht. apply (clk_st m s _ (Fcredit t) v); [done..|]. intros [] u Hg Hu; other_fields.
  cbn [holds] in Hu. clk_simpl. rewrite fn_upd in Hu. case_decide as E0; [left; by subst|right]. split; [congruence|done].
Qed.

Lemma st_next m s o : clk_mem m s → clk_mem (m.[cpu_next_task (CPU_TASK 0) <- arch_of o]) (with_next s o).
Proof using L. intros Hm. apply (clk_st m s _ Fnext); [done..|]. intros [] u Hg Hu; other_fields. by left. Qed.

(** *** Timer events *)

Lemma fire_run l2 : ∀ k l1 m s fired rest,
  clk_mem m s → ck_sleep s = l1 ++ l2 → (∀ x, x ∈ l2 → sl_event x ∈ E ∧ sl_proc x ∈ tasked) →
  ec_inv m (sl_event <$> l2) → (length l2 < k)%nat → over (ck_now s) l2 = (fired, rest) →
  ∃ m', timer_fire kv lit k (first_event l2) m = Ok (first_event rest) m' ∧
    clk_mem m' (with_state s (set_all (ptask ∘ sl_proc <$> fired) TASK_READY (ck_state s))) ∧
    ec_inv m' (sl_event <$> rest).
Proof using L.
  induction l2 as [|e l2 IH]; intros [|k] l1 m s fired rest Hm Hsl Hin Hec Hk Hov; cbn [length] in Hk; try lia.
  { injection Hov as <- <-. exists m. split_and!; [done| |done]. by destruct s. }
  cbn [over] in Hov. cbn [timer_fire]. change (first_event (e :: l2)) with (sl_event e).
  destruct (Hin e ltac:(set_solver)) as [HeE Hep]. assert (e ∈ ck_sleep s) as Hes by (rewrite Hsl; set_solver).
  rewrite (proj2 (Z.eqb_neq _ 0)) by (by apply (cl_event L)). mrun.
  assert (m.@(te_jiffies (sl_event e)) = sl_until e) as -> by (apply (Hm (Funtil _)); [done|by exists e]).
  assert (m.@(kv_jiffies kv) = ck_now s) as -> by (by apply (Hm Fjiffies)). destruct (sl_until e <? ck_now s) eqn:Eov; cbn [negb].
  2: { injection Hov as <- <-. exists m. split_and!; [done| |done]. by destruct s. }
  destruct (over (ck_now s) l2) as [fired' rest'] eqn:Hov'. injection Hov as <- <-. mrun.
  assert (m.@(te_proc (sl_event e)) = sl_proc e) as -> by (apply (Hm (Fproc _)); [done|by exists e]).
  pose proof Hep as [[Hp0 _] Hpt]%list_elem_of_filter.
  assert (m.@(proc_task (sl_proc e)) = ptask (sl_proc e)) as -> by (by apply (Hm (Fptask _))).
  set (t := ptask (sl_proc e)) in *. assert (t ∈ T) as Ht by (by apply (cl_procs L)).
  pose proof (st_state m s t TASK_READY Hm Ht) as Hm1. set (s1 := with_state s _) in Hm1.
  set (m1 := m.[task_state t <- TASK_READY]) in *.
  assert (m1.@(te_next (sl_event e)) = first_event l2) as -> by (apply (Hm1 (Fevent _)); [done|by exists l1, e, l2]).
  destruct (ec_free m1 (sl_event e) (sl_event <$> l2)) as (r & m2 & E2 & Hec2 & Hk2).
  { eapply (cache_st m (Fstate t)); [done|exact Ht]. }
  rewrite (bind_ok _ _ _ _ _ E2).
  destruct (IH k (l1 ++ [e]) m2 s1 fired' rest') as (m' & E' & Hm' & Hec'); [by eapply clk_keep|..|done|lia|done|].
  { by rewrite <-app_assoc. } { set_solver. }
  exists m'. split_and!; [done| |done]. eapply clk_ext; [|exact Hm'].
  intros [] u Hu; try exact Hu. cbn [holds] in *. unfold s1. clk_simpl. rewrite set_all_at in Hu |- *. rewrite fn_upd.
  rewrite fmap_cons in Hu. subst u. cbn [compose]. fold t. repeat case_decide; set_solver.
Qed.

(** *** The two schedulers *)

Definition ready_of (s : clk) (l : list Z) : list Z :=
  filter (λ t, ck_state s t = TASK_READY) (ptasks (filter has_task l) ptask).

(** A task in front of the run queue. *)
Lemma st_push m s t : clk_mem m s → t ∈ T → t ∉ ck_queue s →
  clk_mem (enqueue kv t m) (with_credit (with_queue s (t :: ck_queue s)) (<[t := 10]> (ck_credit s))).
Proof using L.
  intros Hm Ht Hq. pose proof (st_credit m s t 10 Hm Ht) as H1. unfold enqueue.
  assert (m.@(kv_runqueue kv) = hd0 (ck_queue s)) as -> by (by apply (Hm Frunqueue)).
  set (s1 := with_credit s _) in H1. set (v := hd0 (ck_queue s)).
  pose (P := λ g u, holds s1 g u ∨ g = Flink t ∧ u = v).
  apply (fld_st _ P _ Frunqueue t); [|done|done|].
  - apply (fld_st _ (holds s1) P (Flink t) v H1 Ht); [done|].
    intros g u Hg [Hu|[-> ->]]; [right|by left]. split; [|done]. intros ->. destruct Hu as (q1 & q2 & Eq & _).
    apply Hq. unfold s1 in Eq. clk_simpl. rewrite Eq. set_solver.
  - intros [] u Hg Hu; try (right; split; [discriminate|by left]); [by left|]. right. split; [discriminate|].
    destruct Hu as ([|x q1] & q2 & Eq & ->); clk_simpl; injection Eq as -> Eq; [right; by subst q2|].
    left. by exists q1, q2.
Qed.


Lemma ready_of_cons s p l : ready_of s (p :: l) =
  if decide (has_task p ∧ ck_state s (ptask p) = TASK_READY) then ptask p :: ready_of s l else ready_of s l.
Proof using.
  unfold ready_of, ptasks. rewrite filter_cons. destruct (decide (has_task p)) as [Hp|Hp]; [|by rewrite decide_False by tauto].
  rewrite fmap_cons, filter_cons. destruct (decide (ck_state s (ptask p) = TASK_READY));
    [by rewrite decide_True|by rewrite decide_False by tauto].
Qed.

Lemma sched_run l : ∀ l1 m s,
  table = l1 ++ l → clk_mem m s → NoDup (ready_of s l ++ ck_queue s) →
  ∃ m', sched_loop kv (length l) (Z.of_nat (length l1)) m = Ok tt m' ∧ clock_only m m' ∧
    clk_mem m' (with_credit (with_queue s (reverse (ready_of s l) ++ ck_queue s))
                  (set_all (reverse (ready_of s l)) 10 (ck_credit s))).
Proof using L.
  induction l as [|p l IH]; intros l1 m s Et Hm Hn.
  { exists m. split_and!; [done|done|]. by destruct s. }
  cbn [length sched_loop]. mrun. assert (m.@(kv_procs kv) = tab) as -> by (by apply (Hm Fprocs)).
  assert (m.@(tab + 8 * Z.of_nat (length l1)) = p) as ->.
  { apply (Hm (Fentry (length l1))); cbn [valid holds]; rewrite Et; [rewrite length_app; cbn; lia|by apply list_lookup_middle]. }
  replace (Z.of_nat (length l1) + 1) with (Z.of_nat (length (l1 ++ [p]))) by (rewrite length_app; cbn [length]; lia).
  assert (table = (l1 ++ [p]) ++ l) as Et' by (by rewrite <-app_assoc).
  rewrite ready_of_cons in *. destruct (decide _) as [[Hp Hr]|Hno].
  - assert (p ∈ tasked) as Hin by (apply list_elem_of_filter; split; [done|]; rewrite Et; set_solver).
    pose proof (cl_procs L p Hin) as Ht. pose proof Hp as [Hp0 Ht0].
    rewrite (proj2 (Z.eqb_neq p 0)) by done. mrun.
    assert (m.@(proc_task p) = ptask p) as ->.
    { apply (Hm (Fptask p)); [|done]. split; [rewrite Et; set_solver|done]. }
    set (t := ptask p) in *. rewrite (proj2 (Z.eqb_neq t 0)) by done. mrun.
    assert (m.@(task_state t) = TASK_READY) as -> by (rewrite <-Hr; by apply (Hm (Fstate t))).
    rewrite Z.eqb_refl. cbn [negb]. mrun.
    assert ((m.[task_credit t <- 10]).@(kv_runqueue kv) = m.@(kv_runqueue kv)) as ->.
    { apply rd_wr_ne. intros El. by apply (cl_apart L (Fcredit t) Frunqueue) in El. }
    cbn [app] in Hn. apply list.NoDup_cons in Hn as [Hnt Hn]. rewrite elem_of_app in Hnt.
    destruct (IH (l1 ++ [p]) _ _ Et' (st_push m s t Hm Ht ltac:(tauto))) as (m' & E' & Ho & Hm').
    { clk_simpl. change (ready_of _ l) with (ready_of s l). rewrite <-Permutation_middle. apply list.NoDup_cons.
      rewrite elem_of_app. tauto. }
    exists m'. split_and!; [done| |].
    + eapply clock_only_trans; [|exact Ho]. unfold enqueue.
      eapply clock_only_trans; [by apply (clock_only_st m (Fcredit t))|].
      eapply clock_only_trans; [by apply (clock_only_st _ (Flink t))|by apply (clock_only_st _ Frunqueue)].
    + clk_simpl. change (ready_of _ l) with (ready_of s l) in Hm'.
      rewrite reverse_cons, <-app_assoc. unfold set_all in *. by rewrite foldr_app.
  - destruct (IH (l1 ++ [p]) m s Et' Hm Hn) as (m' & E' & Ho & Hm'). exists m'. split_and!; [|done|done].
    rewrite <-E'. destruct (Z.eqb_spec p 0); [done|]. mrun.
    assert (m.@(proc_task p) = ptask p) as ->.
    { apply (Hm (Fptask p)); [|done]. split; [rewrite Et; set_solver|done]. }
    destruct (Z.eqb_spec (ptask p) 0); [done|]. mrun.
    assert (m.@(task_state (ptask p)) = ck_state s (ptask p)) as ->.
    { apply (Hm (Fstate (ptask p))); [|done]. apply (cl_procs L), list_elem_of_filter. split; [done|]. rewrite Et. set_solver. }
    destruct (Z.eqb_spec TASK_READY (ck_state s (ptask p))); [|done]. exfalso. apply Hno. by split; [split|].
Qed.

Lemma refill_wf s : clk_wf s → clk_wf (refill tasked ptask s).
Proof using L.
  intros [Hq Hqt Hc Hn Hs Hev]. unfold refill. destruct (ck_queue s) as [|h q] eqn:E0; [|constructor; rewrite ?E0; done].
  assert (∀ t, t ∈ ptasks tasked ptask → t ∈ T) as Hpt.
  { intros t (p & -> & Hp)%list_elem_of_fmap. by apply (cl_procs L). }
  constructor; clk_simpl; try done.
  - rewrite reverse_Permutation. apply NoDup_filter, (cl_once L).
  - intros t. rewrite elem_of_reverse, list_elem_of_filter. intros [_ ?]. auto.
Qed.

Lemma refill_run m s : clk_mem m s → clk_wf s →
  ∃ m', (if m.@(kv_runqueue kv) =? 0 then sched_schedule kv else mret tt) m = Ok tt m' ∧ clock_only m m' ∧
    clk_mem m' (refill tasked ptask s).
Proof using L.
  intros Hm Hw. assert (m.@(kv_runqueue kv) = hd0 (ck_queue s)) as -> by (by apply (Hm Frunqueue)).
  unfold refill. destruct (ck_queue s) as [|t q] eqn:Eq; cbn [hd0].
  - unfold sched_schedule. rewrite <-(cl_length L).
    destruct (sched_run table [] m s eq_refl Hm) as (m' & E' & Ho & Hm').
    { rewrite Eq, app_nil_r. apply NoDup_filter, (cl_once L). }
    exists m'. rewrite Eq, app_nil_r in Hm'. done.
  - pose proof (cl_task L t (cw_queue _ Hw t ltac:(rewrite Eq; set_solver))).
    rewrite (proj2 (Z.eqb_neq t 0)) by lia. by exists m.
Qed.

Lemma requeue_cur m s : clk_mem m s → clk_wf s →
  let s' := match ck_cur s with Some t => with_state s (<[t := TASK_READY]> (ck_state s)) | None => s end in
  ∃ m', (if arch_of (ck_cur s) =? 0 then mret tt
         else t ← ld (at_task (arch_of (ck_cur s))); st (task_state t) TASK_READY) m = Ok tt m' ∧
    clock_only m m' ∧ clk_mem m' s' ∧ clk_wf s'.
Proof using L.
  intros Hm Hw. destruct (ck_cur s) as [t|] eqn:Ec; cbn [arch_of]; [|by exists m].
  pose proof (cw_cur _ Hw t Ec) as Ht. pose proof (cl_task L t Ht).
  rewrite (proj2 (Z.eqb_neq _ 0)) by (unfold sizeof_task; lia). mrun.
  assert (m.@(at_task (t + sizeof_task)) = t) as -> by (by apply (Hm (Fback t))).
  eexists. split; [done|]. split; [by apply (clock_only_st _ (Fstate t))|]. split; [by apply st_state|].
  destruct Hw. by constructor.
Qed.

(** The current task is ready again, the first of the queue gets the processor. *)
Lemma switch_run m s : clk_mem m s → clk_wf s →
  ∃ m', clock_switch kv m = Ok tt m' ∧ clock_only m m' ∧ clk_mem m' (switch tasked ptask idle s) ∧
    clk_wf (switch tasked ptask idle s).
Proof using L.
  intros Hm0 Hw0. destruct (refill_run m s Hm0 Hw0) as (m1 & E1 & Ho1 & Hm1).
  apply refill_wf in Hw0. unfold clock_switch, switch. mrun. rewrite (bind_ok _ _ _ _ _ E1). clear E1 Hm0.
  set (r := refill tasked ptask s) in *. clearbody r. clear s. mrun.
  assert (m1.@(cpu_cur_task (CPU_TASK 0)) = arch_of (ck_cur r)) as -> by (by apply (Hm1 Fcur)).
  set (s2 := match ck_cur r with Some t => _ | None => r end).
  destruct (requeue_cur m1 r Hm1 Hw0) as (m2 & E2 & Ho2 & Hm2 & Hw2). fold s2 in Hm2, Hw2.
  rewrite (bind_ok _ _ _ _ _ E2). clear E2 Hm1. clearbody s2. mrun.
  assert (clock_only m m2) as Ho by (by eapply clock_only_trans).
  assert (m2.@(kv_runqueue kv) = hd0 (ck_queue s2)) as -> by (by apply (Hm2 Frunqueue)).
  pose proof Hw2 as [Hq Hqt Hc Hn Hsl Hev]. destruct (ck_queue s2) as [|t q] eqn:Eq; cbn [hd0 Z.eqb].
  - mrun. assert (m2.@(cpu_idle_task (CPU_TASK 0)) = arch_of (Some idle)) as -> by (by apply (Hm2 Fidle)).
    eexists. split; [done|]. split; [eapply clock_only_trans; [done|by apply (clock_only_st _ Fnext)]|].
    split; [by apply st_next|]. constructor; clk_simpl; rewrite ?Eq; try done. intros ? [= <-]. apply (cl_idle L).
  - assert (t ∈ T) as Ht by (apply Hqt; set_solver). pose proof (cl_task L t Ht).
    rewrite (proj2 (Z.eqb_neq t 0)) by lia. mrun.
    assert (m2.@(task_next t) = hd0 q) as -> by (apply (Hm2 (Flink t)); [done|]; by exists [], q).
    assert (clk_mem (m2.[kv_runqueue kv <- hd0 q]) (with_queue s2 q)) as Hm3.
    { apply (clk_st m2 s2 _ Frunqueue (hd0 q)); [done..|]. intros [] u Hg Hu; other_fields; [by left|]. right. split; [discriminate|].
      destruct Hu as (q1 & q2 & E0 & ->). clk_simpl. exists (t :: q1), q2. split; [|done]. by rewrite Eq, E0. }
    assert ((m2.[kv_runqueue kv <- hd0 q]).@(task_arch t) = arch_of (Some t)) as -> by (by apply (Hm3 (Farch t))).
    eexists. split; [done|]. split_and!.
    + eapply clock_only_trans; [done|]. eapply clock_only_trans; [by apply (clock_only_st _ Frunqueue)|].
      eapply clock_only_trans; [by apply (clock_only_st _ Fnext)|by apply (clock_only_st _ (Fstate t))].
    + apply (st_state _ (with_next (with_queue s2 q) (Some t)) t TASK_RUNNING); [by apply st_next|done].
    + apply list.NoDup_cons in Hq as [_ Hq]. constructor; clk_simpl; try done; [set_solver|]. by intros ? [= <-].
Qed.

(** *** The interrupt *)

Lemma expire_run m s : clk_at m s → (length (ck_sleep s) < fuel)%nat →
  ∃ m' e, timer_fire kv lit fuel ((m.[kv_jiffies kv <- u64 (ck_now s + 1)]).@(kv_timer kv))
      (m.[kv_jiffies kv <- u64 (ck_now s + 1)]) = Ok e m' ∧
    clk_at (m'.[kv_timer kv <- e]) (expire ptask s).
Proof using L.
  intros [Hm Hw Hec] Hf. set (now := u64 (ck_now s + 1)).
  assert (clk_mem (m.[kv_jiffies kv <- now]) (with_timer s now (ck_sleep s))) as Hm1.
  { apply (clk_st m s _ Fjiffies now); [done..|]. intros [] u Hg Hu; other_fields. by left. }
  set (s1 := with_timer s now (ck_sleep s)) in *.
  assert ((m.[kv_jiffies kv <- now]).@(kv_timer kv) = first_event (ck_sleep s)) as -> by (by apply (Hm1 Ftimer)).
  unfold expire. fold now. destruct (over now (ck_sleep s)) as [fired rest] eqn:Eo.
  destruct (fire_run (ck_sleep s) fuel [] _ s1 fired rest Hm1) as (m2 & E2 & Hm2 & Hec2); [done|apply Hw| |done|done|].
  { by apply (cache_st m Fjiffies). }
  exists m2, (first_event rest). split; [done|]. destruct (over_app now (ck_sleep s) fired rest Eo) as [Es _].
  constructor; [|destruct Hw as [? ? ? ? Hs Hev]; constructor; try done|by apply (cache_st m2 Ftimer)].
  - apply (clk_st m2 _ _ Ftimer (first_event rest) Hm2); [done..|].
    intros [] u Hg Hu; other_fields; [by left|right; split; [discriminate|]..]; cbn [holds] in *; clk_simpl; change (ck_sleep s1) with (ck_sleep s).
    + destruct Hu as (x & Hx & ? & ?). exists x. rewrite Es. set_solver.
    + destruct Hu as (x & Hx & ? & ?). exists x. rewrite Es. set_solver.
    + destruct Hu as (l1 & x & l2 & Er & ? & ?). exists (fired ++ l1), x, l2. split; [|done]. rewrite Es, Er. by rewrite app_assoc.
  - clk_simpl. intros x Hx. apply Hs. rewrite Es. set_solver.
  - clk_simpl. rewrite Es, fmap_app in Hev. by apply list.NoDup_app in Hev as (_ & _ & ?).
Qed.

Lemma tick_run m s : clk_at m s → (length (ck_sleep s) < fuel)%nat →
  ∃ m', ksignal_clock kv lit 0 fuel m = Ok tt m' ∧ clk_at m' (tick tasked ptask idle s).
Proof using L.
  intros Hat Hf. unfold ksignal_clock, tick. cbn [Z.eqb negb]. mrun.
  assert (m.@(kv_jiffies kv) = ck_now s) as -> by (by apply (ca_mem _ _ Hat Fjiffies)).
  destruct (expire_run m s Hat Hf) as (m1 & e & E1 & [Hm Hw Hec]). rewrite (bind_ok _ _ _ _ _ E1). clear E1 Hat. mrun.
  set (m2 := m1.[kv_timer kv <- e]) in *. set (s1 := expire ptask s) in *. clearbody m2 s1. clear m1 e m s Hf.
  assert (m2.@(cpu_cur_task (CPU_TASK 0)) = arch_of (ck_cur s1)) as -> by (by apply (Hm Fcur)).
  assert (∀ m3 s3, clock_only m2 m3 → ck_sleep s3 = ck_sleep s1 → clk_mem m3 s3 → clk_wf s3 → clk_at m3 s3) as Hdone.
  { intros m3 s3 Ho Es Hm3 Hw3. constructor; [done|done|]. rewrite Es. by eapply ec_frame. }
  destruct (ck_cur s1) as [t|] eqn:Ec; cbn [arch_of].
  2: { destruct (switch_run m2 s1 Hm Hw) as (m' & E' & Ho & Hm' & Hw'). exists m'. split; [done|].
       apply Hdone; [done|apply switch_sleep|done|done]. }
  pose proof (cw_cur _ Hw t Ec) as Ht. pose proof (cl_task L t Ht).
  rewrite (proj2 (Z.eqb_neq _ 0)) by (unfold sizeof_task; lia). unfold this_task. mrun.
  assert (m2.@(cpu_cur_task (CPU_TASK 0)) = t + sizeof_task) as -> by (apply (Hm Fcur); [done|]; cbn; by rewrite Ec).
  assert (m2.@(at_task (t + sizeof_task)) = t) as -> by (by apply (Hm (Fback t))).
  assert (m2.@(task_credit t) = ck_credit s1 t) as -> by (by apply (Hm (Fcredit t))).
  set (c := i32 (ck_credit s1 t - 1)). pose proof (st_credit m2 s1 t c Hm Ht) as Hm3.
  assert (clk_wf (with_credit s1 (<[t := c]> (ck_credit s1)))) as Hw3 by (destruct Hw; by constructor).
  assert (clock_only m2 (m2.[task_credit t <- c])) as Ho3 by (by apply (clock_only_st m2 (Fcredit t))).
  destruct (0 <? c); [by eexists; split; [done|]; apply Hdone|].
  destruct (switch_run _ _ Hm3 Hw3) as (m' & E' & Ho & Hm' & Hw'). exists m'. split; [done|].
  apply Hdone; [by eapply clock_only_trans|by rewrite switch_sleep|done|done].
Qed.

(** The return from the interrupt goes to the next task. *)
Lemma resume_run m s sp : clk_at m s →
  ∃ m', task_restart 0 sp m = Ok tt m' ∧ clk_at m' (resume s).
Proof using L.
  intros [Hm Hw Hec]. unfold task_restart, resume. mrun.
  assert (m.@(cpu_next_task (CPU_TASK 0)) = arch_of (ck_next s)) as -> by (by apply (Hm Fnext)).
  destruct (ck_next s) as [t|] eqn:En; cbn [arch_of Z.eqb]; [|by exists m].
  pose proof (cw_next _ Hw t En) as Ht. pose proof (cl_task L t Ht).
  rewrite (proj2 (Z.eqb_neq _ 0)) by (unfold sizeof_task; lia). mrun.
  assert (m.@(cpu_cur_task (CPU_TASK 0)) = arch_of (ck_cur s)) as -> by (by apply (Hm Fcur)).
  assert (∃ m1, (if arch_of (ck_cur s) =? 0 then mret tt else st (at_rp (arch_of (ck_cur s))) sp) m = Ok tt m1 ∧
    clock_only m m1 ∧ clk_mem m1 s) as (m1 & E1 & Ho1 & Hm1).
  { destruct (ck_cur s) as [t0|] eqn:Ec; cbn [arch_of]; [|by exists m].
    pose proof (cw_cur _ Hw t0 Ec) as Ht0. pose proof (cl_task L t0 Ht0).
    rewrite (proj2 (Z.eqb_neq _ 0)) by (unfold sizeof_task; lia). eexists. split; [done|].
    split; [by apply (clock_only_st m (Frp t0))|]. apply (clk_st m s s (Frp t0) sp); [done..|].
    intros [] u Hg Hu; other_fields. done. }
  rewrite (bind_ok _ _ _ _ _ E1). mrun. eexists. split; [done|].
  pose (s1 := Clk (ck_now s) (ck_sleep s) (ck_queue s) (Some t) (ck_next s) (ck_state s) (ck_credit s)).
  assert (clk_mem (m1.[cpu_cur_task (CPU_TASK 0) <- t + sizeof_task]) s1) as Hm2.
  { apply (clk_st m1 s s1 Fcur); [done..|]. intros [] u Hg Hu; other_fields. by left. }
  pose proof (st_next _ s1 None Hm2) as Hm3.
  constructor; [|destruct Hw; constructor; clk_simpl; try done; by intros ? [= <-]|].
  - apply (clk_st _ _ _ Ftss _ Hm3); [done..|]. intros [] u Hg Hu; other_fields. done.
  - eapply ec_frame; [exact Hec|]. eapply clock_only_trans; [exact Ho1|].
    eapply clock_only_trans; [by apply (clock_only_st _ Fcur)|].
    eapply clock_only_trans; [by apply (clock_only_st _ Fnext)|by apply (clock_only_st _ Ftss)].
Qed.


(** *** Going to sleep *)

Lemma chain_hd m c l : chain 16 m c l → m.@c = hd0 l.
Proof using. destruct l; [done|by intros [? _]]. Qed.

Lemma chain_mid m c l1 x l2 : chain 16 m c (l1 ++ x :: l2) → m.@(x + 16) = hd0 l2.
Proof using. intros [_ (_ & _ & Hc)]%chain_app. by apply chain_hd. Qed.

(** The timer events are a list linked in memory. *)
Lemma clk_events_chain m s : clk_mem m s → clk_wf s → events kv m (sl_event <$> ck_sleep s).
Proof using L.
  intros Hm Hw. assert (∀ l2 l1 c, ck_sleep s = l1 ++ l2 → m.@c = first_event l2 → chain 16 m c (sl_event <$> l2)) as H.
  { induction l2 as [|x l2 IH]; intros l1 c Es Ec; [done|]. rewrite fmap_cons.
    destruct (cw_sleep _ Hw x) as [Hx _]; [rewrite Es; set_solver|].
    split_and!; [done|by apply (cl_event L)|]. apply (IH (l1 ++ [x])); [by rewrite <-app_assoc|].
    apply (Hm (Fevent (sl_event x))); [done|]. by exists l1, x, l2. }
  apply (H _ [] _ eq_refl). by apply (Hm Ftimer).
Qed.

(** The fields of the state and of a new event [x]. *)
Definition with_event (s : clk) (x : sleeper) (g : fld) (v : Z) : Prop :=
  holds s g v ∨ g = Funtil (sl_event x) ∧ v = sl_until x ∨ g = Fproc (sl_event x) ∧ v = sl_proc x.

Lemma add_fields m m' s x a b : fields_at m (with_event s x) → clk_wf s → sl_event x ∈ E → ck_sleep s = a ++ b →
  events kv m' (sl_event <$> a ++ x :: b) →
  (∀ y, y ≠ te_next (sl_event x) → y ∉ cells 16 (kv_timer kv) (sl_event <$> ck_sleep s) → m'.@y = m.@y) →
  clk_mem m' (with_timer s (ck_now s) (a ++ x :: b)).
Proof using L.
  intros Hm Hw Hx Es Hc Hfr g v Hg Hh. set (e := sl_event x) in *.
  assert (∀ y, y ∈ E → loc g = te_next y → g = Fevent y) as Hne.
  { intros y Hy El. symmetry. by apply (cl_apart L (Fevent y) g). }
  destruct (decide (g = Ftimer)) as [->|Hgt].
  { cbn [holds] in Hh. clk_simpl. subst v. apply chain_hd in Hc. exact Hc. }
  assert ((∃ y, g = Fevent y) ∨ ∀ y, g ≠ Fevent y) as [[y ->]|Hge] by (destruct g; eauto; by right).
  { destruct Hh as (l1 & z & l2 & Ez & <- & ->). clk_simpl. rewrite Ez, fmap_app, fmap_cons in Hc.
    by apply chain_mid in Hc. }
  rewrite Hfr; [apply Hm; [done|]|intros El; by eapply Hge, Hne|].
  - unfold with_event. fold e. destruct g as [| | | | | | | | |p| | | | | | | | |y|y|y]; try (left; exact Hh); [done| | |by destruct (Hge y)].
    all: destruct Hh as (w & Hin & <- & ->); clk_simpl; apply elem_of_app in Hin as [Hin|[->|Hin]%elem_of_cons];
      [left; exists w; rewrite Es; set_solver|right; auto|left; exists w; rewrite Es; set_solver].
  - unfold cells. intros [El|(y & El & (w & -> & Hw')%list_elem_of_fmap)%list_elem_of_fmap]%elem_of_cons.
    + apply Hgt. symmetry. by apply (cl_apart L Ftimer g).
    + eapply Hge, (Hne (sl_event w)); [|done]. by apply (cw_sleep _ Hw).
Qed.
Lemma add_run m s x : fields_at m (with_event s x) → clk_wf s → sl_event x ∈ E → sl_event x ∉ sl_event <$> ck_sleep s →
  (length (ck_sleep s) < fuel)%nat →
  ∃ m', timer_insert fuel (kv_timer kv) (sl_event x) (sl_until x) m = Ok tt m' ∧ clock_only m m' ∧
    clk_mem m' (with_timer s (ck_now s) (add_sleeper x (ck_sleep s))).
Proof using L.
  intros Hm Hw Hx Hnx Hf. set (e := sl_event x) in *.
  assert (clk_mem m s) as Hms by (intros f v Hv Hh; apply Hm; [done|by left]).
  assert (∀ y, y ∈ ck_sleep s → sl_event y ∈ E) as HE by (intros y Hy; by apply (cw_sleep _ Hw)).
  destruct (timer_insert_run kv e (sl_until x) (sl_event <$> ck_sleep s) fuel m [])
    as (es1 & es2 & m' & Es & E' & Hc & Hlate & Hearly & Hfr).
  { by apply clk_events_chain. } { by apply (cl_event L). }
  { unfold cells. cbn [app]. apply list.NoDup_cons. split.
    - intros (y & Ey & Hy)%list_elem_of_fmap. assert (y ∈ E) as HyE.
      { apply elem_of_cons in Hy as [->|(z & -> & Hz)%list_elem_of_fmap]; auto. }
      by apply (cl_apart L Ftimer (Fevent y)) in Ey.
    - apply NoDup_fmap_2; [intros ? ?; lia|]. apply list.NoDup_cons. split; [done|apply Hw]. }
  { by rewrite length_fmap. }
  apply fmap_app_inv in Es as (a & b & -> & -> & Es). cbn [app lastc] in *.
  assert (∀ y, y ∈ ck_sleep s → m.@(te_jiffies (sl_event y)) = sl_until y) as Hj.
  { intros y Hy. apply (Hms (Funtil _)); [by apply HE|by exists y]. }
  exists m'. split; [done|]. split.
  { intros z Hz. apply Hfr; [intros ->; apply Hz; by exists (Fevent e)|]. unfold cells.
    intros [->|(y & -> & (w & -> & Hw')%list_elem_of_fmap)%list_elem_of_fmap]%elem_of_cons; apply Hz;
      [by exists Ftimer|]. exists (Fevent (sl_event w)). split; [by apply HE|done]. }
  assert (add_sleeper x (ck_sleep s) = a ++ x :: b) as ->.
  { rewrite Es. apply add_sleeper_at; intros y Hy.
    - rewrite <-(Hj y) by (rewrite Es; set_solver). apply Hlate. by apply list_elem_of_fmap_2.
    - rewrite <-(Hj y) by (rewrite Es; apply list_elem_of_lookup_2 in Hy; set_solver).
      apply Hearly. rewrite list_lookup_fmap, Hy. done. }
  replace (e :: (sl_event <$> b)) with (sl_event <$> x :: b) in Hc by done. rewrite <-fmap_app in Hc.
  by eapply add_fields.
Qed.

(** Giving up the processor. *)
Lemma leave_run m s sp : clk_at m s → ck_cur s ≠ None →
  ∃ m', task_switch_out 0 sp m = Ok tt m' ∧ clk_at m' (leave idle s).
Proof using L.
  intros [Hm Hw Hec] Hc. destruct (ck_cur s) as [t|] eqn:Ec; [|done]. unfold task_switch_out, leave. mrun.
  assert (m.@(cpu_cur_task (CPU_TASK 0)) = t + sizeof_task) as -> by (apply (Hm Fcur); [done|]; cbn [holds]; by rewrite Ec).
  pose proof (cw_cur _ Hw t Ec) as Ht. pose proof (cl_task L t Ht).
  rewrite (proj2 (Z.eqb_neq _ 0)) by (unfold sizeof_task; lia). mrun.
  assert (m.@(cpu_next_task (CPU_TASK 0)) = arch_of (ck_next s)) as -> by (by apply (Hm Fnext)).
  set (n := default idle (ck_next s)).
  assert (n ∈ T) as Hn by (unfold n; destruct (ck_next s) eqn:En; [by apply (cw_next _ Hw)|apply (cl_idle L)]).
  assert ((if arch_of (ck_next s) =? 0 then ld (cpu_idle_task (CPU_TASK 0)) else mret (arch_of (ck_next s))) m =
    Ok (n + sizeof_task) m) as E1.
  { unfold n. destruct (ck_next s) as [t'|] eqn:En; cbn [arch_of default].
    - pose proof (cl_task L t' (cw_next _ Hw t' En)). by rewrite (proj2 (Z.eqb_neq _ 0)) by (unfold sizeof_task; lia).
    - cbn [Z.eqb]. unfold ld. f_equal. by apply (Hm Fidle). }
  rewrite (bind_ok _ _ _ _ _ E1). mrun. eexists. split; [done|].
  pose (s1 := Clk (ck_now s) (ck_sleep s) (ck_queue s) (Some n) (ck_next s) (ck_state s) (ck_credit s)).
  assert (clk_mem (m.[at_rp (t + sizeof_task) <- sp]) s) as Hm1.
  { apply (clk_st m s s (Frp t) sp); [done..|]. intros [] u Hg Hu; other_fields. done. }
  assert (clk_mem (m.[at_rp (t + sizeof_task) <- sp].[cpu_cur_task (CPU_TASK 0) <- n + sizeof_task]) s1) as Hm2.
  { apply (clk_st _ s s1 Fcur); [done..|]. intros [] u Hg Hu; other_fields. by left. }
  pose proof (st_next _ s1 None Hm2) as Hm3.
  constructor; [|destruct Hw; constructor; clk_simpl; try done; by intros ? [= <-]|].
  - apply (clk_st _ _ _ Ftss _ Hm3); [done..|]. intros [] u Hg Hu; other_fields. done.
  - eapply ec_frame; [exact Hec|]. eapply clock_only_trans; [by apply (clock_only_st m (Frp t))|].
    eapply clock_only_trans; [by apply (clock_only_st _ Fcur)|].
    eapply clock_only_trans; [by apply (clock_only_st _ Fnext)|by apply (clock_only_st _ Ftss)].
Qed.

(** The caller of a system call: the current task and its process. *)
Lemma caller_run m s t : clk_mem m s → clk_wf s → ck_cur s = Some t →
  (t = idle ∧ caller 0 m = Ok (t, 0) m) ∨
  ∃ p, p ∈ tasked ∧ ptask p = t ∧ m.@(task_proc t) = p ∧ caller 0 m = Ok (t, p) m.
Proof using L.
  intros Hm Hw Ec. pose proof (cw_cur _ Hw t Ec) as Ht. pose proof (cl_task L t Ht). unfold caller, this_task. mrun.
  assert (m.@(cpu_cur_task (CPU_TASK 0)) = t + sizeof_task) as -> by (apply (Hm Fcur); [done|]; cbn [holds]; by rewrite Ec).
  assert (m.@(at_task (t + sizeof_task)) = t) as -> by (by apply (Hm (Fback t))).
  rewrite (proj2 (Z.eqb_neq t 0)) by lia. mrun.
  destruct (cl_all L t Ht) as [->|(p & -> & Hp)%list_elem_of_fmap].
  - left. split; [done|]. assert (m.@(task_proc idle) = 0) as -> by (apply (Hm (Fowner idle)); [done|by right]). done.
  - right. exists p. assert (m.@(task_proc (ptask p)) = p) as -> by (apply (Hm (Fowner _)); [done|by left]). done.
Qed.

Lemma not_held s e g v : e ∉ sl_event <$> ck_sleep s → holds s g v → g ≠ Funtil e ∧ g ≠ Fproc e ∧ g ≠ Fevent e.
Proof using.
  intros He Hh. split_and!; intros ->; apply He; cbn [holds] in Hh.
  - destruct Hh as (x & Hx & <- & _). by apply list_elem_of_fmap_2.
  - destruct Hh as (x & Hx & <- & _). by apply list_elem_of_fmap_2.
  - destruct Hh as (l1 & x & l2 & -> & <- & _). apply list_elem_of_fmap_2, elem_of_app. right. apply elem_of_cons. by left.
Qed.

(** The fields of a new event are written. *)
Lemma event_run m s x : clk_mem m s → sl_event x ∈ E → sl_event x ∉ sl_event <$> ck_sleep s →
  fields_at (m.[te_jiffies (sl_event x) <- sl_until x].[te_proc (sl_event x) <- sl_proc x].[te_next (sl_event x) <- 0])
    (with_event s x).
Proof using L.
  intros Hm Hx Hn. pose proof (not_held s (sl_event x)) as Hnh.
  pose (P := λ g v, holds s g v ∨ g = Funtil (sl_event x) ∧ v = sl_until x).
  apply (fld_st _ (with_event s x) _ (Fevent (sl_event x))); [|done|done|].
  - apply (fld_st _ P _ (Fproc (sl_event x))); [|done|done|].
    + apply (fld_st _ (holds s) _ (Funtil (sl_event x))); [done|done|done|].
      intros g v _ [Hh|[-> ->]]; [right|by left]. split; [|done]. by apply (Hnh g v).
    + intros g v _ [Hh|[[-> ->]|[-> ->]]]; [right|right|by left]; (split; [|by left + by right]); [by apply (Hnh g v)|done].
  - intros g v _ Hh. right. split; [|done]. destruct Hh as [Hh|[[-> _]|[-> _]]]; [by apply (Hnh g v)|done|done].
Qed.

Lemma add_sleeper_perm x l : add_sleeper x l ≡ₚ x :: l.
Proof using.
  induction l as [|y l IH]; cbn [add_sleeper]; [done|]. destruct (_ <? _); [|done]. rewrite IH. constructor.
Qed.

Lemma block_wf s t x : clk_wf s → sl_event x ∈ E → sl_proc x ∈ tasked → sl_event x ∉ sl_event <$> ck_sleep s →
  clk_wf (block t x s).
Proof using.
  intros [Hq Hqt Hc Hn Hs Hev] Hx Hp Hnx. constructor; try done; unfold block; clk_simpl.
  - intros y Hy. rewrite add_sleeper_perm in Hy. apply elem_of_cons in Hy as [->|Hy]; [done|by apply Hs].
  - rewrite add_sleeper_perm, fmap_cons. by apply list.NoDup_cons.
Qed.

(** The call up to the switch. *)
Lemma enter_run m s rqtp t : clk_at m s → ck_cur s = Some t → (length (ck_sleep s) < fuel)%nat →
  ∃ o m', sleep_enter kv lit 0 fuel rqtp m = Ok o m' ∧
    match o with
    | None => clk_at m' s
    | Some (t', d) => t' = t ∧ d = fire_time (m.@(tv_sec rqtp)) (m.@(tv_nsec rqtp)) (ck_now s) ∧
        ∃ e p, p ∈ tasked ∧ ptask p = t ∧ e ∉ sl_event <$> ck_sleep s ∧ clk_at m' (block t (Sleeper e d p) s)
    end.
Proof using L.
  intros [Hm Hw Hec] Ec Hf. unfold sleep_enter.
  destruct (caller_run m s t Hm Hw Ec) as [[-> E1]|(p & Hp & Ept & Eow & E1)]; rewrite (bind_ok _ _ _ _ _ E1).
  { by exists None, m. }
  pose proof Hp as [[Hp0 _] _]%list_elem_of_filter. rewrite (proj2 (Z.eqb_neq p 0)) by done. mrun.
  assert (m.@(kv_jiffies kv) = ck_now s) as -> by (by apply (Hm Fjiffies)).
  set (d := fire_time _ _ _). destruct (ec_alloc m _ Hec) as (e & m1 & E2 & Hk & Hout). rewrite (bind_ok _ _ _ _ _ E2).
  apply (clk_keep m m1 s Hk) in Hm. destruct Hout as [[-> Hec1]|(HeE & Hen & Hec1)]; [by exists None, m1|].
  rewrite (proj2 (Z.eqb_neq e 0)) by (by apply (cl_event L)). mrun. pose proof (cw_cur _ Hw t Ec) as Ht.
  assert ((m1.[te_jiffies e <- d]).@(task_proc t) = p) as ->.
  { rewrite rd_wr_ne; [rewrite Hk; [done|by exists (Fowner t)]|].
    intros El. by apply (cl_apart L (Funtil e) (Fowner t)) in El. }
  pose proof (event_run m1 s (Sleeper e d p) Hm HeE Hen) as Hm2. cbn [sl_event sl_until sl_proc] in Hm2.
  set (m2 := m1.[te_jiffies e <- d].[te_proc e <- p].[te_next e <- 0]) in *.
  assert (clock_only m1 m2) as Ho2.
  { eapply clock_only_trans; [by apply (clock_only_st m1 (Funtil e))|].
    eapply clock_only_trans; [by apply (clock_only_st _ (Fproc e))|by apply (clock_only_st _ (Fevent e))]. }
  destruct (add_run m2 s (Sleeper e d p) Hm2 Hw HeE Hen Hf) as (m3 & E3 & Ho3 & Hm3).
  cbn [sl_event sl_until] in E3. rewrite (bind_ok _ _ _ _ _ E3). mrun.
  eexists (Some (t, d)), _. split; [done|]. split_and!; [done|done|]. exists e, p. split_and!; [done|done|done|].
  constructor; [|by apply block_wf|].
  - apply (clk_st _ (block t (Sleeper e d p) s) _ (Fsignaled t));
      [exact (st_state m3 _ t TASK_BLOCKED Hm3 Ht)|done|done|].
    intros [] u Hg Hu; other_fields. done.
  - eapply ec_frame; [|eapply clock_only_trans; [exact Ho2|]; eapply clock_only_trans; [exact Ho3|];
      eapply clock_only_trans; [by apply (clock_only_st _ (Fstate t))|by apply (clock_only_st _ (Fsignaled t))]].
    eapply ec_perm; [exact Hec1|]. unfold block. clk_simpl. by rewrite add_sleeper_perm.
Qed.

(** *** Sequences of interrupts and calls *)

(** What happens to the kernel while tasks run: a clock interrupt, or a call
    of [sys_nanosleep] with the time at [rqtp] up to its switch; [sp] is the
    stack pointer the switch saves. *)
Inductive kev := Kclock (sp : Z) | Ksleep (rqtp sp : Z).

Definition is_clock (k : kev) : bool := match k with Kclock _ => true | Ksleep _ _ => false end.
Definition clocks (ks : list kev) : nat := length (filter (λ k, is_clock k = true) ks).

Definition run_event (k : kev) : M unit :=
  match k with
  | Kclock sp => _ ← ksignal_clock kv lit 0 fuel; task_restart 0 sp
  | Ksleep rqtp sp =>
      o ← sleep_enter kv lit 0 fuel rqtp;
      match o with None => mret tt | Some _ => task_switch_out 0 sp end
  end.

Fixpoint run_events (ks : list kev) : M unit :=
  match ks with [] => mret tt | k :: ks => _ ← run_event k; run_events ks end.

Abbreviation step := (clk_step tasked ptask idle).

Lemma interrupt_cur s : ck_cur (interrupt tasked ptask idle s) ≠ None.
Proof using.
  unfold interrupt, tick, resume. destruct (ck_cur (expire ptask s)) as [t|] eqn:Ec.
  - destruct (0 <? _).
    + clk_simpl. destruct (ck_next _); clk_simpl; [done|by rewrite Ec].
    + destruct (ck_next (switch _ _ _ _)) eqn:En; [done|]. revert En. unfold switch.
      destruct (ck_cur (refill _ _ _)); destruct (ck_queue _); done.
  - destruct (ck_next (switch _ _ _ _)) eqn:En; [done|]. revert En. unfold switch.
    destruct (ck_cur (refill _ _ _)); destruct (ck_queue _); done.
Qed.

Lemma interrupt_sleep s : (length (ck_sleep (interrupt tasked ptask idle s)) <= length (ck_sleep s))%nat.
Proof using.
  unfold interrupt, resume. assert (length (ck_sleep (expire ptask s)) <= length (ck_sleep s))%nat as He.
  { unfold expire. destruct (over _ _) as [a b] eqn:Eo. apply over_app in Eo as [-> _]. clk_simpl. rewrite length_app. lia. }
  assert (ck_sleep (tick tasked ptask idle s) = ck_sleep (expire ptask s)) as Et.
  { unfold tick. destruct (ck_cur _); [|apply switch_sleep]. destruct (0 <? _); [done|]. by rewrite switch_sleep. }
  destruct (ck_next _); cbn [ck_sleep]; rewrite ?Et; done.
Qed.

(** Every event returns and makes a step of the machine; a system call comes
    from a task. *)
Lemma event_step m s k : clk_at m s → ck_cur s ≠ None ∨ is_clock k = true → (length (ck_sleep s) < fuel)%nat →
  ∃ m' s', run_event k m = Ok tt m' ∧ clk_at m' s' ∧ step (is_clock k) s s' ∧ ck_cur s' ≠ None ∧
    (length (ck_sleep s') <= S (length (ck_sleep s)))%nat.
Proof using L.
  intros Hat Hc Hf. destruct k as [sp|rqtp sp]; cbn [is_clock run_event] in *.
  - destruct (tick_run m s Hat Hf) as (m1 & E1 & Hat1). rewrite (bind_ok _ _ _ _ _ E1).
    destruct (resume_run m1 _ sp Hat1) as (m2 & E2 & Hat2). exists m2, (interrupt tasked ptask idle s).
    split_and!; [done|done|constructor|apply interrupt_cur|]. pose proof (interrupt_sleep s). lia.
  - destruct Hc as [Hc|]; [|done]. destruct (ck_cur s) as [t|] eqn:Ec; [|done].
    destruct (enter_run m s rqtp t Hat Ec Hf) as (o & m1 & E1 & Ho). rewrite (bind_ok _ _ _ _ _ E1).
    destruct o as [[t' d]|]; [|exists m1, s; split_and!; [done|done|constructor|by rewrite Ec|lia]].
    destruct Ho as (-> & _ & e & p & Hp & Ept & He & Hat1).
    destruct (leave_run m1 (block t (Sleeper e d p) s) sp Hat1) as (m2 & E2 & Hat2); [unfold block; clk_simpl; by rewrite Ec|].
    exists m2, (leave idle (block t (Sleeper e d p) s)). split_and!; [done|done|by econstructor|done|].
    unfold leave, block. clk_simpl. rewrite (Permutation_length (add_sleeper_perm _ _)). done.
Qed.

Lemma events_run ks : ∀ m s, clk_at m s → ck_cur s ≠ None ∨ hd true (is_clock <$> ks) = true →
  (length (ck_sleep s) + length ks < fuel)%nat →
  ∃ m' s', run_events ks m = Ok tt m' ∧ clk_at m' s' ∧ clk_run tasked ptask idle (is_clock <$> ks) s s'.
Proof using L.
  induction ks as [|k ks IH]; intros m s Hat Hc Hf; cbn [run_events length] in *; [exists m, s; split_and!; [done|done|constructor]|].
  destruct (event_step m s k Hat Hc ltac:(lia)) as (m1 & s1 & E1 & Hat1 & Hst & Hc1 & Hl).
  destruct (IH m1 s1 Hat1 (or_introl Hc1) ltac:(lia)) as (m' & s' & E' & Hat' & Hr).
  exists m', s'. rewrite (bind_ok _ _ _ _ _ E1). split_and!; [done|done|by econstructor].
Qed.

(** Whatever the other tasks do, a waiting task gets the processor. *)
Lemma events_wait t ks : ∀ m s, clk_at m s → ck_cur s ≠ None ∨ hd true (is_clock <$> ks) = true →
  clk_ok tasked ptask idle (clocks ks) s → waits tasked ptask t s → wait tasked ptask t s <= Z.of_nat (clocks ks) →
  (length (ck_sleep s) + length ks < fuel)%nat →
  ∃ ks1 ks2 m', ks = ks1 ++ ks2 ∧ run_events ks1 m = Ok tt m' ∧ m'.@(cpu_cur_task (CPU_TASK 0)) = t + sizeof_task.
Proof using L.
  induction ks as [|k ks IH]; intros m s Hat Hc Hok Hw Hk Hf.
  { exfalso. pose proof (wait_pos tasked ptask t s). unfold clocks in Hk. cbn in Hk. lia. }
  cbn [length] in Hf. destruct (event_step m s k Hat Hc ltac:(lia)) as (m1 & s1 & E1 & Hat1 & Hst & Hc1 & Hl).
  assert (clk_ok tasked ptask idle (clocks ks) s1 → waits tasked ptask t s1 → wait tasked ptask t s1 <= Z.of_nat (clocks ks) →
    ∃ ks1 ks2 m', k :: ks = ks1 ++ ks2 ∧ run_events ks1 m = Ok tt m' ∧ m'.@(cpu_cur_task (CPU_TASK 0)) = t + sizeof_task) as Hgo.
  { intros Hok1 Hw1 Hk1.
    destruct (IH m1 s1 Hat1 (or_introl Hc1) Hok1 Hw1 Hk1 ltac:(lia)) as (ks1 & ks2 & m' & -> & E' & Hcur).
    exists (k :: ks1), ks2, m'. cbn [run_events]. by rewrite (bind_ok _ _ _ _ _ E1). }
  destruct (cl_idle L) as [_ Hid]. destruct k as [sp|rqtp sp]; cbn [is_clock] in Hst;
    [change (clocks (Kclock sp :: ks)) with (S (clocks ks)) in *|change (clocks (Ksleep rqtp sp :: ks)) with (clocks ks) in *];
    inversion Hst; subst.
  - destruct (wait_clock tasked ptask idle (cl_once L) Hid (clocks ks) s t Hok Hw) as [Et|(Hok1 & Hw1 & Hlt)]; [|apply Hgo; [done..|lia]].
    exists [Kclock sp], ks, m1. split_and!; [done|cbn [run_events]; by rewrite (bind_ok _ _ _ _ _ E1)|].
    apply (ca_mem _ _ Hat1 Fcur); [done|]. cbn [holds]. by rewrite Et.
  - edestruct (wait_sleep tasked ptask idle Hid (clocks ks) s t) as (? & ? & ?); [done..|]. apply Hgo; [done..|lia].
  - by apply Hgo.
Qed.
End refine.

Lemma run_clocks procs ptask idle n s s' :
  clk_run procs ptask idle (replicate n true) s s' → s' = Nat.iter n (interrupt procs ptask idle) s.
Proof.
  revert s. induction n as [|n IH]; intros s; cbn [replicate]; inversion 1; subst; [done|].
  match goal with H : clk_step _ _ _ _ _ _ |- _ => inversion H; subst end.
  match goal with H : clk_run _ _ _ _ _ _ |- _ => apply IH in H as -> end.
  exact (Nat.iter_swap n clk (interrupt procs ptask idle) s).
Qed.

(** ** Properties *)


(** C15: no ready task starves: whatever the other tasks do, compute or sleep,
    a ready task has the processor after at most ten clock interrupts for the
    current task, ten for each task in the run queue and ten for each
    process. *)
Theorem kernel_no_starvation {KS : KernelSlab} (kv : kvar) (lit : literals) (fuel : nat) (tab : Z) (table : list Z)
    (ptask : Z → Z) (idle : Z) (T E : list Z) {EC : EventCache (TIMER_EVENT lit) E (clock_cell kv tab table T E)}
    (m : gmap Z Z) (s : clk) (t : Z) (ks : list kev) :
  clk_lay kv tab table ptask idle T E → clk_at kv lit tab table ptask idle T E m s →
  ck_cur s ≠ None ∨ hd true (is_clock <$> ks) = true → (length (ck_sleep s) + length ks < fuel)%nat →
  clk_ok (tasked table ptask) ptask idle (clocks ks) s → waits (tasked table ptask) ptask t s →
  (10 * (1 + length (ck_queue s) + length (tasked table ptask)) <= clocks ks)%nat →
  ∃ ks1 ks2 m', ks = ks1 ++ ks2 ∧ run_events kv lit fuel ks1 m = Ok tt m' ∧
    m'.@(cpu_cur_task (CPU_TASK 0)) = t + sizeof_task.
Proof.
  intros L Hat Hc Hf Hok Hw Hb. eapply events_wait; [exact L|exact Hat|done|exact Hok|exact Hw| |done].
  pose proof (wait_bound (tasked table ptask) ptask idle (clocks ks) s t Hok). lia.
Qed.

(** the credit of the idle task is counted down at every interrupt and never
    set again: when it has come to the smallest value of its type, the idle
    task keeps the processor for 2^31 - 1 interrupts, whatever is ready. *)
Theorem idle_keeps_processor {KS : KernelSlab} (kv : kvar) (lit : literals) (fuel : nat) (tab : Z) (table : list Z)
    (ptask : Z → Z) (idle : Z) (T E : list Z) {EC : EventCache (TIMER_EVENT lit) E (clock_cell kv tab table T E)}
    (m : gmap Z Z) (s : clk) (n : nat) (sp : Z) :
  clk_lay kv tab table ptask idle T E → clk_at kv lit tab table ptask idle T E m s →
  (length (ck_sleep s) + n < fuel)%nat →
  ck_cur s = Some idle → ck_next s = None → ck_credit s idle = - 2 ^ 31 → Z.of_nat n < 2 ^ 31 →
  ∃ m', run_events kv lit fuel (replicate n (Kclock sp)) m = Ok tt m' ∧
    m'.@(cpu_cur_task (CPU_TASK 0)) = idle + sizeof_task.
Proof.
  intros L Hat Hf Hc Hn Hcr Hlt.
  destruct (events_run kv lit fuel tab table ptask idle T E L (replicate n (Kclock sp)) m s Hat)
    as (m' & s' & E' & [Hm' _ _] & Hr); [left; by rewrite Hc|by rewrite length_replicate|].
  exists m'. split; [done|]. apply (Hm' Fcur); [done|]. cbn [holds].
  rewrite fmap_replicate in Hr. apply run_clocks in Hr as ->.
  by destruct (idle_stays (tasked table ptask) ptask idle s _ Hc Hn Hcr Hlt n eq_refl) as [-> _].
Qed.

(** ** Concrete runs

    A machine with two processes: the task [cur] has the processor, the first
    process has used three of its ten ticks, the second one is ready.  One
    timer event can be allocated; the cell at 0xb000 says whether it is.  The
    time at 0xc000 is one second. *)
Definition clk_table (n : nat) : list Z := 0x5000 :: 0x7000 :: replicate n 0.
Definition clk_ptask (p : Z) : Z := if p =? 0x5000 then 0x3000 else if p =? 0x7000 then 0x4000 else 0.
Definition clk_tasks : list Z := [0x3000; 0x4000; 0x9000].
Definition clk_events : list Z := [0xa000].
Definition clk_ex (cur c : Z) : clk :=
  Clk 5 [] [] (Some cur) None (λ t, if t =? 0x4000 then TASK_READY else TASK_RUNNING)
    (λ t, if t =? 0x9000 then c else if t =? 0x3000 then 7 else 0).

Definition clk_cells (cur c : Z) : list (Z * Z) :=
  [(0x1000, 0x100000); (0x1010, 5); (0x100000, 0x5000); (0x100008, 0x7000);
   (proc_task 0x5000, 0x3000); (proc_task 0x7000, 0x4000); (cpu_cur_task (CPU_TASK 0), cur + 48);
   (cpu_idle_task (CPU_TASK 0), 0x9030); (0x3000, 0x3030); (0x4000, 0x4030); (0x9000, 0x9030);
   (at_task 0x3030, 0x3000); (at_task 0x4030, 0x4000); (at_task 0x9030, 0x9000);
   (task_proc 0x3000, 0x5000); (task_proc 0x4000, 0x7000);
   (task_state 0x3000, TASK_RUNNING); (task_state 0x4000, TASK_READY); (task_state 0x9000, TASK_RUNNING);
   (task_credit 0x3000, 7); (task_credit 0x9000, c); (tv_sec 0xc000, 1); (tv_nsec 0xc000, 0)].
Definition clk_mem_ex (cur c : Z) : gmap Z Z := list_to_map (clk_cells cur c).

#[local] Instance clk_slab : KernelSlab := {|
  slab_alloc _ := u ← ld 0xb000; if u =? 0 then _ ← st 0xb000 1; mret 0xa000 else mret 0;
  slab_free _ _ := mret 0;
  slab_create _ _ := mret 0;
|}.

Lemma clk_tasked n : tasked (clk_table n) clk_ptask = [0x5000; 0x7000].
Proof.
  unfold tasked, clk_table. rewrite !filter_cons_True by (by vm_compute).
  assert (∀ n, filter (has_task clk_ptask) (replicate n 0) = []) as ->; [|done].
  clear. induction n as [|n IH]; [done|]. cbn [replicate]. rewrite filter_cons_False; [done|]. by intros [? _].
Qed.

Lemma clk_table_in n p : p ∈ clk_table n → p ≠ 0 → p = 0x5000 ∨ p = 0x7000.
Proof. unfold clk_table. rewrite !elem_of_cons, elem_of_replicate. tauto. Qed.

Lemma clk_tasks_in t : t ∈ clk_tasks → t = 0x3000 ∨ t = 0x4000 ∨ t = 0x9000.
Proof. unfold clk_tasks. rewrite !elem_of_cons, elem_of_nil. tauto. Qed.

Lemma clk_events_in e : e ∈ clk_events → e = 0xa000.
Proof. unfold clk_events. rewrite elem_of_cons, elem_of_nil. tauto. Qed.

Ltac clk_addr := unfold loc, kv_ex, proc_task, task_arch, at_task, task_state, task_credit, task_next, at_rp, sizeof_task,
  task_proc, task_signaled, te_jiffies, te_proc, te_next, cpu_cur_task, cpu_next_task, cpu_idle_task, tss_sp0, CPU_TASK,
  CPU_TSS in *;
  cbn [kv_jiffies kv_runqueue kv_timer kv_procs] in *; change (Z.shiftl 0 8) with 0 in *.

(** The addresses of the fields, as bounds for [lia]. *)
Ltac clk_bounds n := cbn [valid] in *;
  repeat match goal with
  | H : _ ∈ clk_tasks |- _ => apply clk_tasks_in in H
  | H : _ ∈ clk_events |- _ => apply clk_events_in in H
  | H : _ ∈ clk_table n ∧ _ |- _ => let H1 := fresh in destruct H as [H H1]; apply (clk_table_in n _ H) in H1; clear H
  end; clk_addr.

Section layout.
Context (n : nat) (Hn : Z.of_nat n <= 65534).

Lemma clk_table_length : Z.of_nat (length (clk_table n)) <= 65536.
Proof using Hn. unfold clk_table. cbn [length]. rewrite length_replicate. lia. Qed.

Lemma clk_ex_apart f g : valid (clk_table n) clk_tasks clk_events f → valid (clk_table n) clk_tasks clk_events g →
  written f = true → loc kv_ex 0x100000 f = loc kv_ex 0x100000 g → f = g.
Proof using Hn.
  intros Hf Hg Hw El. pose proof clk_table_length as Hl.
  destruct f; try discriminate Hw; destruct g; try reflexivity; clk_bounds n; first [exfalso; lia|f_equal; lia].
Qed.

Lemma clk_ex_out : ¬ clock_cell kv_ex 0x100000 (clk_table n) clk_tasks clk_events 0xb000.
Proof using Hn.
  intros (f & Hf & El). pose proof clk_table_length as Hl. destruct f; clk_bounds n; lia.
Qed.

#[local] Instance clk_cache name : EventCache name clk_events (clock_cell kv_ex 0x100000 (clk_table n) clk_tasks clk_events).
Proof using Hn.
  pose proof clk_ex_out as Hout.
  refine {| ec_inv m es := m.@0xb000 = 0 → 0xa000 ∉ es |}.
  - intros m m' es Hi Hm. by rewrite Hm.
  - intros m es es' Hi <-. done.
  - intros m e es Hi. exists 0, m. split_and!; [done| |done]. intros Hz. specialize (Hi Hz). set_solver.
  - intros m es Hi. cbn. unfold mbind, M_bind, ld, st. destruct (Z.eqb_spec (m.@0xb000) 0) as [Hz|Hz].
    + eexists _, _. split; [done|]. split; [intros x Hx; apply rd_wr_ne; by intros <-|]. right.
      split_and!; [unfold clk_events; set_solver|by apply Hi|]. rewrite rd_wr_eq. done.
    + eexists _, _. split; [done|]. split; [done|]. by left.
Defined.

Lemma clk_ex_lay : n = Z.to_nat 65534 → clk_lay kv_ex 0x100000 (clk_table n) clk_ptask 0x9000 clk_tasks clk_events.
Proof using Hn.
  intros En. assert (ptasks (tasked (clk_table n) clk_ptask) clk_ptask = [0x3000; 0x4000]) as Ep by (by rewrite clk_tasked).
  constructor; rewrite ?Ep, ?clk_tasked.
  - apply clk_ex_apart.
  - intros t ?%clk_tasks_in. lia.
  - intros e ?%clk_events_in. lia.
  - unfold clk_tasks. intros p [->|[->|[]%not_elem_of_nil]%elem_of_cons]%elem_of_cons; by apply (bool_decide_unpack _).
  - by apply (bool_decide_unpack _).
  - by apply (bool_decide_unpack _).
  - intros t [->|[->| ->]]%clk_tasks_in; [right|right|by left]; by apply (bool_decide_unpack _).
  - unfold clk_table. cbn [length]. rewrite length_replicate. unfold PROC_NR. lia.
Qed.

Lemma clk_ex_zero cur c x : x ∉ (clk_cells cur c).*1 → (clk_mem_ex cur c).@x = 0.
Proof using. intros Hx. unfold rd, clk_mem_ex. by rewrite not_elem_of_list_to_map_1. Qed.

Lemma clk_ex_mem cur c :
  clk_mem kv_ex 0x100000 (clk_table n) clk_ptask 0x9000 clk_tasks clk_events (clk_mem_ex cur c) (clk_ex cur c).
Proof using Hn.
  intros f v Hf Hv. destruct f; cbn [holds valid] in *; try (subst v; reflexivity); try done.
  - destruct j as [|[|j]]; [by injection Hv as <-..|].
    change (replicate n 0 !! j = Some v) in Hv. apply lookup_replicate in Hv as [-> Hj].
    apply clk_ex_zero. unfold clk_cells. cbn [fmap list_fmap fst]. rewrite !elem_of_cons, elem_of_nil.
    unfold tv_sec, tv_nsec. clk_addr. lia.
  - subst v. destruct (clk_table_in n p) as [->| ->]; [apply Hf..|reflexivity|reflexivity].
  - subst v. by destruct (clk_tasks_in t Hf) as [->|[->| ->]].
  - subst v. by destruct (clk_tasks_in t Hf) as [->|[->| ->]].
  - rewrite clk_tasked in Hv. destruct Hv as [[[->|[->|[]%not_elem_of_nil]%elem_of_cons]%elem_of_cons <-]|[-> ->]]; done.
  - subst v. by destruct (clk_tasks_in t Hf) as [->|[->| ->]].
  - subst v. by destruct (clk_tasks_in t Hf) as [->|[->| ->]].
  - destruct Hv as ([|] & ? & ? & _); done.
  - by destruct Hv as (x & []%not_elem_of_nil & _).
  - by destruct Hv as (x & []%not_elem_of_nil & _).
  - destruct Hv as ([|] & ? & ? & ? & _); done.
Qed.

Lemma clk_ex_at cur c : cur ∈ clk_tasks →
  clk_at kv_ex lit_ex 0x100000 (clk_table n) clk_ptask 0x9000 clk_tasks clk_events (clk_mem_ex cur c) (clk_ex cur c).
Proof using Hn.
  intros Hcur. constructor; [apply clk_ex_mem| |cbn; by intros _ ?%not_elem_of_nil].
  constructor; cbn [clk_ex ck_queue ck_cur ck_next ck_sleep fmap list_fmap].
  - apply NoDup_nil_2.
  - by intros t ?%not_elem_of_nil.
  - by intros t [= <-].
  - done.
  - by intros x ?%not_elem_of_nil.
  - apply NoDup_nil_2.
Qed.
End layout.

Definition clk_slots : nat := Z.to_nat 65534.
Definition clk_full : list Z := clk_table clk_slots.

Lemma clk_slots_le : Z.of_nat clk_slots <= 65534.
Proof. unfold clk_slots. rewrite Z2Nat.id; lia. Qed.

Lemma clk_full_lay : clk_lay kv_ex 0x100000 clk_full clk_ptask 0x9000 clk_tasks clk_events.
Proof. exact (clk_ex_lay clk_slots clk_slots_le eq_refl). Qed.

Lemma clk_full_tasked : tasked clk_full clk_ptask = [0x5000; 0x7000].
Proof. exact (clk_tasked clk_slots). Qed.

#[local] Instance clk_full_cache name :
  EventCache name clk_events (clock_cell kv_ex 0x100000 clk_full clk_tasks clk_events) := clk_cache clk_slots clk_slots_le name.


(** The first process goes to sleep; within thirty interrupts the second one
    has the processor. *)
Lemma kernel_no_starvation_witness : ∃ ks1 ks2 m',
  Ksleep 0xc000 0x100 :: replicate 30 (Kclock 0x200) = ks1 ++ ks2 ∧
  run_events kv_ex lit_ex 32 ks1 (clk_mem_ex 0x3000 0) = Ok tt m' ∧
  m'.@(cpu_cur_task (CPU_TASK 0)) = 0x4000 + sizeof_task.
Proof.
  apply (kernel_no_starvation kv_ex lit_ex 32 0x100000 clk_full clk_ptask 0x9000 clk_tasks clk_events
    (clk_mem_ex 0x3000 0) (clk_ex 0x3000 0) 0x4000 (Ksleep 0xc000 0x100 :: replicate 30 (Kclock 0x200))).
  - exact clk_full_lay.
  - apply (clk_ex_at clk_slots clk_slots_le). by apply (bool_decide_unpack _).
  - by left.
  - cbn. lia.
  - constructor; cbn [clk_ex ck_queue ck_cur ck_next].
    + apply NoDup_nil_2.
    + by intros t ?%not_elem_of_nil.
    + intros t [= <-]. by vm_compute.
    + by vm_compute.
    + done.
  - rewrite clk_full_tasked. split_and!; [by apply (bool_decide_unpack _)|done|done].
  - rewrite clk_full_tasked. by apply (bool_decide_unpack _).
Defined.

Lemma idle_keeps_processor_witness : ∃ m',
  run_events kv_ex lit_ex 4 (replicate 3 (Kclock 0x200)) (clk_mem_ex 0x9000 (- 2 ^ 31)) = Ok tt m' ∧
  m'.@(cpu_cur_task (CPU_TASK 0)) = 0x9000 + sizeof_task.
Proof.
  apply (idle_keeps_processor kv_ex lit_ex 4 0x100000 clk_full clk_ptask 0x9000 clk_tasks clk_events
    (clk_mem_ex 0x9000 (- 2 ^ 31)) (clk_ex 0x9000 (- 2 ^ 31)) 3 0x200).
  - exact clk_full_lay.
  - apply (clk_ex_at clk_slots clk_slots_le). by apply (bool_decide_unpack _).
  - cbn. lia.
  - done.
  - done.
  - done.
  - by vm_compute.
Defined.

(** The first process asks for a second of sleep at time 5: its event is in the
    list, its task blocked, the idle task goes on, and the interrupt after that
    gives the processor to the second process. *)
Example sleep_then_clock :
  match run_events kv_ex lit_ex 4 [Ksleep 0xc000 0x100; Kclock 0x200] (clk_mem_ex 0x3000 0) with
  | Ok _ m => (m.@(cpu_cur_task (CPU_TASK 0)), m.@(kv_jiffies kv_ex), m.@(kv_timer kv_ex), m.@(te_jiffies 0xa000),
               m.@(task_state 0x3000), m.@(task_state 0x4000), m.@(task_credit 0x4000))
  | _ => (0, 0, 0, 0, 0, 0, 0)
  end = (0x4030, 6, 0xa000, 105, TASK_BLOCKED, TASK_RUNNING, 10).
Proof. vm_compute. reflexivity. Qed.
