(* ===== verification/Tty.v ===== *)
(** * User programs: the C library, init and the tty driver

    lib/arch/x86_64 (libadvos.c, libc.c, the byte routines of libcasm.S),
    lib/crt0.c, servers/init/main.c and drivers/tty.  The tty driver polls the
    keyboard controller through the driver system call, collects the
    characters in a line buffer, echoes it on the text screen and passes a
    finished line to the character device; what processes write to the device
    it puts on the screen.  The trap into the kernel is the argument
    [syscall]; the theorems instantiate it with the kernel's [sys_driver]. *)

From Stdlib Require Import Ascii String.
From S2P Require Import Prelude CMonad PhysMem KString Slab Devfs.

(** ** Fields and constants *)

Definition SYS_exit : Z := 1.
Definition SYS_fork : Z := 2.
Definition SYS_execve : Z := 59.
Definition SYS_nanosleep : Z := 240.
Definition SYS_initexec : Z := 701.
Definition SYS_driver : Z := 702.

Definition KBD_OK : Z := 0.
Definition KBD_ERROR : Z := -1.
Definition KBD_MAX_RETRY : positive := 0x1000000.
Definition KBD_ENC : Z := 0x60.
Definition KBD_CTRL : Z := 0x64.
Definition KBD_STAT_OBUF : Z := 1.
Definition KBD_STAT_IBUF : Z := 2.
Definition KBD_ENC_CMD_SETLED : Z := 0xed.
Definition KBD_CTRL_CMD_SELFTEST : Z := 0xaa.
Definition KBD_CTRL_STAT_SELFTEST_OK : Z := 0x55.
Definition KBD_KEY_CTRL_LEFT : Z := 0x1d.
Definition KBD_KEY_SHIFT_LEFT : Z := 0x2a.
Definition KBD_KEY_SHIFT_RIGHT : Z := 0x36.
Definition KBD_KEY_CAPS_LOCK : Z := 0x3a.
Definition KBD_KEY_CTRL_RIGHT : Z := 0x5a.
Definition KBD_KEY_UP : Z := 0x48.
Definition KBD_KEY_LEFT : Z := 0x4b.
Definition KBD_KEY_RIGHT : Z := 0x4d.
Definition KBD_KEY_DOWN : Z := 0x50.
Definition ASCII_UP : Z := 0x86.
Definition ASCII_LEFT : Z := 0x83.
Definition ASCII_RIGHT : Z := 0x84.
Definition ASCII_DOWN : Z := 0x85.
Definition TTY_LINEBUFSIZE : Z := 4096.
Definition VIDEO_RAM : Z := 0xb8000.
Definition VIDEO_PORT : Z := 0x3d4.
Definition ECHO : Z := 8.
Definition BS : Z := 8.
Definition TAB : Z := 9.
Definition NL : Z := 10.
Definition CR : Z := 13.

(** [tty_line_buffer_t] and [tty_t] *)
Definition ln_cur (b : Z) : Z := b.
Definition ln_len (b : Z) : Z := b + 8.
Definition ln_buf (b : Z) : Z := b + 16.
Definition tty_lnbuf (tty : Z) : Z := tty.
Definition tty_term (tty i : Z) : Z := tty + 4112 + i.
Definition tty_lflag (tty : Z) : Z := tty_term tty 24.

(** [kbd_t]: the key states are bits of one word. *)
Definition kbd_disabled (kbd : Z) : Z := kbd.
Definition kbd_state (kbd : Z) : Z := kbd + 4.
Definition LCTRL : Z := 0.
Definition RCTRL : Z := 1.
Definition LSHIFT : Z := 2.
Definition RSHIFT : Z := 3.
Definition CAPSLOCK : Z := 4.
Definition NUMLOCK : Z := 5.
Definition SCROLLLOCK : Z := 6.
Definition INSERT : Z := 7.

(** [console_t] *)
Definition con_kbd (con : Z) : Z := con.
Definition con_vram (con : Z) : Z := con + 8.
Definition con_pos (con : Z) : Z := con + 16.
Definition con_width (con : Z) : Z := con + 32.
Definition con_height (con : Z) : Z := con + 40.
Definition con_cur (con : Z) : Z := con + 48.
Definition con_eob (con : Z) : Z := con + 56.
Definition con_lmark (con : Z) : Z := con + 64.
Definition con_dev (con : Z) : Z := con + 72.

(** ** libcasm.S *)

Definition memcpy (dst src n : Z) : M unit := λ m, Ok tt (kmemcpy (Z.to_nat n) m dst src).
(** The same instructions as [kmemmove]. *)
Definition memmove (dst src n : Z) : M unit := λ m, Ok tt (kmemmove (Z.to_nat n) m dst src).
Definition memset (b c len : Z) : M unit := for_up (Z.to_nat len) 0 (λ i, st (b + i) (u8 c)).

Section user.
(** The trap: the number of the call and its arguments.  [stk] is where the
    wrappers of libadvos.c have their local structure. *)
Context (syscall : Z → list Z → M Z) (stk : Z).

(** ** libc.c and crt0.c *)

(** Both loops never end. *)
Definition exit (status : Z) : M unit := _ ← syscall SYS_exit [status]; hang.
Definition fork : M Z := r ← syscall SYS_fork []; mret (i32 r).
Definition execve (path argv envp : Z) : M Z :=
  r ← syscall SYS_execve [path; argv; envp]; mret (i32 r).
Definition nanosleep (rqtp rmtp : Z) : M Z :=
  r ← syscall SYS_nanosleep [rqtp; rmtp]; mret (i32 r).
Definition entry (main : Z → Z → M Z) (argc argv : Z) : M unit :=
  ret ← main argc argv; _ ← exit ret; hang.

(** ** libadvos.c *)

Definition initexec (path argv envp : Z) : M Z :=
  r ← syscall SYS_initexec [path; argv; envp]; mret (i32 r).
Definition driver_mmap (mmio : Z) : M Z :=
  r ← syscall SYS_driver [SYSDRIVER_MMAP; mmio]; mret (i32 r).

Definition driver_in (nr port : Z) : M Z :=
  _ ← st (io_port stk) port;
  _ ← syscall SYS_driver [nr; stk];
  d ← ld (io_data stk);
  mret (i32 d).
Definition driver_in8 (port : Z) : M Z := driver_in SYSDRIVER_IN8 port.
Definition driver_in16 (port : Z) : M Z := driver_in SYSDRIVER_IN16 port.
Definition driver_in32 (port : Z) : M Z := driver_in SYSDRIVER_IN32 port.

Definition driver_out (nr port data : Z) : M unit :=
  _ ← st (io_port stk) port;
  _ ← st (io_data stk) data;
  _ ← syscall SYS_driver [nr; stk];
  mret tt.
Definition driver_out8 (port data : Z) : M unit := driver_out SYSDRIVER_OUT8 port data.
Definition driver_out16 (port data : Z) : M unit := driver_out SYSDRIVER_OUT16 port data.
Definition driver_out32 (port data : Z) : M unit := driver_out SYSDRIVER_OUT32 port data.

Definition driver_register_device (name type : Z) : M Z :=
  _ ← st (reg_name stk) name;
  _ ← st (reg_type stk) type;
  r ← syscall SYS_driver [SYSDRIVER_REG_DEV; stk];
  mret (i32 r).

Definition driver_putc (dev c : Z) : M Z :=
  _ ← st (msg_type stk) SYSDRIVER_MSG_PUTC;
  _ ← st (msg_dev stk) dev;
  _ ← st (msg_c stk) (i8 c);
  r ← syscall SYS_driver [SYSDRIVER_MSG; stk];
  mret (i32 r).

Definition driver_write (dev buf nr : Z) : M Z :=
  _ ← st (msg_type stk) SYSDRIVER_MSG_WRITE;
  _ ← st (msg_dev stk) dev;
  _ ← st (msg_buf stk) buf;
  _ ← st (msg_nbytes stk) nr;
  r ← syscall SYS_driver [SYSDRIVER_MSG; stk];
  mret (i32 r).

Definition driver_getc (dev : Z) : M Z :=
  _ ← st (msg_type stk) SYSDRIVER_MSG_GETC;
  _ ← st (msg_dev stk) dev;
  r ← syscall SYS_driver [SYSDRIVER_MSG; stk];
  mret (i32 r).

(** ** servers/init/main.c *)

(** The parent's loop never ends.  [tty] is the address of the name, [args]
    of the argument vector, [tm] of the local [struct timespec]. *)
Definition init_main (tty args tm : Z) : M Z :=
  pid ← fork;
  if pid =? -1 then mret (-1)
  else if pid =? 0 then _ ← initexec tty args 0; mret 0
  else
    _ ← syscall 766 [22; pid];
    _ ← st tm 1;
    _ ← st (tm + 8) 0;
    _ ← nanosleep tm 0;
    hang.

(** ** kbd.c *)

Definition codes (s : string) : list Z := (λ c, Z.of_N (N_of_ascii c)) <$> list_ascii_of_string s.
Definition blank : list Z := codes "                ".

Definition keymap_base : list Z :=
  codes "  1234567890-=" ++ [BS; TAB] ++
  codes "qwertyuiop[]" ++ [CR] ++ codes " as" ++
  codes "dfghjkl;'` \zxcv" ++
  codes "bnm,./          " ++ blank ++ blank ++ blank ++ blank ++ [0].
Definition keymap_shift : list Z :=
  codes "  !@#$%^&*()_+" ++ [BS; TAB] ++
  codes "QWERTYUIOP{}" ++ [CR] ++ codes " AS" ++
  codes "DFGHJKL:" ++ [34] ++ codes "~ |ZXCV" ++
  codes "BNM<>?          " ++ blank ++ blank ++ blank ++ blank ++ [0].

(** Try at most [p] times, until there is a result. *)
Fixpoint retry {A} (p : positive) (try : M (option A)) : M (option A) :=
  match p with
  | xH => try
  | xO p => r ← retry p try; match r with Some a => mret (Some a) | None => retry p try end
  | xI p =>
    r ← try;
    match r with
    | Some a => mret (Some a)
    | None => r ← retry p try; match r with Some a => mret (Some a) | None => retry p try end
    end
  end.

Definition _read_ctrl_status : M Z := d ← driver_in8 KBD_CTRL; mret (u8 d).

(** One pass of the loops of [_write_ctrl_cmd] and [_enc_write_cmd]. *)
Definition try_write (port cmd : Z) : M (option Z) :=
  stat ← _read_ctrl_status;
  if 0 =? Z.land stat KBD_STAT_IBUF then _ ← driver_out8 port cmd; mret (Some KBD_OK)
  else mret None.

Definition _write_ctrl_cmd (cmd : Z) : M Z :=
  r ← retry KBD_MAX_RETRY (try_write KBD_CTRL cmd); mret (default KBD_ERROR r).
Definition _enc_read_buf : M Z := d ← driver_in8 KBD_ENC; mret (u8 d).
Definition _enc_write_cmd (cmd : Z) : M Z :=
  r ← retry KBD_MAX_RETRY (try_write KBD_ENC cmd); mret (default KBD_ERROR r).

Definition _wait_until_outbuf_full : M Z :=
  r ← retry KBD_MAX_RETRY
        (stat ← _read_ctrl_status;
         if KBD_STAT_OBUF =? Z.land stat KBD_STAT_OBUF then mret (Some KBD_OK) else mret None);
  mret (default KBD_ERROR r).

Definition set_state (kbd i : Z) (b : bool) : M unit :=
  s ← ld (kbd_state kbd); st (kbd_state kbd) (if b then Z.setbit s i else Z.clearbit s i).
Definition get_state (kbd i : Z) : M bool := s ← ld (kbd_state kbd); mret (Z.testbit s i).

(** The state bit of a modifier key. *)
Definition modifier (key : Z) : option Z :=
  if key =? KBD_KEY_CTRL_LEFT then Some LCTRL
  else if key =? KBD_KEY_CTRL_RIGHT then Some RCTRL
  else if key =? KBD_KEY_SHIFT_LEFT then Some LSHIFT
  else if key =? KBD_KEY_SHIFT_RIGHT then Some RSHIFT
  else if key =? KBD_KEY_CAPS_LOCK then Some CAPSLOCK
  else None.

Definition _parse_scan_code (kbd scan_code : Z) : M Z :=
  if negb (Z.land scan_code 0x80 =? 0) then
    match modifier (Z.land scan_code 0x7f) with
    | Some i => _ ← set_state kbd i false; mret (-1)
    | None => mret (-1)
    end
  else
    match modifier scan_code with
    | Some i => _ ← set_state kbd i true; mret (-1)
    | None =>
      if scan_code =? KBD_KEY_UP then mret ASCII_UP
      else if scan_code =? KBD_KEY_LEFT then mret ASCII_LEFT
      else if scan_code =? KBD_KEY_RIGHT then mret ASCII_RIGHT
      else if scan_code =? KBD_KEY_DOWN then mret ASCII_DOWN
      else
        l ← get_state kbd LSHIFT; r ← get_state kbd RSHIFT;
        if l || r then mret (nth (Z.to_nat scan_code) keymap_shift 0)
        else mret (nth (Z.to_nat scan_code) keymap_base 0)
    end.

Definition kbd_set_led (kbd : Z) : M Z :=
  scroll ← get_state kbd SCROLLLOCK; num ← get_state kbd NUMLOCK; caps ← get_state kbd CAPSLOCK;
  let led := Z.lor (Z.lor (if scroll : bool then 1 else 0) (if num : bool then 2 else 0))
                   (if caps : bool then 4 else 0) in
  ret ← _enc_write_cmd KBD_ENC_CMD_SETLED;
  ret' ← _enc_write_cmd (u8 led);
  mret (Z.lor ret ret').

Definition kbd_init (kbd : Z) : M Z :=
  _ ← st (kbd_disabled kbd) 0;
  _ ← set_state kbd LCTRL false; _ ← set_state kbd RCTRL false;
  _ ← set_state kbd LSHIFT false; _ ← set_state kbd RSHIFT false;
  _ ← set_state kbd CAPSLOCK false; _ ← set_state kbd NUMLOCK false;
  _ ← set_state kbd SCROLLLOCK false; _ ← set_state kbd INSERT false;
  ret ← kbd_set_led kbd;
  if negb (KBD_OK =? ret) then mret (-1) else mret 0.

Definition kbd_selftest : M Z :=
  stat ← _write_ctrl_cmd KBD_CTRL_CMD_SELFTEST;
  if negb (KBD_OK =? stat) then mret stat else
  stat ← _wait_until_outbuf_full;
  if negb (KBD_OK =? stat) then mret stat else
  encbuf ← _enc_read_buf;
  if KBD_CTRL_STAT_SELFTEST_OK =? encbuf then mret stat else mret KBD_ERROR.

(** What a control key makes of a character: h backspace, b back, f forward. *)
Definition control_char (c : Z) : Z :=
  if (c =? 104) || (c =? 72) then BS
  else if (c =? 98) || (c =? 66) then ASCII_LEFT
  else if (c =? 102) || (c =? 70) then ASCII_RIGHT
  else c.

Definition kbd_getchar (kbd : Z) : M Z :=
  ret ← driver_in8 KBD_CTRL;
  if Z.land ret 1 =? 0 then mret (-1) else
  scan_code ← _enc_read_buf;
  ascii ← _parse_scan_code kbd scan_code;
  if 0 <=? ascii then
    l ← get_state kbd LCTRL; r ← get_state kbd RCTRL;
    let ascii := if l || r then control_char ascii else ascii in
    mret (if CR =? ascii then NL else ascii)
  else mret ascii.

(** ** tty.c: the line buffer *)

Definition tty_line_buffer_init (b : Z) : M Z :=
  _ ← st (ln_cur b) 0; _ ← st (ln_len b) 0; mret 0.

Definition _insert_char (b c : Z) : M Z :=
  len ← ld (ln_len b); cur ← ld (ln_cur b);
  if TTY_LINEBUFSIZE <=? len then mret (-1) else
  if len <? u64 cur then mret (-1) else
  _ ← (if negb (u64 cur =? len)
       then memmove (ln_buf b + cur + 1) (ln_buf b + cur) (u64 (len - cur)) else mret tt);
  _ ← st (ln_buf b + cur) (i8 c);
  _ ← st (ln_cur b) (i64 (cur + 1));
  _ ← st (ln_len b) (u64 (len + 1));
  mret 0.

Definition _backspace (b : Z) : M Z :=
  len ← ld (ln_len b); cur ← ld (ln_cur b);
  if len <? u64 cur then mret (-1) else
  if 0 =? cur then mret 0 else
  _ ← (if negb (u64 cur =? len)
       then memmove (ln_buf b + cur - 1) (ln_buf b + cur) (u64 (len - cur)) else mret tt);
  _ ← st (ln_cur b) (i64 (cur - 1));
  _ ← st (ln_len b) (u64 (len - 1));
  mret 0.

Definition _move_left (b : Z) : M Z :=
  len ← ld (ln_len b); cur ← ld (ln_cur b);
  if len <? u64 cur then mret (-1) else
  if 0 =? cur then mret 0 else
  _ ← st (ln_cur b) (i64 (cur - 1)); mret 0.

Definition _move_right (b : Z) : M Z :=
  len ← ld (ln_len b); cur ← ld (ln_cur b);
  if len <? u64 cur then mret (-1) else
  if len =? u64 cur then mret 0 else
  _ ← st (ln_cur b) (i64 (cur + 1)); mret 0.

Definition tty_line_buffer_putc (b c : Z) : M Z :=
  _ ← (if c =? BS then _backspace b
       else if c =? NL then _ ← st (ln_cur b) 0; mret 0
       else if c =? ASCII_LEFT then _move_left b
       else if c =? ASCII_RIGHT then _move_right b
       else _insert_char b c);
  mret 0.

(** ** console.c *)

(** A [uint16_t] of the video memory. *)
Definition cell (vram i : Z) : Z := vram + 2 * i.

Definition _update_cursor (pos : Z) : M unit :=
  _ ← driver_out16 VIDEO_PORT (Z.lor (Z.shiftl (Z.land pos 0xff) 8) 0x0f);
  driver_out16 VIDEO_PORT (Z.lor (Z.land pos 0xff00) 0x0e).

Definition console_write (con buf count : Z) : M Z :=
  _ ← for_up (Z.to_nat (i64 count)) 0 (λ n,
    vram ← ld (con_vram con); pos ← ld (con_pos con);
    c ← ld (buf + n);
    st (cell vram (pos + n)) (u16 (Z.lor 0x0700 c)));
  pos ← ld (con_pos con);
  _ ← driver_out16 VIDEO_PORT (u16 (Z.lor (Z.shiftl (Z.land pos 0xff) 8) 0x0f));
  pos ← ld (con_pos con);
  _ ← driver_out16 VIDEO_PORT (u16 (Z.lor (Z.land pos 0xff00) 0x0e));
  mret 0.

(** [mmio] is the local structure; [ttyname] the name of the device. *)
Definition console_init (mmio con ttyname : Z) : M Z :=
  ret ← kbd_init (con_kbd con);
  if ret <? 0 then mret (-1) else
  _ ← st (mmio_addr mmio) VIDEO_RAM;
  _ ← st (mmio_size mmio) 4096;
  ret ← driver_mmap mmio;
  if ret <? 0 then mret (-1) else
  vram ← ld (mmio_addr mmio);
  _ ← st (con_vram con) vram;
  _ ← st (con_pos con) 0;
  _ ← st (con_width con) 80;
  _ ← st (con_height con) 25;
  _ ← st (con_eob con) 0;
  _ ← st (con_cur con) 0;
  _ ← st (con_lmark con) 0;
  _ ← for_up 2000 0 (λ i, vram ← ld (con_vram con); st (cell vram i) 0x0f20);
  ret ← driver_register_device ttyname 0;
  if ret <? 0 then mret (-1) else
  _ ← st (con_dev con) ret;
  mret 0.

Definition _update_line_buffer (con tty : Z) : M unit :=
  eob ← ld (con_eob con); lmark ← ld (con_lmark con);
  _ ← for_up (Z.to_nat (i64 (eob - lmark))) 0 (λ i,
    vram ← ld (con_vram con); lmark ← ld (con_lmark con); st (cell vram (lmark + i)) 0x0f20);
  len ← ld (ln_len (tty_lnbuf tty));
  _ ← for_up (Z.to_nat (i64 len)) 0 (λ i,
    vram ← ld (con_vram con); lmark ← ld (con_lmark con);
    c ← ld (ln_buf (tty_lnbuf tty) + i);
    st (cell vram (lmark + i)) (u16 (Z.lor 0x0f00 c)));
  lmark ← ld (con_lmark con); len ← ld (ln_len (tty_lnbuf tty));
  _ ← st (con_eob con) (i64 (lmark + len));
  lmark ← ld (con_lmark con); cur ← ld (ln_cur (tty_lnbuf tty));
  _update_cursor (i32 (lmark + cur)).

Definition _putc (con c : Z) : M unit :=
  if NL =? c then
    eob ← ld (con_eob con); width ← ld (con_width con); height ← ld (con_height con);
    let line := u64 eob / width in
    let col := u64 eob mod width in
    let n := u64 (width - col) in
    _ ← (if line + 1 =? height then
           vram ← ld (con_vram con);
           _ ← memmove vram (cell vram width) (u64 (width * (height - 1) * 2));
           vram ← ld (con_vram con);
           _ ← memset (cell vram (width * (height - 1))) 0 (u64 (width * 2));
           st (con_eob con) (i64 (eob - col))
         else st (con_eob con) (i64 (eob + n)));
    eob ← ld (con_eob con);
    _ ← st (con_lmark con) eob;
    eob ← ld (con_eob con);
    _update_cursor (i32 eob)
  else if BS =? c then
    eob ← ld (con_eob con);
    _ ← (if 0 <? eob then
           _ ← st (con_eob con) (i64 (eob - 1));
           vram ← ld (con_vram con); eob ← ld (con_eob con);
           _ ← st (cell vram eob) 0x0f20;
           eob ← ld (con_eob con);
           _update_cursor (i32 eob)
         else mret tt);
    eob ← ld (con_eob con);
    st (con_lmark con) eob
  else
    let c := if TAB =? c then 32 else c in
    vram ← ld (con_vram con); eob ← ld (con_eob con);
    _ ← st (cell vram eob) (u16 (Z.lor 0x0f c));
    eob ← ld (con_eob con);
    _ ← st (con_eob con) (i64 (eob + 1));
    eob ← ld (con_eob con);
    _ ← st (con_lmark con) eob;
    eob ← ld (con_eob con);
    _update_cursor (i32 eob).

(** [for ( i = 0; i < len; i++ ) driver_putc(con->dev, buf[i])]; [len] is read
    again every time round. *)
Fixpoint send_line (k : nat) (con tty i : Z) : M unit :=
  match k with
  | O => hang
  | S k =>
    len ← ld (ln_len (tty_lnbuf tty));
    if i <? i64 len then
      dev ← ld (con_dev con); c ← ld (ln_buf (tty_lnbuf tty) + i);
      _ ← driver_putc dev c;
      send_line k con tty (i + 1)
    else mret tt
  end.

(** One key that is ready. *)
Definition key_pressed (k : nat) (con tty c : Z) : M unit :=
  _ ← tty_line_buffer_putc (tty_lnbuf tty) c;
  lflag ← ld (tty_lflag tty);
  _ ← (if Z.land lflag ECHO =? 0 then mret tt else _update_line_buffer con tty);
  if NL =? c then
    _ ← _putc con c;
    _ ← send_line k con tty 0;
    dev ← ld (con_dev con);
    _ ← driver_putc dev NL;
    st (ln_len (tty_lnbuf tty)) 0
  else mret tt.

Fixpoint key_loop (k : nat) (con tty : Z) : M unit :=
  match k with
  | O => hang
  | S k' =>
    c ← kbd_getchar (con_kbd con);
    if 0 <=? c then _ ← key_pressed k con tty c; key_loop k' con tty else mret tt
  end.

Fixpoint output_loop (k : nat) (con : Z) : M unit :=
  match k with
  | O => hang
  | S k =>
    dev ← ld (con_dev con);
    c ← driver_getc dev;
    if 0 <=? c then _ ← _putc con c; output_loop k con else mret tt
  end.

(** [k] bounds the keys waiting, the length of a line and the output. *)
Definition console_proc (k : nat) (con tty : Z) : M Z :=
  _ ← key_loop k con tty; _ ← output_loop k con; mret 0.

(** ** main.c *)

Fixpoint main_loop (k : nat) (fuel : nat) (con tty tm cnt : Z) : M unit :=
  match k with
  | O => hang
  | S k =>
    _ ← syscall 766 [21; cnt];
    _ ← console_proc fuel con tty;
    _ ← nanosleep tm 0;
    main_loop k fuel con tty tm (u64 (cnt + 1))
  end.

(** [tty], [con], [tm], [mmio] and [io] are locals; [name] is "console". *)
Definition tty_main (k fuel : nat) (tty con tm mmio io name : Z) : M Z :=
  _ ← st tm 0;
  _ ← st (tm + 8) 100000000;
  _ ← st (tty_term tty 0) 0;
  _ ← st (tty_term tty 8) 0;
  _ ← st (tty_term tty 16) 0;
  _ ← st (tty_lflag tty) ECHO;
  _ ← st (tty_term tty 56) 0;
  _ ← st (tty_term tty 64) 0;
  ret ← tty_line_buffer_init (tty_lnbuf tty);
  if ret <? 0 then mret (-1) else
  ret ← console_init mmio con name;
  if ret <? 0 then mret (-1) else
  let pos := 1600 in
  _ ← st (io_port io) VIDEO_PORT;
  _ ← st (io_data io) (Z.lor (Z.shiftl (Z.land pos 0xff) 8) 0x0f);
  _ ← syscall SYS_driver [SYSDRIVER_OUT16; io];
  _ ← st (io_port io) VIDEO_PORT;
  _ ← st (io_data io) (Z.lor (Z.shiftl (Z.land (Z.shiftr pos 8) 0xff) 8) 0x0e);
  _ ← syscall SYS_driver [SYSDRIVER_OUT16; io];
  _ ← main_loop k fuel con tty tm 0;
  mret 0.
End user.
