(* ===== verification/TtyTheorems.v ===== *)
(** * The tty driver: theorems

    The line buffer against an abstract line editor, the keyboard against the
    set of keys held down, the polling loops, the text screen, and the whole
    driver on top of the kernel's driver system call. *)

From S2P Require Import Prelude CMonad PhysMem KString Slab Devfs Tty.

(** ** The line buffer *)

(** The characters of the line, and the cursor. *)
Record lbuf (m : gmap Z Z) (b : Z) (l : list Z) (cur : nat) : Prop := {
  lb_len : m.@(ln_len b) = Z.of_nat (length l);
  lb_cur : m.@(ln_cur b) = Z.of_nat cur;
  lb_bytes : bytes_at m (ln_buf b) l;
  lb_in : (cur <= length l)%nat;
  lb_max : Z.of_nat (length l) <= TTY_LINEBUFSIZE;
}.

(** Nothing outside of the structure is written. *)
Definition ln_frame (b : Z) (m m' : gmap Z Z) : Prop :=
  ∀ x, ¬ (b <= x < b + 16 + TTY_LINEBUFSIZE) → m'.@x = m.@x.

(** A line editor. *)
Definition edit (c : Z) (s : list Z * nat) : list Z * nat :=
  let '(l, cur) := s in
  if c =? BS then (if decide (cur = 0%nat) then s else (delete (cur - 1)%nat l, (cur - 1)%nat))
  else if c =? NL then (l, 0%nat)
  else if c =? ASCII_LEFT then (l, (cur - 1)%nat)
  else if c =? ASCII_RIGHT then (l, (cur + 1) `min` length l)%nat
  else if decide (TTY_LINEBUFSIZE <= Z.of_nat (length l)) then s
  else (take cur l ++ i8 c :: drop cur l, (cur + 1)%nat).

(** [c] is not inserted into the middle of the line. *)
Definition at_end (c : Z) (s : list Z * nat) : Prop :=
  c ∈ [BS; NL; ASCII_LEFT; ASCII_RIGHT] ∨ s.2 = length s.1 ∨ TTY_LINEBUFSIZE <= Z.of_nat (length s.1).

Lemma ln_small m b l cur : lbuf m b l cur →
  u64 (Z.of_nat cur) = Z.of_nat cur ∧ (Z.of_nat (length l) <? Z.of_nat cur) = false.
Proof.
  intros H. pose proof (lb_in _ _ _ _ H). pose proof (lb_max _ _ _ _ H). unfold TTY_LINEBUFSIZE in *.
  split; [apply u64_small; lia|]. apply Z.ltb_ge. lia.
Qed.

(** Two fields are written: the rest of the state from the bytes. *)
Lemma lbuf_set m b l cur :
  bytes_at m (ln_buf b) l → (cur <= length l)%nat → Z.of_nat (length l) <= TTY_LINEBUFSIZE →
  lbuf (m.[ln_cur b <- Z.of_nat cur].[ln_len b <- Z.of_nat (length l)]) b l cur.
Proof.
  intros Hb Hc Hl. unfold ln_cur, ln_len, ln_buf in *. constructor; try done; unfold ln_len, ln_cur, ln_buf; rdwr; try done.
  revert Hb. apply bytes_at_frame. intros x Hx. by rdwr.
Qed.

Lemma lbuf_move m b l cur cur' :
  lbuf m b l cur → (cur' <= length l)%nat → lbuf (m.[ln_cur b <- Z.of_nat cur']) b l cur'.
Proof.
  intros [] Hc. unfold ln_cur, ln_len, ln_buf in *. constructor; try done; unfold ln_len, ln_cur, ln_buf; rdwr; try done.
  revert lb_bytes0. apply bytes_at_frame. intros x Hx. by rdwr.
Qed.

Lemma ln_frame_cur m b v : ln_frame b m (m.[ln_cur b <- v]).
Proof. intros x Hx. unfold ln_cur, TTY_LINEBUFSIZE in *. rdwr. done. Qed.

Lemma ln_frame_refl m b : ln_frame b m m.
Proof. done. Qed.

Lemma ln_frame_trans b m1 m2 m3 : ln_frame b m1 m2 → ln_frame b m2 m3 → ln_frame b m1 m3.
Proof. intros H1 H2 x Hx. by rewrite H2, H1. Qed.

#[local] Hint Resolve ln_frame_refl ln_frame_cur : core.

Lemma move_left_run m b l cur : lbuf m b l cur →
  ∃ m', _move_left b m = Ok 0 m' ∧ lbuf m' b l (cur - 1) ∧ ln_frame b m m'.
Proof.
  intros H. destruct (ln_small _ _ _ _ H) as [E1 E2]. unfold _move_left. mrun.
  rewrite (lb_len _ _ _ _ H), (lb_cur _ _ _ _ H), E1, E2.
  pose proof (lb_in _ _ _ _ H). pose proof (lb_max _ _ _ _ H). unfold TTY_LINEBUFSIZE in *.
  destruct (Z.eqb_spec 0 (Z.of_nat cur)) as [E|E].
  - exists m. by replace (cur - 1)%nat with cur by lia.
  - mrun. rewrite i64_small by lia. replace (Z.of_nat cur - 1) with (Z.of_nat (cur - 1)) by lia.
    eexists. split; [done|]. split; [|done]. eapply lbuf_move; [done|lia].
Qed.

Lemma move_right_run m b l cur : lbuf m b l cur →
  ∃ m', _move_right b m = Ok 0 m' ∧ lbuf m' b l ((cur + 1) `min` length l) ∧ ln_frame b m m'.
Proof.
  intros H. destruct (ln_small _ _ _ _ H) as [E1 E2]. unfold _move_right. mrun.
  rewrite (lb_len _ _ _ _ H), (lb_cur _ _ _ _ H), E1, E2.
  pose proof (lb_in _ _ _ _ H). pose proof (lb_max _ _ _ _ H). unfold TTY_LINEBUFSIZE in *.
  destruct (Z.eqb_spec (Z.of_nat (length l)) (Z.of_nat cur)) as [E|E].
  - exists m. by replace ((cur + 1) `min` length l)%nat with cur by lia.
  - mrun. rewrite i64_small by lia. replace (Z.of_nat cur + 1) with (Z.of_nat ((cur + 1) `min` length l)) by lia.
    eexists. split; [done|]. split; [|done]. eapply lbuf_move; [done|lia].
Qed.

Lemma lbuf_finish m m1 b (l' : list Z) cur' x y :
  bytes_at m1 (ln_buf b) l' → ln_frame b m m1 → (cur' <= length l')%nat →
  Z.of_nat (length l') <= TTY_LINEBUFSIZE → x = Z.of_nat cur' → y = Z.of_nat (length l') →
  lbuf (m1.[ln_cur b <- x].[ln_len b <- y]) b l' cur' ∧
  ln_frame b m (m1.[ln_cur b <- x].[ln_len b <- y]).
Proof.
  intros Hb Hf Hc Hl -> ->. split; [by apply lbuf_set|]. intros z Hz. rewrite <-(Hf z Hz).
  unfold ln_cur, ln_len, TTY_LINEBUFSIZE in *. by rdwr.
Qed.

Lemma backspace_run m b l cur : lbuf m b l cur → cur ≠ 0%nat →
  ∃ m', _backspace b m = Ok 0 m' ∧ lbuf m' b (delete (cur - 1)%nat l) (cur - 1) ∧ ln_frame b m m'.
Proof.
  intros H H0. destruct (ln_small _ _ _ _ H) as [E1 E2]. unfold _backspace. mrun.
  rewrite (lb_len _ _ _ _ H), (lb_cur _ _ _ _ H), E1, E2.
  pose proof (lb_in _ _ _ _ H) as Hin. pose proof (lb_max _ _ _ _ H) as Hmax.
  pose proof (proj1 (bytes_at_lookup _ _ _) (lb_bytes _ _ _ _ H)) as Hb. unfold TTY_LINEBUFSIZE in Hmax.
  rewrite (proj2 (Z.eqb_neq 0 (Z.of_nat cur))) by lia.
  assert (length (delete (cur - 1)%nat l) = (length l - 1)%nat) as Hd.
  { rewrite length_delete; [lia|]. apply lookup_lt_is_Some. lia. }
  rewrite !i64_small, (u64_small (_ - 1)) by lia.
  destruct (Z.eqb_spec (Z.of_nat cur) (Z.of_nat (length l))) as [E|E]; cbn [negb]; mrun.
  - eexists. split; [done|]. apply (lbuf_finish m m b); rewrite ?Hd; try lia; [|done|unfold TTY_LINEBUFSIZE; lia].
    apply bytes_at_lookup. intros i c Hi. apply Hb. rewrite <-Hi. symmetry. apply list_lookup_delete_lt.
    apply lookup_lt_Some in Hi. lia.
  - unfold memmove. unfold mbind at 1, M_bind at 1. rewrite u64_small by lia. unfold kmemmove.
    rewrite (proj2 (Z.ltb_lt _ _)) by lia. mrun.
    eexists. split; [done|].
    apply (lbuf_finish m (kmemcpy _ m (ln_buf b + Z.of_nat cur - 1) (ln_buf b + Z.of_nat cur)) b);
      rewrite ?Hd; try lia; [| |unfold TTY_LINEBUFSIZE; lia].
    + apply bytes_at_lookup. intros i c Hi. rewrite kmemcpy_forward by lia. rewrite Z2Nat.id by lia.
      assert (i < length l - 1)%nat by (rewrite <-Hd; by apply lookup_lt_Some in Hi).
      destruct (decide (i < cur - 1)%nat).
      * rewrite decide_False by lia. apply Hb. by rewrite list_lookup_delete_lt in Hi by done.
      * rewrite decide_True by lia. rewrite list_lookup_delete_ge in Hi by lia.
        rewrite <-(Hb _ _ Hi). f_equal. lia.
    + intros x Hx. rewrite kmemcpy_forward by lia. rewrite Z2Nat.id by lia. rewrite decide_False; [done|].
      unfold ln_buf, TTY_LINEBUFSIZE in *. lia.
Qed.

Lemma insert_full m b l cur c : lbuf m b l cur → TTY_LINEBUFSIZE <= Z.of_nat (length l) →
  _insert_char b c m = Ok (-1) m.
Proof.
  intros H Hl. unfold _insert_char. mrun. rewrite (lb_len _ _ _ _ H). by rewrite (proj2 (Z.leb_le _ _)).
Qed.

Lemma insert_end m b l c : lbuf m b l (length l) → Z.of_nat (length l) < TTY_LINEBUFSIZE →
  ∃ m', _insert_char b c m = Ok 0 m' ∧ lbuf m' b (l ++ [i8 c]) (length l + 1) ∧ ln_frame b m m'.
Proof.
  intros H Hl. destruct (ln_small _ _ _ _ H) as [E1 E2]. unfold _insert_char. mrun.
  rewrite (lb_len _ _ _ _ H), (lb_cur _ _ _ _ H), E1, E2, Z.eqb_refl. cbn [negb].
  rewrite (proj2 (Z.leb_gt _ _)) by done. mrun. unfold TTY_LINEBUFSIZE in Hl.
  rewrite i64_small, u64_small by lia.
  eexists. split; [done|].
  apply (lbuf_finish m (m.[ln_buf b + Z.of_nat (length l) <- i8 c]) b); rewrite ?length_app; simpl; try lia;
    [| |unfold TTY_LINEBUFSIZE; lia].
  - apply bytes_at_app. split; [|simpl; by rdwr].
    pose proof (lb_bytes _ _ _ _ H) as Hb. revert Hb. apply bytes_at_frame. intros x Hx. by rdwr.
  - intros x Hx. unfold ln_buf, TTY_LINEBUFSIZE in *. by rdwr.
Qed.

Lemma edit_run m b l cur c : lbuf m b l cur → at_end c (l, cur) →
  ∃ m', tty_line_buffer_putc b c m = Ok 0 m' ∧
    lbuf m' b (edit c (l, cur)).1 (edit c (l, cur)).2 ∧ ln_frame b m m'.
Proof.
  intros H He. unfold tty_line_buffer_putc, edit.
  assert (∀ (f : M Z) m' l' cur', f m = Ok 0 m' ∨ f m = Ok (-1) m' → lbuf m' b l' cur' → ln_frame b m m' →
    ∃ m', (_ ← f; mret 0) m = Ok 0 m' ∧ lbuf m' b (l', cur').1 (l', cur').2 ∧ ln_frame b m m') as Hw.
  { intros f m' l' cur' [E|E] H1 H2; exists m'; by rewrite (bind_ok _ _ _ _ _ E). }
  destruct (Z.eqb_spec c BS) as [->|N1].
  { case_decide as E0; [|destruct (backspace_run m b l cur H E0) as (m' & E & H1 & H2); eapply Hw; eauto].
    subst cur. destruct (ln_small _ _ _ _ H) as [E1 E2]. apply (Hw _ m); auto. left. unfold _backspace. mrun.
    rewrite (lb_len _ _ _ _ H), (lb_cur _ _ _ _ H), E1, E2. done. }
  destruct (Z.eqb_spec c NL) as [->|N2].
  { apply (Hw _ (m.[ln_cur b <- 0])); auto. eapply (lbuf_move m b l cur 0); [done|lia]. }
  destruct (Z.eqb_spec c ASCII_LEFT) as [->|N3].
  { destruct (move_left_run m b l cur H) as (m' & E & H1 & H2). eapply Hw; eauto. }
  destruct (Z.eqb_spec c ASCII_RIGHT) as [->|N4].
  { destruct (move_right_run m b l cur H) as (m' & E & H1 & H2). eapply Hw; eauto. }
  case_decide as Hl.
  { apply (Hw _ m); auto. right. by eapply insert_full. }
  destruct He as [He|[He|He]]; simpl in He; [set_solver| |lia]. subst cur.
  destruct (insert_end m b l c H) as (m' & E & H1 & H2); [lia|].
  rewrite firstn_all, drop_all. eapply Hw; eauto.
Qed.

(** ** The line buffer implements the editor *)

Fixpoint put_all (b : Z) (cs : list Z) : M unit :=
  match cs with [] => mret tt | c :: cs => _ ← tty_line_buffer_putc b c; put_all b cs end.

(** No character of the sequence is inserted into the middle of a line. *)
Fixpoint no_middle (cs : list Z) (s : list Z * nat) : Prop :=
  match cs with [] => True | c :: cs => at_end c s ∧ no_middle cs (edit c s) end.

(** C20: the line buffer of the tty refines a line editor: for every sequence of
    characters, backspaces, cursor movements and new lines in which no
    character is inserted in front of another one, the buffer holds exactly
    the edited line with its cursor (at most 4096 characters; further ones are
    dropped), and nothing outside of it is written. *)
Theorem line_buffer_refines_editor cs m b l cur :
  lbuf m b l cur → no_middle cs (l, cur) →
  ∃ m', put_all b cs m = Ok tt m' ∧
    let s := fold_left (λ s c, edit c s) cs (l, cur) in lbuf m' b s.1 s.2 ∧ ln_frame b m m'.
Proof.
  revert m l cur. induction cs as [|c cs IH]; intros m l cur H Hm; cbn [put_all fold_left].
  - by exists m.
  - destruct Hm as [He Hm]. destruct (edit_run m b l cur c H He) as (m1 & E & H1 & F1).
    rewrite (bind_ok _ _ _ _ _ E). destruct (edit c (l, cur)) as [l1 cur1].
    destruct (IH m1 l1 cur1 H1 Hm) as (m' & E' & H' & F'). exists m'. split; [exact E'|]. split; [exact H'|].
    by eapply ln_frame_trans.
Qed.

Lemma lbuf_empty b : lbuf ∅ b [] 0.
Proof. constructor; try done. Qed.

Lemma line_buffer_witness :
  let cs := [104; 106; BS; 105; ASCII_LEFT; BS; ASCII_RIGHT; 33] in
  no_middle cs ([], 0%nat) ∧
  fold_left (λ s c, edit c s) cs ([], 0%nat) = ([105; 33], 2%nat) ∧
  ∃ m', put_all 4096 cs ∅ = Ok tt m' ∧
    let s := fold_left (λ s c, edit c s) cs ([], 0%nat) in lbuf m' 4096 s.1 s.2 ∧ ln_frame 4096 ∅ m'.
Proof.
  intros cs. assert (no_middle cs ([], 0%nat)) as Hn.
  { simpl. unfold at_end. simpl. repeat split; auto; left; set_solver. }
  split; [exact Hn|]. split; [reflexivity|].
  exact (line_buffer_refines_editor cs ∅ 4096 [] 0 (lbuf_empty 4096) Hn).
Defined.

(** a character inserted in front of others destroys the one under the
    cursor: [memmove] upwards copies one byte too high, so the new line has the
    byte behind the cursor twice instead, and one byte is written behind the
    new end of the line, outside of the buffer when the line has 4095
    characters. *)
Theorem insert_middle_loses_char m b l cur c :
  lbuf m b l cur → (cur < length l)%nat → Z.of_nat (length l) < TTY_LINEBUFSIZE →
  ∃ m', _insert_char b c m = Ok 0 m' ∧
    lbuf m' b (take cur l ++ i8 c :: m.@(ln_buf b + Z.of_nat cur + 1) :: drop (S cur) l) (cur + 1) ∧
    m'.@(ln_buf b + Z.of_nat (length l) + 1) = m.@(ln_buf b + Z.of_nat (length l)).
Proof.
  intros H Hc Hl. destruct (ln_small _ _ _ _ H) as [E1 E2]. unfold _insert_char. mrun.
  pose proof (proj1 (bytes_at_lookup _ _ _) (lb_bytes _ _ _ _ H)) as Hb.
  rewrite (lb_len _ _ _ _ H), (lb_cur _ _ _ _ H), E1, E2, (proj2 (Z.leb_gt _ _)) by done.
  rewrite (proj2 (Z.eqb_neq _ _)) by lia. cbn [negb]. unfold TTY_LINEBUFSIZE in Hl.
  unfold memmove. unfold mbind at 1, M_bind at 1. rewrite u64_small by lia. unfold kmemmove.
  rewrite (proj2 (Z.ltb_ge _ _)) by lia. mrun. rewrite i64_small, u64_small by lia.
  set (n := Z.to_nat _). assert (Z.of_nat n = Z.of_nat (length l) - Z.of_nat cur) as En by lia.
  set (m1 := movsb_down n m _ _).
  assert (∀ x, m1.@x = if decide (ln_buf b + Z.of_nat cur + 1 < x <= ln_buf b + Z.of_nat (length l) + 1)
                       then m.@(x - 1) else m.@x) as Em.
  { intros x. unfold m1. rewrite movsb_down_spec by lia. rewrite En.
    repeat case_decide; try lia; f_equal; lia. }
  eexists. split; [done|]. split.
  - refine (proj1 (_ : _ ∧ ln_frame b m1 _)). apply (lbuf_finish m1 (m1.[ln_buf b + Z.of_nat cur <- i8 c]) b);
      rewrite ?length_app, ?length_take; cbn [length]; rewrite ?length_drop; try lia; [| |unfold TTY_LINEBUFSIZE; lia].
    + rewrite bytes_at_app. cbn [bytes_at]. rewrite length_take, Nat.min_l by lia. rewrite rd_wr_eq.
      assert (∀ x, x ≠ ln_buf b + Z.of_nat cur → (m1.[ln_buf b + Z.of_nat cur <- i8 c]).@x = m1.@x) as Hne
        by (intros; apply rd_wr_ne; congruence).
      split; [|split; [done|split]].
      * apply bytes_at_lookup. intros i x Hi. assert (i < cur)%nat.
        { apply lookup_lt_Some in Hi. rewrite length_take in Hi. lia. }
        rewrite Hne, Em, decide_False by lia. rewrite lookup_take_lt in Hi by lia. by apply Hb.
      * rewrite Hne, Em, decide_False by lia. done.
      * apply bytes_at_lookup. intros i x Hi. rewrite lookup_drop in Hi. pose proof (lookup_lt_Some _ _ _ Hi).
        rewrite Hne, Em, decide_True by lia. rewrite <-(Hb _ _ Hi). f_equal. lia.
    + intros x Hx. apply rd_wr_ne. unfold ln_buf, TTY_LINEBUFSIZE in *. lia.
  - unfold ln_cur, ln_len, ln_buf in *. rdwr. rewrite Em, decide_True by lia. f_equal. lia.
Qed.

(** "ab", cursor on the "b". *)
Definition ln_ex : gmap Z Z := list_to_map [(4096, 1); (4104, 2); (4112, 97); (4113, 98)].

Lemma insert_middle_witness :
  lbuf ln_ex 4096 [97; 98] 1 ∧
  ∃ m', _insert_char 4096 120 ln_ex = Ok 0 m' ∧
    lbuf m' 4096 (take 1 [97; 98] ++ i8 120 :: ln_ex.@(ln_buf 4096 + Z.of_nat 1 + 1) :: drop 2 [97; 98]) (1 + 1) ∧
    m'.@(ln_buf 4096 + Z.of_nat 2 + 1) = ln_ex.@(ln_buf 4096 + Z.of_nat 2).
Proof.
  assert (lbuf ln_ex 4096 [97; 98] 1) as H.
  { constructor; try reflexivity; [repeat split; reflexivity|simpl; lia|unfold TTY_LINEBUFSIZE; simpl; lia]. }
  split; [exact H|]. apply (insert_middle_loses_char ln_ex 4096 [97; 98] 1 120 H); [simpl; lia|unfold TTY_LINEBUFSIZE; simpl; lia].
Defined.

(** ** The keyboard *)

(** The keys held down: a code below 128 presses a key, with the high bit it
    releases it. *)
Definition held_step (h : gset Z) (sc : Z) : gset Z :=
  if sc <? 128 then {[sc]} ∪ h else h ∖ {[sc - 128]}.

(** The character of a key by the keys held down, -1 for none. *)
Definition key_char (h : gset Z) (sc : Z) : Z :=
  if negb (sc <? 128) then -1
  else if modifier sc then -1
  else if sc =? KBD_KEY_UP then ASCII_UP
  else if sc =? KBD_KEY_LEFT then ASCII_LEFT
  else if sc =? KBD_KEY_RIGHT then ASCII_RIGHT
  else if sc =? KBD_KEY_DOWN then ASCII_DOWN
  else if decide (KBD_KEY_SHIFT_LEFT ∈ h ∨ KBD_KEY_SHIFT_RIGHT ∈ h)
  then nth (Z.to_nat sc) keymap_shift 0
  else nth (Z.to_nat sc) keymap_base 0.

(** The state bits of the modifier keys. *)
Definition kbd_ok (m : gmap Z Z) (kbd : Z) (h : gset Z) : Prop :=
  ∀ key i, modifier key = Some i → Z.testbit (m.@(kbd_state kbd)) i = bool_decide (key ∈ h).

(** A decidable fact about the scan codes, by trying all of them. *)
Lemma byte_forall (P : Z → bool) :
  forallb (λ n, P (Z.of_nat n)) (seq 0 256) = true → ∀ sc, 0 <= sc < 256 → P sc = true.
Proof.
  intros H sc Hsc. rewrite forallb_forall in H. specialize (H (Z.to_nat sc)).
  rewrite Z2Nat.id in H by lia. apply H. rewrite in_seq. lia.
Qed.

Lemma scan_split sc : 0 <= sc < 256 →
  negb (Z.land sc 0x80 =? 0) = negb (sc <? 128) ∧ (128 <= sc → Z.land sc 0x7f = sc - 128).
Proof.
  intros H. pose proof (byte_forall (λ sc, eqb (Z.land sc 0x80 =? 0) (sc <? 128) &&
    ((sc <? 128) || (Z.land sc 0x7f =? sc - 128))) ltac:(by vm_compute) sc H) as [E1 E2]%andb_prop.
  split; [by rewrite (eqb_prop _ _ E1)|]. intros Hge. rewrite (proj2 (Z.ltb_ge _ _)) in E2 by done. by apply Z.eqb_eq in E2.
Qed.

Lemma modifier_spec key i : modifier key = Some i → 0 <= i <= 4 ∧ 0 <= key < 128.
Proof.
  unfold modifier. intros H. repeat (case_match; simplify_eq); rewrite ?Z.eqb_eq in *; subst; by vm_compute.
Qed.

Lemma modifier_inj key key' i : modifier key = Some i → modifier key' = Some i → key = key'.
Proof.
  unfold modifier. intros H H'. repeat (case_match; simplify_eq/=); rewrite ?Z.eqb_eq in *; congruence.
Qed.

Lemma set_state_run m kbd h key i (b : bool) :
  kbd_ok m kbd h → modifier key = Some i →
  ∃ m', set_state kbd i b m = Ok tt m' ∧ kbd_ok m' kbd (if b then {[key]} ∪ h else h ∖ {[key]}) ∧
    ∀ x, x ≠ kbd_state kbd → m'.@x = m.@x.
Proof.
  intros Hk Hi. pose proof (modifier_spec _ _ Hi) as [Hr _]. unfold set_state. mrun.
  eexists. split; [done|]. split; [|intros; by apply rd_wr_ne, not_eq_sym].
  intros key' i' Hi'. rewrite rd_wr_eq. pose proof (modifier_spec _ _ Hi') as [Hr' _]. specialize (Hk key' i' Hi').
  destruct (decide (i' = i)) as [->|Hne].
  - pose proof (modifier_inj _ _ _ Hi Hi') as <-. destruct b.
    + rewrite Z.setbit_eq by lia. symmetry. apply bool_decide_eq_true. set_solver.
    + rewrite Z.clearbit_eq. symmetry. apply bool_decide_eq_false. set_solver.
  - assert (key' ≠ key) by (intros ->; congruence). destruct b.
    + rewrite Z.setbit_neq, Hk by lia. apply bool_decide_ext. set_solver.
    + rewrite Z.clearbit_neq, Hk by lia. apply bool_decide_ext. set_solver.
Qed.

Lemma kbd_ok_same m kbd h sc : kbd_ok m kbd h → modifier sc = None → kbd_ok m kbd ({[sc]} ∪ h).
Proof. intros Hk Hs key i Hi. rewrite (Hk key i Hi). apply bool_decide_ext. set_solver. Qed.

Lemma kbd_ok_release m kbd h sc : kbd_ok m kbd h → modifier sc = None → kbd_ok m kbd (h ∖ {[sc]}).
Proof. intros Hk Hs key i Hi. rewrite (Hk key i Hi). apply bool_decide_ext. set_solver. Qed.

Lemma bool_decide_or' (P Q : Prop) `{Decision P, Decision Q} {A} (x y : A) :
  (if bool_decide P || bool_decide Q then x else y) = if decide (P ∨ Q) then x else y.
Proof. repeat case_bool_decide; case_decide; simpl; try done; tauto. Qed.

Lemma parse_run m kbd h sc : 0 <= sc < 256 → kbd_ok m kbd h →
  ∃ m', _parse_scan_code kbd sc m = Ok (key_char h sc) m' ∧ kbd_ok m' kbd (held_step h sc) ∧
    ∀ x, x ≠ kbd_state kbd → m'.@x = m.@x.
Proof.
  intros Hsc Hk. destruct (scan_split sc Hsc) as [E1 E2]. unfold _parse_scan_code, key_char, held_step. rewrite E1.
  destruct (Z.ltb_spec sc 128) as [Hlt|Hge]; cbn [negb].
  - destruct (modifier sc) as [i|] eqn:Ei.
    + destruct (set_state_run m kbd h sc i true Hk Ei) as (m' & E & H1 & H2). exists m'. by rewrite (bind_ok _ _ _ _ _ E).
    + exists m. split; [|split; [by apply kbd_ok_same|done]]. do 4 (case_match; [done|]).
      unfold get_state. mrun. rewrite (Hk KBD_KEY_SHIFT_LEFT LSHIFT eq_refl), (Hk KBD_KEY_SHIFT_RIGHT RSHIFT eq_refl).
      rewrite bool_decide_or'. by case_decide.
  - rewrite E2 by done. destruct (modifier (sc - 128)) as [i|] eqn:Ei.
    + destruct (set_state_run m kbd h (sc - 128) i false Hk Ei) as (m' & E & H1 & H2).
      exists m'. by rewrite (bind_ok _ _ _ _ _ E).
    + exists m. split; [done|]. split; [by apply kbd_ok_release|done].
Qed.

Fixpoint decode_all (kbd : Z) (scs : list Z) : M (list Z) :=
  match scs with
  | [] => mret []
  | sc :: scs => c ← _parse_scan_code kbd sc; cs ← decode_all kbd scs; mret (c :: cs)
  end.

Fixpoint key_chars (h : gset Z) (scs : list Z) : list Z :=
  match scs with [] => [] | sc :: scs => key_char h sc :: key_chars (held_step h sc) scs end.

(** C27: the decoding of scan codes refines the set of keys held down: for every
    sequence of scan codes each press gives the character of its key in the
    map chosen by whether a shift key is down at that moment, and releases and
    modifier keys give none; afterwards the state bits are those of the
    modifier keys still held, and nothing else is written. *)
Theorem kbd_refines_held_keys scs m kbd h :
  Forall (λ sc, 0 <= sc < 256) scs → kbd_ok m kbd h →
  ∃ m', decode_all kbd scs m = Ok (key_chars h scs) m' ∧
    kbd_ok m' kbd (fold_left held_step scs h) ∧ ∀ x, x ≠ kbd_state kbd → m'.@x = m.@x.
Proof.
  intros Hs. revert m h. induction Hs as [|sc scs Hsc Hs IH]; intros m h Hk; cbn [decode_all key_chars fold_left].
  - by exists m.
  - destruct (parse_run m kbd h sc Hsc Hk) as (m1 & E & H1 & F1). rewrite (bind_ok _ _ _ _ _ E).
    destruct (IH m1 _ H1) as (m' & E' & H' & F'). rewrite (bind_ok _ _ _ _ _ E'). exists m'.
    split; [done|]. split; [done|]. intros x Hx. by rewrite F', F1.
Qed.

Lemma kbd_ok_empty kbd : kbd_ok ∅ kbd ∅.
Proof. intros key i Hi. replace ((∅ : gmap Z Z).@(kbd_state kbd)) with 0 by reflexivity. by rewrite Z.testbit_0_l. Qed.

Lemma kbd_refines_witness :
  let scs := [0x1e; 0x2a; 0x1e; 0x9e; 0xaa; 0x1e] in
  Forall (λ sc, 0 <= sc < 256) scs ∧ key_chars ∅ scs = [97; -1; 65; -1; -1; 97] ∧
  ∃ m', decode_all 512 scs ∅ = Ok (key_chars ∅ scs) m' ∧
    kbd_ok m' 512 (fold_left held_step scs ∅) ∧ ∀ x, x ≠ kbd_state 512 → m'.@x = (∅ : gmap Z Z).@x.
Proof.
  intros scs. assert (Forall (λ sc, 0 <= sc < 256) scs) as H by (repeat constructor; lia).
  split; [exact H|]. split; [vm_compute; reflexivity|].
  exact (kbd_refines_held_keys scs ∅ 512 ∅ H (kbd_ok_empty 512)).
Defined.

Lemma u8_range z : 0 <= u8 z < 256.
Proof. unfold u8. pose proof (Z.mod_pos_bound z 256). lia. Qed.

(** What [kbd_getchar] makes of a decoded key. *)
Definition key_input (h : gset Z) (c : Z) : Z :=
  if 0 <=? c then
    let c := if decide (KBD_KEY_CTRL_LEFT ∈ h ∨ KBD_KEY_CTRL_RIGHT ∈ h) then control_char c else c in
    if CR =? c then NL else c
  else c.

Definition keymaps_ok (c : Z) : bool := (0 <=? c) && (c <? 127).

Lemma keymap_range sc : 0 <= sc < 128 →
  0 <= nth (Z.to_nat sc) keymap_shift 0 < 127 ∧ 0 <= nth (Z.to_nat sc) keymap_base 0 < 127.
Proof.
  intros H. pose proof (byte_forall (λ sc, keymaps_ok (nth (Z.to_nat sc) keymap_shift 0)
    && keymaps_ok (nth (Z.to_nat sc) keymap_base 0)) ltac:(by vm_compute) sc ltac:(lia)) as [H1 H2]%andb_prop.
  unfold keymaps_ok in *. rewrite andb_true_iff, Z.leb_le, Z.ltb_lt in *. done.
Qed.

Lemma key_char_range h sc : 0 <= sc < 256 → -1 <= key_char h sc <= ASCII_UP.
Proof.
  intros Hsc. unfold key_char. destruct (Z.ltb_spec sc 128); cbn [negb]; [|unfold ASCII_UP; lia].
  pose proof (keymap_range sc ltac:(lia)). unfold ASCII_UP, ASCII_LEFT, ASCII_RIGHT, ASCII_DOWN in *.
  repeat case_match; lia.
Qed.

Lemma key_input_range h c : -1 <= c <= ASCII_UP → -1 <= key_input h c <= ASCII_UP ∧ key_input h c ≠ CR.
Proof.
  unfold key_input, control_char, ASCII_UP, ASCII_LEFT, ASCII_RIGHT, BS, CR, NL. intros H.
  destruct (Z.leb_spec 0 c); [|lia]. cbv zeta. repeat case_match; rewrite ?Z.eqb_eq, ?Z.eqb_neq in *; lia.
Qed.

Section getchar.
Context (syscall : Z → list Z → M Z) (stk : Z).

(** [kbd_getchar] behind the two port reads. *)
Lemma getchar_tail m kbd h sc : 0 <= sc < 256 → kbd_ok m kbd h →
  ∃ m', (ascii ← _parse_scan_code kbd sc;
         if 0 <=? ascii then
           l ← get_state kbd LCTRL; r ← get_state kbd RCTRL;
           let ascii := if l || r then control_char ascii else ascii in
           mret (if CR =? ascii then NL else ascii)
         else mret ascii) m = Ok (key_input (held_step h sc) (key_char h sc)) m' ∧
    kbd_ok m' kbd (held_step h sc) ∧ ∀ x, x ≠ kbd_state kbd → m'.@x = m.@x.
Proof.
  intros Hsc Hk. destruct (parse_run m kbd h sc Hsc Hk) as (m' & E & H1 & F1). exists m'.
  split; [|done]. rewrite (bind_ok _ _ _ _ _ E). unfold key_input. destruct (0 <=? key_char h sc); [|done].
  unfold get_state. mrun. rewrite (H1 KBD_KEY_CTRL_LEFT LCTRL eq_refl), (H1 KBD_KEY_CTRL_RIGHT RCTRL eq_refl).
  cbv zeta. by rewrite bool_decide_or'.
Qed.

(** [kbd_getchar] returns -1 when the controller has nothing; otherwise it
    takes one scan code and returns its character by the keys held down, with
    control-h, -b and -f as the editing keys and return as a new line, always
    -1 or a code up to 0x86 and never a carriage return. *)
Theorem kbd_getchar_correct m kbd st m1 :
  driver_in8 syscall stk KBD_CTRL m = Ok st m1 →
  (Z.land st 1 = 0 → kbd_getchar syscall stk kbd m = Ok (-1) m1) ∧
  (Z.land st 1 ≠ 0 → ∀ d m2 h, driver_in8 syscall stk KBD_ENC m1 = Ok d m2 → kbd_ok m2 kbd h →
     let c := key_input (held_step h (u8 d)) (key_char h (u8 d)) in
     (∃ m', kbd_getchar syscall stk kbd m = Ok c m' ∧ kbd_ok m' kbd (held_step h (u8 d)) ∧
        ∀ x, x ≠ kbd_state kbd → m'.@x = m2.@x) ∧
     -1 <= c <= ASCII_UP ∧ c ≠ CR).
Proof.
  intros E. unfold kbd_getchar. rewrite (bind_ok _ _ _ _ _ E). split.
  - by intros ->.
  - intros Hst d m2 h Ed Hk. cbv zeta. rewrite (proj2 (Z.eqb_neq _ _)) by done. unfold _enc_read_buf. mrun.
    rewrite (bind_ok _ _ _ _ _ Ed). mrun. split; [by apply getchar_tail, Hk; apply u8_range|].
    apply key_input_range, key_char_range, u8_range.
Qed.
End getchar.

(** A keyboard that has the scan code of "a" in the shift key's company: the
    status port reads 1, the data port 0x1e. *)
Definition port_ex (nr : Z) (args : list Z) : M Z :=
  let io := nth 1 args 0 in
  port ← ld io; _ ← st (io + 8) (if port =? KBD_CTRL then 1 else 0x1e); mret 0.

Definition kbd_mem1 : gmap Z Z := list_to_map [(16, 1); (8, KBD_CTRL)].
Definition kbd_mem2 : gmap Z Z := list_to_map [(16, 0x1e); (8, KBD_ENC)].

Lemma kbd_getchar_witness :
  driver_in8 port_ex 8 KBD_CTRL ∅ = Ok 1 kbd_mem1 ∧ driver_in8 port_ex 8 KBD_ENC kbd_mem1 = Ok 0x1e kbd_mem2 ∧
  (∃ m', kbd_getchar port_ex 8 512 ∅ = Ok (key_input (held_step ∅ (u8 0x1e)) (key_char ∅ (u8 0x1e))) m' ∧
     kbd_ok m' 512 (held_step ∅ (u8 0x1e)) ∧ ∀ x, x ≠ kbd_state 512 → m'.@x = kbd_mem2.@x) ∧
  key_input (held_step ∅ (u8 0x1e)) (key_char ∅ (u8 0x1e)) = 97.
Proof.
  assert (driver_in8 port_ex 8 KBD_CTRL ∅ = Ok 1 kbd_mem1) as E1 by (vm_compute; reflexivity).
  assert (driver_in8 port_ex 8 KBD_ENC kbd_mem1 = Ok 0x1e kbd_mem2) as E2 by (vm_compute; reflexivity).
  split; [exact E1|]. split; [exact E2|]. split; [|vm_compute; reflexivity].
  refine (proj1 (proj2 (kbd_getchar_correct port_ex 8 ∅ 512 1 kbd_mem1 E1) _ 0x1e kbd_mem2 ∅ E2 _)); [discriminate|].
  intros key i Hi. exact (kbd_ok_empty 512 key i Hi).
Defined.

(** *** Polling *)

(** The loop of the source: at most [n] tries. *)
Fixpoint tries {A} (n : nat) (try : M (option A)) : M (option A) :=
  match n with
  | O => mret None
  | S n => r ← try; match r with Some a => mret (Some a) | None => tries n try end
  end.

Lemma tries_add {A} n1 n2 (try : M (option A)) m :
  tries (n1 + n2) try m =
  (r ← tries n1 try; match r with Some a => mret (Some a) | None => tries n2 try end) m.
Proof.
  revert m. induction n1 as [|n1 IH]; intros m; [done|]. cbn [tries Nat.add]. mrun.
  unfold mbind, M_bind. destruct (try m) as [[a|] m1| |]; first [done|apply IH].
Qed.

Lemma retry_tries {A} p (try : M (option A)) m : retry p try m = tries (Pos.to_nat p) try m.
Proof.
  revert m. induction p as [p IH|p IH|]; intros m; cbn [retry].
  - rewrite Pos2Nat.inj_xI. replace (S (2 * Pos.to_nat p)) with (S (Pos.to_nat p + Pos.to_nat p)) by lia.
    cbn [tries]. apply bind_ext; [done|]. intros [a|] m1; [done|]. rewrite tries_add.
    apply bind_ext; [apply IH|]. intros [a|] m2; [done|apply IH].
  - rewrite Pos2Nat.inj_xO. replace (2 * Pos.to_nat p)%nat with (Pos.to_nat p + Pos.to_nat p)%nat by lia.
    rewrite tries_add. apply bind_ext; [apply IH|]. intros [a|] m2; [done|apply IH].
  - change (Pos.to_nat 1) with 1%nat. cbn [tries]. unfold mbind, M_bind. by destruct (try m) as [[a|] m1| |].
Qed.

Lemma tries_fail {A} n k (try : M (option A)) (ms : nat → gmap Z Z) :
  (∀ j, (j < n)%nat → try (ms j) = Ok None (ms (S j))) →
  tries (n + k) try (ms 0%nat) = tries k try (ms n).
Proof.
  intros H. rewrite tries_add. rewrite (bind_ok _ _ _ None (ms n)); [done|]. clear k.
  induction n as [|n IH]; [done|]. replace (S n) with (n + 1)%nat by lia. rewrite tries_add.
  rewrite (bind_ok _ _ _ None (ms n)) by (apply IH; intros; apply H; lia). cbn [tries].
  rewrite (bind_ok _ _ _ _ _ (H n ltac:(lia))). by replace (n + 1)%nat with (S n) by lia.
Qed.

Section poll.
Context (syscall : Z → list Z → M Z) (stk : Z).

(** The controller is busy in the memories [ms 0], ..., [ms (n - 1)]. *)
Definition busy (ms : nat → gmap Z Z) (n : nat) : Prop :=
  ∀ j, (j < n)%nat → ∃ s, _read_ctrl_status syscall stk (ms j) = Ok s (ms (S j)) ∧ Z.land s KBD_STAT_IBUF ≠ 0.

Lemma busy_tries port cmd ms n j : busy ms n → (j < n)%nat →
  try_write syscall stk port cmd (ms j) = Ok None (ms (S j)).
Proof.
  intros H Hj. destruct (H j Hj) as (s & E & Hs). unfold try_write. rewrite (bind_ok _ _ _ _ _ E).
  rewrite (proj2 (Z.eqb_neq 0 _)) by congruence. done.
Qed.

(** a command to the keyboard always ends: when the controller is ready at
    the latest at the last of the [KBD_MAX_RETRY] polls, the command byte is
    sent exactly once, right behind the first poll that finds it ready, and the
    result is that of the port write with [KBD_OK]; a controller that stays
    busy makes it give up with [KBD_ERROR] after that many polls, with nothing sent. *)
Theorem kbd_write_terminates cmd ms n :
  busy ms n →
  (Z.of_nat n < Zpos KBD_MAX_RETRY → ∀ s m1 m2,
     _read_ctrl_status syscall stk (ms n) = Ok s m1 → Z.land s KBD_STAT_IBUF = 0 →
     driver_out8 syscall stk KBD_ENC cmd m1 = Ok tt m2 →
     _enc_write_cmd syscall stk cmd (ms 0%nat) = Ok KBD_OK m2) ∧
  (Z.of_nat n = Zpos KBD_MAX_RETRY → _enc_write_cmd syscall stk cmd (ms 0%nat) = Ok KBD_ERROR (ms n)).
Proof.
  intros Hb. unfold _enc_write_cmd. generalize KBD_MAX_RETRY. intros p.
  assert (∀ r m', tries (Pos.to_nat p) (try_write syscall stk KBD_ENC cmd) (ms 0%nat) = Ok r m' →
    (r ← retry p (try_write syscall stk KBD_ENC cmd); mret (default KBD_ERROR r)) (ms 0%nat)
      = Ok (default KBD_ERROR r) m') as Hr.
  { intros r m' E. rewrite <-retry_tries in E. by rewrite (bind_ok _ _ _ _ _ E). }
  split.
  - intros Hn s m1 m2 Es Hs Eo. apply (Hr (Some KBD_OK)).
    replace (Pos.to_nat p) with (n + S (Pos.to_nat p - S n))%nat by lia.
    rewrite (tries_fail n _ _ ms) by (intros; by eapply busy_tries). cbn [tries]. unfold try_write. mrun.
    rewrite (bind_ok _ _ _ _ _ Es), Hs. cbn [Z.eqb]. mrun. rewrite (bind_ok _ _ _ _ _ Eo). mrun. done.
  - intros Hn. apply (Hr None). replace (Pos.to_nat p) with (n + 0)%nat by lia.
    rewrite (tries_fail n _ _ ms) by (intros; by eapply busy_tries). done.
Qed.
End poll.

(** A controller that is busy for two polls: the cell 0 counts them. *)
Definition busy_ex (nr : Z) (args : list Z) : M Z :=
  if nth 0 args 0 =? SYSDRIVER_IN8 then
    n ← ld 0; _ ← st 0 (n + 1); _ ← st (nth 1 args 0 + 8) (if n <? 2 then KBD_STAT_IBUF else 0); mret 0
  else c ← ld (nth 1 args 0 + 8); _ ← st 4 c; mret 0.

Definition busy_ms (j : nat) : gmap Z Z :=
  match j with
  | O => ∅
  | S O => list_to_map [(16, 2); (0, 1); (8, KBD_CTRL)]
  | _ => list_to_map [(16, 2); (0, 2); (8, KBD_CTRL)]
  end.

Lemma kbd_write_witness :
  busy busy_ex 8 busy_ms 2 ∧ ∃ m, _enc_write_cmd busy_ex 8 0xed (busy_ms 0) = Ok KBD_OK m.
Proof.
  assert (busy busy_ex 8 busy_ms 2) as Hb.
  { intros j Hj. exists 2. destruct j as [|[|j]]; [split; [reflexivity|discriminate]..|lia]. }
  split; [exact Hb|]. eexists.
  eapply (proj1 (kbd_write_terminates busy_ex 8 0xed busy_ms 2 Hb)); [reflexivity..].
Defined.

(** ** The text screen *)

Section screen.
Context (syscall : Z → list Z → M Z) (stk con vram : Z).

(** Port writes return and change nothing but the wrapper's local structure. *)
Definition ports_ok : Prop :=
  ∀ data m, ∃ m', driver_out16 syscall stk VIDEO_PORT data m = Ok tt m' ∧
    ∀ x, ¬ (stk <= x < stk + 16) → m'.@x = m.@x.

(** The console, [n] cells of video memory and that structure are apart. *)
Record screen_apart (n : Z) : Prop := {
  sa_vram_con : vram + 2 * n <= con ∨ con + 80 <= vram;
  sa_vram_stk : vram + 2 * n <= stk ∨ stk + 16 <= vram;
  sa_con_stk : con + 80 <= stk ∨ stk + 16 <= con;
}.

(** A console of 80 by 25 whose text ends at [eob]. *)
Record screen (m : gmap Z Z) (eob : Z) : Prop := {
  sc_vram : m.@(con_vram con) = vram;
  sc_width : m.@(con_width con) = 80;
  sc_height : m.@(con_height con) = 25;
  sc_eob : m.@(con_eob con) = eob;
}.

Lemma screen_same m m' eob :
  screen m eob → (∀ x, con <= x < con + 64 → m'.@x = m.@x) → screen m' eob.
Proof.
  intros [] H. unfold con_vram, con_width, con_height, con_eob in *.
  constructor; unfold con_vram, con_width, con_height, con_eob; by rewrite H by lia.
Qed.

Lemma cursor_run m pos : ports_ok →
  ∃ m', _update_cursor syscall stk pos m = Ok tt m' ∧ ∀ x, ¬ (stk <= x < stk + 16) → m'.@x = m.@x.
Proof.
  intros Hp. unfold _update_cursor.
  destruct (Hp (Z.lor (Z.shiftl (Z.land pos 0xff) 8) 0x0f) m) as (m1 & E1 & F1). rewrite (bind_ok _ _ _ _ _ E1).
  destruct (Hp (Z.lor (Z.land pos 0xff00) 0x0e) m1) as (m' & E & F). exists m'. split; [done|].
  intros x Hx. by rewrite F, F1.
Qed.

(** The end of the text and the mark are set, then the cursor moves. *)
Lemma putc_tail m m1 n eob : ports_ok → screen_apart n → - 2 ^ 63 <= eob < 2 ^ 63 →
  screen m1 eob → m = m1 →
  ∃ m', (eob ← ld (con_eob con); _ ← st (con_lmark con) eob; eob ← ld (con_eob con);
         _update_cursor syscall stk (i32 eob)) m = Ok tt m' ∧
    screen m' eob ∧ m'.@(con_lmark con) = eob ∧
    (∀ x, ¬ (con <= x < con + 80) → ¬ (stk <= x < stk + 16) → m'.@x = m1.@x).
Proof.
  intros Hp [] He Hs ->. mrun. rewrite (sc_eob _ _ Hs). rewrite rd_wr_ne by (unfold con_eob, con_lmark; lia).
  rewrite (sc_eob _ _ Hs). destruct (cursor_run (m1.[con_lmark con <- eob]) (i32 eob) Hp) as (m' & E & F).
  exists m'. split; [done|]. unfold con_lmark, con_eob in *. split; [|split].
  - eapply screen_same; [done|]. intros x Hx. rewrite F by lia. by rdwr.
  - rewrite F by lia. by rdwr.
  - intros x H1 H2. rewrite F by done. by rdwr.
Qed.

Lemma for_up_fill k m b i v :
  ∃ m', for_up k i (λ i, st (b + i) v) m = Ok tt m' ∧
    ∀ x, m'.@x = if decide (b + i <= x < b + i + Z.of_nat k) then v else m.@x.
Proof.
  revert m i. induction k as [|k IH]; intros m i; cbn [for_up].
  - exists m. split; [done|]. intros y. by rewrite decide_False by lia.
  - mrun. destruct (IH (m.[b + i <- v]) (i + 1)) as (m' & E & F). exists m'. split; [done|].
    intros y. rewrite F, rd_wr. repeat case_decide; try lia; done.
Qed.

Lemma screen_scroll_run m : screen_apart 2000 →
  ∃ m', (_ ← memmove vram (cell vram 80) 3840; memset (cell vram 1920) 0 160) m = Ok tt m' ∧
    (∀ i, 0 <= i < 2000 → m'.@(cell vram i) = if decide (i < 1920) then m.@(cell vram (i + 80)) else 0) ∧
    (∀ x, ¬ (vram <= x < vram + 4000) → m'.@x = m.@x).
Proof.
  intros _. unfold memmove, kmemmove, cell. unfold mbind, M_bind. rewrite (proj2 (Z.ltb_lt _ _)) by lia.
  destruct (for_up_fill (Z.to_nat 160) (kmemcpy (Z.to_nat 3840) m vram (vram + 2 * 80)) (vram + 2 * 1920) 0 (u8 0))
    as (m' & E & F). exists m'. split; [done|].
  split; [intros i Hi|intros x Hx]; rewrite F, kmemcpy_forward by lia; rewrite !Z2Nat.id by lia.
  - destruct (decide (i < 1920)).
    + rewrite decide_False, decide_True by lia. f_equal. lia.
    + by rewrite decide_True by lia.
  - by rewrite !decide_False by lia.
Qed.

(** a new line on the console moves the end of the text to the start of the
    next line and leaves the screen alone; on the last line the text scrolls
    instead: every line takes the one below it, the last one is cleared and
    the text goes on at its start. *)
Theorem putc_newline_correct m eob :
  ports_ok → screen_apart 2000 → screen m eob → 0 <= eob < 2000 →
  ∃ m', _putc syscall stk con NL m = Ok tt m' ∧
    let eob' := if decide (eob < 1920) then 80 * (eob / 80 + 1) else 1920 in
    screen m' eob' ∧ m'.@(con_lmark con) = eob' ∧ 0 <= eob' < 2000 ∧
    ∀ i, 0 <= i < 2000 → m'.@(cell vram i) =
      if decide (eob < 1920) then m.@(cell vram i)
      else if decide (i < 1920) then m.@(cell vram (i + 80)) else 0.
Proof.
  intros Hp Ha Hs He. unfold _putc. rewrite Z.eqb_refl. mrun.
  rewrite (sc_eob _ _ Hs), (sc_width _ _ Hs), (sc_height _ _ Hs), (u64_small eob) by lia.
  pose proof (Z.div_mod eob 80 ltac:(lia)). pose proof (Z.mod_pos_bound eob 80 ltac:(lia)). cbv zeta.
  assert (∀ m1 e, screen m1 e → 0 <= e < 2000 → ∃ m', (eob ← ld (con_eob con); _ ← st (con_lmark con) eob;
    eob ← ld (con_eob con); _update_cursor syscall stk (i32 eob)) m1 = Ok tt m' ∧ screen m' e ∧ m'.@(con_lmark con) = e ∧
    ∀ i, 0 <= i < 2000 → m'.@(cell vram i) = m1.@(cell vram i)) as Htail.
  { intros m1 e H1 Hr. destruct (putc_tail m1 m1 2000 e Hp Ha ltac:(lia) H1 eq_refl) as (m' & E & S & L & F).
    exists m'. repeat (split; [done|]). intros i Hi. destruct Ha. unfold cell. apply F; lia. }
  assert (∀ m1 e, (∀ x, con <= x < con + 64 → m1.@x = m.@x) → screen (m1.[con_eob con <- e]) e) as Hset.
  { intros m1 e H1. destruct Hs. unfold con_eob, con_vram, con_width, con_height in *.
    constructor; unfold con_eob, con_vram, con_width, con_height; rdwr; rewrite ?H1 by lia; done. }
  destruct (decide (eob < 1920)) as [Hlt|Hge].
  - rewrite (proj2 (Z.eqb_neq _ _)) by lia. mrun.
    assert (i64 (eob + u64 (80 - eob mod 80)) = 80 * (eob / 80 + 1)) as -> by (rewrite u64_small, i64_small by lia; lia).
    destruct (Htail _ _ (Hset m (80 * (eob / 80 + 1)) ltac:(done)) ltac:(lia)) as (m' & E & S & L & F).
    exists m'. repeat (split; [done|]). split; [lia|]. intros i Hi. rewrite F by done.
    destruct Ha. apply rd_wr_ne. unfold cell, con_eob in *. lia.
  - rewrite (proj2 (Z.eqb_eq _ _)) by lia. mrun. rewrite (sc_vram _ _ Hs).
    change (u64 (80 * (25 - 1) * 2)) with 3840. change (80 * (25 - 1)) with 1920. change (u64 (80 * 2)) with 160.
    destruct (screen_scroll_run m Ha) as (m1 & E1 & F1 & G1).
    assert (∀ x, con <= x < con + 64 → m1.@x = m.@x) as Hcon by (intros; destruct Ha; apply G1; lia).
    unfold memmove in *. unfold mbind at 1, M_bind at 1. unfold mbind at 1, M_bind at 1 in E1. mrun.
    set (m0 := kmemmove _ m _ _) in *.
    assert (m0.@(con_vram con) = vram) as ->.
    { unfold m0, kmemmove. rewrite (proj2 (Z.ltb_lt _ _)) by (unfold cell; lia). rewrite kmemcpy_forward by (unfold cell; lia).
      rewrite decide_False; [apply Hs|]. rewrite Z2Nat.id by lia. destruct Ha. unfold con_vram. lia. }
    rewrite (bind_ok _ _ _ _ _ E1). mrun. rewrite (i64_small (eob - eob mod 80)) by lia.
    replace (eob - eob mod 80) with 1920 by lia.
    destruct (Htail _ _ (Hset m1 1920 Hcon) ltac:(lia)) as (m' & E & S & L & F).
    exists m'. repeat (split; [done|]). intros i Hi. rewrite F, <-F1 by done.
    destruct Ha. apply rd_wr_ne. unfold cell, con_eob in *. lia.
Qed.

Lemma putc_plain_run m n eob c : ports_ok → screen_apart n → screen m eob → 0 <= eob < n → n < 2 ^ 62 →
  c ≠ NL → c ≠ BS → c ≠ TAB →
  ∃ m', _putc syscall stk con c m = Ok tt m' ∧ screen m' (eob + 1) ∧
    (∀ i, 0 <= i < n → m'.@(cell vram i) = if decide (i = eob) then u16 (Z.lor 0x0f c) else m.@(cell vram i)).
Proof.
  intros Hp Ha Hs He Hn N1 N2 N3. unfold _putc. rewrite !(proj2 (Z.eqb_neq _ c)) by done. cbv zeta. mrun.
  rewrite (sc_vram _ _ Hs), (sc_eob _ _ Hs).
  set (m1 := m.[cell vram eob <- _]).
  assert (∀ x, con <= x < con + 80 → m1.@x = m.@x) as H1.
  { intros x Hx. destruct Ha. unfold m1, cell. by rdwr. }
  rewrite (H1 (con_eob con)) by (unfold con_eob; lia). rewrite (sc_eob _ _ Hs), (i64_small (eob + 1)) by lia.
  assert (screen (m1.[con_eob con <- eob + 1]) (eob + 1)) as Hs1.
  { destruct Hs. unfold con_eob, con_vram, con_width, con_height in *.
    constructor; unfold con_eob, con_vram, con_width, con_height; rdwr; rewrite ?H1 by lia; done. }
  destruct (putc_tail _ _ n (eob + 1) Hp Ha ltac:(lia) Hs1 eq_refl) as (m' & E & S & _ & F).
  revert E. mrun. intros E. exists m'. split; [exact E|]. split; [done|].
  intros i Hi. destruct Ha. rewrite F by (unfold cell; lia).
  rewrite rd_wr_ne by (unfold cell, con_eob; lia). unfold m1. rewrite rd_wr. unfold cell.
  repeat case_decide; try lia; done.
Qed.

Fixpoint putc_all (cs : list Z) : M unit :=
  match cs with [] => mret tt | c :: cs => _ ← _putc syscall stk con c; putc_all cs end.

(** plain text is never wrapped or scrolled: the characters go to
    consecutive cells whatever the size of the screen, so the 2001st one in a
    row is written behind it, and each is stored as [0x0f | c], attribute 0 and
    the low four bits of the character set, instead of [0x0f00 | c]. *)
Theorem putc_runs_off_screen m cs :
  let n := Z.of_nat (length cs) in
  ports_ok → screen_apart n → screen m 0 → n < 2 ^ 62 →
  Forall (λ c, c ≠ NL ∧ c ≠ BS ∧ c ≠ TAB) cs →
  ∃ m', putc_all cs m = Ok tt m' ∧ screen m' n ∧
    ∀ i c, cs !! i = Some c → m'.@(cell vram (Z.of_nat i)) = u16 (Z.lor 0x0f c).
Proof.
  intros n Hp Ha Hs Hn Hc.
  assert (∀ cs2 cs1 m1, cs = cs1 ++ cs2 → screen m1 (Z.of_nat (length cs1)) →
    (∀ i c, cs1 !! i = Some c → m1.@(cell vram (Z.of_nat i)) = u16 (Z.lor 0x0f c)) →
    ∃ m', putc_all cs2 m1 = Ok tt m' ∧ screen m' n ∧
      ∀ i c, cs !! i = Some c → m'.@(cell vram (Z.of_nat i)) = u16 (Z.lor 0x0f c)) as Hall;
    [|by apply (Hall cs [] m)].
  induction cs2 as [|c cs2 IH]; intros cs1 m1 E S F; cbn [putc_all].
  { rewrite app_nil_r in E. subst cs1. by exists m1. }
  rewrite E in Hc. apply Forall_app in Hc as [_ [Hc1 _]%Forall_cons].
  assert (Z.of_nat (length cs1) < n) by (unfold n; rewrite E, length_app; simpl; lia).
  destruct (putc_plain_run m1 n (Z.of_nat (length cs1)) c Hp Ha S) as (m2 & E2 & S2 & F2); try tauto; [lia|].
  rewrite (bind_ok _ _ _ _ _ E2). apply (IH (cs1 ++ [c])).
  - by rewrite <-app_assoc.
  - rewrite length_app. simpl. by replace (Z.of_nat (length cs1 + 1)) with (Z.of_nat (length cs1) + 1) by lia.
  - intros i c' Hi. pose proof (lookup_lt_Some _ _ _ Hi) as Hl. rewrite length_app in Hl. simpl in Hl.
    rewrite F2 by (unfold n in *; lia). case_decide as Hd.
    + assert (i = length cs1) as -> by lia. rewrite list_lookup_middle in Hi by done. congruence.
    + rewrite lookup_app_l in Hi by lia. by apply F.
Qed.
End screen.

(** Port writes that do nothing; the console at 64, the screen at 8192. *)
Definition ports_ex (nr : Z) (args : list Z) : M Z := mret 0.
Definition screen_ex : gmap Z Z := list_to_map [(72, 8192); (96, 80); (104, 25); (120, 1955); (8192, 65); (8352, 66)].
Definition blank_ex : gmap Z Z := list_to_map [(72, 8192); (96, 80); (104, 25)].

Lemma ports_ex_ok : ports_ok ports_ex 8.
Proof. intros data m. eexists. split; [reflexivity|]. intros x Hx. unfold io_data, io_port. by rdwr. Qed.

Lemma putc_newline_witness :
  ∃ m', _putc ports_ex 8 64 NL screen_ex = Ok tt m' ∧ screen 64 8192 m' 1920 ∧
    m'.@(cell 8192 0) = screen_ex.@(cell 8192 80).
Proof.
  destruct (putc_newline_correct ports_ex 8 64 8192 screen_ex 1955) as (m' & E & S & _ & _ & F).
  - exact ports_ex_ok.
  - constructor; lia.
  - constructor; reflexivity.
  - lia.
  - exists m'. split; [exact E|]. split; [exact S|]. exact (F 0 ltac:(lia)).
Defined.

Lemma putc_runs_witness :
  ∃ m', putc_all ports_ex 8 64 (replicate 2001 97) blank_ex = Ok tt m' ∧ screen 64 8192 m' 2001 ∧
    m'.@(cell 8192 2000) = 0x6f.
Proof.
  destruct (putc_runs_off_screen ports_ex 8 64 8192 blank_ex (replicate 2001 97)) as (m' & E & S & F).
  - exact ports_ex_ok.
  - constructor; rewrite ?length_replicate; lia.
  - constructor; reflexivity.
  - rewrite length_replicate. lia.
  - apply Forall_replicate. repeat split; discriminate.
  - exists m'. split; [exact E|]. split; [exact S|]. apply (F 2000%nat 97). apply lookup_replicate_2. lia.
Defined.

(** ** The driver on the kernel

    The driver's system calls are the kernel's [sys_driver]: the task at 1000
    belongs to the process at 2000, which owns device 0, the entry at 65536 of
    the table at 30000.  The keyboard has the scan codes in the cells from
    200 on, the cell 199 counts those read. *)

Definition keyboard (width port : Z) : M Z :=
  n ← ld 199; c ← ld (200 + n);
  if port =? KBD_CTRL then mret (if c =? 0 then 0 else KBD_STAT_OBUF)
  else _ ← st 199 (n + 1); mret c.

#[local] Instance no_slab : KernelSlab := {|
  slab_alloc := λ _, mret 0; slab_free := λ _ _, mret 0; slab_create := λ _ _, mret 0 |}.

Definition kernel (nr : Z) (args : list Z) : M Z :=
  if nr =? SYS_driver then
    sys_driver 30000 0 (mret 1000) 64 keyboard (λ _ _ _, mret tt) (λ _ addr _, mret addr)
      (nth 0 args 0) (nth 1 args 0)
  else mret (-1).

(** The console is at 64, the tty at 10000, the screen at 131072. *)
Definition tty_ex (codes : list Z) : gmap Z Z :=
  list_to_map (imap (λ i c, (200 + Z.of_nat i, c)) codes) ∪
  list_to_map [(1008, 2000); (12272, 3000); (30008, 65536); (65536 + 17456, 2000);
               (72, 131072); (96, 80); (104, 25); (10000 + 4136, ECHO)].

(** the driver handles the keys of a line, "a" typed and released here,
    echoes them on the screen and returns; but the first return key makes it
    hang for ever, on an empty line too: [driver_putc] leaves the device
    locked in the kernel, and the next call of the driver, for the next
    character or for output, spins on that lock. *)
Theorem tty_hangs_at_first_line :
  (∃ m, console_proc kernel 8 64 64 10000 (tty_ex [0x1e; 0x9e]) = Ok 0 m ∧
     lbuf m 10000 [97] 1 ∧ m.@(cell 131072 0) = 0x0f61) ∧
  console_proc kernel 8 64 64 10000 (tty_ex [0x1e; 0x1c]) = Hang ∧
  console_proc kernel 8 64 64 10000 (tty_ex [0x1c]) = Hang.
Proof.
  split; [|split; vm_compute; reflexivity].
  destruct (console_proc kernel 8 64 64 10000 (tty_ex [0x1e; 0x9e])) as [a m| |] eqn:E; [|exfalso; by vm_compute in E..].
  exists m. revert E. vm_compute. intros [= <- <-]. split; [done|]. split; [|done].
  by constructor.
Qed.
