(* ===== verification/DevfsPipe.v ===== *)
(** * Bytes from a driver to a reader

    The library call of a user-mode driver (lib/arch/x86_64/libadvos.c), the
    system call it makes (kernel/sysdriver.c) and the ring buffer of the device
    (kernel/devfs.c) put together, from [driver_write] in one process to
    [devfs_read] in another. *)

From S2P Require Import Prelude CMonad KString Kmem Slab Devfs DevfsTheorems Tty.

Section pipe.
Context {KS : KernelSlab} (devfs entry_str task_list_str : Z) (fuel : nat).
Context (port_in : Z → Z → M Z) (port_out : Z → Z → Z → M unit) (wire2 : Z → Z → Z → M Z) (task_switch : M unit).

(** The kernel's side of the trap, while [this_task] runs. *)
Definition kernel_call (this_task : M Z) (nr : Z) (args : list Z) : M Z :=
  if nr =? SYS_driver then
    sys_driver devfs entry_str this_task fuel port_in port_out wire2 (nth 0 args 0) (nth 1 args 0)
  else mret (-1).

(** [sysdriver_msg_t] on the driver's stack. *)
Definition in_msg (stk x : Z) : Prop := stk <= x < stk + 24.

(** The driver: task [t] of process [p], which owns device [index] (the entry
    [e]); its cells, the text and the message do not overlap. *)
Record driver_side (this_task : M Z) (m : gmap Z Z) (stk t p index e buf len : Z) : Prop := {
  ds_task m' : (∀ x, ¬ in_msg stk x → m'.@x = m.@x) → this_task m' = Ok t m';
  ds_nonnull : t ≠ 0 ∧ p ≠ 0 ∧ e ≠ 0;
  ds_proc : m.@(task_proc t) = p ∧ ¬ in_msg stk (task_proc t);
  ds_index : 0 <= index < DEVFS_MAXDEVS;
  ds_slot : m.@(devfs_entry_at devfs index) = e ∧ ¬ in_msg stk (devfs_entry_at devfs index);
  ds_owner : m.@(de_proc e) = p;
  ds_lock : m.@(de_lock e) = 0;
  ds_entry x : in_msg stk x → ¬ (e <= x < e + sizeof_devfs_entry) ∧ ¬ (buf <= x < buf + len);
  ds_buf : buf_apart e buf len;
}.

(** The message of [driver_write]. *)
Definition with_msg (stk index buf n : Z) (m : gmap Z Z) : gmap Z Z :=
  m.[msg_type stk <- SYSDRIVER_MSG_WRITE].[msg_dev stk <- index].[msg_buf stk <- buf].[msg_nbytes stk <- n].

Lemma with_msg_frame stk index buf n m x : ¬ in_msg stk x → (with_msg stk index buf n m).@x = m.@x.
Proof.
  unfold in_msg, with_msg, msg_type, msg_dev, msg_buf, msg_nbytes. intros Hx. by rewrite !rd_wr_ne by lia.
Qed.

Lemma with_msg_read stk index buf n m : let m' := with_msg stk index buf n m in
  m'.@(msg_type stk) = SYSDRIVER_MSG_WRITE ∧ m'.@(msg_dev stk) = index ∧ m'.@(msg_buf stk) = buf ∧ m'.@(msg_nbytes stk) = n.
Proof.
  unfold with_msg, msg_type, msg_dev, msg_buf, msg_nbytes. cbv zeta.
  split_and!; by rewrite !rd_wr; repeat (case_decide; [try lia; try done|]).
Qed.

Lemma fits_i32 q n : i32 (Z.of_nat (fits q n)) = Z.of_nat (fits q n).
Proof. unfold i32, fits, BUF. rewrite Z.mod_small; lia. Qed.

(** A message is handed on by [sys_driver]. *)
Lemma sys_driver_msg this_task args :
  sys_driver devfs entry_str this_task fuel port_in port_out wire2 SYSDRIVER_MSG args =
  (t ← this_task; if t =? 0 then mret (-1) else
   proc ← ld (task_proc t); if proc =? 0 then mret (-1) else _msg devfs t args).
Proof. reflexivity. Qed.

(** The call of the driver queues the text. *)
Lemma driver_write_run this_task m stk t p index e buf bs q :
  driver_side this_task m stk t p index e buf (Z.of_nat (length bs)) →
  fifo_at m (entry_ibuf e) q → bytes_at m buf bs → Forall (λ b, 0 <= b < 128) bs → Z.of_nat (length bs) < 2 ^ 63 →
  ∃ m', driver_write (kernel_call this_task) stk index buf (Z.of_nat (length bs)) m = Ok (Z.of_nat (fits q (length bs))) m' ∧
    fifo_at m' (entry_ibuf e) (q ++ take (fits q (length bs)) bs) ∧
    ∀ x, ¬ in_msg stk x → ¬ (entry_ibuf e <= x < entry_ibuf e + sizeof_fifo) → m'.@x = m.@x.
Proof.
  intros [Ht (Ht0 & Hp0 & He0) [Hp Hp'] Hi [Hs Hs'] Ho Hl Hd Ha] Hq Hb Hc Hn.
  set (m0 := with_msg stk index buf (Z.of_nat (length bs)) m).
  assert (∀ x, ¬ in_msg stk x → m0.@x = m.@x) as F0 by (intros x; apply with_msg_frame).
  assert (∀ x, e <= x < e + sizeof_devfs_entry → m0.@x = m.@x) as Fe.
  { intros x Hx. apply F0. intros Hm. by destruct (Hd x Hm). }
  destruct (devfs_driver_write_spec m0 devfs index p buf bs e q) as (m' & E & Hq' & F');
    [lia|by rewrite F0|done|by rewrite Fe by (unfold de_proc, sizeof_devfs_entry; lia)
    |by rewrite Fe by (unfold de_lock, sizeof_devfs_entry; lia)| | |done..|].
  - eapply fifo_at_frame; [|done]. intros x Hx. by apply Fe, ibuf_inside.
  - rewrite bytes_at_lookup in *. intros j b Hj. rewrite F0; [by apply Hb|]. intros Hm.
    destruct (Hd _ Hm) as [_ []]. apply lookup_lt_Some in Hj. lia.
  - destruct (with_msg_read stk index buf (Z.of_nat (length bs)) m) as (E1 & E2 & E3 & E4). fold m0 in E1, E2, E3, E4.
    exists m'. split_and!; [|done|intros x Hx Hx'; rewrite F' by done; by apply F0].
    unfold driver_write. mrun. change (m.[_ <- _].[_ <- _].[_ <- _].[_ <- _]) with m0.
    assert (kernel_call this_task SYS_driver [SYSDRIVER_MSG; stk] m0 = Ok (Z.of_nat (fits q (length bs))) m') as Ek.
    { unfold kernel_call. cbn [nth]. rewrite Z.eqb_refl, sys_driver_msg, (bind_ok _ _ _ _ _ (Ht m0 F0)).
      rewrite (proj2 (Z.eqb_neq t 0)) by done. mrun. rewrite (F0 _ Hp'), Hp, (proj2 (Z.eqb_neq p 0)) by done.
      unfold _msg. mrun. rewrite (F0 _ Hp'), Hp, (proj2 (Z.eqb_neq p 0)) by done. mrun. rewrite E1, E2.
      change (SYSDRIVER_MSG_WRITE =? SYSDRIVER_MSG_PUTC) with false. rewrite Z.eqb_refl. mrun. rewrite E3, E4.
      rewrite (bind_ok _ _ _ _ _ E). by rewrite fits_i32. }
    rewrite (bind_ok _ _ _ _ _ Ek). by rewrite fits_i32.
Qed.

(** The reader: a task with the device open, and room for [nbyte] bytes. *)
Record reader_side (this_task : M Z) (m : gmap Z Z) (stk t e fd rbuf nbyte : Z) : Prop := {
  rs_task m' : (∀ x, ¬ in_msg stk x → ¬ (entry_ibuf e <= x < entry_ibuf e + sizeof_fifo) → m'.@x = m.@x) →
    this_task m' = Ok t m';
  rs_nonnull : t ≠ 0;
  rs_fildes : m.@(fildes_entry fd) = e ∧ ¬ in_msg stk (fildes_entry fd) ∧
    ¬ (entry_ibuf e <= fildes_entry fd < entry_ibuf e + sizeof_fifo);
  rs_type : m.@(dev_type (de_device e)) = DEVFS_CHAR ∧ ¬ in_msg stk (dev_type (de_device e));
  rs_size : 0 <= nbyte < 2 ^ 63;
  rs_buf : buf_apart e rbuf nbyte;
}.

Lemma pipe_spec driver reader m stk t p index e buf bs q k t' fd rbuf nbyte :
  driver_side driver m stk t p index e buf (Z.of_nat (length bs)) → reader_side reader m stk t' e fd rbuf nbyte →
  fifo_at m (entry_ibuf e) q → Forall (λ b, 0 <= b) q → bytes_at m buf bs → Forall (λ b, 0 <= b < 128) bs →
  bs ≠ [] → Z.of_nat (length bs) < 2 ^ 63 →
  let q' := q ++ take (fits q (length bs)) bs in
  let n := Nat.min (Z.to_nat nbyte) (length q') in
  ∃ m1 m2, driver_write (kernel_call driver) stk index buf (Z.of_nat (length bs)) m = Ok (Z.of_nat (fits q (length bs))) m1 ∧
    devfs_read task_list_str reader task_switch (S k) fd rbuf nbyte m1 = Ok (Z.of_nat n) m2 ∧
    bytes_at m2 rbuf (take n q') ∧ fifo_at m2 (entry_ibuf e) (drop n q').
Proof.
  intros D R Hq Hq0 Hb Hc Hne Hn q' n. destruct (driver_write_run _ _ _ _ _ _ _ _ _ _ D Hq Hb Hc Hn) as (m1 & E1 & Hq1 & F1).
  destruct R as [Ht Ht0 (Hf & Hf1 & Hf2) [Hy Hy'] Hs Ha].
  assert (q' ≠ []) as Hq'.
  { unfold q'. destruct q as [|b q]; [|done]. destruct bs as [|b bs]; [done|]. unfold fits, BUF. cbn [length Nat.min Nat.sub].
    destruct (Z.to_nat (8192 - 1)) eqn:Ez; [lia|]. done. }
  destruct (devfs_read_spec task_list_str reader task_switch m1 k fd rbuf nbyte t' e q') as (m2 & E2 & Hq2 & B2 & _); [..|by exists m1, m2].
  - apply Ht. intros x Hx Hx'. by apply F1.
  - done.
  - by rewrite F1.
  - rewrite F1; [done|done|]. unfold entry_ibuf, dev_ibuf, dev_type, de_device, sizeof_fifo. lia.
  - done.
  - done.
  - apply Forall_app. split; [done|]. apply Forall_take. eapply Forall_impl; [exact Hc|]. cbv beta. lia.
  - done.
  - done.
Qed.
End pipe.

(** ** Properties *)


(** The driver (task 600 of process 40) owns device 0, the entry at 65536; it
    writes "Hi" from 1000 with its message at 500; the reader (task 700) has the device
    open as 2000 and reads one byte to 3000. *)
Definition pipe_ex : gmap Z Z := demo_dev.[task_proc 600 <- 40].
Definition no_slab_ex : KernelSlab := {| slab_alloc := λ _, mret 0; slab_free := λ _ _, mret 0; slab_create := λ _ _, mret 0 |}.

