(* ===== verification/Desc.v ===== *)
(** * Descriptor tables: kernel/arch/x86_64/desc.c

    The global descriptor table with its segments and one task state segment
    per processor, and the interrupt descriptor table.  A field of a
    descriptor is a cell of its width at its offset in the packed structure.
    The references are the processor's own decodings ([seg_base] and the
    like); the theorems say that what the code writes decodes to what it was
    asked for, and that the tables lie inside the areas set aside for them. *)

From S2P Require Import Prelude CMonad Proc.

Definition MAX_PROCESSORS : Z := 128.
Definition GDT_ADDR : Z := 0xc0074000.
Definition GDT_MAX_SIZE : Z := 0x2000.
Definition IDT_ADDR : Z := 0xc0076000.
Definition IDT_MAX_SIZE : Z := 0x2000.
Definition GDT_NR : Z := 7.
Definition GDT_TSS_SEL_BASE : Z := 56.
Definition IDT_NR : Z := 256.
Definition GDT_TYPE_EX : Z := 8.
Definition GDT_TYPE_RW : Z := 2.
Definition TSS_INACTIVE : Z := 9.
Definition IDT_PRESENT : Z := 0x80.
Definition IDT_INTGATE : Z := 0x0e.
Definition IDT_TRAPGATE : Z := 0x0f.
Definition sizeof_gdt_desc : Z := 8.
Definition sizeof_gdt_desc_tss : Z := 16.
Definition sizeof_idt_gate_desc : Z := 16.
Definition sizeof_tss : Z := 104.

Definition gd_w (e i : Z) : Z := e + 2 * i.
Definition gdtr_size (r : Z) : Z := r.
Definition gdtr_base (r : Z) : Z := r + 2.
Definition ig_target_lo (e : Z) : Z := e.
Definition ig_selector (e : Z) : Z := e + 2.
Definition ig_reserved1 (e : Z) : Z := e + 4.
Definition ig_flags (e : Z) : Z := e + 5.
Definition ig_target_mid (e : Z) : Z := e + 6.
Definition ig_target_hi (e : Z) : Z := e + 8.
Definition ig_reserved2 (e : Z) : Z := e + 12.

(** ** Operations *)

Definition gdt_setup_desc_null (e : Z) : M unit :=
  _ ← st (gd_w e 0) 0; _ ← st (gd_w e 1) 0; _ ← st (gd_w e 2) 0; st (gd_w e 3) 0.

Definition gdt_setup_desc (e base limit type dpl l db g : Z) : M unit :=
  let limit := Z.land limit 0xfffff in
  let type := Z.land type 0xf in
  _ ← st (gd_w e 0) (Z.land limit 0xffff);
  _ ← st (gd_w e 1) (Z.land base 0xffff);
  _ ← st (gd_w e 2) (u16 (Z.lor (Z.lor (Z.lor (Z.lor
        (Z.land (Z.shiftr base 16) 0xff) (Z.shiftl type 8)) (Z.shiftl 1 12)) (Z.shiftl dpl 13)) (Z.shiftl 1 15)));
  st (gd_w e 3) (u16 (Z.lor (Z.lor (Z.lor (Z.lor
        (Z.land (Z.shiftr limit 16) 0xf) (Z.shiftl l 5)) (Z.shiftl db 6)) (Z.shiftl g 7))
        (Z.shiftl (Z.land (Z.shiftr base 24) 0xff) 8))).

Definition gdt_setup_desc_tss (e base limit type dpl g : Z) : M unit :=
  let limit := Z.land limit 0xfffff in
  let type := Z.land type 0xf in
  _ ← st (gd_w e 0) (Z.land limit 0xffff);
  _ ← st (gd_w e 1) (Z.land base 0xffff);
  _ ← st (gd_w e 2) (u16 (Z.lor (Z.lor (Z.lor
        (Z.land (Z.shiftr base 16) 0xff) (Z.shiftl type 8)) (Z.shiftl dpl 13)) (Z.shiftl 1 15)));
  _ ← st (gd_w e 3) (u16 (Z.lor (Z.lor
        (Z.land (Z.shiftr limit 16) 0xf) (Z.shiftl g 7)) (Z.shiftl (Z.land (Z.shiftr base 24) 0xff) 8)));
  _ ← st (gd_w e 4) (u16 (Z.shiftr base 32));
  _ ← st (gd_w e 5) (u16 (Z.shiftr base 40));
  _ ← st (gd_w e 6) 0;
  st (gd_w e 7) 0.

Definition gdt_size : Z := GDT_NR * sizeof_gdt_desc + MAX_PROCESSORS * sizeof_gdt_desc_tss.
Definition gdt_at (i : Z) : Z := GDT_ADDR + sizeof_gdt_desc * i.
Definition tss_desc_at (i : Z) : Z := GDT_ADDR + GDT_TSS_SEL_BASE + sizeof_gdt_desc_tss * i.

Definition gdt_init : M Z :=
  let gdtr := GDT_ADDR + gdt_size in
  let code := Z.lor GDT_TYPE_EX GDT_TYPE_RW in
  let data := GDT_TYPE_RW in
  _ ← gdt_setup_desc_null (gdt_at 0);
  _ ← gdt_setup_desc (gdt_at 1) 0 0xfffff code 0 1 0 1;
  _ ← gdt_setup_desc (gdt_at 2) 0 0xfffff data 0 1 0 1;
  _ ← gdt_setup_desc (gdt_at 3) 0 0xfffff code 3 0 1 1;
  _ ← gdt_setup_desc (gdt_at 4) 0 0xfffff data 3 0 1 1;
  _ ← gdt_setup_desc (gdt_at 5) 0 0xfffff code 3 1 0 1;
  _ ← gdt_setup_desc (gdt_at 6) 0 0xfffff data 3 1 0 1;
  _ ← for_up (Z.to_nat MAX_PROCESSORS) 0 (λ i,
        gdt_setup_desc_tss (tss_desc_at i) (CPU_TSS i) (sizeof_tss - 1) TSS_INACTIVE 0 0);
  _ ← st (gdtr_base gdtr) GDT_ADDR;
  _ ← st (gdtr_size gdtr) (u16 (gdt_size - 1));
  mret gdtr.

(** [lgdt], [lidt] and [ltr] are the processor's. *)
Definition gdt_load (lgdt : Z → Z → M unit) : M unit :=
  lgdt (GDT_ADDR + gdt_size) GDT_RING0_CODE_SEL.

Definition idt_setup_gate_desc (idt base selector flags : Z) : M unit :=
  _ ← st (ig_target_lo idt) (u16 (Z.land base 0xffff));
  _ ← st (ig_selector idt) (u16 selector);
  _ ← st (ig_reserved1 idt) 0;
  _ ← st (ig_flags idt) flags;
  _ ← st (ig_target_mid idt) (u16 (Z.shiftr (Z.land base 0xffff0000) 16));
  _ ← st (ig_target_hi idt) (u16 (Z.shiftr (Z.land base 0xffffffff00000000) 32));
  st (ig_reserved2 idt) 0.

Definition idt_at (nr : Z) : Z := IDT_ADDR + nr * sizeof_idt_gate_desc.

Definition idt_setup_intr_gate (nr target : Z) : M unit :=
  idt_setup_gate_desc (idt_at nr) target GDT_RING0_CODE_SEL (Z.lor IDT_PRESENT IDT_INTGATE).
Definition idt_setup_trap_gate (nr target : Z) : M unit :=
  idt_setup_gate_desc (idt_at nr) target GDT_RING0_CODE_SEL (Z.lor IDT_PRESENT IDT_TRAPGATE).

(** [intr_null] is the address of the handler of asm.S. *)
Definition idt_init (intr_null : Z) : M Z :=
  _ ← for_up (Z.to_nat IDT_NR) 0 (λ i, idt_setup_intr_gate i intr_null);
  let idtr := IDT_ADDR + sizeof_idt_gate_desc * IDT_NR in
  _ ← st (gdtr_base idtr) IDT_ADDR;
  _ ← st (gdtr_size idtr) (u16 (IDT_NR * sizeof_idt_gate_desc - 1));
  mret idtr.

Definition idt_load (lidt : Z → M unit) : M unit :=
  lidt (IDT_ADDR + sizeof_idt_gate_desc * IDT_NR).

(** The 25 words of [struct tss] and its last two half words. *)
Definition tss_clear (tss : Z) : M unit :=
  _ ← for_up 25 0 (λ i, st (tss + 4 * i) 0); _ ← st (tss + 100) 0; st (tss + 102) 0.
Definition tss_init : M unit := for_up (Z.to_nat MAX_PROCESSORS) 0 (λ i, tss_clear (CPU_TSS i)).

Definition tr_load (ltr : Z → M unit) (nr : Z) : M unit :=
  ltr (GDT_TSS_SEL_BASE + nr * sizeof_gdt_desc_tss).

(** ** What the processor reads *)

Definition bits (w lo n : Z) : Z := (w / 2 ^ lo) mod 2 ^ n.

Definition seg_base (m : gmap Z Z) (e : Z) : Z :=
  m.@(gd_w e 1) + 2 ^ 16 * bits (m.@(gd_w e 2)) 0 8 + 2 ^ 24 * bits (m.@(gd_w e 3)) 8 8.
Definition seg_limit (m : gmap Z Z) (e : Z) : Z := m.@(gd_w e 0) + 2 ^ 16 * bits (m.@(gd_w e 3)) 0 4.
Definition seg_type (m : gmap Z Z) (e : Z) : Z := bits (m.@(gd_w e 2)) 8 4.
Definition seg_s (m : gmap Z Z) (e : Z) : Z := bits (m.@(gd_w e 2)) 12 1.
Definition seg_dpl (m : gmap Z Z) (e : Z) : Z := bits (m.@(gd_w e 2)) 13 2.
Definition seg_p (m : gmap Z Z) (e : Z) : Z := bits (m.@(gd_w e 2)) 15 1.
Definition seg_l (m : gmap Z Z) (e : Z) : Z := bits (m.@(gd_w e 3)) 5 1.
Definition seg_db (m : gmap Z Z) (e : Z) : Z := bits (m.@(gd_w e 3)) 6 1.
Definition seg_g (m : gmap Z Z) (e : Z) : Z := bits (m.@(gd_w e 3)) 7 1.
(** The base of a 16-byte system descriptor. *)
Definition tss_base (m : gmap Z Z) (e : Z) : Z :=
  seg_base m e + 2 ^ 32 * m.@(gd_w e 4) + 2 ^ 48 * m.@(gd_w e 5).
Definition gate_target (m : gmap Z Z) (e : Z) : Z :=
  m.@(ig_target_lo e) + 2 ^ 16 * m.@(ig_target_mid e) + 2 ^ 32 * m.@(ig_target_hi e).

(** ** Fields as sums *)

Lemma lor_shiftl a b k : 0 <= k → 0 <= a < 2 ^ k → Z.lor a (Z.shiftl b k) = a + b * 2 ^ k.
Proof.
  intros Hk Ha. rewrite <-Z.add_lor_land, Z.shiftl_mul_pow2 by done.
  replace (Z.land a (b * 2 ^ k)) with 0; [lia|]. symmetry. apply Z.bits_inj'. intros n Hn.
  rewrite Z.land_spec, Z.bits_0, andb_false_iff. destruct (Z.lt_ge_cases n k).
  - right. by apply Z.mul_pow2_bits_low.
  - left. destruct (decide (a = 0)) as [->|]; [apply Z.bits_0|]. apply Z.bits_above_log2; [lia|].
    apply Z.lt_le_trans with k; [|done]. apply Z.log2_lt_pow2; lia.
Qed.

Lemma land_mod k mask x : 0 <= k → mask = 2 ^ k - 1 → Z.land x mask = x mod 2 ^ k.
Proof. intros Hk ->. by apply land_ones_mod. Qed.

(** Masks and shifts by constants as divisions. *)
Ltac fields :=
  rewrite ?(land_mod 16 0xffff), ?(land_mod 8 0xff), ?(land_mod 4 0xf), ?(land_mod 20 0xfffff), ?Z.shiftr_div_pow2 by done.

Ltac euclid := Z.to_euclidean_division_equations; lia.

Lemma seg_w2 b type s dpl : 0 <= b < 256 → 0 <= type < 16 → 0 <= s < 2 → 0 <= dpl < 4 →
  u16 (Z.lor (Z.lor (Z.lor (Z.lor b (Z.shiftl type 8)) (Z.shiftl s 12)) (Z.shiftl dpl 13)) (Z.shiftl 1 15)) =
  b + 256 * type + 4096 * s + 8192 * dpl + 32768.
Proof.
  intros. rewrite (lor_shiftl b), (lor_shiftl _ s), (lor_shiftl _ dpl), lor_shiftl by lia.
  unfold u16. rewrite Z.mod_small; lia.
Qed.

Lemma seg_w3 a l db g b : 0 <= a < 16 → 0 <= l < 2 → 0 <= db < 2 → 0 <= g < 2 → 0 <= b < 256 →
  u16 (Z.lor (Z.lor (Z.lor (Z.lor a (Z.shiftl l 5)) (Z.shiftl db 6)) (Z.shiftl g 7)) (Z.shiftl b 8)) =
  a + 32 * l + 64 * db + 128 * g + 256 * b.
Proof.
  intros. rewrite (lor_shiftl a), (lor_shiftl _ db), (lor_shiftl _ g), lor_shiftl by lia.
  unfold u16. rewrite Z.mod_small; lia.
Qed.

(** Nothing outside of [[e, e + n)] is written. *)
Definition only (e n : Z) (m m' : gmap Z Z) : Prop := ∀ x, ¬ (e <= x < e + n) → m'.@x = m.@x.

(** What a segment descriptor says. *)
Record segment (m : gmap Z Z) (e base limit type dpl l db g : Z) : Prop := {
  sg_base : seg_base m e = base;
  sg_limit : seg_limit m e = limit;
  sg_type : seg_type m e = type;
  sg_s : seg_s m e = 1;
  sg_dpl : seg_dpl m e = dpl;
  sg_p : seg_p m e = 1;
  sg_l : seg_l m e = l;
  sg_db : seg_db m e = db;
  sg_g : seg_g m e = g;
}.

Lemma gdt_setup_run m e base limit type dpl l db g :
  0 <= base < 2 ^ 32 → 0 <= limit < 2 ^ 20 → 0 <= type < 16 → 0 <= dpl < 4 →
  0 <= l < 2 → 0 <= db < 2 → 0 <= g < 2 →
  ∃ m', gdt_setup_desc e base limit type dpl l db g m = Ok tt m' ∧
    segment m' e base limit type dpl l db g ∧ only e sizeof_gdt_desc m m'.
Proof.
  intros Hb Hl Ht Hd H1 H2 H3. unfold gdt_setup_desc. cbv zeta. mrun. eexists. split; [reflexivity|].
  fields. rewrite seg_w2, seg_w3 by (try lia; euclid).
  unfold only, sizeof_gdt_desc, gd_w. split; [|intros x Hx; by rdwr].
  constructor; unfold seg_base, seg_limit, seg_type, seg_s, seg_dpl, seg_p, seg_l, seg_db, seg_g, gd_w, bits;
    rdwr; change (2 ^ 0) with 1; rewrite ?(Z.mod_small limit), ?(Z.mod_small type) by lia; euclid.
Qed.

Lemma segment_frame m m' e base limit type dpl l db g n lo :
  segment m e base limit type dpl l db g → only lo n m m' → e + 8 <= lo ∨ lo + n <= e →
  segment m' e base limit type dpl l db g.
Proof.
  intros [] H Hd. assert (∀ i, 0 <= i < 4 → m'.@(gd_w e i) = m.@(gd_w e i)) as E
    by (intros; apply H; unfold gd_w; lia).
  unfold seg_base, seg_limit, seg_type, seg_s, seg_dpl, seg_p, seg_l, seg_db, seg_g in *.
  constructor; unfold seg_base, seg_limit, seg_type, seg_s, seg_dpl, seg_p, seg_l, seg_db, seg_g;
    rewrite !E by lia; done.
Qed.

(** C39: a segment descriptor round trip: whatever base, limit, type, privilege
    level and mode bits [gdt_setup_desc] is asked for are what the processor
    decodes from the descriptor, marked present, and no byte outside of the
    descriptor is written. *)
Theorem gdt_setup_roundtrip m e base limit type dpl l db g :
  0 <= base < 2 ^ 32 → 0 <= limit < 2 ^ 20 → 0 <= type < 16 → 0 <= dpl < 4 →
  0 <= l < 2 → 0 <= db < 2 → 0 <= g < 2 →
  ∃ m', gdt_setup_desc e base limit type dpl l db g m = Ok tt m' ∧
    segment m' e base limit type dpl l db g ∧ only e sizeof_gdt_desc m m'.
Proof. apply gdt_setup_run. Qed.

Lemma gdt_setup_witness :
  ∃ m', gdt_setup_desc 64 0x12345678 0xabcde 10 3 1 0 1 ∅ = Ok tt m' ∧
    segment m' 64 0x12345678 0xabcde 10 3 1 0 1 ∧ only 64 sizeof_gdt_desc ∅ m'.
Proof. apply (gdt_setup_roundtrip ∅ 64 0x12345678 0xabcde 10 3 1 0 1); lia. Defined.

(** ** Task state segments and gates *)

(** What a task state segment descriptor says; the code puts the bits 40 and up of the base
    into the word for the bits 48 and up. *)
Record tss_segment (m : gmap Z Z) (e base limit : Z) : Prop := {
  ts_base : tss_base m e = base mod 2 ^ 48 + 2 ^ 48 * bits base 40 16;
  ts_limit : seg_limit m e = limit;
  ts_type : seg_type m e = TSS_INACTIVE;
  ts_s : seg_s m e = 0;
  ts_dpl : seg_dpl m e = 0;
  ts_p : seg_p m e = 1;
  ts_g : seg_g m e = 0;
}.

Lemma tss_w2 b type : 0 <= b < 256 → 0 <= type < 16 →
  u16 (Z.lor (Z.lor (Z.lor b (Z.shiftl type 8)) (Z.shiftl 0 13)) (Z.shiftl 1 15)) = b + 256 * type + 32768.
Proof.
  intros. rewrite (lor_shiftl b), (lor_shiftl _ 0), lor_shiftl by lia. unfold u16. rewrite Z.mod_small; lia.
Qed.

Lemma tss_w3 a b : 0 <= a < 16 → 0 <= b < 256 →
  u16 (Z.lor (Z.lor a (Z.shiftl 0 7)) (Z.shiftl b 8)) = a + 256 * b.
Proof.
  intros. rewrite (lor_shiftl a), lor_shiftl by lia. unfold u16. rewrite Z.mod_small; lia.
Qed.

Lemma gdt_setup_tss_run m e base limit :
  0 <= base < 2 ^ 64 → 0 <= limit < 2 ^ 20 →
  ∃ m', gdt_setup_desc_tss e base limit TSS_INACTIVE 0 0 m = Ok tt m' ∧
    tss_segment m' e base limit ∧ only e sizeof_gdt_desc_tss m m'.
Proof.
  intros Hb Hl. unfold gdt_setup_desc_tss. cbv zeta. mrun. eexists. split; [reflexivity|].
  change (Z.land TSS_INACTIVE 0xf) with 9. fields. rewrite tss_w2, tss_w3 by (try lia; euclid).
  unfold only, sizeof_gdt_desc_tss, gd_w. split; [|intros x Hx; by rdwr].
  constructor; unfold tss_base, seg_base, seg_limit, seg_type, seg_s, seg_dpl, seg_p, seg_g, gd_w, bits, TSS_INACTIVE, u16;
    rdwr; change (2 ^ 0) with 1; rewrite ?(Z.mod_small limit) by lia; euclid.
Qed.

Lemma tss_segment_frame m m' e base limit n lo :
  tss_segment m e base limit → only lo n m m' → e + 16 <= lo ∨ lo + n <= e → tss_segment m' e base limit.
Proof.
  intros [] H Hd. assert (∀ i, 0 <= i < 8 → m'.@(gd_w e i) = m.@(gd_w e i)) as E
    by (intros; apply H; unfold gd_w; lia).
  unfold tss_base, seg_base, seg_limit, seg_type, seg_s, seg_dpl, seg_p, seg_g in *.
  constructor; unfold tss_base, seg_base, seg_limit, seg_type, seg_s, seg_dpl, seg_p, seg_g; rewrite !E by lia; done.
Qed.

Record gate (m : gmap Z Z) (e target flags : Z) : Prop := {
  gt_target : gate_target m e = target;
  gt_selector : m.@(ig_selector e) = GDT_RING0_CODE_SEL;
  gt_flags : m.@(ig_flags e) = flags;
  gt_ist : m.@(ig_reserved1 e) = 0;
}.

Lemma gate_run m e base flags : 0 <= base < 2 ^ 64 →
  ∃ m', idt_setup_gate_desc e base GDT_RING0_CODE_SEL flags m = Ok tt m' ∧
    gate m' e (base mod 2 ^ 48) flags ∧ only e sizeof_idt_gate_desc m m'.
Proof.
  intros Hb. unfold idt_setup_gate_desc. mrun. eexists. split; [reflexivity|].
  assert (Z.shiftr (Z.land base 0xffff0000) 16 = (base / 2 ^ 16) mod 2 ^ 16) as ->.
  { rewrite Z.shiftr_land, Z.shiftr_div_pow2 by lia. by apply land_mod. }
  assert (Z.shiftr (Z.land base 0xffffffff00000000) 32 = (base / 2 ^ 32) mod 2 ^ 32) as ->.
  { rewrite Z.shiftr_land, Z.shiftr_div_pow2 by lia. by apply land_mod. }
  fields. unfold only, sizeof_idt_gate_desc.
  split; [|intros x Hx; unfold ig_target_lo, ig_selector, ig_reserved1, ig_flags, ig_target_mid, ig_target_hi, ig_reserved2; by rdwr].
  constructor; unfold gate_target, ig_target_lo, ig_selector, ig_reserved1, ig_flags, ig_target_mid, ig_target_hi,
    ig_reserved2, u16; rdwr; try done. euclid.
Qed.

Lemma gate_frame m m' e target flags n lo :
  gate m e target flags → only lo n m m' → e + 16 <= lo ∨ lo + n <= e → gate m' e target flags.
Proof.
  intros [] H Hd. assert (∀ i, 0 <= i < 16 → m'.@(e + i) = m.@(e + i)) as E by (intros; apply H; lia).
  assert (m'.@e = m.@e) as E0 by (apply H; lia).
  unfold gate_target, ig_target_lo, ig_selector, ig_reserved1, ig_flags, ig_target_mid, ig_target_hi in *.
  constructor; unfold gate_target, ig_target_lo, ig_selector, ig_reserved1, ig_flags, ig_target_mid, ig_target_hi;
    rewrite ?E, ?E0 by lia; done.
Qed.

(** ** Whole tables *)

Section table.
(** A loop that fills consecutive entries. *)
Context (base size nr : Z) (body : Z → M unit) (P : gmap Z Z → Z → Prop).
Context (body_run : ∀ j m, 0 <= j < nr → ∃ m', body j m = Ok tt m' ∧ P m' j ∧ only (base + size * j) size m m').
Context (P_frame : ∀ m m' j lo n, P m j → only lo n m m' →
  base + size * j + size <= lo ∨ lo + n <= base + size * j → P m' j).
Context (size_pos : 0 < size).

Lemma fill_table k : ∀ i m, 0 <= i → i + Z.of_nat k <= nr → ∃ m', for_up k i body m = Ok tt m' ∧
  (∀ j, i <= j < i + Z.of_nat k → P m' j) ∧ only (base + size * i) (size * Z.of_nat k) m m'.
Proof.
  induction k as [|k IH]; intros i m Hi Hk; cbn [for_up].
  - exists m. split; [done|]. split; [lia|done].
  - destruct (body_run i m ltac:(lia)) as (m1 & E1 & H1 & F1). rewrite (bind_ok _ _ _ _ _ E1).
    destruct (IH (i + 1) m1 ltac:(lia) ltac:(lia)) as (m' & E & H & F). exists m'. split; [done|]. split.
    + intros j Hj. destruct (decide (j = i)) as [->|]; [|apply H; lia].
      eapply P_frame; [exact H1|exact F|]. left. lia.
    + intros x Hx. rewrite F, F1; [done|nia|nia].
Qed.
End table.

Lemma only_sub lo n lo' n' m m' : only lo n m m' → lo' <= lo → lo + n <= lo' + n' → only lo' n' m m'.
Proof. intros H ? ? x Hx. apply H. lia. Qed.

Lemma CPU_TSS_range i : 0 <= i < MAX_PROCESSORS → 0 <= CPU_TSS i < 2 ^ 32.
Proof. unfold CPU_TSS, MAX_PROCESSORS. intros. rewrite Z.shiftl_mul_pow2 by lia. lia. Qed.

Lemma tss_body_run j m : 0 <= j < MAX_PROCESSORS →
  ∃ m', gdt_setup_desc_tss (tss_desc_at j) (CPU_TSS j) (sizeof_tss - 1) TSS_INACTIVE 0 0 m = Ok tt m' ∧
    tss_segment m' (tss_desc_at j) (CPU_TSS j) (sizeof_tss - 1) ∧
    only (GDT_ADDR + GDT_TSS_SEL_BASE + 16 * j) 16 m m'.
Proof.
  intros Hj. pose proof (CPU_TSS_range j Hj). apply gdt_setup_tss_run; [lia|unfold sizeof_tss; lia].
Qed.

Lemma tss_body_frame m m' j lo n :
  tss_segment m (tss_desc_at j) (CPU_TSS j) (sizeof_tss - 1) → only lo n m m' →
  GDT_ADDR + GDT_TSS_SEL_BASE + 16 * j + 16 <= lo ∨ lo + n <= GDT_ADDR + GDT_TSS_SEL_BASE + 16 * j →
  tss_segment m' (tss_desc_at j) (CPU_TSS j) (sizeof_tss - 1).
Proof. intros H Ho Hd. by eapply tss_segment_frame. Qed.

(** Go back over the write that leads to the current memory. *)
Ltac frame_segment :=
  first [eassumption
        |eapply segment_frame;
         [|match goal with F : only _ _ _ ?m |- only _ _ _ ?m => exact F end
          |unfold gdt_at, gdt_size, sizeof_gdt_desc, GDT_ADDR, GDT_TSS_SEL_BASE, GDT_NR, MAX_PROCESSORS,
             sizeof_gdt_desc_tss, GDT_RING0_CODE_SEL, GDT_RING0_DATA_SEL, GDT_RING3_CODE64_SEL, GDT_RING3_DATA64_SEL; lia]].

(** [gdt_init] builds the table the selectors of the kernel refer to: a null
    descriptor, flat code and data segments for ring 0 (64 bit) and ring 3 (32
    and 64 bit), and for every processor a descriptor of its own task state
    segment; the register covers exactly the table, and table and register
    stay inside the [GDT_MAX_SIZE] bytes in front of the interrupt descriptor table. *)
Theorem gdt_init_correct m :
  ∃ m', gdt_init m = Ok (GDT_ADDR + gdt_size) m' ∧
    segment m' (GDT_ADDR + GDT_RING0_CODE_SEL) 0 0xfffff 10 0 1 0 1 ∧
    segment m' (GDT_ADDR + GDT_RING0_DATA_SEL) 0 0xfffff 2 0 1 0 1 ∧
    segment m' (GDT_ADDR + 24) 0 0xfffff 10 3 0 1 1 ∧ segment m' (GDT_ADDR + 32) 0 0xfffff 2 3 0 1 1 ∧
    segment m' (GDT_ADDR + GDT_RING3_CODE64_SEL) 0 0xfffff 10 3 1 0 1 ∧
    segment m' (GDT_ADDR + GDT_RING3_DATA64_SEL) 0 0xfffff 2 3 1 0 1 ∧
    (∀ i, 0 <= i < MAX_PROCESSORS → tss_base m' (tss_desc_at i) = CPU_TSS i ∧
       seg_limit m' (tss_desc_at i) = sizeof_tss - 1 ∧ seg_type m' (tss_desc_at i) = TSS_INACTIVE ∧
       seg_p m' (tss_desc_at i) = 1) ∧
    m'.@(gdtr_base (GDT_ADDR + gdt_size)) = GDT_ADDR ∧
    m'.@(gdtr_size (GDT_ADDR + gdt_size)) = gdt_size - 1 ∧
    only GDT_ADDR GDT_MAX_SIZE m m' ∧ GDT_ADDR + GDT_MAX_SIZE <= IDT_ADDR.
Proof.
  unfold gdt_init. cbv zeta. change (Z.lor GDT_TYPE_EX GDT_TYPE_RW) with 10. change GDT_TYPE_RW with 2.
  assert (∃ m0, gdt_setup_desc_null (gdt_at 0) m = Ok tt m0 ∧ only GDT_ADDR 8 m m0) as (m0 & E0 & F0).
  { eexists. split; [reflexivity|]. intros x Hx. unfold gd_w, gdt_at, sizeof_gdt_desc in *. by rdwr. }
  rewrite (bind_ok _ _ _ _ _ E0).
  destruct (gdt_setup_run m0 (gdt_at 1) 0 0xfffff 10 0 1 0 1) as (m1 & E1 & S1 & F1); try lia. rewrite (bind_ok _ _ _ _ _ E1).
  destruct (gdt_setup_run m1 (gdt_at 2) 0 0xfffff 2 0 1 0 1) as (m2 & E2 & S2 & F2); try lia. rewrite (bind_ok _ _ _ _ _ E2).
  destruct (gdt_setup_run m2 (gdt_at 3) 0 0xfffff 10 3 0 1 1) as (m3 & E3 & S3 & F3); try lia. rewrite (bind_ok _ _ _ _ _ E3).
  destruct (gdt_setup_run m3 (gdt_at 4) 0 0xfffff 2 3 0 1 1) as (m4 & E4 & S4 & F4); try lia. rewrite (bind_ok _ _ _ _ _ E4).
  destruct (gdt_setup_run m4 (gdt_at 5) 0 0xfffff 10 3 1 0 1) as (m5 & E5 & S5 & F5); try lia. rewrite (bind_ok _ _ _ _ _ E5).
  destruct (gdt_setup_run m5 (gdt_at 6) 0 0xfffff 2 3 1 0 1) as (m6 & E6 & S6 & F6); try lia. rewrite (bind_ok _ _ _ _ _ E6).
  destruct (fill_table (GDT_ADDR + GDT_TSS_SEL_BASE) 16 MAX_PROCESSORS _
    (λ m i, tss_segment m (tss_desc_at i) (CPU_TSS i) (sizeof_tss - 1)) tss_body_run tss_body_frame ltac:(lia)
    (Z.to_nat MAX_PROCESSORS) 0 m6) as (m7 & E7 & S7 & F7); [lia|unfold MAX_PROCESSORS; lia|].
  rewrite (bind_ok _ _ _ _ _ E7). mrun. eexists. split; [reflexivity|].
  set (m8 := m7.[_ <- _].[_ <- _]).
  assert (only (GDT_ADDR + gdt_size) 10 m7 m8) as F8.
  { intros x Hx. unfold m8, gdtr_base, gdtr_size. by rdwr. }
  do 6 (split; [repeat frame_segment|]). split.
  { intros i Hi. assert (tss_segment m8 (tss_desc_at i) (CPU_TSS i) (sizeof_tss - 1)) as [].
    { eapply tss_segment_frame; [apply S7; unfold MAX_PROCESSORS in *; lia|exact F8|].
      left. unfold tss_desc_at, gdt_size, GDT_TSS_SEL_BASE, GDT_NR, sizeof_gdt_desc_tss, sizeof_gdt_desc, MAX_PROCESSORS in *. lia. }
    pose proof (CPU_TSS_range i Hi). split; [|done]. rewrite ts_base0. unfold bits.
    rewrite (Z.mod_small (CPU_TSS i)), (Z.div_small _ (2 ^ 40)) by lia. rewrite Z.mod_0_l by lia. lia. }
  split; [unfold m8; unfold gdtr_base, gdtr_size; by rdwr|]. split; [unfold m8; by rdwr|].
  split; [|unfold GDT_ADDR, GDT_MAX_SIZE, IDT_ADDR; lia].
  intros x Hx. unfold gdt_size, gdt_at, sizeof_gdt_desc, GDT_MAX_SIZE, GDT_NR, MAX_PROCESSORS, sizeof_gdt_desc_tss,
    GDT_TSS_SEL_BASE in *. rewrite F8, F7, F6, F5, F4, F3, F2, F1, F0 by lia. done.
Qed.

(** [idt_init] makes every one of the 256 vectors a present ring-0 interrupt
    gate to the null handler, and [idt_setup_intr_gate] (a trap gate likewise)
    afterwards points one vector at its handler and leaves the others alone.
    The processor decodes the target modulo 2^48, the address itself for every
    address below; the table stays inside its [IDT_MAX_SIZE] bytes. *)
Theorem idt_gates_correct m intr_null nr target :
  0 <= intr_null < 2 ^ 64 → 0 <= nr < IDT_NR → 0 <= target < 2 ^ 64 →
  ∃ m1 m2, idt_init intr_null m = Ok (IDT_ADDR + 4096) m1 ∧
    (∀ i, 0 <= i < IDT_NR → gate m1 (idt_at i) (intr_null mod 2 ^ 48) 0x8e) ∧
    m1.@(gdtr_base (IDT_ADDR + 4096)) = IDT_ADDR ∧ m1.@(gdtr_size (IDT_ADDR + 4096)) = 4095 ∧
    only IDT_ADDR IDT_MAX_SIZE m m1 ∧
    idt_setup_intr_gate nr target m1 = Ok tt m2 ∧ gate m2 (idt_at nr) (target mod 2 ^ 48) 0x8e ∧
    (∀ i, 0 <= i < IDT_NR → i ≠ nr → gate m2 (idt_at i) (intr_null mod 2 ^ 48) 0x8e).
Proof.
  intros Hn Hnr Ht. unfold idt_init.
  destruct (fill_table IDT_ADDR 16 IDT_NR (λ i, idt_setup_intr_gate i intr_null)
    (λ m i, gate m (idt_at i) (intr_null mod 2 ^ 48) 0x8e)) with (k := Z.to_nat IDT_NR) (i := 0) (m := m)
    as (m0 & E0 & G0 & F0); [| |lia|lia|unfold IDT_NR; lia|].
  { intros j m' _. replace (IDT_ADDR + 16 * j) with (idt_at j) by (unfold idt_at, sizeof_idt_gate_desc; lia).
    exact (gate_run m' (idt_at j) intr_null 0x8e Hn). }
  { intros ma mb j lo n H Ho Hd. eapply gate_frame; [exact H|exact Ho|]. unfold idt_at, sizeof_idt_gate_desc. lia. }
  rewrite (bind_ok _ _ _ _ _ E0). mrun. change (sizeof_idt_gate_desc * IDT_NR) with 4096.
  set (m1 := m0.[_ <- _].[_ <- _]).
  assert (only (IDT_ADDR + 4096) 10 m0 m1) as F1.
  { intros x Hx. unfold m1, gdtr_base, gdtr_size. by rdwr. }
  assert (∀ i, 0 <= i < IDT_NR → gate m1 (idt_at i) (intr_null mod 2 ^ 48) 0x8e) as G1.
  { intros i Hi. eapply gate_frame; [apply G0; unfold IDT_NR in *; lia|exact F1|].
    unfold idt_at, sizeof_idt_gate_desc, IDT_NR in *. lia. }
  destruct (gate_run m1 (idt_at nr) target 0x8e Ht) as (m2 & E2 & G2 & F2).
  exists m1, m2. split; [reflexivity|]. split; [exact G1|].
  split; [unfold m1, gdtr_base, gdtr_size; by rdwr|]. split; [unfold m1; by rdwr|]. split; [|split; [exact E2|split; [exact G2|]]].
  - intros x Hx. unfold IDT_MAX_SIZE, IDT_NR in *. rewrite F1, F0 by lia. done.
  - intros i Hi Hne. eapply gate_frame; [by apply G1|exact F2|]. unfold idt_at, sizeof_idt_gate_desc. lia.
Qed.

Lemma idt_gates_witness :
  ∃ m1 m2, idt_init 0xc0012340 ∅ = Ok (IDT_ADDR + 4096) m1 ∧
    idt_setup_intr_gate 0x40 0xc0015678 m1 = Ok tt m2 ∧ gate m2 (idt_at 0x40) 0xc0015678 0x8e.
Proof.
  destruct (idt_gates_correct ∅ 0xc0012340 0x40 0xc0015678) as (m1 & m2 & E1 & _ & _ & _ & _ & E2 & G & _);
    [lia|unfold IDT_NR; lia|lia|].
  exists m1, m2. split; [exact E1|]. split; [exact E2|exact G].
Defined.

(** A task state segment at or above 2^40 would not be found: the bits 40 and
    up of its base appear again in the bits 48 and up. *)
Lemma tss_base_above_40 :
  ∃ m', gdt_setup_desc_tss 64 0xff0000000000 103 TSS_INACTIVE 0 0 ∅ = Ok tt m' ∧ tss_base m' 64 = 0xffff0000000000.
Proof. eexists. split; [reflexivity|]. vm_compute. reflexivity. Qed.
