(* ===== verification/Vconsole.v ===== *)
(** * The kernel's text console: kernel/arch/x86_64/vconsole.c

    [kprintf] writes its text here: 80 by 25 cells of video memory, a position
    and the column in the current line.  Lines end with carriage return and
    line feed.  The theorems give the effect of a line, and show what
    scrolling and very long lines do. *)

From S2P Require Import Prelude CMonad KString.

Definition VIDEO_RAM_80X25 : Z := 0xc00b8000.
Definition VIDEO_PORT : Z := 0x3d4.
Definition CR : Z := 13.
Definition LF : Z := 10.
Definition TAB : Z := 9.

Definition vc_video (vcon : Z) : Z := vcon.
Definition vc_pos (vcon : Z) : Z := vcon + 8.
Definition vc_column (vcon : Z) : Z := vcon + 12.
Definition vc_column_save (vcon : Z) : Z := vcon + 16.
Definition sizeof_vcon : Z := 24.
Definition cd_write (dev : Z) : Z := dev.
Definition cd_next (dev : Z) : Z := dev + 8.
Definition cd_spec (dev : Z) : Z := dev + 16.
Definition sizeof_console_dev : Z := 24.
(** A [uint16_t] of the video memory. *)
Definition cell (video i : Z) : Z := video + 2 * i.

Definition memmove (dst src n : Z) : M unit := λ m, Ok tt (kmemmove (Z.to_nat n) m dst src).

Section vconsole.
(** [out16] of asm.S. *)
Context (out16 : Z → Z → M unit).

(** [malloc] and [mfree] are [kmalloc] and [kfree], [write] the address of
    [vconsole_write]. *)
Definition vconsole_init (malloc : Z → M Z) (mfree : Z → M unit) (write : Z) : M Z :=
  dev ← malloc sizeof_console_dev;
  if dev =? 0 then mret 0 else
  vcon ← malloc sizeof_vcon;
  if vcon =? 0 then _ ← mfree dev; mret 0 else
  _ ← st (vc_video vcon) VIDEO_RAM_80X25;
  _ ← st (vc_pos vcon) 0;
  _ ← st (vc_column vcon) 0;
  _ ← st (vc_column_save vcon) 0;
  _ ← st (cd_write dev) write;
  _ ← st (cd_next dev) 0;
  _ ← st (cd_spec dev) vcon;
  mret dev.

Definition _update_cursor (pos : Z) : M unit :=
  _ ← out16 VIDEO_PORT (Z.lor (Z.shiftl (Z.land pos 0xff) 8) 0x0f);
  out16 VIDEO_PORT (Z.lor (Z.shiftl (Z.land (Z.shiftr pos 8) 0xff) 8) 0x0e).

(** [kmemmove(vcon->video, vcon->video + 80, 80 * 24)] *)
Definition scroll (vcon : Z) : M unit :=
  v ← ld (vc_video vcon); memmove v (cell v 80) (80 * 24).

(** Put a cell and advance. *)
Definition advance (vcon value : Z) : M unit :=
  v ← ld (vc_video vcon); pos ← ld (vc_pos vcon);
  _ ← st (cell v pos) value;
  pos ← ld (vc_pos vcon); _ ← st (vc_pos vcon) (i32 (pos + 1));
  col ← ld (vc_column vcon); _ ← st (vc_column vcon) (i32 (col + 1));
  col ← ld (vc_column vcon); _ ← st (vc_column_save vcon) col;
  pos ← ld (vc_pos vcon);
  if 80 * 25 <=? pos then
    _ ← scroll vcon;
    pos ← ld (vc_pos vcon); st (vc_pos vcon) (pos - 80)
  else mret tt.

(** [do ... while ( (vcon->column % 4) != 0 )]; a multiple of four is reached
    within four rounds. *)
Fixpoint tab_loop (k : nat) (vcon : Z) : M unit :=
  match k with
  | O => hang
  | S k =>
    _ ← advance vcon 0x0720;
    col ← ld (vc_column vcon);
    if negb (Z.rem col 4 =? 0) then tab_loop k vcon else mret tt
  end.

Definition put_char (vcon c : Z) : M unit :=
  if c =? CR then
    pos ← ld (vc_pos vcon); col ← ld (vc_column vcon);
    _ ← st (vc_pos vcon) (i32 (pos - col));
    st (vc_column vcon) 0
  else if c =? LF then
    pos ← ld (vc_pos vcon); save ← ld (vc_column_save vcon);
    let next := i32 (Z.quot (i32 (pos + save + 79)) 80 * 80) in
    _ ← (if 80 * 25 <=? next then
           _ ← scroll vcon;
           v ← ld (vc_video vcon);
           _ ← memset0 (cell v (80 * 25)) 80;
           st (vc_pos vcon) (80 * 24)
         else st (vc_pos vcon) next);
    st (vc_column_save vcon) 0
  else if (0x20 <=? c) && (c <=? 0x7e) then advance vcon (Z.lor 0x0700 c)
  else if c =? TAB then tab_loop 4 vcon
  else mret tt.

Fixpoint write_chars (k : nat) (vcon buf i : Z) : M unit :=
  match k with
  | O => mret tt
  | S k => c ← ld (buf + i); _ ← put_char vcon c; write_chars k vcon buf (i + 1)
  end.

Definition vconsole_write (dev buf nbyte : Z) : M Z :=
  vcon ← ld (cd_spec dev);
  _ ← write_chars (Z.to_nat (i64 nbyte)) vcon buf 0;
  pos ← ld (vc_pos vcon);
  _ ← _update_cursor pos;
  mret 0.
End vconsole.

(** ** The effect of a line *)

Record vcon_at (m : gmap Z Z) (vcon video pos col save : Z) : Prop := {
  va_video : m.@(vc_video vcon) = video;
  va_pos : m.@(vc_pos vcon) = pos;
  va_col : m.@(vc_column vcon) = col;
  va_save : m.@(vc_column_save vcon) = save;
}.

(** The structure lies outside of the video memory and the 80 bytes behind it. *)
Definition vc_apart (vcon video : Z) : Prop := video + 4080 <= vcon ∨ vcon + 24 <= video.

Definition printable (c : Z) : Prop := 0x20 <= c <= 0x7e.

Ltac vc := unfold vc_video, vc_pos, vc_column, vc_column_save, cell, vc_apart in *.

Lemma vcon_at_set m vcon video pos col save pos' col' save' :
  vcon_at m vcon video pos col save →
  vcon_at (m.[vc_pos vcon <- pos'].[vc_column vcon <- col'].[vc_column_save vcon <- save']) vcon video pos' col' save'.
Proof. intros []. vc. constructor; vc; by rdwr. Qed.

Lemma vcon_at_frame m m' vcon video pos col save :
  vcon_at m vcon video pos col save → (∀ x, vcon <= x < vcon + 24 → m'.@x = m.@x) →
  vcon_at m' vcon video pos col save.
Proof. intros [] H. vc. constructor; vc; by rewrite H by lia. Qed.

(** A printable character in front of the end of the screen. *)
Lemma put_printable m vcon video pos col save c :
  vcon_at m vcon video pos col save → vc_apart vcon video → printable c →
  0 <= pos → pos + 1 < 2000 → 0 <= col < 2 ^ 30 →
  ∃ m', put_char vcon c m = Ok tt m' ∧ vcon_at m' vcon video (pos + 1) (col + 1) (col + 1) ∧
    ∀ x, ¬ (vcon <= x < vcon + 24) →
      m'.@x = if decide (x = cell video pos) then Z.lor 0x0700 c else m.@x.
Proof.
  intros Hv Ha [Hc1 Hc2] Hp Hp' Hcol. unfold put_char.
  rewrite (proj2 (Z.eqb_neq c CR)), (proj2 (Z.eqb_neq c LF)) by (unfold CR, LF; lia).
  rewrite (proj2 (Z.leb_le 0x20 c)), (proj2 (Z.leb_le c 0x7e)) by done. cbn [andb].
  unfold advance. mrun. rewrite (va_video _ _ _ _ _ _ Hv), (va_pos _ _ _ _ _ _ Hv).
  set (m1 := m.[cell video pos <- _]).
  assert (vcon_at m1 vcon video pos col save) as Hv1.
  { eapply vcon_at_frame; [done|]. intros x Hx. unfold m1. vc. by rdwr. }
  rewrite (va_pos _ _ _ _ _ _ Hv1), (i32_small (pos + 1)) by lia.
  rewrite (rd_wr_ne m1 (vc_pos vcon) (vc_column vcon)) by (vc; lia).
  rewrite (va_col _ _ _ _ _ _ Hv1), (i32_small (col + 1)) by lia. rewrite rd_wr_eq.
  set (m2 := m1.[_ <- _].[_ <- _].[_ <- _]).
  assert (vcon_at m2 vcon video (pos + 1) (col + 1) (col + 1)) as Hv2 by (by eapply vcon_at_set).
  rewrite (va_pos _ _ _ _ _ _ Hv2), (proj2 (Z.leb_gt _ _)) by lia.
  exists m2. split; [done|]. split; [done|]. intros x Hx. unfold m2, m1. vc. rdwr. rewrite rd_wr.
  repeat case_decide; try lia; done.
Qed.

Lemma write_printables l : ∀ m vcon video pos col save buf i,
  vcon_at m vcon video pos col save → vc_apart vcon video → bytes_at m (buf + i) l → Forall printable l →
  0 <= pos → pos + Z.of_nat (length l) < 2000 → 0 <= col → col + Z.of_nat (length l) < 2 ^ 30 →
  (∀ x, buf + i <= x < buf + i + Z.of_nat (length l) → ¬ (video <= x < video + 4080) ∧ ¬ (vcon <= x < vcon + 24)) →
  ∃ m', write_chars (length l) vcon buf i m = Ok tt m' ∧
    (let n := Z.of_nat (length l) in
     vcon_at m' vcon video (pos + n) (col + n) (if decide (l = []) then save else col + n)) ∧
    (∀ j c, l !! j = Some c → m'.@(cell video (pos + Z.of_nat j)) = Z.lor 0x0700 c) ∧
    (∀ x, ¬ (vcon <= x < vcon + 24) →
       (∀ j, 0 <= j < Z.of_nat (length l) → x ≠ cell video (pos + j)) → m'.@x = m.@x).
Proof.
  induction l as [|c l IH]; intros m vcon video pos col save buf i Hv Ha Hb Hp H0 H1 H2 H3 Hd.
  { exists m. split; [done|]. simpl. rewrite !Z.add_0_r. repeat split; try apply Hv; done. }
  cbn [length] in *. cbn [write_chars]. apply Forall_cons in Hp as [Hc Hp]. destruct Hb as [Hb0 Hb].
  mrun. rewrite Hb0.
  destruct (put_printable m vcon video pos col save c Hv Ha Hc) as (m1 & E1 & Hv1 & F1); try lia.
  rewrite (bind_ok _ _ _ _ _ E1).
  destruct (IH m1 vcon video (pos + 1) (col + 1) (col + 1) buf (i + 1)) as (m' & E & Hv' & T & F); try done; try lia.
  { revert Hb. replace (buf + (i + 1)) with (buf + i + 1) by lia. apply bytes_at_frame. intros x Hx.
    destruct (Hd x) as [D1 D2]; [lia|]. rewrite F1 by done. rewrite decide_False; [done|]. unfold cell. lia. }
  { intros x Hx. apply Hd. lia. }
  exists m'. split; [done|]. split; [|split].
  - rewrite decide_False by done. destruct Hv' as [V1 V2 V3 V4].
    constructor; [done|rewrite V2; lia|rewrite V3; lia|rewrite V4; case_decide; subst; simpl; lia].
  - intros [|j] c' Hj; simpl in Hj.
    + injection Hj as <-. rewrite F, F1; [|unfold vc_apart, cell in *; lia..|intros j Hj; unfold cell; lia].
      rewrite decide_True; [done|]. f_equal. lia.
    + replace (pos + Z.of_nat (S j)) with (pos + 1 + Z.of_nat j) by lia. by apply T.
  - intros x Hx Hj. rewrite F, F1 by (try done; intros j Hj'; specialize (Hj (j + 1)); unfold cell in *; lia).
    rewrite decide_False; [done|]. specialize (Hj 0). rewrite Z.add_0_r in Hj. apply Hj. lia.
Qed.

(** The cursor registers are ports: no memory changes. *)
Definition ports_only (out16 : Z → Z → M unit) : Prop := ∀ p d m, out16 p d m = Ok tt m.

(** The text and where it is written do not overlap. *)
Definition buf_apart (vcon video buf n : Z) : Prop :=
  ∀ x, buf <= x < buf + n → ¬ (video <= x < video + 4080) ∧ ¬ (vcon <= x < vcon + 24).

Lemma write_chars_app k1 k2 : ∀ vcon buf i m,
  write_chars (k1 + k2) vcon buf i m =
  (_ ← write_chars k1 vcon buf i; write_chars k2 vcon buf (i + Z.of_nat k1)) m.
Proof.
  induction k1 as [|k1 IH]; intros vcon buf i m; cbn [write_chars Nat.add].
  - mrun. by rewrite Z.add_0_r.
  - mrun. apply bind_ext; [done|]. intros [] m1. rewrite IH.
    by replace (i + 1 + Z.of_nat k1) with (i + Z.of_nat (S k1)) by lia.
Qed.

Lemma put_cr m vcon video pos col save :
  vcon_at m vcon video pos col save → - 2 ^ 30 <= pos < 2 ^ 30 → 0 <= col < 2 ^ 30 →
  ∃ m', put_char vcon CR m = Ok tt m' ∧ vcon_at m' vcon video (pos - col) 0 save ∧
    ∀ x, ¬ (vcon <= x < vcon + 24) → m'.@x = m.@x.
Proof.
  intros [] Hp Hc. unfold put_char. rewrite Z.eqb_refl. mrun. rewrite va_pos0, va_col0, i32_small by lia.
  eexists. split; [reflexivity|]. split; [vc; constructor; vc; by rdwr|]. intros x Hx. vc. by rdwr.
Qed.

(** A line feed with room below. *)
Lemma put_lf m vcon video r n :
  vcon_at m vcon video (80 * r) 0 n → 0 <= r < 24 → 0 < n <= 80 →
  ∃ m', put_char vcon LF m = Ok tt m' ∧ vcon_at m' vcon video (80 * (r + 1)) 0 0 ∧
    ∀ x, ¬ (vcon <= x < vcon + 24) → m'.@x = m.@x.
Proof.
  intros [] Hr Hn. unfold put_char. change (LF =? CR) with false. change (LF =? LF) with true. cbn iota. mrun.
  rewrite va_pos0, va_save0, (i32_small (80 * r + n + 79)) by lia. rewrite Z.quot_div_nonneg by lia.
  replace ((80 * r + n + 79) / 80) with (r + 1) by (apply (Z.div_unique _ 80 _ (n - 1)); lia).
  rewrite i32_small, (proj2 (Z.leb_gt _ _)) by lia. mrun.
  eexists. split; [reflexivity|]. split.
  - vc. constructor; vc; rdwr; try done. lia.
  - intros x Hx. vc. by rdwr.
Qed.

(** Carriage return and line feed behind [n] characters of line [r]. *)
Lemma end_of_line m vcon video r n buf i :
  vcon_at m vcon video (80 * r + n) n n → 0 <= r < 24 → 0 < n <= 80 → bytes_at m (buf + i) [CR; LF] →
  ¬ (vcon <= buf + i + 1 < vcon + 24) →
  ∃ m', write_chars 2 vcon buf i m = Ok tt m' ∧ vcon_at m' vcon video (80 * (r + 1)) 0 0 ∧
    ∀ x, ¬ (vcon <= x < vcon + 24) → m'.@x = m.@x.
Proof.
  intros Hv Hr Hn (B1 & B2 & _) Hd. cbn [write_chars]. mrun. rewrite B1.
  destruct (put_cr m vcon video _ _ _ Hv ltac:(lia) ltac:(lia)) as (m1 & E1 & V1 & F1).
  rewrite (bind_ok _ _ _ _ _ E1). replace (80 * r + n - n) with (80 * r) in V1 by lia.
  mrun. replace (buf + (i + 1)) with (buf + i + 1) by lia. rewrite F1, B2 by done.
  destruct (put_lf m1 vcon video r n V1 Hr Hn) as (m2 & E2 & V2 & F2). rewrite (bind_ok _ _ _ _ _ E2).
  exists m2. split; [done|]. split; [done|]. intros x Hx. by rewrite F2, F1.
Qed.

(** C40: a line of 1 to 80 printable characters ended by carriage return and line
    feed, written at the start of any line but the last one, appears on that
    line in grey on black, the console goes on at the start of the next line,
    and nothing else on the screen or anywhere else changes. *)
Theorem vconsole_line_correct out16 m dev vcon video r buf l :
  ports_only out16 → m.@(cd_spec dev) = vcon → vcon_at m vcon video (80 * r) 0 0 → vc_apart vcon video →
  0 <= r < 24 → (0 < length l <= 80)%nat → 80 * r + Z.of_nat (length l) < 2000 → Forall printable l →
  bytes_at m buf (l ++ [CR; LF]) → buf_apart vcon video buf (Z.of_nat (length l) + 2) →
  ∃ m', vconsole_write out16 dev buf (Z.of_nat (length l) + 2) m = Ok 0 m' ∧
    vcon_at m' vcon video (80 * (r + 1)) 0 0 ∧
    (∀ j c, l !! j = Some c → m'.@(cell video (80 * r + Z.of_nat j)) = Z.lor 0x0700 c) ∧
    (∀ x, ¬ (vcon <= x < vcon + 24) →
       (∀ j, 0 <= j < Z.of_nat (length l) → x ≠ cell video (80 * r + j)) → m'.@x = m.@x).
Proof.
  intros Ho Hs Hv Ha Hr Hl Hl' Hp Hb Hd. apply bytes_at_app in Hb as [Hb1 Hb2].
  unfold vconsole_write. mrun. rewrite Hs.
  assert (i64 (Z.of_nat (length l) + 2) = Z.of_nat (length l + 2)) as -> by (unfold i64; rewrite Z.mod_small by lia; lia).
  rewrite Nat2Z.id.
  destruct (write_printables l m vcon video (80 * r) 0 0 buf 0) as (m1 & E1 & V1 & T1 & F1);
    rewrite ?Z.add_0_r; try done; try lia.
  { intros x Hx. apply Hd. lia. }
  cbv zeta in V1. rewrite Z.add_0_l, decide_False in V1 by (destruct l; simpl in *; [lia|done]).
  destruct (end_of_line m1 vcon video r (Z.of_nat (length l)) buf (Z.of_nat (length l))) as (m2 & E2 & V2 & F2); try done; try lia.
  { revert Hb2. apply bytes_at_frame. intros x Hx. simpl in Hx. destruct (Hd x) as [D1 D2]; [lia|].
    apply F1; [done|]. intros j Hj. unfold cell. lia. }
  { apply Hd. lia. }
  assert (write_chars (length l + 2) vcon buf 0 m = Ok tt m2) as E.
  { rewrite write_chars_app, (bind_ok _ _ _ _ _ E1). by rewrite Z.add_0_l. }
  rewrite (bind_ok _ _ _ _ _ E). mrun. unfold _update_cursor. mrun.
  rewrite (bind_ok _ _ _ _ _ (Ho _ _ _)), (bind_ok _ _ _ _ _ (Ho _ _ _)).
  exists m2. split; [done|]. split; [done|]. split.
  - intros j c Hj. rewrite F2 by (unfold cell, vc_apart in *; apply lookup_lt_Some in Hj; lia). by apply T1.
  - intros x Hx Hj. rewrite F2, F1; done.
Qed.

(** A console at 64 with device 32 and video memory at 8192, "Hi" at 512. *)
Definition vc_ex : gmap Z Z :=
  list_to_map [(48, 64); (64, 8192); (512, 72); (513, 105); (514, CR); (515, LF)].

Lemma vconsole_line_witness :
  ∃ m', vconsole_write (λ _ _, mret tt) 32 512 4 vc_ex = Ok 0 m' ∧ vcon_at m' 64 8192 80 0 0 ∧
    (∀ j c, [72; 105] !! j = Some c → m'.@(cell 8192 (80 * 0 + Z.of_nat j)) = Z.lor 0x0700 c).
Proof.
  destruct (vconsole_line_correct (λ _ _, mret tt) vc_ex 32 64 8192 0 512 [72; 105]) as (m' & E & V & T & _).
  - done.
  - reflexivity.
  - constructor; reflexivity.
  - unfold vc_apart. lia.
  - lia.
  - simpl. lia.
  - simpl. lia.
  - repeat constructor; unfold printable; lia.
  - repeat split; reflexivity.
  - intros x Hx. simpl in Hx. lia.
  - exists m'. split; [exact E|]. split; [exact V|exact T].
Defined.

Lemma vconsole_scroll_run m vcon video pos col save : vcon_at m vcon video pos col save →
  ∃ m1, scroll vcon m = Ok tt m1 ∧
    ∀ x, m1.@x = if decide (video <= x < video + 1920) then m.@(cell video 80 + (x - video)) else m.@x.
Proof.
  intros Hv. unfold scroll, memmove. mrun. rewrite (va_video _ _ _ _ _ _ Hv).
  assert (Z.of_nat (Z.to_nat (80 * 24)) = 1920) as En by lia. revert En. generalize (Z.to_nat (80 * 24)). intros n En.
  eexists. split; [reflexivity|]. intros x. unfold kmemmove. rewrite (proj2 (Z.ltb_lt _ _)) by (unfold cell; lia).
  rewrite kmemcpy_forward by (unfold cell; lia). by rewrite En.
Qed.

(** scrolling moves only half of the screen: the byte count 80 * 24 is used
    for 16-bit cells, so the lines 0 to 11 take the lines below them and the
    lines 12 to 24 stay, the last one is not cleared, and the 80 bytes behind
    the screen are. *)
Theorem vconsole_scrolls_half m vcon video n :
  vcon_at m vcon video 1920 0 n → vc_apart vcon video → 0 < n <= 80 →
  ∃ m', put_char vcon LF m = Ok tt m' ∧ vcon_at m' vcon video 1920 0 0 ∧
    (∀ i, 0 <= i < 960 → m'.@(cell video i) = m.@(cell video (i + 80))) ∧
    (∀ i, 960 <= i < 2000 → m'.@(cell video i) = m.@(cell video i)) ∧
    (∀ x, video + 4000 <= x < video + 4080 → m'.@x = 0).
Proof.
  intros Hv Ha Hn. unfold put_char. change (LF =? CR) with false. change (LF =? LF) with true. cbn iota. mrun.
  rewrite (va_pos _ _ _ _ _ _ Hv), (va_save _ _ _ _ _ _ Hv), (i32_small (1920 + n + 79)) by lia.
  rewrite Z.quot_div_nonneg by lia.
  replace ((1920 + n + 79) / 80) with 25 by (apply (Z.div_unique _ 80 _ (n - 1)); lia).
  change (80 * 25 <=? i32 (25 * 80)) with true. cbn iota. mrun.
  destruct (vconsole_scroll_run m vcon video _ _ _ Hv) as (m1 & E1 & F1). rewrite (bind_ok _ _ _ _ _ E1).
  mrun. assert (m1.@(vc_video vcon) = video) as ->.
  { rewrite F1, decide_False by (vc; lia). apply Hv. }
  unfold memset0. unfold mbind at 1, M_bind at 1. mrun. eexists. split; [reflexivity|].
  set (m2 := kmemset0 _ _ m1).
  assert (∀ x, m2.@x = if decide (video + 4000 <= x < video + 4080) then 0 else m1.@x) as F2.
  { intros x. unfold m2. rewrite rd_kmemset0. unfold cell. repeat case_decide; try lia; done. }
  assert (∀ x, ¬ (vcon <= x < vcon + 24) → (m2.[vc_pos vcon <- 80 * 24].[vc_column_save vcon <- 0]).@x = m2.@x) as F3.
  { intros x Hx. vc. by rdwr. }
  split; [|split; [|split]].
  - assert (∀ x, vcon <= x < vcon + 24 → m2.@x = m.@x) as F.
    { intros x Hx. rewrite F2, F1. vc. by rewrite !decide_False by lia. }
    destruct Hv. vc. constructor; vc; rdwr; rewrite ?F by lia; done.
  - intros i Hi. rewrite F3, F2, F1 by (vc; lia). vc. rewrite decide_False, decide_True by lia. f_equal. lia.
  - intros i Hi. rewrite F3, F2, F1 by (vc; lia). vc. by rewrite !decide_False by lia.
  - intros x Hx. rewrite F3, F2 by (vc; lia). by rewrite decide_True.
Qed.

Definition vc_last_ex : gmap Z Z := list_to_map [(64, 8192); (72, 1920); (80, 5)].

Lemma vconsole_scrolls_witness :
  ∃ m', put_char 64 LF vc_last_ex = Ok tt m' ∧ vcon_at m' 64 8192 1920 0 0.
Proof.
  destruct (vconsole_scrolls_half vc_last_ex 64 8192 5) as (m' & E & V & _);
    [constructor; reflexivity|unfold vc_apart; lia|lia|].
  exists m'. split; [exact E|exact V].
Defined.

(** A run that is checked by evaluation. *)
Lemma ok_check {A} (o : outcome A) (f : A → gmap Z Z → bool) :
  match o with Ok a m => f a m | _ => false end = true → ∃ a m, o = Ok a m ∧ f a m = true.
Proof. destruct o as [a m| |]; [by exists a, m|done..]. Qed.

(** 2001 times "a", a carriage return and "b". *)
Definition vc_long_ex : gmap Z Z :=
  list_to_map (imap (λ i c, (16384 + Z.of_nat i, c)) (replicate 2001 97 ++ [CR; 98])) ∪
  list_to_map [(48, 64); (64, 8192)].

(** more than 2000 characters in front of a carriage return put the position
    in front of the screen: the column counts on when the text wraps and
    scrolls, and the return subtracts all of it, so the next character is
    written below the video memory. *)
Theorem vconsole_writes_below_screen :
  ∃ m', vconsole_write (λ _ _, mret tt) 32 16384 2003 vc_long_ex = Ok 0 m' ∧
    m'.@(vc_pos 64) = -79 ∧ m'.@(cell 8192 (-80)) = Z.lor 0x0700 98.
Proof.
  destruct (ok_check (vconsole_write (λ _ _, mret tt) 32 16384 2003 vc_long_ex)
    (λ a m', (a =? 0) && (m'.@(vc_pos 64) =? -79) && (m'.@(cell 8192 (-80)) =? Z.lor 0x0700 98)))
    as (a & m' & E & [[H1%Z.eqb_eq H2%Z.eqb_eq]%andb_prop H3%Z.eqb_eq]%andb_prop); [vm_compute; reflexivity|].
  exists m'. rewrite <-H1. exact (conj E (conj H2 H3)).
Qed.
