(* ===== verification/Acpi.v ===== *)
(** * Firmware tables and timers: kernel/arch/x86_64/acpi.c, apic.c, i8254.c, tsc.c

    The kernel finds the root pointer of the ACPI tables in the BIOS area by
    its checksum and signature, and takes from the tables the interrupt
    controllers, the power management timer and the NUMA domains of processors
    and memory.  The tables are bytes, one cell each, and wider fields are read
    as little-endian numbers; [acpi_t] is a structure of the kernel with one
    cell per field.  Ports, model specific registers and [cpuid] are arguments,
    the registers of the local APIC are cells of the memory. *)

From S2P Require Import Prelude CMonad KString.

(** ** Fields *)

Definition MAX_PROCESSORS : Z := 128.
Definition MAX_MEMORY_REGIONS : Z := 128.
Definition BDA_EDBA : Z := 0x040e.
Definition ACPI_TMR_HZ : Z := 3579545.
Definition sizeof_sdt_hdr : Z := 36.
Definition sizeof_sdt_apic : Z := 8.
Definition sizeof_srat_hdr : Z := 12.

Definition ac_p2v (acpi : Z) : Z := acpi.
Definition ac_apic_address (acpi : Z) : Z := acpi + 8.
Definition ac_ioapic_base (acpi : Z) : Z := acpi + 16.
Definition ac_pm_tmr_port (acpi : Z) : Z := acpi + 24.
Definition ac_pm_tmr_ext (acpi : Z) : Z := acpi + 32.
Definition ac_pm1a (acpi : Z) : Z := acpi + 36.
Definition ac_pm1b (acpi : Z) : Z := acpi + 40.
Definition ac_smi (acpi : Z) : Z := acpi + 44.
Definition ac_enable (acpi : Z) : Z := acpi + 48.
Definition ac_century (acpi : Z) : Z := acpi + 49.
Definition ac_lapic_valid (acpi i : Z) : Z := acpi + 52 + 8 * i.
Definition ac_lapic_domain (acpi i : Z) : Z := acpi + 56 + 8 * i.
Definition ac_num_region (acpi : Z) : Z := acpi + 1076.
Definition ac_region_base (acpi i : Z) : Z := acpi + 1080 + 24 * i.
Definition ac_region_length (acpi i : Z) : Z := acpi + 1088 + 24 * i.
Definition ac_region_domain (acpi i : Z) : Z := acpi + 1096 + 24 * i.
Definition sizeof_acpi : Z := 4152.

(** The packed structures of the firmware: [struct acpi_rsdp],
    [acpi_sdt_apic_hdr], [acpi_sdt_apic_ioapic], [acpi_generic_addr_struct],
    [acpi_sdt_fadt], [acpi_sdt_srat_lapic] and [acpi_sdt_srat_memory]. *)
Definition rsdp_revision (p : Z) : Z := p + 15.
Definition rsdp_rsdt_addr (p : Z) : Z := p + 16.
Definition rsdp_xsdt_addr (p : Z) : Z := p + 24.
Definition apic_type (h : Z) : Z := h.
Definition apic_length (h : Z) : Z := h + 1.
Definition ioapic_addr (h : Z) : Z := h + 4.
Definition gas_addr_space (g : Z) : Z := g.
Definition gas_addr (g : Z) : Z := g + 4.
Definition fadt_smi_cmd_port (f : Z) : Z := f + 12.
Definition fadt_acpi_enable (f : Z) : Z := f + 16.
Definition fadt_pm1a_ctrl_block (f : Z) : Z := f + 28.
Definition fadt_pm1b_ctrl_block (f : Z) : Z := f + 32.
Definition fadt_pm_timer_block (f : Z) : Z := f + 40.
Definition fadt_century (f : Z) : Z := f + 72.
Definition fadt_flags (f : Z) : Z := f + 76.
Definition fadt_x_pm1a_ctrl_block (f : Z) : Z := f + 136.
Definition fadt_x_pm1b_ctrl_block (f : Z) : Z := f + 148.
Definition fadt_x_pm_timer_block (f : Z) : Z := f + 172.
Definition srat_type (e : Z) : Z := e.
Definition srat_length (e : Z) : Z := e + 1.
Definition sl_domain (e : Z) : Z := e + 2.
Definition sl_apic_id (e : Z) : Z := e + 3.
Definition sl_domain2 (e i : Z) : Z := e + 9 + i.
Definition sm_domain (e : Z) : Z := e + 2.
Definition sm_base_low (e : Z) : Z := e + 8.
Definition sm_base_high (e : Z) : Z := e + 12.
Definition sm_length_low (e : Z) : Z := e + 16.
Definition sm_length_high (e : Z) : Z := e + 20.
Definition sm_flags (e : Z) : Z := e + 28.

(** Little-endian fields of a table. *)
Definition ld16 (a : Z) : M Z := b0 ← ld a; b1 ← ld (a + 1); mret (b0 + 2 ^ 8 * b1).
Definition ld32 (a : Z) : M Z := l ← ld16 a; h ← ld16 (a + 2); mret (l + 2 ^ 16 * h).
Definition ld64 (a : Z) : M Z := l ← ld32 a; h ← ld32 (a + 4); mret (l + 2 ^ 32 * h).

(** [struct acpi_sdt_hdr] and [struct acpi_rsdp] *)
Definition sdt_length (sdt : Z) : M Z := ld32 (sdt + 4).
Definition sdt_revision (sdt : Z) : M Z := ld (sdt + 8).

(** [kmemcmp] with a string literal. *)
Fixpoint memcmp_lit (m : gmap Z Z) (a : Z) (lit : list Z) : Z :=
  match lit with
  | [] => 0
  | c :: lit => if m.@a =? c then memcmp_lit m (a + 1) lit else u8 (m.@a - c)
  end.
Definition signature (a : Z) (lit : list Z) : M bool := λ m, Ok (0 =? memcmp_lit m a lit) m.

Definition APIC_sig : list Z := [65; 80; 73; 67].
Definition FACP_sig : list Z := [70; 65; 67; 80].
Definition SRAT_sig : list Z := [83; 82; 65; 84].
Definition RSDT_sig : list Z := [82; 83; 68; 84].
Definition XSDT_sig : list Z := [88; 83; 68; 84].
Definition RSD_PTR_sig : list Z := [82; 83; 68; 32; 80; 84; 82; 32].

(** ** acpi.c *)

Fixpoint checksum_loop (k : nat) (ptr i sum : Z) : M Z :=
  match k with
  | O => mret sum
  | S k => b ← ld (ptr + i); checksum_loop k ptr (i + 1) (u8 (sum + b))
  end.
Definition _validate_checksum (ptr len : Z) : M Z := checksum_loop (Z.to_nat len) ptr 0 0.

(** [while ( len < sdt->length )] over the entries of the MADT. *)
Fixpoint apic_loop (k : nat) (acpi sdt len : Z) : M Z :=
  match k with
  | O => hang
  | S k =>
    length ← sdt_length sdt;
    if negb (len <? length) then mret 0 else
    let hdr := sdt + len in
    l ← ld (apic_length hdr);
    if length <? u32 (len + l) then mret (-1) else
    type ← ld (apic_type hdr);
    _ ← (if type =? 1 then
           base ← ld (ac_ioapic_base acpi);
           if base =? 0 then addr ← ld32 (ioapic_addr hdr); st (ac_ioapic_base acpi) addr else mret tt
         else mret tt);
    l ← ld (apic_length hdr);
    apic_loop k acpi sdt (u32 (len + l))
  end.

Definition _parse_apic (fuel : nat) (acpi sdt : Z) : M Z :=
  a ← ld32 (sdt + sizeof_sdt_hdr);
  _ ← st (ac_apic_address acpi) a;
  apic_loop fuel acpi sdt (sizeof_sdt_hdr + sizeof_sdt_apic).

(** An extended address: only system I/O, and the old field when it is 0. *)
Definition fadt_block (field gas old : Z) : M unit :=
  space ← ld (gas_addr_space gas);
  if space =? 1 then
    a ← ld64 (gas_addr gas); _ ← st field a;
    a ← ld field;
    if a =? 0 then o ← ld32 old; st field o else mret tt
  else mret tt.
(** The control blocks are 32 bits wide. *)
Definition fadt_block32 (field gas old : Z) : M unit :=
  space ← ld (gas_addr_space gas);
  if space =? 1 then
    a ← ld64 (gas_addr gas); _ ← st field (u32 a);
    a ← ld field;
    if a =? 0 then o ← ld32 old; st field o else mret tt
  else mret tt.

Definition _parse_fadt (acpi sdt : Z) : M Z :=
  let fadt := sdt + sizeof_sdt_hdr in
  revision ← sdt_revision sdt;
  _ ← (if 3 <=? revision then
         _ ← fadt_block (ac_pm_tmr_port acpi) (fadt_x_pm_timer_block fadt) (fadt_pm_timer_block fadt);
         _ ← fadt_block32 (ac_pm1a acpi) (fadt_x_pm1a_ctrl_block fadt) (fadt_pm1a_ctrl_block fadt);
         fadt_block32 (ac_pm1b acpi) (fadt_x_pm1b_ctrl_block fadt) (fadt_pm1b_ctrl_block fadt)
       else
         t ← ld32 (fadt_pm_timer_block fadt); _ ← st (ac_pm_tmr_port acpi) t;
         a ← ld32 (fadt_pm1a_ctrl_block fadt); _ ← st (ac_pm1a acpi) a;
         b ← ld32 (fadt_pm1b_ctrl_block fadt); st (ac_pm1b acpi) b);
  flags ← ld32 (fadt_flags fadt);
  _ ← st (ac_pm_tmr_ext acpi) (Z.land (Z.shiftr flags 8) 1);
  smi ← ld32 (fadt_smi_cmd_port fadt); _ ← st (ac_smi acpi) smi;
  en ← ld (fadt_acpi_enable fadt); _ ← st (ac_enable acpi) en;
  c ← ld (fadt_century fadt); _ ← st (ac_century acpi) c;
  mret 0.

(** An entry of the SRAT: the domain of a processor or of a memory range. *)
Definition srat_lapic (acpi e : Z) : M unit :=
  id ← ld (sl_apic_id e);
  _ ← st (ac_lapic_valid acpi id) 1;
  id ← ld (sl_apic_id e);
  d0 ← ld (sl_domain e); d1 ← ld (sl_domain2 e 0); d2 ← ld (sl_domain2 e 1); d3 ← ld (sl_domain2 e 2);
  st (ac_lapic_domain acpi id)
    (Z.lor (Z.lor (Z.lor d0 (Z.shiftl d1 8)) (Z.shiftl d2 16)) (Z.shiftl d3 24)).

Definition srat_memory (acpi e : Z) : M unit :=
  flags ← ld32 (sm_flags e); n ← ld (ac_num_region acpi);
  if negb (Z.land flags 1 =? 0) && (n <? MAX_MEMORY_REGIONS) then
    bl ← ld32 (sm_base_low e); bh ← ld32 (sm_base_high e); ll ← ld32 (sm_length_low e); lh ← ld32 (sm_length_high e);
    n ← ld (ac_num_region acpi); _ ← st (ac_region_base acpi n) (Z.lor bl (Z.shiftl bh 32));
    n ← ld (ac_num_region acpi); _ ← st (ac_region_length acpi n) (Z.lor ll (Z.shiftl lh 32));
    d ← ld32 (sm_domain e);
    n ← ld (ac_num_region acpi); _ ← st (ac_region_domain acpi n) d;
    n ← ld (ac_num_region acpi); st (ac_num_region acpi) (n + 1)
  else mret tt.

Fixpoint srat_loop (k : nat) (acpi sdt len : Z) : M Z :=
  match k with
  | O => hang
  | S k =>
    length ← sdt_length sdt;
    if negb (len <? length) then mret 0 else
    let e := sdt + len in
    l ← ld (srat_length e);
    if length <? u32 (len + l) then mret 0 else
    type ← ld (srat_type e);
    _ ← (if type =? 0 then srat_lapic acpi e
         else if type =? 1 then srat_memory acpi e else mret tt);
    l ← ld (srat_length e);
    srat_loop k acpi sdt (u32 (len + l))
  end.

Definition _parse_srat (fuel : nat) (acpi sdt : Z) : M Z :=
  srat_loop fuel acpi sdt (sizeof_sdt_hdr + sizeof_srat_hdr).

(** The tables listed in the RSDT or XSDT, entries of [sz] bytes. *)
Fixpoint rsdt_loop (k fuel : nat) (acpi rsdt sz i : Z) : M Z :=
  match k with
  | O => mret 0
  | S k =>
    let p := rsdt + sizeof_sdt_hdr + i * sz in
    addr ← (if 4 =? sz then ld32 p else ld64 p);
    p2v ← ld (ac_p2v acpi);
    let tmp := u64 (addr + p2v) in
    is_apic ← signature tmp APIC_sig;
    is_facp ← signature tmp FACP_sig;
    is_srat ← signature tmp SRAT_sig;
    ret ← (if is_apic : bool then _parse_apic fuel acpi tmp
           else if is_facp : bool then _parse_fadt acpi tmp
           else if is_srat : bool then _parse_srat fuel acpi tmp else mret 0);
    if ret <? 0 then mret (-1) else rsdt_loop k fuel acpi rsdt sz (i + 1)
  end.

Definition _parse_rsdt (fuel : nat) (acpi rsdp : Z) : M Z :=
  revision ← ld (rsdp_revision rsdp);
  p2v ← ld (ac_p2v acpi);
  addr ← (if 1 <=? revision then ld64 (rsdp_xsdt_addr rsdp) else ld32 (rsdp_rsdt_addr rsdp));
  let sz := if 1 <=? revision then 8 else 4 in
  let rsdt := u64 (addr + p2v) in
  ok ← signature rsdt (if 1 <=? revision then XSDT_sig else RSDT_sig);
  if negb ok then mret (-1) else
  length ← sdt_length rsdt;
  let nr := i32 (u64 (length - sizeof_sdt_hdr) / sz) in
  rsdt_loop (Z.to_nat nr) fuel acpi rsdt sz 0.

(** [for ( addr = start; addr < end; addr += 0x10 )] *)
Fixpoint search_loop (k fuel : nat) (acpi addr : Z) : M Z :=
  match k with
  | O => mret (-1)
  | S k =>
    sum ← _validate_checksum addr 20;
    if 0 =? sum then
      ok ← signature addr RSD_PTR_sig;
      if ok : bool then _parse_rsdt fuel acpi addr else search_loop k fuel acpi (addr + 0x10)
    else search_loop k fuel acpi (addr + 0x10)
  end.
Definition _rsdp_search_range (fuel : nat) (acpi start end_ : Z) : M Z :=
  search_loop (Z.to_nat ((end_ - start + 15) / 16)) fuel acpi start.

Definition acpi_load (fuel : nat) (acpi p2v : Z) : M Z :=
  _ ← memset0 acpi sizeof_acpi;
  _ ← st (ac_p2v acpi) p2v;
  ebda ← ld16 (BDA_EDBA + p2v);
  let ebda_addr := Z.shiftl ebda 4 + p2v in
  ret ← (if ebda =? 0 then mret (-1) else _rsdp_search_range fuel acpi ebda_addr (ebda_addr + 0x400));
  if 0 <=? ret then mret 0
  else _rsdp_search_range fuel acpi (0xe0000 + p2v) (0x100000 + p2v).

Definition acpi_timer_available (acpi : Z) : M Z :=
  port ← ld (ac_pm_tmr_port acpi); mret (if 0 =? port then -1 else 0).

Section timer.
(** [in32] of asm.S. *)
Context (in32 : Z → M Z).

Definition acpi_get_timer (acpi : Z) : M Z := port ← ld (ac_pm_tmr_port acpi); t ← in32 port; mret (u32 t).
Definition acpi_get_timer_period (acpi : Z) : M Z :=
  ext ← ld (ac_pm_tmr_ext acpi); mret (if ext =? 0 then 2 ^ 24 else 2 ^ 32).

(** [while ( acc < clk )]; [pause] has no effect. *)
Fixpoint usleep_loop (k : nat) (acpi clk acc prev : Z) : M unit :=
  match k with
  | O => hang
  | S k =>
    if negb (acc <? clk) then mret tt else
    cur ← acpi_get_timer acpi;
    acc ← (if cur <? prev then p ← acpi_get_timer_period acpi; mret (u64 (acc + (p + cur - prev)))
           else mret (u64 (acc + (cur - prev))));
    usleep_loop k acpi clk acc cur
  end.

Definition acpi_busy_usleep (fuel : nat) (acpi usec : Z) : M unit :=
  let clk := u64 (ACPI_TMR_HZ * usec) / 1000000 in
  prev ← acpi_get_timer acpi;
  usleep_loop fuel acpi clk 0 prev.
End timer.

(** ** apic.c *)

Definition APIC_LAPIC_ID : Z := 0x020.
Definition APIC_SIVR : Z := 0x0f0.
Definition APIC_ICR_LOW : Z := 0x300.
Definition APIC_ICR_HIGH : Z := 0x310.
Definition APIC_LVT_TMR : Z := 0x320.
Definition APIC_INITTMR : Z := 0x380.
Definition APIC_CURTMR : Z := 0x390.
Definition APIC_TMRDIV : Z := 0x3e0.
Definition APIC_ICR_FIXED : Z := 0.
Definition APIC_ICR_INIT : Z := 0x500.
Definition APIC_ICR_STARTUP : Z := 0x600.
Definition APIC_ICR_SEND_PENDING : Z := 0x1000.
Definition APIC_ICR_DEST_NOSHORTHAND : Z := 0.
Definition APIC_ICR_DEST_ALL_EX_SELF : Z := 0xc0000.
Definition APIC_LVT_DISABLE : Z := 0x10000.
Definition APIC_LVT_PERIODIC : Z := 0x20000.
Definition APIC_TMRDIV_X16 : Z := 3.
Definition MSR_APIC_BASE : Z := 0x1b.
Definition MSR_PLATFORM_INFO : Z := 0xce.

Section machine.
(** [rdmsr], [cpuid] (rax, rbx, rcx, rdx) and [out8] of asm.S. *)
Context (rdmsr : Z → M Z) (cpuid : Z → M (Z * Z * Z * Z)) (out8 : Z → Z → M unit).

Definition lapic_base_addr : M Z :=
  msr ← rdmsr MSR_APIC_BASE;
  let apic_base := Z.land msr 0xfffffffffffff000 in
  reg ← ld (apic_base + APIC_SIVR);
  _ ← st (apic_base + APIC_SIVR) (Z.lor reg 0x100);
  mret apic_base.

Definition lapic_id : M Z :=
  apic_base ← lapic_base_addr;
  reg ← ld (apic_base + APIC_LAPIC_ID);
  mret (Z.shiftr reg 24).

(** [(icrl & ~0x000cdfff) | command] and [icrh & 0x000fffff], as 32-bit values. *)
Definition icr_low (icrl command : Z) : Z := Z.lor (Z.land icrl (u32 (Z.lnot 0xcdfff))) command.
Definition icr_high (icrh dst : Z) : Z := Z.lor (Z.land icrh 0xfffff) dst.

Definition lapic_send_init_ipi : M unit :=
  apic_base ← lapic_base_addr;
  icrl ← ld (apic_base + APIC_ICR_LOW); icrh ← ld (apic_base + APIC_ICR_HIGH);
  _ ← st (apic_base + APIC_ICR_HIGH) (icr_high icrh 0);
  st (apic_base + APIC_ICR_LOW) (icr_low icrl (Z.lor APIC_ICR_INIT APIC_ICR_DEST_ALL_EX_SELF)).

(** Wait until the last command is sent; the registers may change between two
    reads, which is the argument [poll]. *)
Fixpoint icr_idle (poll : M unit) (k : nat) (apic_base : Z) : M (Z * Z) :=
  match k with
  | O => hang
  | S k =>
    icrl ← ld (apic_base + APIC_ICR_LOW); icrh ← ld (apic_base + APIC_ICR_HIGH);
    if Z.land icrl APIC_ICR_SEND_PENDING =? 0 then mret (icrl, icrh)
    else _ ← poll; icr_idle poll k apic_base
  end.

Definition lapic_send_startup_ipi (poll : M unit) (fuel : nat) (vector : Z) : M unit :=
  apic_base ← lapic_base_addr;
  '(icrl, icrh) ← icr_idle poll fuel apic_base;
  _ ← st (apic_base + APIC_ICR_HIGH) (icr_high icrh 0);
  st (apic_base + APIC_ICR_LOW)
     (icr_low icrl (Z.lor (Z.lor APIC_ICR_STARTUP APIC_ICR_DEST_ALL_EX_SELF) vector)).

Definition lapic_bcast_fixed_ipi (vector : Z) : M unit :=
  apic_base ← lapic_base_addr;
  icrl ← ld (apic_base + APIC_ICR_LOW); icrh ← ld (apic_base + APIC_ICR_HIGH);
  _ ← st (apic_base + APIC_ICR_HIGH) (icr_high icrh 0);
  st (apic_base + APIC_ICR_LOW)
     (icr_low icrl (Z.lor (Z.lor APIC_ICR_FIXED APIC_ICR_DEST_ALL_EX_SELF) vector)).

Definition lapic_send_fixed_ipi (dst vector : Z) : M unit :=
  apic_base ← lapic_base_addr;
  icrl ← ld (apic_base + APIC_ICR_LOW); icrh ← ld (apic_base + APIC_ICR_HIGH);
  _ ← st (apic_base + APIC_ICR_HIGH) (icr_high icrh (u32 (Z.shiftl dst 24)));
  st (apic_base + APIC_ICR_LOW)
     (icr_low icrl (Z.lor (Z.lor APIC_ICR_FIXED APIC_ICR_DEST_NOSHORTHAND) vector)).

Definition ioapic_init : M unit := _ ← out8 0xa1 0xff; out8 0x21 0xff.

(** [io] is the access to the register pair: a write to the selected register. *)
Definition ioapic_map_intr (io : Z → M unit) (intvec tbldst ioapic_base : Z) : M unit :=
  let write reg value := _ ← st ioapic_base reg; _ ← st (ioapic_base + 0x10) value; io ioapic_base in
  _ ← write (u32 (tbldst * 2 + 0x10)) (u32 intvec);
  write (u32 (tbldst * 2 + 0x10 + 1)) (u32 (Z.shiftr intvec 32)).

Definition lapic_set_timer (value divide : Z) : M unit :=
  apic_base ← lapic_base_addr;
  _ ← st (apic_base + APIC_LVT_TMR) APIC_LVT_DISABLE;
  _ ← st (apic_base + APIC_TMRDIV) (u32 divide);
  _ ← st (apic_base + APIC_LVT_TMR) 0;
  st (apic_base + APIC_INITTMR) value.

Definition lapic_stop_and_read_timer : M Z :=
  apic_base ← lapic_base_addr;
  _ ← st (apic_base + APIC_LVT_TMR) APIC_LVT_DISABLE;
  ld (apic_base + APIC_CURTMR).

Definition lapic_start_timer (busfreq freq vec : Z) : M unit :=
  apic_base ← lapic_base_addr;
  _ ← st (apic_base + APIC_LVT_TMR) (Z.lor APIC_LVT_PERIODIC vec);
  _ ← st (apic_base + APIC_TMRDIV) APIC_TMRDIV_X16;
  st (apic_base + APIC_INITTMR) (u32 (Z.shiftr busfreq 4 / freq)).

Definition lapic_stop_timer : M unit :=
  apic_base ← lapic_base_addr;
  st (apic_base + APIC_LVT_TMR) APIC_LVT_DISABLE.

(** ** i8254.c *)

Definition I8254_REG_CNTR0 : Z := 0x40.
Definition I8254_REG_CTRL : Z := 0x43.
Definition I8254_HZ : Z := 1193182.

Definition i8254_start_timer (hz : Z) : M unit :=
  let counter := Z.quot I8254_HZ hz in
  _ ← out8 I8254_REG_CTRL (Z.lor 0x30 0x06);
  _ ← out8 I8254_REG_CNTR0 (u8 (Z.land counter 0xff));
  out8 I8254_REG_CNTR0 (u8 (Z.shiftr counter 8)).

Definition i8254_stop_timer : M unit :=
  _ ← out8 I8254_REG_CTRL 0x30; _ ← out8 I8254_REG_CNTR0 0; out8 I8254_REG_CNTR0 0.

(** ** tsc.c *)

(** The multiplier of the bus clock by the processor's family and model. *)
Definition tsc_invariant_freq : M Z :=
  '(_, _, _, rdx) ← cpuid 0x80000007;
  if Z.land rdx 0x100 =? 0 then mret 0 else
  msr ← rdmsr MSR_PLATFORM_INFO;
  let reg := Z.shiftr (Z.land msr 0xff00) 8 in
  '(rax, _, _, _) ← cpuid 1;
  let family := Z.lor (Z.shiftr (Z.land rax 0xf00) 8) (Z.shiftr (Z.land rax 0xff00000) 12) in
  let model := Z.lor (Z.shiftr (Z.land rax 0xf0) 4) (Z.shiftr (Z.land rax 0xf0000) 12) in
  if 6 =? family then
    if (model =? 0x1e) || (model =? 0x1a) || (model =? 0x2e) then mret (u64 (reg * 133330000))
    else mret (u64 (reg * 100000000))
  else mret 0.
End machine.
