(* ===== verification/AcpiTheorems.v ===== *)
(** * Firmware tables and timers: theorems

    The NUMA table against a list of entries, the loops over entries whose
    length is 0, and the timer behind [acpi_busy_usleep]. *)

From S2P Require Import Prelude CMonad KString Desc Acpi.

(** ** Little-endian fields *)

Definition byte (z : Z) : Prop := 0 <= z < 256.

(** The [n] bytes from [a] are the number [v]. *)
Fixpoint le (m : gmap Z Z) (a : Z) (n : nat) (v : Z) : Prop :=
  match n with
  | O => v = 0
  | S n => ∃ b v', byte b ∧ m.@a = b ∧ le m (a + 1) n v' ∧ v = b + 256 * v'
  end.

Lemma le_range m a n v : le m a n v → 0 <= v < 256 ^ Z.of_nat n.
Proof.
  revert a v. induction n as [|n IH]; intros a v H.
  - simpl in H. subst. by vm_compute.
  - destruct H as (b & v' & Hb & _ & H & ->). apply IH in H. unfold byte in Hb.
    rewrite Nat2Z.inj_succ, Z.pow_succ_r by lia. lia.
Qed.

Lemma le_frame m m' a n v :
  (∀ x, a <= x < a + Z.of_nat n → m'.@x = m.@x) → le m a n v → le m' a n v.
Proof.
  revert a v. induction n as [|n IH]; intros a v F H; [done|].
  destruct H as (b & v' & Hb & E & H & ->). exists b, v'. split; [done|]. split; [by rewrite F by lia|].
  split; [|done]. apply IH; [|done]. intros x Hx. apply F. lia.
Qed.

Lemma ld_le m a v : le m a 1 v → m.@a = v ∧ byte v.
Proof. intros (b & v' & Hb & <- & H & ->). simpl in H. subst v'. split; [lia|]. by rewrite Z.mul_0_r, Z.add_0_r. Qed.

Lemma ld16_le m a v : le m a 2 v → ld16 a m = Ok v m.
Proof.
  intros (b & v' & Hb & E & H & ->). apply ld_le in H as [E' _]. unfold ld16. mrun.
  by rewrite E, E'.
Qed.

Lemma le_app m a n1 n2 v : le m a (n1 + n2) v →
  ∃ v1 v2, le m a n1 v1 ∧ le m (a + Z.of_nat n1) n2 v2 ∧ v = v1 + 256 ^ Z.of_nat n1 * v2.
Proof.
  revert a v. induction n1 as [|n1 IH]; intros a v H.
  - exists 0, v. simpl. rewrite Z.add_0_r. split; [done|]. split; [done|]. destruct v; done || lia.
  - destruct H as (b & v' & Hb & E & H & ->). destruct (IH _ _ H) as (v1 & v2 & H1 & H2 & ->).
    exists (b + 256 * v1), v2. split; [by exists b, v1|].
    replace (a + Z.of_nat (S n1)) with (a + 1 + Z.of_nat n1) by lia. split; [done|].
    rewrite Nat2Z.inj_succ, Z.pow_succ_r by lia. lia.
Qed.

Lemma ld32_le m a v : le m a 4 v → ld32 a m = Ok v m.
Proof.
  intros (v1 & v2 & H1 & H2 & ->)%(le_app m a 2 2). unfold ld32.
  rewrite (bind_ok _ _ _ _ _ (ld16_le _ _ _ H1)), (bind_ok _ _ _ _ _ (ld16_le _ _ _ H2)).
  done.
Qed.

(** ** The NUMA table *)

(** Entries of the SRAT: a processor, a range of memory, anything else. *)
Inductive srat_entry :=
  | ELapic (id domain : Z)
  | EMemory (base length domain flags : Z)
  | EOther (type : Z).

(** [entry_at m e x l]: the [l] bytes from [e] are [x]. *)
Definition entry_at (m : gmap Z Z) (e : Z) (x : srat_entry) (l : Z) : Prop :=
  0 < l < 256 ∧ m.@(e + 1) = l ∧
  match x with
  | ELapic id d =>
    16 <= l ∧ m.@e = 0 ∧ m.@(e + 3) = id ∧ 0 <= id < MAX_PROCESSORS ∧
    ∃ d0 d', le m (e + 2) 1 d0 ∧ le m (e + 9) 3 d' ∧ d = d0 + 2 ^ 8 * d'
  | EMemory b n d f =>
    40 <= l ∧ m.@e = 1 ∧ le m (e + 2) 4 d ∧ le m (e + 8) 8 b ∧ le m (e + 16) 8 n ∧ le m (e + 28) 4 f
  | EOther t => 2 <= l ∧ m.@e = t ∧ t ≠ 0 ∧ t ≠ 1
  end.

Fixpoint entries_at (m : gmap Z Z) (sdt len total : Z) (es : list (srat_entry * Z)) : Prop :=
  match es with
  | [] => len = total
  | (x, l) :: es => entry_at m (sdt + len) x l ∧ len + l <= total ∧ entries_at m sdt (len + l) total es
  end.

(** The domains of the processors, and the memory regions in order. *)
Definition numa : Type := gmap Z Z * list (Z * Z * Z).

Definition numa_step (s : numa) (x : srat_entry) : numa :=
  match x with
  | ELapic id d => (<[id := d]> s.1, s.2)
  | EMemory b n d f =>
    if Z.odd f && (Z.of_nat (length s.2) <? MAX_MEMORY_REGIONS) then (s.1, s.2 ++ [(b, n, d)]) else s
  | EOther _ => s
  end.

(** What the kernel's structure says. *)
Record numa_at (m : gmap Z Z) (acpi : Z) (s : numa) : Prop := {
  na_valid id : 0 <= id < MAX_PROCESSORS →
    m.@(ac_lapic_valid acpi id) = match s.1 !! id with Some _ => 1 | None => 0 end;
  na_domain id d : 0 <= id < MAX_PROCESSORS → s.1 !! id = Some d → m.@(ac_lapic_domain acpi id) = d;
  na_num : m.@(ac_num_region acpi) = Z.of_nat (length s.2);
  na_max : Z.of_nat (length s.2) <= MAX_MEMORY_REGIONS;
  na_region j b n d : s.2 !! j = Some (b, n, d) →
    m.@(ac_region_base acpi (Z.of_nat j)) = b ∧ m.@(ac_region_length acpi (Z.of_nat j)) = n ∧
    m.@(ac_region_domain acpi (Z.of_nat j)) = d;
}.

Ltac ac := unfold ac_lapic_valid, ac_lapic_domain, ac_num_region, ac_region_base, ac_region_length, ac_region_domain,
  sizeof_acpi, MAX_PROCESSORS, MAX_MEMORY_REGIONS in *.

(** Table and structure do not overlap. *)
Definition table_apart (acpi sdt total : Z) : Prop := sdt + total <= acpi ∨ acpi + sizeof_acpi <= sdt.

Lemma lor3 d0 d1 d2 d3 : byte d0 → byte d1 → byte d2 → byte d3 →
  Z.lor (Z.lor (Z.lor d0 (Z.shiftl d1 8)) (Z.shiftl d2 16)) (Z.shiftl d3 24) =
  d0 + 2 ^ 8 * (d1 + 256 * (d2 + 256 * d3)).
Proof. unfold byte. intros. rewrite (lor_shiftl d0), (lor_shiftl _ d2), lor_shiftl by lia. lia. Qed.

Lemma srat_lapic_run m acpi e id d l s :
  numa_at m acpi s → entry_at m e (ELapic id d) l → table_apart acpi e l →
  ∃ m', srat_lapic acpi e m = Ok tt m' ∧ numa_at m' acpi (numa_step s (ELapic id d)) ∧ only acpi sizeof_acpi m m'.
Proof.
  intros [Hv Hd Hn Hm Hr] (Hl & _ & Hl16 & E0 & E3 & Hid & d0 & d' & L0 & L9 & Ed) Ha.
  apply ld_le in L0 as [L0 B0]. destruct L9 as (d1 & v1 & B1 & L9 & (d2 & v2 & B2 & L10 & L11 & ->) & ->).
  apply ld_le in L11 as [L11 B3]. unfold srat_lapic, sl_apic_id, sl_domain, sl_domain2. unfold table_apart in Ha. mrun. rewrite E3.
  set (m1 := m.[_ <- _]).
  assert (∀ x, e <= x < e + l → m1.@x = m.@x) as F1.
  { intros x Hx. unfold m1. apply rd_wr_ne. ac. lia. }
  rewrite !Z.add_0_r. replace (e + 9 + 2) with (e + 9 + 1 + 1) by lia.
  rewrite !F1 by lia. rewrite E3, L0, L9, L10, L11, lor3, <-Ed by done. unfold m1.
  eexists. split; [reflexivity|]. split; [|intros x Hx; ac; by rdwr].
  constructor; cbn [numa_step fst snd].
  - intros i Hi. destruct (decide (i = id)) as [->|Hne].
    + rewrite lookup_insert_eq. ac. by rdwr.
    + rewrite lookup_insert_ne by done. rewrite <-(Hv i Hi). ac. by rdwr.
  - intros i di Hi. destruct (decide (i = id)) as [->|Hne].
    + rewrite lookup_insert_eq. intros [= <-]. by rdwr.
    + rewrite lookup_insert_ne by done. intros Hs. rewrite <-(Hd i di Hi Hs). ac. by rdwr.
  - rewrite <-Hn. ac. by rdwr.
  - done.
  - intros j b n dj Hj. pose proof (lookup_lt_Some _ _ _ Hj). destruct (Hr j b n dj Hj) as (<- & <- & <-). ac. by rdwr.
Qed.

Lemma odd_land f : negb (Z.land f 1 =? 0) = Z.odd f.
Proof.
  rewrite (land_mod 1 1) by done. change (2 ^ 1) with 2. rewrite Zmod_odd. by destruct (Z.odd f).
Qed.

(** A 64-bit field in two halves. *)
Lemma le_halves m a v : le m a 8 v →
  ∃ lo hi, le m a 4 lo ∧ le m (a + 4) 4 hi ∧ Z.lor lo (Z.shiftl hi 32) = v.
Proof.
  intros (lo & hi & H1 & H2 & ->)%(le_app m a 4 4). exists lo, hi. split; [done|]. split; [done|].
  apply le_range in H1. rewrite lor_shiftl by lia. lia.
Qed.

(** A write to the structure keeps the tables. *)
Lemma le_table m m' acpi e l a n v :
  only acpi sizeof_acpi m m' → table_apart acpi e l → e <= a → a + Z.of_nat n <= e + l →
  le m a n v → le m' a n v.
Proof. intros Ho Ha H1 H2. apply le_frame. intros x Hx. apply Ho. unfold table_apart in Ha. lia. Qed.

Lemma srat_memory_run m acpi e b n d f l s :
  numa_at m acpi s → entry_at m e (EMemory b n d f) l → table_apart acpi e l →
  ∃ m', srat_memory acpi e m = Ok tt m' ∧ numa_at m' acpi (numa_step s (EMemory b n d f)) ∧ only acpi sizeof_acpi m m'.
Proof.
  intros Hs (Hl & _ & Hl40 & E0 & Ld & Lb & Ln & Lf) Ha. pose proof Hs as [Hv Hd Hn Hm Hr].
  apply le_halves in Lb as (bl & bh & Lb1 & Lb2 & Eb). apply le_halves in Ln as (nl & nh & Ln1 & Ln2 & En).
  unfold srat_memory, sm_flags, sm_base_low, sm_base_high, sm_length_low, sm_length_high, sm_domain. rewrite (bind_ok _ _ _ _ _ (ld32_le _ _ _ Lf)). mrun. rewrite Hn, odd_land. cbn [numa_step].
  destruct (Z.odd f && (Z.of_nat (length s.2) <? MAX_MEMORY_REGIONS)) eqn:Ec; [|by exists m].
  apply andb_prop in Ec as [_ Hlt%Z.ltb_lt].
  replace (e + 12) with (e + 8 + 4) by lia. replace (e + 20) with (e + 16 + 4) by lia.
  rewrite (bind_ok _ _ _ _ _ (ld32_le _ _ _ Lb1)), (bind_ok _ _ _ _ _ (ld32_le _ _ _ Lb2)),
    (bind_ok _ _ _ _ _ (ld32_le _ _ _ Ln1)), (bind_ok _ _ _ _ _ (ld32_le _ _ _ Ln2)). mrun. rewrite Hn, Eb, En.
  set (j := Z.of_nat (length s.2)) in *. assert (0 <= j) as Hj by (unfold j; lia).
  rewrite (rd_wr_ne m (ac_region_base acpi j) (ac_num_region acpi)) by (ac; lia). rewrite Hn. fold j.
  set (m2 := m.[_ <- _].[_ <- _]).
  assert (only acpi sizeof_acpi m m2) as F2 by (intros x Hx; unfold m2; ac; by rdwr).
  rewrite (bind_ok _ _ _ _ _ (ld32_le _ _ _ (le_table m m2 acpi e l (e + 2) 4 d F2 Ha ltac:(lia) ltac:(lia) Ld))). mrun.
  assert (m2.@(ac_num_region acpi) = j) as -> by (unfold m2; ac; rdwr; done).
  assert ((m2.[ac_region_domain acpi j <- d]).@(ac_num_region acpi) = j) as -> by (unfold m2; ac; rdwr; done).
  eexists. split; [reflexivity|]. split; [|intros x Hx; unfold m2; ac; by rdwr].
  constructor; cbn [fst snd]; rewrite ?length_app; cbn [length].
  - intros i Hi. rewrite <-(Hv i Hi). unfold m2. ac. by rdwr.
  - intros i di Hi Hsi. rewrite <-(Hd i di Hi Hsi). unfold m2. ac. by rdwr.
  - rdwr. lia.
  - lia.
  - intros i b' n' d' Hi. destruct (decide (i = length s.2)) as [->|Hne].
    + rewrite list_lookup_middle in Hi by done. injection Hi as <- <- <-. fold j. unfold m2. ac. by rdwr.
    + assert (i < length s.2)%nat by (apply lookup_lt_Some in Hi; rewrite length_app in Hi; simpl in Hi; lia).
      rewrite lookup_app_l in Hi by lia. destruct (Hr i b' n' d' Hi) as (<- & <- & <-). unfold m2. ac. by rdwr.
Qed.

Lemma entry_frame m m' acpi e x l :
  only acpi sizeof_acpi m m' → table_apart acpi e l → entry_at m e x l → entry_at m' e x l.
Proof.
  intros Ho Ha (Hl & E1 & H). assert (∀ y, e <= y < e + l → m'.@y = m.@y) as F.
  { intros y Hy. apply Ho. unfold table_apart in Ha. lia. }
  split; [done|].
  destruct x as [id d|b n d f|t]; (split; [rewrite F; [done|]; lia|]).
  - destruct H as (H16 & E0 & E3 & Hid & d0 & d' & L0 & L9 & Ed). rewrite !F by lia. repeat (split; [done|]).
    exists d0, d'. split; [eapply le_table; eauto; lia|]. split; [eapply le_table; eauto; lia|done].
  - destruct H as (H40 & E0 & Ld & Lb & Ln & Lf). rewrite !F by lia. split; [done|]. split; [done|].
    repeat split; (eapply le_table; [done|done| | |done]; lia).
  - destruct H as (H2 & E0 & Ht). rewrite F by lia. done.
Qed.

Lemma entries_frame m m' acpi sdt es : ∀ len total,
  only acpi sizeof_acpi m m' → table_apart acpi sdt total → 0 <= len →
  entries_at m sdt len total es → entries_at m' sdt len total es.
Proof.
  induction es as [|[x l] es IH]; intros len total Ho Ha Hl H; [done|]. destruct H as (He & Hle & H).
  split; [|split; [done|]].
  - eapply entry_frame; [done| |done]. unfold table_apart in *. lia.
  - apply IH; try done. destruct He as [? _]. lia.
Qed.

Lemma srat_entry_run m acpi e x l s :
  numa_at m acpi s → entry_at m e x l → table_apart acpi e l →
  ∃ m', (type ← ld e; if type =? 0 then srat_lapic acpi e else if type =? 1 then srat_memory acpi e else mret tt) m
      = Ok tt m' ∧ numa_at m' acpi (numa_step s x) ∧ only acpi sizeof_acpi m m'.
Proof.
  intros Hs He Ha. mrun. destruct x as [id d|b n d f|t].
  - assert (m.@e = 0) as -> by apply He. by apply (srat_lapic_run m acpi e id d l).
  - assert (m.@e = 1) as -> by apply He. by apply (srat_memory_run m acpi e b n d f l).
  - destruct He as (_ & _ & _ & -> & H0 & H1). rewrite !(proj2 (Z.eqb_neq _ _)) by done. by exists m.
Qed.

(** C21: [_parse_srat] of a well-formed table terminates and records exactly what
    its entries say: for every processor the domain of its last entry, for
    every enabled memory entry, in their order and as long as there is room
    for 128, its base, length and domain; nothing outside of the structure is
    written. *)
Theorem parse_srat_correct m acpi sdt total es s fuel :
  le m (sdt + 4) 4 total → entries_at m sdt 48 total es → table_apart acpi sdt total → numa_at m acpi s →
  (length es < fuel)%nat → total < 2 ^ 31 →
  ∃ m', _parse_srat fuel acpi sdt m = Ok 0 m' ∧
    numa_at m' acpi (fold_left numa_step es.*1 s) ∧ only acpi sizeof_acpi m m'.
Proof.
  unfold _parse_srat. change (sizeof_sdt_hdr + sizeof_srat_hdr) with 48. intros Ht He Ha Hs Hf Hmax.
  assert (48 <= 48) as Hlen by lia. revert Hlen He. generalize 48 at 2 3 4. intros len Hlen He.
  revert m s fuel len Ht He Hs Hf Hlen.
  induction es as [|[x l] es IH]; intros m s fuel len Ht He Hs Hf Hlen; (destruct fuel as [|fuel]; [simpl in Hf; lia|]);
    cbn [srat_loop]; rewrite (bind_ok _ _ _ _ _ (ld32_le _ _ _ Ht)).
  - simpl in He. subst len. rewrite Z.ltb_irrefl. by exists m.
  - destruct He as (Hx & Hle & He). pose proof Hx as (Hl & El & _).
    rewrite (proj2 (Z.ltb_lt _ _)) by lia. cbn [negb]. unfold srat_length, srat_type. mrun. rewrite El.
    assert (u32 (len + l) = len + l) as -> by (unfold u32; apply Z.mod_small; lia).
    rewrite (proj2 (Z.ltb_ge _ _)) by done.
    assert (table_apart acpi (sdt + len) l) as Hxa by (unfold table_apart in *; lia).
    destruct (srat_entry_run m acpi (sdt + len) x l s Hs Hx Hxa) as (m1 & E1 & Hs1 & F1).
    revert E1. mrun. intros E1. rewrite (bind_ok _ _ _ _ _ E1). mrun.
    pose proof (entry_frame _ _ _ _ _ _ F1 Hxa Hx) as (_ & -> & _).
    assert (u32 (len + l) = len + l) as -> by (unfold u32; apply Z.mod_small; lia).
    destruct (IH m1 (numa_step s x) fuel (len + l)) as (m' & E & Hs' & F); try done; try (simpl in Hf; lia).
    + eapply (le_table m m1 acpi sdt total); [done|done|lia|lia|done].
    + eapply (entries_frame m m1); [done|done|lia|done].
    + exists m'. split; [done|]. split; [done|]. intros y Hy. by rewrite F, F1.
Qed.

(** Bytes from a list. *)
Definition le_value (l : list Z) : Z := foldr (λ b v, b + 256 * v) 0 l.

Lemma le_bytes m a l : bytes_at m a l → Forall byte l → le m a (length l) (le_value l).
Proof.
  revert a. induction l as [|b l IH]; intros a Hb Hl; [done|]. destruct Hb as [E Hb].
  apply Forall_cons in Hl as [H Hl]. exists b, (le_value l). unfold le_value. simpl. eauto.
Qed.

Ltac le_compute l :=
  let H := fresh in
  match goal with |- le ?m ?a ?n ?v =>
    assert (le m a (length l) (le_value l)) as H;
    [apply le_bytes; [repeat split; reflexivity|repeat first [apply Forall_nil_2|apply Forall_cons_2; [unfold byte; lia|]]]
    |exact H] end.

(** A table at 8192: processor 3 in domain 1, then 2 GiB of memory from 4 GiB on
    in domain 2. *)
Definition srat_ex : gmap Z Z :=
  list_to_map [(8196, 104);
    (8241, 16); (8242, 1); (8243, 3);
    (8256, 1); (8257, 40); (8258, 2); (8268, 1); (8275, 128); (8284, 1)].

Lemma parse_srat_witness :
  let es := [(ELapic 3 1, 16); (EMemory 0x100000000 0x80000000 2 1, 40)] in
  entries_at srat_ex 8192 48 104 es ∧
  ∃ m', _parse_srat 8 512 8192 srat_ex = Ok 0 m' ∧
    numa_at m' 512 (fold_left numa_step es.*1 (∅, [])) ∧ only 512 sizeof_acpi srat_ex m'.
Proof.
  intros es. assert (entries_at srat_ex 8192 48 104 es) as He.
  { split; [|split; [lia|split; [|split; [lia|reflexivity]]]].
    - split; [lia|]. split; [reflexivity|]. split; [lia|]. split; [reflexivity|]. split; [reflexivity|].
      split; [unfold MAX_PROCESSORS; lia|]. exists 1, 0. split; [le_compute [1]|]. split; [le_compute [0; 0; 0]|reflexivity].
    - split; [lia|]. split; [reflexivity|]. split; [lia|]. split; [reflexivity|].
      split; [le_compute [2; 0; 0; 0]|]. split; [le_compute [0; 0; 0; 0; 1; 0; 0; 0]|].
      split; [le_compute [0; 0; 0; 128; 0; 0; 0; 0]|le_compute [1; 0; 0; 0]]. }
  split; [exact He|].
  apply (parse_srat_correct srat_ex 512 8192 104 es (∅, []) 8); [le_compute [104; 0; 0; 0]|exact He|..].
  - unfold table_apart, sizeof_acpi. lia.
  - constructor; cbn [fst snd]; try done.
    intros id Hid. rewrite lookup_empty. ac. unfold srat_ex, rd. simpl.
    rewrite !lookup_insert_ne by lia. by rewrite lookup_empty.
  - simpl. lia.
  - lia.
Defined.

(** ** Entries of length 0 *)

(** the loops over the entries of the interrupt controller table and of the
    NUMA table do not end at an entry of length 0 of any other type than the
    ones they store: no amount of fuel gives a result. *)
Theorem zero_length_entry_hangs m acpi sdt total a fuel :
  le m (sdt + 4) 4 total → table_apart acpi sdt total → le m (sdt + 36) 4 a →
  (46 <= total → m.@(sdt + 44) ≠ 1 → m.@(sdt + 45) = 0 → _parse_apic fuel acpi sdt m = Hang) ∧
  (50 <= total → m.@(sdt + 48) ≠ 0 → m.@(sdt + 48) ≠ 1 → m.@(sdt + 49) = 0 → _parse_srat fuel acpi sdt m = Hang).
Proof.
  intros Ht Ha Hl. pose proof (le_range _ _ _ _ Ht). split.
  - intros Hlt Hty Hz. unfold _parse_apic, sizeof_sdt_hdr, sizeof_sdt_apic.
    rewrite (bind_ok _ _ _ _ _ (ld32_le _ _ _ Hl)). mrun. set (m1 := m.[_ <- _]).
    assert (∀ x, sdt <= x < sdt + total → m1.@x = m.@x) as F.
    { intros x Hx. unfold m1, ac_apic_address, table_apart, sizeof_acpi in *. by rdwr. }
    assert (le m1 (sdt + 4) 4 total) as Ht1.
    { eapply le_frame; [|exact Ht]. intros x Hx. apply F. lia. }
    change (36 + 8) with 44. induction fuel as [|fuel IH]; [done|]. cbn [apic_loop].
    rewrite (bind_ok _ _ _ _ _ (ld32_le _ _ _ Ht1)), (proj2 (Z.ltb_lt _ _)) by lia. cbn [negb]. unfold apic_length, apic_type. mrun.
    replace (sdt + 44 + 1) with (sdt + 45) by lia. rewrite (F (sdt + 45)), Hz by lia. change (u32 (44 + 0)) with 44.
    rewrite (proj2 (Z.ltb_ge _ _)) by lia. mrun. rewrite (F (sdt + 44)) by lia. rewrite (proj2 (Z.eqb_neq _ _)) by done. mrun.
    rewrite (F (sdt + 45)), Hz by lia. apply IH.
  - intros Hlt H0 H1 Hz. unfold _parse_srat. change (sizeof_sdt_hdr + sizeof_srat_hdr) with 48.
    induction fuel as [|fuel IH]; [done|]. cbn [srat_loop].
    rewrite (bind_ok _ _ _ _ _ (ld32_le _ _ _ Ht)), (proj2 (Z.ltb_lt _ _)) by lia. cbn [negb]. unfold srat_length, srat_type. mrun.
    replace (sdt + 48 + 1) with (sdt + 49) by lia. rewrite Hz. change (u32 (48 + 0)) with 48.
    rewrite (proj2 (Z.ltb_ge _ _)) by lia. mrun. rewrite !(proj2 (Z.eqb_neq _ _)) by done. mrun. rewrite Hz. apply IH.
Qed.

Definition zero_ex : gmap Z Z := list_to_map [(8196, 60); (8192 + 44, 7); (8192 + 48, 7)].

Lemma zero_length_witness : _parse_apic 9 512 8192 zero_ex = Hang ∧ _parse_srat 9 512 8192 zero_ex = Hang.
Proof.
  destruct (zero_length_entry_hangs zero_ex 512 8192 60 0 9) as [H1 H2];
    [le_compute [60; 0; 0; 0]|unfold table_apart, sizeof_acpi; lia|le_compute [0; 0; 0; 0]|].
  split; [apply H1|apply H2]; [lia|discriminate|reflexivity|lia|discriminate|discriminate|reflexivity].
Defined.

(** ** The timer *)

Section timer.
Context (in32 : Z → M Z) (acpi port period : Z).

(** The counter is read in the memories [ms 0], [ms 1], ...: it shows the ticks
    [T j] modulo its period, and less than a period passes between two reads. *)
Record timer_reads (ms : nat → gmap Z Z) (T : nat → Z) : Prop := {
  tr_port j : (ms j).@(ac_pm_tmr_port acpi) = port;
  tr_ext j : (if (ms j).@(ac_pm_tmr_ext acpi) =? 0 then 2 ^ 24 else 2 ^ 32) = period;
  tr_read j : in32 port (ms j) = Ok (T j mod period) (ms (S j));
  tr_step j : T j <= T (S j) < T j + period;
  tr_start : 0 <= T 0%nat;
}.

Lemma period_cases ms T : timer_reads ms T → period = 2 ^ 24 ∨ period = 2 ^ 32.
Proof. intros H. rewrite <-(tr_ext _ _ H 0). case_match; auto. Qed.

Lemma get_timer_run ms T j : timer_reads ms T → acpi_get_timer in32 acpi (ms j) = Ok (T j mod period) (ms (S j)).
Proof.
  intros H. pose proof (period_cases _ _ H) as Hp. unfold acpi_get_timer. mrun. rewrite (tr_port _ _ H).
  rewrite (bind_ok _ _ _ _ _ (tr_read _ _ H j)). unfold mret, M_ret. f_equal. unfold u32. apply Z.mod_small.
  pose proof (Z.mod_pos_bound (T j) period). lia.
Qed.

Lemma timer_mono ms T j k : timer_reads ms T → (j <= k)%nat → T j <= T k.
Proof.
  intros H. induction 1 as [|k Hk IH]; [lia|]. pose proof (tr_step _ _ H k). lia.
Qed.

(** The difference of two reads, with one overflow at most. *)
Lemma delta_mod a b : 0 < period → a <= b < a + period →
  (if b mod period <? a mod period then period + b mod period - a mod period else b mod period - a mod period) = b - a.
Proof.
  intros Hp H. pose proof (Z.div_mod a period ltac:(lia)). pose proof (Z.div_mod b period ltac:(lia)).
  pose proof (Z.mod_pos_bound a period Hp). pose proof (Z.mod_pos_bound b period Hp).
  assert (a / period = b / period ∨ b / period = a / period + 1) by nia.
  destruct (Z.ltb_spec (b mod period) (a mod period)); nia.
Qed.

Lemma usleep_run ms T clk n : timer_reads ms T →
  (∀ i, (i < n)%nat → T i - T 0%nat < clk) → clk <= T n - T 0%nat → T n - T 0%nat < 2 ^ 64 →
  ∀ k j, (j <= n)%nat → (n - j < k)%nat →
    usleep_loop in32 k acpi clk (T j - T 0%nat) (T j mod period) (ms (S j)) = Ok tt (ms (S n)).
Proof.
  intros H Hlt Hge Hmax k. pose proof (period_cases _ _ H) as Hp.
  induction k as [|k IH]; intros j Hj Hk; [lia|]. cbn [usleep_loop].
  destruct (decide (j = n)) as [->|Hne]; [by rewrite (proj2 (Z.ltb_ge _ _))|].
  rewrite (proj2 (Z.ltb_lt _ _)) by (apply Hlt; lia). cbn [negb].
  pose proof (tr_step _ _ H j) as Hs.
  rewrite (bind_ok _ _ _ _ _ (get_timer_run ms T (S j) H)).
  pose proof (delta_mod (T j) (T (S j)) ltac:(lia) Hs) as Hd.
  assert (T (S j) <= T n) as Hm by (eapply timer_mono; [done|lia]).
  assert (T 0%nat <= T j) as H0 by (eapply timer_mono; [done|lia]).
  assert (∀ d, d = T (S j) - T j → u64 (T j - T 0%nat + d) = T (S j) - T 0%nat) as Hu.
  { intros d ->. rewrite u64_small by lia. lia. }
  destruct (T (S j) mod period <? T j mod period).
  - unfold acpi_get_timer_period. mrun. rewrite (tr_ext _ _ H), Hu by done. apply IH; lia.
  - mrun. rewrite Hu by done. apply IH; lia.
Qed.

(** C31: [acpi_busy_usleep] waits for the time asked for: whatever the timer
    shows at the start, and however often it overflows on the way, the loop
    ends at the first read at which at least [ACPI_TMR_HZ * usec / 1000000]
    ticks have passed since the first one, provided less than a period of the
    timer (24 or 32 bits) passes between two reads. *)
Theorem busy_usleep_correct ms T usec n fuel :
  timer_reads ms T → 0 <= usec < 2 ^ 40 → (n < fuel)%nat → T n - T 0%nat < 2 ^ 64 →
  let clk := ACPI_TMR_HZ * usec / 1000000 in
  (∀ i, (i < n)%nat → T i - T 0%nat < clk) → clk <= T n - T 0%nat →
  acpi_busy_usleep in32 fuel acpi usec (ms 0%nat) = Ok tt (ms (S n)).
Proof.
  intros H Hu Hf Hmax clk Hlt Hge. unfold acpi_busy_usleep.
  rewrite u64_small by (unfold ACPI_TMR_HZ; lia). fold clk.
  rewrite (bind_ok _ _ _ _ _ (get_timer_run ms T 0 H)).
  pose proof (usleep_run ms T clk n H Hlt Hge Hmax fuel 0 ltac:(lia) ltac:(lia)) as E.
  by rewrite Z.sub_diag in E.
Qed.
End timer.

(** A 24-bit timer that shows its last tick first and advances by two ticks at
    every read; the cell 600 counts the reads. *)
Definition tick_in32 (port : Z) : M Z := n ← ld 600; _ ← st 600 (n + 1); mret ((2 ^ 24 - 1 + 2 * n) mod 2 ^ 24).
Definition tick_ms (j : nat) : gmap Z Z := <[600 := Z.of_nat j]> (<[24 := 0x608]> ∅).

Lemma tick_reads : timer_reads tick_in32 0 0x608 (2 ^ 24) tick_ms (λ j, 2 ^ 24 - 1 + 2 * Z.of_nat j).
Proof.
  constructor; intros; try reflexivity; try lia.
  unfold tick_in32. mrun.
  assert ((tick_ms j).@600 = Z.of_nat j) as -> by (unfold tick_ms, rd; by rewrite lookup_insert_eq).
  unfold mret, M_ret. f_equal. unfold tick_ms, wr. rewrite insert_insert_eq. f_equal. rewrite Nat2Z.inj_succ. reflexivity.
Qed.

Lemma busy_usleep_witness : acpi_busy_usleep tick_in32 100 0 7 (tick_ms 0) = Ok tt (tick_ms 14).
Proof.
  apply (busy_usleep_correct tick_in32 0 0x608 (2 ^ 24) tick_ms _ 7 13 100 tick_reads).
  - lia.
  - lia.
  - lia.
  - intros i Hi. change (ACPI_TMR_HZ * 7 / 1000000) with 25. lia.
  - change (ACPI_TMR_HZ * 7 / 1000000) with 25. lia.
Defined.

(** An entry with an APIC id of 128 or more is written behind the table of
    processors: id 128 makes the number of memory regions 1. *)
Lemma srat_id_out_of_range m acpi e : m.@(e + 3) = 128 → table_apart acpi e 16 →
  ∃ m', srat_lapic acpi e m = Ok tt m' ∧ m'.@(ac_num_region acpi) = 1.
Proof.
  intros E Ha. unfold srat_lapic, sl_apic_id, sl_domain, sl_domain2. unfold table_apart in Ha. mrun. rewrite E.
  rewrite (rd_wr_ne m _ (e + 3)) by (ac; lia). rewrite E. eexists. split; [reflexivity|]. ac.
  rewrite rd_wr_ne by lia. replace (acpi + 52 + 8 * 128) with (acpi + 1076) by lia. apply rd_wr_eq.
Qed.
