(* ===== verification/Boot.v ===== *)
(** * Machine initialization: parts of kernel/arch/x86_64/arch.c

    The page table the kernel boots on, the kernel's own page table with the
    linear mapping, the NUMA zones filled from the memory map and the firmware's
    domains, the bus frequency, and the handler that switches the floating
    point registers.  Processor registers are arguments. *)

From S2P Require Import Prelude CMonad PhysMem KString Pgt Kmem Memory Slab Devfs Vfs Proc Acpi.

Definition PGT_BOOT : Z := 0x69000.
Definition KERNEL_RELOCBASE : Z := 0xc0000000.
Definition MEMORY_SUPERPAGESIZE : Z := 0x200000.

(** Stop at the first negative result. *)
Fixpoint for_ok (k : nat) (i : Z) (body : Z → M Z) : M Z :=
  match k with
  | O => mret 0
  | S k => ret ← body i; if ret <? 0 then mret (-1) else for_ok k (i + 1) body
  end.

Section boot.
(** Loading [cr3], [rdmsr], [wrmsr], [cpuid] and [in32]. *)
Context (set_cr3 : Z → M unit) (rdmsr : Z → M Z) (wrmsr : Z → Z → M unit)
        (cpuid : Z → M (Z * Z * Z * Z)) (in32 : Z → M Z).
Context (fuel : nat).

(** [tmppgt] is the structure on the stack. *)
Definition _init_temporary_pgt (tmppgt : Z) : M Z :=
  _ ← pgt_init tmppgt PGT_BOOT 6 0;
  let sp i := i * MEMORY_SUPERPAGESIZE in
  ret ← for_ok 512 0 (λ i, pgt_map tmppgt (sp i) (sp i) 1 0 1 0);
  if ret <? 0 then mret (-1) else
  ret ← for_ok 1 0 (λ i, pgt_map tmppgt (KERNEL_RELOCBASE + sp i) (sp i) 1 0 1 0);
  if ret <? 0 then mret (-1) else
  ret ← for_ok 10 502 (λ i, pgt_map tmppgt (KERNEL_RELOCBASE + sp i) (KERNEL_RELOCBASE + sp i) 1 0 1 0);
  if ret <? 0 then mret (-1) else
  ret ← for_ok 32 0 (λ i, pgt_map tmppgt (KERNEL_LMAP + sp i) (sp i) 1 0 1 0);
  if ret <? 0 then mret (-1) else
  _ ← pgt_set_cr3 set_cr3 tmppgt;
  mret 0.

(** The end of the highest entry of the memory map. *)
Fixpoint max_address (k : nat) (map i maxaddr : Z) : M Z :=
  match k with
  | O => mret maxaddr
  | S k =>
    b ← ld (sysmap_base map i); l ← ld (sysmap_len map i);
    let addr := u64 (b + l) in
    max_address k map (i + 1) (if maxaddr <? addr then addr else maxaddr)
  end.

(** [kphys], [kmm] and [pgt] are [kvar->phys], [kvar->mm] and the architecture's
    page table; the function table is the instance of [ArchMemory]. *)
Definition _init_kernel_pgt `{!ArchMemory, !DataAllocator} (kphys kmm pgt nr map : Z) : M Z :=
  maxaddr ← max_address (Z.to_nat nr) map 0 0;
  let npg := Z.shiftr (u64 (maxaddr + 0x3fffffff)) 30 in
  pages ← lift (λ m, phys_mem_buddy_alloc m (czone_heads kphys MEMORY_ZONE_KERNEL) 9);
  if pages =? 0 then mret (-1) else
  _ ← pgt_init pgt pages 512 KERNEL_LMAP;
  ret ← memory_init kmm kphys pgt KERNEL_LMAP;
  if ret <? 0 then panic else
  b ← virt_memory_block_add fuel (memory_kmem kmm) 0xc0000000 0xffffffff;
  if b =? 0 then panic else
  ret ← virt_memory_wire fuel (memory_kmem kmm) 0xc0000000 512 0;
  if ret <? 0 then panic else
  ret ← virt_memory_wire fuel (memory_kmem kmm) 0xfec00000 5120 0xfec00000;
  if ret <? 0 then panic else
  b ← virt_memory_block_add fuel (memory_kmem kmm) KERNEL_LMAP (u64 (KERNEL_LMAP + npg * 0x40000000 - 1));
  if b =? 0 then panic else
  ret ← virt_memory_wire fuel (memory_kmem kmm) KERNEL_LMAP (u64 (Z.shiftl npg 18)) 0;
  if ret <? 0 then panic else
  _ ← pgt_set_cr3 set_cr3 pgt;
  mret 0.

(** ** NUMA zones *)

Definition add_region (heads base next : Z) : M unit :=
  lift_ (A := unit) (λ m, phys_mem_buddy_add_region fuel m heads base next).

(** The loop over the domains. *)
Fixpoint numa_regions (k : nat) (mem acpi base next i : Z) : M unit :=
  match k with
  | O => mret tt
  | S k =>
    s ← ld (ac_region_base acpi i); l ← ld (ac_region_length acpi i);
    let t := u64 (s + l) in
    dom ← ld (ac_region_domain acpi i);
    zones ← ld (phys_numazones mem); p2v ← ld (phys_p2v mem);
    let heads := zone_heads zones (i32 dom) in
    _ ← (if (s <=? base) && (next <=? t) then add_region heads (u64 (base + p2v)) (u64 (next + p2v))
         else if s <=? base then add_region heads (u64 (base + p2v)) (u64 (t + p2v))
         else if next <=? t then add_region heads (u64 (s + p2v)) (u64 (next + p2v))
         else mret tt);
    numa_regions k mem acpi base next (i + 1)
  end.

Definition _add_region_to_numa_zones (mem acpi base next : Z) : M unit :=
  n ← ld (ac_num_region acpi);
  if 1 <? n then numa_regions (Z.to_nat n) mem acpi base next 0
  else
    zones ← ld (phys_numazones mem); p2v ← ld (phys_p2v mem);
    add_region (zone_heads zones 0) (u64 (base + p2v)) (u64 (next + p2v)).

Fixpoint max_domain_loop (k : nat) (acpi i max : Z) : M Z :=
  match k with
  | O => mret max
  | S k =>
    d ← ld (ac_region_domain acpi i);
    max_domain_loop k acpi (i + 1) (if max <? d then d else max)
  end.

(** [while ( sz ) { sz >>= 1; order++; }] *)
Fixpoint order_of (k : nat) (sz order : Z) : Z :=
  match k with
  | O => order
  | S k => if sz =? 0 then order else order_of k (Z.shiftr sz 1) (order + 1)
  end.

Definition numa_zone_entry (mem acpi map i : Z) : M unit :=
  base ← ld (sysmap_base map i); len ← ld (sysmap_len map i);
  let next := u64 (base + len) in
  let base := if base <? MEMORY_ZONE_NUMA_AWARE_LB then MEMORY_ZONE_NUMA_AWARE_LB else base in
  let next := if next <? MEMORY_ZONE_NUMA_AWARE_LB then MEMORY_ZONE_NUMA_AWARE_LB else next in
  let base := mask_down MEMORY_PAGESIZE (u64 (base + (MEMORY_PAGESIZE - 1))) in
  let next := mask_down MEMORY_PAGESIZE next in
  type ← ld (sysmap_type map i);
  if negb (base =? next) && (type =? 1) then _add_region_to_numa_zones mem acpi base next else mret tt.

(** [kmemset(zones, 0, sizeof(1 << ...))] clears the four bytes of an [int]. *)
Definition _init_numa_zones (mem acpi nr map : Z) : M Z :=
  n ← ld (ac_num_region acpi);
  max_domain ← max_domain_loop (Z.to_nat n) acpi 0 0;
  let sz := Z.shiftr (u64 (sizeof_zone * u32 (max_domain + 1) - 1)) 12 in
  let order := order_of 64 sz 0 in
  zones ← lift (λ m, phys_mem_buddy_alloc m (czone_heads mem MEMORY_ZONE_KERNEL) order);
  if zones =? 0 then mret (-1) else
  _ ← memset0 zones 4;
  _ ← st (phys_numazones mem) zones;
  _ ← st (phys_max_domain mem) max_domain;
  _ ← for_up (Z.to_nat nr) 0 (numa_zone_entry mem acpi map);
  mret 0.

(** ** Timers and traps *)

Definition _estimate_bus_freq (acpi : Z) : M Z :=
  _ ← lapic_set_timer rdmsr 0xffffffff APIC_TMRDIV_X16;
  let probe := 100000 in
  _ ← acpi_busy_usleep in32 fuel acpi probe;
  t1 ← lapic_stop_and_read_timer rdmsr;
  let ret := Z.shiftl (u32 (0xffffffff - t1)) 4 in
  mret (u64 (ret * 1000000) / probe).

(** [clts], [fxsave64] and [fxrstor64] are the processor's. *)
Definition isr_device_not_available (id : Z) (clts : M unit) (fxsave64 fxrstor64 : Z → M unit) : M unit :=
  let cpu := CPU_TASK id in
  '(_, _, rcx, rdx) ← cpuid 1;
  if Z.testbit rcx 26 then mret tt
  else if Z.testbit rdx 24 then
    t ← this_task id;
    at_ ← ld (task_arch t);
    _ ← clts;
    fpu ← ld (cpu_fpu_task cpu);
    if negb (fpu =? at_) then
      fpu ← ld (cpu_fpu_task cpu);
      _ ← (if fpu =? 0 then mret tt
           else fpu ← ld (cpu_fpu_task cpu); x ← ld (at_xregs fpu); fxsave64 x);
      x ← ld (at_xregs at_); _ ← fxrstor64 x;
      st (cpu_fpu_task cpu) at_
    else mret tt
  else mret tt.

Definition MSR_IA32_EFER : Z := 0xc0000080.
Definition MSR_IA32_STAR : Z := 0xc0000081.
Definition MSR_IA32_LSTAR : Z := 0xc0000082.
Definition MSR_IA32_FMASK : Z := 0xc0000084.
Definition GDT_RING3_CODE32_SEL : Z := 24.

(** [entry] is the address of [syscall_entry], [setup] the assembly part. *)
Definition syscall_init (entry : Z) (setup : Z → Z → M unit) (table nr : Z) : M unit :=
  '(_, _, _, rdx) ← cpuid 0x80000001;
  if negb (Z.testbit rdx 11) || negb (Z.testbit rdx 29) then panic else
  _ ← wrmsr MSR_IA32_FMASK 0x0202;
  _ ← wrmsr MSR_IA32_LSTAR entry;
  let val := Z.lor GDT_RING0_CODE_SEL (Z.shiftl (GDT_RING3_CODE32_SEL + 3) 16) in
  _ ← wrmsr MSR_IA32_STAR (u64 (Z.shiftl val 32));
  val ← rdmsr MSR_IA32_EFER;
  _ ← wrmsr MSR_IA32_EFER (Z.lor val 1);
  setup table nr.
End boot.
