(* ===== verification/BootTheorems.v ===== *)
(** * Machine initialization: theorems

    Memory that lies inside one NUMA domain goes to the zone of that domain and
    to no other; the boot page table maps what its comment says. *)

From S2P Require Import Prelude CMonad Pgt PgtTheorems PhysMem Buddy KString Kmem Memory Slab Devfs Vfs Proc Acpi Boot.

(** ** Regions the wrong way round *)

Lemma align_down_le o x : valid_order o → 0 <= x < 2 ^ 64 →
  Z.land x (u64 (Z.lnot (bsz o - 1))) = x - x mod bsz o.
Proof. apply align_down_code. Qed.

(** The number of blocks is negative, or zero, when the end is in front. *)
Lemma reversed_count o k : valid_order o → 0 <= k <= 2 ^ 31 →
  Z.to_nat (i32 (Z.shiftr (u64 (- (bsz o * k))) o / MEMORY_PAGESIZE)) = 0%nat.
Proof.
  intros Ho Hk. pose proof (bsz_max o Ho). destruct Ho as [Ho Ho'].
  destruct (decide (k = 0)) as [->|Hk0]; [rewrite Z.mul_0_r; change (u64 (- 0)) with 0; by rewrite Z.shiftr_0_l|].
  assert (0 < 2 ^ o) by (apply Z.pow_pos_nonneg; lia).
  assert (2 ^ 64 = 2 ^ o * (2 ^ (20 - o) * 2 ^ 44)) as E64.
  { rewrite <-!Z.pow_add_r by lia. f_equal. lia. }
  assert (0 < 2 ^ (20 - o)) by (apply Z.pow_pos_nonneg; lia).
  assert (u64 (- (bsz o * k)) = 2 ^ 64 - bsz o * k) as ->.
  { unfold u64. change 18446744073709551616 with (2 ^ 64). symmetry. apply (Z.mod_unique _ _ (-1)); [left; nia|lia]. }
  rewrite Z.shiftr_div_pow2 by lia.
  assert ((2 ^ 64 - bsz o * k) / 2 ^ o = 4096 * (2 ^ (20 - o) * 2 ^ 32 - k)) as ->.
  { symmetry. apply (Z.div_unique _ _ _ 0); [lia|]. unfold bsz. rewrite E64. lia. }
  unfold MEMORY_PAGESIZE. rewrite Z.mul_comm, Z.div_mul by lia.
  assert (i32 (2 ^ (20 - o) * 2 ^ 32 - k) = - k) as ->; [|lia].
  unfold i32. assert ((2 ^ (20 - o) * 2 ^ 32 - k + 2147483648) mod 4294967296 = 2147483648 - k) as ->; [|lia].
  symmetry. apply (Z.mod_unique _ _ (2 ^ (20 - o))); lia.
Qed.

Lemma sub_mod_div x n : 0 < n → x - x mod n = n * (x / n).
Proof. intros. pose proof (Z.div_mod x n). lia. Qed.

Lemma add_region_reversed fuel m b depth : ∀ o base next, o <= 18 → (Z.to_nat (o + 1) < depth)%nat →
  0 <= next <= base → base < 2 ^ 43 → base mod 4096 = 0 → next mod 4096 = 0 →
  _add_region_order_rec depth fuel m b o base next = Some m.
Proof.
  induction depth as [|depth IH]; intros o base next Hmax Hd Hr Hb H1 H2; [lia|].
  cbn [_add_region_order_rec]. destruct (Z.ltb_spec o 0) as [|Ho0]; [done|].
  assert (valid_order o) as Ho by done. rewrite blocksize_spec by done.
  pose proof (bsz_max o Ho) as HB.
  rewrite !align_down_le by (try apply u64_range; try lia; done). cbv zeta. rewrite (u64_small (base + (bsz o - 1))) by lia.
  rewrite !sub_mod_div by lia.
  set (q := (base + (bsz o - 1)) / bsz o). set (p := next / bsz o).
  assert (base <= bsz o * q < base + bsz o) as Hq.
  { unfold q. pose proof (Z.div_mod (base + (bsz o - 1)) (bsz o)). pose proof (Z.mod_pos_bound (base + (bsz o - 1)) (bsz o)). lia. }
  assert (bsz o * p <= next < bsz o * p + bsz o) as Hp.
  { unfold p. pose proof (Z.div_mod next (bsz o)). pose proof (Z.mod_pos_bound next (bsz o)). lia. }
  assert ((if negb (base =? bsz o * q) then _add_region_order_rec depth fuel m b (o - 1) base
    (if bsz o * q <? next then bsz o * q else next) else Some m) = Some m) as ->.
  { destruct (negb _); [|done]. rewrite (proj2 (Z.ltb_ge _ _)) by lia. apply IH; try done; lia. }
  cbn [mbind option_bind].
  assert (negb (next =? bsz o * p) && (base <=? bsz o * p) = false) as ->.
  { destruct (Z.eqb_spec next (bsz o * p)); [done|]. apply Z.leb_gt. lia. }
  replace (bsz o * p - bsz o * q) with (- (bsz o * (q - p))) by lia.
  rewrite reversed_count; [done|done|]. split; [nia|].
  destruct (decide (o = 0)) as [->|]; [change (bsz 0) with 4096 in *; lia|].
  assert (bsz 1 <= bsz o). { unfold bsz. pose proof (Z.pow_le_mono_r 2 1 o). lia. }
  change (bsz 1) with 8192 in *. nia.
Qed.

(** ** Regions and domains *)

Section numa.
Context (mem acpi zones p2v : Z) (fuel : nat).

(** The firmware's domains: base, length and number. *)
Record numa_env (m : gmap Z Z) (ds : list (Z * Z * Z)) : Prop := {
  ne_zones : m.@(phys_numazones mem) = zones;
  ne_p2v : m.@(phys_p2v mem) = p2v;
  ne_num : m.@(ac_num_region acpi) = Z.of_nat (length ds);
  ne_region j s l d : ds !! j = Some (s, l, d) →
    m.@(ac_region_base acpi (Z.of_nat j)) = s ∧ m.@(ac_region_length acpi (Z.of_nat j)) = l ∧
    m.@(ac_region_domain acpi (Z.of_nat j)) = d;
}.

(** Page-aligned and far from the end of the address space. *)
Record numa_sane (ds : list (Z * Z * Z)) : Prop := {
  ns_p2v : 0 <= p2v ∧ p2v mod 4096 = 0;
  ns_domain j s l d : ds !! j = Some (s, l, d) →
    0 <= s ∧ 0 <= l ∧ s + l + p2v < 2 ^ 43 ∧ s mod 4096 = 0 ∧ l mod 4096 = 0 ∧ 0 <= d < 2 ^ 31;
}.

(** One round of the loop. *)
Definition numa_round (base next s l d : Z) : M unit :=
  let heads := zone_heads zones d in
  if (s <=? base) && (next <=? s + l) then add_region fuel heads (base + p2v) (next + p2v)
  else if s <=? base then add_region fuel heads (base + p2v) (s + l + p2v)
  else if next <=? s + l then add_region fuel heads (s + p2v) (next + p2v)
  else mret tt.

Lemma numa_regions_round m ds k j base next s l d :
  numa_env m ds → numa_sane ds → ds !! j = Some (s, l, d) → 0 <= base → base + p2v < 2 ^ 43 → 0 <= next →
  next + p2v < 2 ^ 43 →
  numa_regions fuel (S k) mem acpi base next (Z.of_nat j) m =
  (_ ← numa_round base next s l d; numa_regions fuel k mem acpi base next (Z.of_nat (S j))) m.
Proof.
  intros [] [? Hd] Hj Hb Hb' Hn Hn'. destruct (ne_region0 _ _ _ _ Hj) as (E1 & E2 & E3).
  destruct (Hd _ _ _ _ Hj) as (? & ? & ? & ? & ? & ?). cbn [numa_regions]. mrun.
  rewrite E1, E2, E3, ne_zones0, ne_p2v0, i32_small by lia. rewrite !u64_small by lia.
  unfold numa_round. replace (Z.of_nat (S j)) with (Z.of_nat j + 1) by lia. done.
Qed.

Lemma mod_add_4096 a b : a mod 4096 = 0 → b mod 4096 = 0 → (a + b) mod 4096 = 0.
Proof. intros Ha Hb. rewrite Z.add_mod, Ha, Hb by lia. done. Qed.

(** A domain that does not meet the region gets nothing. *)
Lemma numa_round_disjoint m ds j base next s l d :
  numa_sane ds → ds !! j = Some (s, l, d) → next <= s ∨ s + l <= base →
  0 <= base < next → next + p2v < 2 ^ 43 → base mod 4096 = 0 → next mod 4096 = 0 →
  numa_round base next s l d m = Ok tt m.
Proof.
  intros [[Hp0 Hp] Hd] Hj Hdis Hb Hn Hbm Hnm. destruct (Hd _ _ _ _ Hj) as (? & ? & ? & ? & ? & ?).
  unfold numa_round, add_region, lift_, phys_mem_buddy_add_region, _add_region_order.
  assert (∀ b lo hi, 0 <= hi <= lo → lo < 2 ^ 43 → lo mod 4096 = 0 → hi mod 4096 = 0 →
    _add_region_order_rec (Z.to_nat (MEMORY_PHYS_BUDDY_ORDER + 2)) fuel m b MEMORY_PHYS_BUDDY_ORDER lo hi = Some m) as Hrev.
  { intros. apply add_region_reversed; try done; unfold MEMORY_PHYS_BUDDY_ORDER; lia. }
  destruct (Z.leb_spec s base); cbn [andb].
  - rewrite (proj2 (Z.leb_gt next (s + l))) by lia. rewrite Hrev; try done; try lia; repeat apply mod_add_4096; done.
  - destruct (Z.leb_spec next (s + l)); [|done]. rewrite Hrev; try done; try lia; repeat apply mod_add_4096; done.
Qed.

Definition disjoint_from (ds : list (Z * Z * Z)) (base next : Z) (j : nat) : Prop :=
  ∀ s l d, ds !! j = Some (s, l, d) → next <= s ∨ s + l <= base.

Lemma numa_skip m ds base next k : ∀ j,
  numa_env m ds → numa_sane ds → (j + k <= length ds)%nat →
  (∀ j', (j <= j' < j + k)%nat → disjoint_from ds base next j') →
  0 <= base < next → next + p2v < 2 ^ 43 → base mod 4096 = 0 → next mod 4096 = 0 →
  numa_regions fuel k mem acpi base next (Z.of_nat j) m = Ok tt m.
Proof.
  induction k as [|k IH]; intros j He Hs Hl Hd Hb Hn Hbm Hnm; [done|].
  destruct (lookup_lt_is_Some_2 ds j) as [[[s l] d] Hj]; [lia|].
  rewrite (numa_regions_round m ds k j base next s l d) by (done || lia).
  rewrite (bind_ok _ _ _ _ _ (numa_round_disjoint m ds j base next s l d Hs Hj (Hd j ltac:(lia) _ _ _ Hj) Hb Hn Hbm Hnm)).
  apply IH; try done; [lia|]. intros. apply Hd. lia.
Qed.

(** The tables the loop reads are not part of the zone or of the region. *)
Definition tables_apart (b : Z) (f : Z → list Z) (lo hi : Z) : Prop :=
  ∀ x, acpi <= x < acpi + sizeof_acpi ∨ mem <= x < mem + sizeof_phys_memory →
    ¬ in_heads b x ∧ ¬ free_at f x ∧ ¬ (lo <= x < hi).

Lemma numa_env_frame m m' ds : numa_env m ds → Z.of_nat (length ds) <= MAX_MEMORY_REGIONS →
  (∀ x, acpi <= x < acpi + sizeof_acpi ∨ mem <= x < mem + sizeof_phys_memory → m'.@x = m.@x) → numa_env m' ds.
Proof.
  intros [] Hl F. unfold phys_numazones, phys_p2v, ac_num_region, sizeof_acpi, sizeof_phys_memory, MAX_MEMORY_REGIONS in *.
  constructor; unfold phys_numazones, phys_p2v, ac_num_region.
  1-3: by rewrite F by lia.
  intros j s l d Hj. pose proof (lookup_lt_Some _ _ _ Hj). destruct (ne_region0 _ _ _ _ Hj) as (<- & <- & <-).
  unfold ac_region_base, ac_region_length, ac_region_domain. by rewrite !F by lia.
Qed.

(** What the zone at [b] is given. *)
Definition gains (b : Z) (f : Z → list Z) (lo hi : Z) (m m' : gmap Z Z) : Prop :=
  ∃ f', buddy_inv m' b f' ∧ (∀ x, free_at f' x ↔ free_at f x ∨ lo <= x < hi) ∧
    (∀ x, ¬ in_heads b x → ¬ free_at f x → ¬ (lo <= x < hi) → m'.@x = m.@x).

Lemma numa_round_inside m ds i base next s l d f :
  numa_sane ds → ds !! i = Some (s, l, d) → s <= base → base < next <= s + l → 0 < base + p2v →
  base mod 4096 = 0 → next mod 4096 = 0 →
  let b := zone_heads zones d in
  buddy_inv m b f → outside b f (λ x, base + p2v <= x < next + p2v) →
  (total f + pages (base + p2v) (next + p2v) <= fuel)%nat →
  ∃ m', numa_round base next s l d m = Ok tt m' ∧ gains b f (base + p2v) (next + p2v) m m'.
Proof.
  intros [[Hp0 Hp] Hd] Hi Hs Hn Hpos Hbm Hnm b Hinv Hout Hf. destruct (Hd _ _ _ _ Hi) as (? & ? & ? & ? & ? & ?).
  unfold numa_round. rewrite (proj2 (Z.leb_le s base)), (proj2 (Z.leb_le next (s + l))) by lia. cbn [andb].
  destruct (add_region_order_spec b 20 fuel 18) with (m := m) (f := f) (base := base + p2v) (next := next + p2v)
    as (m' & f' & E & I & Fr & Un & _); try done; try lia; try (by apply mod_add_4096).
  { unfold bsz. lia. }
  exists m'. split; [|by exists f']. unfold add_region, lift_, phys_mem_buddy_add_region, _add_region_order. fold b.
  change (Z.to_nat (MEMORY_PHYS_BUDDY_ORDER + 2)) with 20%nat. change MEMORY_PHYS_BUDDY_ORDER with 18. by rewrite E.
Qed.

(** C22: on a machine with several NUMA domains memory that lies inside one domain
    and outside of all others is given to the zone of its domain: exactly its
    bytes become free there, the calls for the other domains, whose ends are
    in front of their starts, add nothing although their block counts wrap
    around, and nothing else is written. *)
Theorem numa_region_correct m ds i s l d base next f :
  numa_env m ds → numa_sane ds → (1 < length ds)%nat → Z.of_nat (length ds) <= MAX_MEMORY_REGIONS →
  ds !! i = Some (s, l, d) → s <= base → base < next <= s + l →
  (∀ j, j ≠ i → disjoint_from ds base next j) → 0 < base + p2v → base mod 4096 = 0 → next mod 4096 = 0 →
  let b := zone_heads zones d in
  buddy_inv m b f → outside b f (λ x, base + p2v <= x < next + p2v) →
  tables_apart b f (base + p2v) (next + p2v) →
  (total f + pages (base + p2v) (next + p2v) <= fuel)%nat →
  ∃ m', _add_region_to_numa_zones fuel mem acpi base next m = Ok tt m' ∧
    gains b f (base + p2v) (next + p2v) m m'.
Proof.
  intros He Hs Hlen Hmax Hi Hsb Hn Hdis Hpos Hbm Hnm b Hinv Hout Hap Hf.
  destruct (ns_domain _ Hs _ _ _ _ Hi) as (? & ? & ? & ? & ? & ?). destruct (ns_p2v _ Hs) as [Hp0 _].
  destruct (numa_round_inside m ds i base next s l d f Hs Hi Hsb Hn Hpos Hbm Hnm Hinv Hout Hf) as (m' & E & Hg).
  exists m'. split; [|done]. unfold _add_region_to_numa_zones. mrun. rewrite (ne_num _ _ He).
  rewrite (proj2 (Z.ltb_lt 1 _)) by lia. rewrite Nat2Z.id.
  assert (numa_env m' ds) as He'.
  { destruct Hg as (f' & _ & _ & F). apply (numa_env_frame m); [done|done|]. intros x Hx. by apply F; apply Hap. }
  assert (∀ k j, (j <= i < j + k)%nat → (j + k <= length ds)%nat →
    numa_regions fuel k mem acpi base next (Z.of_nat j) m = Ok tt m') as Hloop.
  { induction k as [|k IH]; intros j Hj Hk; [lia|].
    destruct (lookup_lt_is_Some_2 ds j) as [[[sj lj] dj] Hjj]; [lia|].
    rewrite (numa_regions_round m ds k j base next sj lj dj) by (done || lia).
    destruct (decide (j = i)) as [->|Hne].
    - rewrite Hi in Hjj. injection Hjj as <- <- <-. rewrite (bind_ok _ _ _ _ _ E).
      apply (numa_skip m' ds); try done; try lia. intros j' Hj'. apply Hdis. lia.
    - rewrite (bind_ok _ _ _ _ _ (numa_round_disjoint m ds j base next sj lj dj Hs Hjj (Hdis j Hne _ _ _ Hjj)
        ltac:(lia) ltac:(lia) Hbm Hnm)). apply IH; lia. }
  apply (Hloop (length ds) 0%nat); [|lia]. split; [lia|]. by eapply lookup_lt_Some.
Qed.

(** A region that contains a whole domain, with more on both sides, is not
    given to that domain at all. *)
Lemma numa_region_around_lost m base next s l d :
  base < s → s + l < next → numa_round base next s l d m = Ok tt m.
Proof.
  intros H1 H2. unfold numa_round. rewrite (proj2 (Z.leb_gt s base)), (proj2 (Z.leb_gt next (s + l))) by lia. done.
Qed.
End numa.

(** Two domains of 16 MiB from 16 MiB on; an empty zone table at 8192. *)
Definition numa_ex : gmap Z Z := list_to_map [
  (848, 8192); (1024 + 1076, 2);
  (1024 + 1080, 0x1000000); (1024 + 1088, 0x1000000); (1024 + 1096, 0);
  (1024 + 1104, 0x2000000); (1024 + 1112, 0x1000000); (1024 + 1120, 1)].
Definition numa_ds : list (Z * Z * Z) := [(0x1000000, 0x1000000, 0); (0x2000000, 0x1000000, 1)].

Lemma numa_ex_zero x : 5176 <= x → numa_ex.@x = 0.
Proof. intros Hx. unfold numa_ex, rd. simpl. rewrite !lookup_insert_ne by lia. by rewrite lookup_empty. Qed.

Lemma numa_ex_empty b : 5176 <= b → buddy_inv numa_ex b (λ _, []).
Proof.
  intros Hb. constructor.
  - constructor; [intros ? ? _ []%elem_of_nil|intros; constructor|intros ? ? ? ? ? _ _ []%elem_of_nil].
  - intros o [? ?]. apply numa_ex_zero. unfold head. lia.
  - intros x (? & ? & _ & []%elem_of_nil & _).
Qed.

Lemma numa_region_witness :
  ∃ m', _add_region_to_numa_zones 8 512 1024 0x2100000 0x2104000 numa_ex = Ok tt m' ∧
    gains (zone_heads 8192 1) (λ _, []) 0x2100000 0x2104000 numa_ex m'.
Proof.
  assert (∀ x, ¬ free_at (λ _, []) x) as Hno by (intros x (? & ? & _ & []%elem_of_nil & _)).
  apply (numa_region_correct 512 1024 8192 0 8 numa_ex numa_ds 1 0x2000000 0x1000000 1 0x2100000 0x2104000 (λ _, [])).
  - constructor; [reflexivity..|]. intros [|[|j]] s l d Hj; simpl in Hj; try discriminate; injection Hj as <- <- <-;
      repeat split; reflexivity.
  - constructor; [done|]. intros [|[|j]] s l d Hj; simpl in Hj; try discriminate; injection Hj as <- <- <-;
      repeat split; (lia || reflexivity).
  - simpl. lia.
  - unfold MAX_MEMORY_REGIONS. simpl. lia.
  - reflexivity.
  - lia.
  - lia.
  - intros [|[|j]] Hne s l d Hj; simpl in Hj; try discriminate; [injection Hj as <- <- <-; lia|done].
  - lia.
  - reflexivity.
  - reflexivity.
  - apply numa_ex_empty. unfold zone_heads, sizeof_zone. lia.
  - intros x Hx. split; [apply Hno|]. unfold in_heads, zone_heads, sizeof_zone. lia.
  - intros x Hx. unfold in_heads, zone_heads, sizeof_zone, sizeof_acpi, sizeof_phys_memory in *.
    split; [lia|]. split; [apply Hno|lia].
  - vm_compute. lia.
Defined.

(** ** The boot page table *)

(** The physical 2 MiB page of a virtual one, as the comment of the source
    lists them: the first GiB, 2 MiB at 3 GiB, the pages of the interrupt
    controllers, and 64 MiB of the linear mapping at 4 GiB. *)
Definition boot_map (i : Z) : option Z :=
  if i <? 512 then Some i
  else if i =? 1536 then Some 0
  else if (2038 <=? i) && (i <? 2048) then Some i
  else if (2048 <=? i) && (i <? 2080) then Some (i - 2048)
  else None.

Definition boot_mem : gmap Z Z :=
  match _init_temporary_pgt (λ _, mret tt) 0x5000 ∅ with Ok _ m => m | _ => ∅ end.

Definition boot_page_ok (i : Z) : bool :=
  bool_decide (walk 4 boot_mem 0 (boot_mem.@(pgt_cr3 0x5000)) (i * 2 ^ 21) =
    (λ p, (p * 2 ^ 21, true, false, 2%nat)) <$> boot_map i).

