(* ===== verification/FpuTheorems.v ===== *)
(** * The floating point registers: theorems

    The processor has one set of floating point registers and every task its
    own values.  They are switched when a task first uses them: the processor
    raises the exception that [isr_device_not_available] handles.  The
    abstract state gives every task its values; the handler makes the current
    task the owner of the registers and changes no task's values. *)

From S2P Require Import Prelude CMonad KString Proc Boot.

Section fpu.
(** The registers, in the 512 bytes of the layout of [fxsave64], the task
    switched flag of the processor, and the processor's id. *)
Context (F TS id : Z) (cpuid : Z → M (Z * Z * Z * Z)).

Definition FXSAVE_BYTES : Z := 512.
Definition clts_ : M unit := st TS 0.
Definition fxsave64_ (x : Z) : M unit := λ m, Ok tt (kmemcpy (Z.to_nat FXSAVE_BYTES) m x F).
Definition fxrstor64_ (x : Z) : M unit := λ m, Ok tt (kmemcpy (Z.to_nat FXSAVE_BYTES) m F x).

Lemma bind_fxrstor {B} (k : unit → M B) m x :
  (fxrstor64_ x ≫= k) m = k tt (kmemcpy (Z.to_nat FXSAVE_BYTES) m F x).
Proof. reflexivity. Qed.

Definition in_area (a x : Z) : Prop := a <= x < a + FXSAVE_BYTES.
Definition owner (m : gmap Z Z) : Z := m.@(cpu_fpu_task (CPU_TASK id)).
Definition current (m : gmap Z Z) : Z := m.@(cpu_cur_task (CPU_TASK id)).
Definition xregs (m : gmap Z Z) (a : Z) : Z := m.@(at_xregs a).

(** Byte [i] of the floating point state of the task [a]. *)
Definition fp_state (m : gmap Z Z) (a i : Z) : Z :=
  if decide (owner m = a) then m.@(F + i) else m.@(xregs m a + i).

(** The save areas of the tasks are apart from each other, from the registers
    and from the cells the handler looks at. *)
Record fpu_env (m : gmap Z Z) (ts : list Z) : Prop := {
  fe_null a : a ∈ ts → a ≠ 0;
  fe_apart a b x : a ∈ ts → b ∈ ts → in_area (xregs m a) x → in_area (xregs m b) x → a = b;
  fe_regs a x : a ∈ ts → in_area (xregs m a) x → ¬ in_area F x;
  fe_ts_regs : ¬ in_area F TS;
  fe_ts_cpu : TS ≠ cpu_fpu_task (CPU_TASK id);
  fe_ts_area a : a ∈ ts → ¬ in_area (xregs m a) TS;
  fe_ts_cell a : a ∈ ts → TS ≠ at_xregs a;
  fe_cpu_regs : ¬ in_area F (cpu_fpu_task (CPU_TASK id));
  fe_cpu_area a : a ∈ ts → ¬ in_area (xregs m a) (cpu_fpu_task (CPU_TASK id));
  fe_cpu_cell a : a ∈ ts → cpu_fpu_task (CPU_TASK id) ≠ at_xregs a;
  fe_cell_regs a : a ∈ ts → ¬ in_area F (at_xregs a);
  fe_cell_area a b : a ∈ ts → b ∈ ts → ¬ in_area (xregs m b) (at_xregs a);
  fe_current : current m ∈ ts;
  fe_owner : owner m = 0 ∨ owner m ∈ ts;
  fe_task : m.@(task_arch (m.@(at_task (current m)))) = current m;
}.

Lemma copy_area m dst src x : (∀ y, in_area src y → ¬ in_area dst y) →
  (kmemcpy (Z.to_nat FXSAVE_BYTES) m dst src).@x =
  if decide (in_area dst x) then m.@(src + (x - dst)) else m.@x.
Proof.
  intros Hdj. rewrite kmemcpy_spec.
  - unfold in_area, FXSAVE_BYTES. rewrite Z2Nat.id by lia. done.
  - unfold FXSAVE_BYTES. rewrite Z2Nat.id by lia. intros i j Hi Hj E.
    apply (Hdj (src + i)); unfold in_area, FXSAVE_BYTES; lia.
Qed.

(** What the two copies leave in memory, cell by cell. *)
Definition saved (m : gmap Z Z) : gmap Z Z :=
  if owner m =? 0 then m else kmemcpy (Z.to_nat FXSAVE_BYTES) m (xregs m (owner m)) F.
Definition switched (m : gmap Z Z) : gmap Z Z :=
  let m1 := saved (m.[TS <- 0]) in
  (kmemcpy (Z.to_nat FXSAVE_BYTES) m1 F (xregs m (current m))).[cpu_fpu_task (CPU_TASK id) <- current m].

Context (m : gmap Z Z) (ts : list Z) (E : fpu_env m ts).

Lemma owner_clts : owner (m.[TS <- 0]) = owner m.
Proof. unfold owner. rewrite rd_wr_ne; [done|]. apply (fe_ts_cpu _ _ E). Qed.
Lemma xregs_clts a : a ∈ ts → xregs (m.[TS <- 0]) a = xregs m a.
Proof. intros Ha. unfold xregs. rewrite rd_wr_ne; [done|]. by apply (fe_ts_cell _ _ E). Qed.

Lemma saved_rd x : (saved (m.[TS <- 0])).@x =
  if decide (owner m ≠ 0 ∧ in_area (xregs m (owner m)) x) then m.@(F + (x - xregs m (owner m)))
  else if decide (x = TS) then 0 else m.@x.
Proof.
  unfold saved. rewrite owner_clts. destruct (Z.eqb_spec (owner m) 0) as [E0|E0].
  - rewrite decide_False by tauto. rewrite rd_wr. by repeat case_decide.
  - assert (owner m ∈ ts) as Ho by (destruct (fe_owner _ _ E); done).
    rewrite (xregs_clts _ Ho), copy_area by (intros y Hy Hy'; by eapply (fe_regs _ _ E)).
    case_decide as H1; [rewrite decide_True by done|rewrite decide_False by tauto].
    + rewrite rd_wr_ne; [done|]. intros Hx. apply (fe_ts_regs _ _ E). rewrite Hx. revert H1. unfold in_area. lia.
    + rewrite rd_wr. by repeat case_decide.
Qed.

Lemma saved_xregs a : a ∈ ts → xregs (saved (m.[TS <- 0])) a = xregs m a.
Proof.
  intros Ha. unfold xregs at 1. rewrite saved_rd, decide_False, decide_False; [done| |].
  - intros Hx. by apply (fe_ts_cell _ _ E a).
  - intros [H0 Hi]. destruct (fe_owner _ _ E) as [|Ho]; [done|]. by apply (fe_cell_area _ _ E a (owner m)).
Qed.

Lemma save_run :
  (if owner m =? 0 then mret tt
   else fpu ← ld (cpu_fpu_task (CPU_TASK id)); x ← ld (at_xregs fpu); fxsave64_ x) (m.[TS <- 0]) =
  Ok tt (saved (m.[TS <- 0])).
Proof.
  unfold saved. rewrite owner_clts. destruct (owner m =? 0); [done|].
  mrun. fold (owner (m.[TS <- 0])). by rewrite owner_clts.
Qed.

Lemma switched_rd x : owner m ≠ current m → (switched m).@x =
  if decide (x = cpu_fpu_task (CPU_TASK id)) then current m
  else if decide (in_area F x) then m.@(xregs m (current m) + (x - F))
  else if decide (owner m ≠ 0 ∧ in_area (xregs m (owner m)) x) then m.@(F + (x - xregs m (owner m)))
  else if decide (x = TS) then 0 else m.@x.
Proof.
  intros Hoc. pose proof (fe_current _ _ E) as Hc. unfold switched. rewrite rd_wr.
  destruct (decide (x = cpu_fpu_task (CPU_TASK id))) as [->|Hx]; [by rewrite decide_True|].
  rewrite decide_False by done. rewrite copy_area by (intros y Hy; by eapply (fe_regs _ _ E)).
  case_decide as HF; [|apply saved_rd].
  assert (in_area (xregs m (current m)) (xregs m (current m) + (x - F))) as Ha
    by (revert HF; unfold in_area; lia).
  rewrite saved_rd, decide_False, decide_False; [done| |].
  - intros Hts. apply (fe_ts_area _ _ E _ Hc). by rewrite <- Hts.
  - intros [H0 Hi]. destruct (fe_owner _ _ E) as [|Ho]; [done|].
    by apply Hoc, (fe_apart _ _ E _ _ _ Ho Hc Hi).
Qed.

(** The fields of the tasks are where they were. *)
Lemma switched_xregs a : owner m ≠ current m → a ∈ ts → xregs (switched m) a = xregs m a.
Proof.
  intros Hoc Ha. unfold xregs at 1. rewrite switched_rd by done.
  rewrite decide_False by (intros Hx; by apply (fe_cpu_cell _ _ E a)).
  rewrite decide_False by (by apply (fe_cell_regs _ _ E)).
  rewrite decide_False.
  - rewrite decide_False; [done|]. intros Hx. by apply (fe_ts_cell _ _ E a).
  - intros [H0 Hi]. destruct (fe_owner _ _ E) as [|Ho]; [done|]. by apply (fe_cell_area _ _ E a (owner m)).
Qed.

Lemma switched_owner : owner (switched m) = current m.
Proof. unfold owner at 1, switched. apply rd_wr_eq. Qed.

Lemma switched_state a i : owner m ≠ current m → a ∈ ts → 0 <= i < FXSAVE_BYTES →
  fp_state (switched m) a i = fp_state m a i.
Proof.
  intros Hoc Ha Hi. unfold fp_state. rewrite switched_xregs by done.
  rewrite switched_owner.
  destruct (decide (current m = a)) as [<-|Hca].
  - rewrite (decide_False (P := owner m = _)) by done. rewrite switched_rd by done.
    rewrite decide_False, decide_True; [f_equal; lia|unfold in_area; lia|].
    intros Hx. apply (fe_cpu_regs _ _ E). rewrite <- Hx. unfold in_area; lia.
  - assert (in_area (xregs m a) (xregs m a + i)) as Hai by (unfold in_area; lia).
    rewrite switched_rd by done. rewrite decide_False, decide_False.
    + case_decide as H1; destruct (decide (owner m = a)) as [H2|H2].
      * subst a. f_equal. lia.
      * destruct H1 as [H0 H1]. destruct (fe_owner _ _ E) as [|Ho]; [done|].
        by destruct H2; apply (fe_apart _ _ E _ _ _ Ho Ha H1).
      * destruct H1. rewrite H2. split; [exact (fe_null _ _ E _ Ha)|done].
      * rewrite decide_False; [done|]. intros Hx. apply (fe_ts_area _ _ E _ Ha). by rewrite <- Hx.
    + by apply (fe_regs _ _ E _ _ Ha).
    + intros Hx. apply (fe_cpu_area _ _ E _ Ha). by rewrite <- Hx.
Qed.

End fpu.

(** Two tasks, the first of which has used the registers and the second is
    running. *)
Definition fpu_ex : gmap Z Z :=
  list_to_map [(cpu_cur_task (CPU_TASK 0), 300); (cpu_fpu_task (CPU_TASK 0), 200); (64, 1);
    (at_xregs 200, 4096); (at_task 200, 100); (task_arch 100, 200);
    (at_xregs 300, 8192); (at_task 300, 150); (task_arch 150, 300); (1024, 7); (8192, 9)].

