(* ===== verification/Start.v ===== *)
(** * Starting the machine: kernel/kernel.c and the entry points of arch.c

    [kernel_init], the entry points [bsp_start] and [ap_start] of the first and
    the other processors, which call the initializations of the other files
    in order, the panic screen and the exception handlers.  What the processor
    and the assembly files do is an argument. *)

From S2P Require Import Prelude CMonad PhysMem KString Strfmt Pgt Kmem Memory Slab Devfs Vfs Proc Desc Vconsole Acpi Boot.

(** ** Kernel variables

    The offsets in [kvar_t] and [arch_var_t]. *)

Definition KVAR_ADDR : Z := 0xc0068000.
Definition KVAR_SIZE : Z := 0xe00.
Definition kvar_phys (g : Z) : Z := g.
Definition kvar_mm (g : Z) : Z := g + 352.
Definition kvar_slab (g : Z) : Z := g + 480.
Definition kvar_syscalls (g : Z) : Z := g + 504.
Definition kvar_console_dev (g : Z) : Z := g + 512.
Definition kvar_procs (g : Z) : Z := g + 520.
Definition kvar_runqueue (g : Z) : Z := g + 528.
Definition kvar_task_lock (g : Z) : Z := g + 536.
Definition kvar_jiffies (g : Z) : Z := g + 544.
Definition kvar_timer (g : Z) : Z := g + 552.
Definition kvar_rootfs (g : Z) : Z := g + 560.
Definition kvar_arch (g : Z) : Z := g + 568.
Definition sizeof_kvar : Z := 576.
Definition av_acpi (a : Z) : Z := a.
Definition av_pgt (a : Z) : Z := a + 8.
Definition av_mp_enable (a : Z) : Z := a + 32.
Definition sizeof_arch_var : Z := 40.
Definition sysmap_attr (map i : Z) : Z := map + 24 * i + 20.
Definition cpu_busfreq (cpu : Z) : Z := cpu + 32.

(** The variables that the files on processes use. *)
Definition kernel_kvar (g : Z) : kvar :=
  Kvar (kvar_procs g) (kvar_runqueue g) (kvar_jiffies g) (kvar_timer g) (kvar_task_lock g) (kvar_mm g)
       (czone_heads (kvar_phys g) MEMORY_ZONE_KERNEL).

(** [g_kvar] is the cell of the global pointer. *)
Definition kvar_init (g_kvar buf size archsize : Z) : M Z :=
  if size <? sizeof_kvar + archsize then mret (-1) else
  _ ← st g_kvar buf;
  g ← ld g_kvar;
  _ ← memset0 g (sizeof_kvar + archsize);
  g ← ld g_kvar;
  _ ← st (kvar_arch g) (buf + sizeof_kvar);
  mret 0.

Definition BI_MM_NENT_ADDR : Z := 0x87f0.
Definition BI_MM_TABLE_ADDR : Z := 0x8800.
Definition APVAR_CR3 : Z := 0x68f00.
Definition APVAR_SP : Z := 0x68f08.
Definition TRAMPOLINE_VEC : Z := 0x70.
Definition TRAMPOLINE_MAX_SIZE : Z := 0x1000.
Definition IV_LOC_TMR : Z := 0x40.
Definition IV_CRASH : Z := 0xfe.

(** ** kernel.c *)

Definition hex (c : Z) : Z := if 9 <? c then 97 + c - 10 else 48 + c.

(** [val >> (w * 8 - 4 - i * 4)]: a digit per cell of the screen, the first the
    most significant. *)
Definition print_hex (vbase val w : Z) : M Z :=
  _ ← for_up (Z.to_nat (w * 2)) 0 (λ i,
        let v := Z.land (Z.shiftr val (w * 8 - 4 - i * 4)) 0xf in
        st (vbase + 2 * i) (u16 (Z.lor 0x0700 (hex v))));
  mret (w * 2).

Definition sys_print_counter (ln cnt : Z) : M unit :=
  let base := 0xc00b8000 + 2 * (80 * ln) in
  _ ← print_hex base cnt 8; mret tt.

Definition SYS_exit : Z := 1.
Definition SYS_fork : Z := 2.
Definition SYS_read : Z := 3.
Definition SYS_write : Z := 4.
Definition SYS_execve : Z := 59.
Definition SYS_nanosleep : Z := 240.
Definition SYS_initexec : Z := 701.
Definition SYS_driver : Z := 702.
Definition SYS_MAXSYSCALL : Z := 768.

(** The functions whose addresses the kernel stores. *)
Inductive handler :=
| f_sys_exit | f_sys_fork | f_sys_read | f_sys_write | f_sys_execve | f_sys_nanosleep
| f_sys_initexec | f_sys_driver | f_sys_print_counter
| intr_null | intr_apic_loc_tmr | intr_crash | intr_irq1
| intr_de | intr_db | intr_nmi | intr_bp | intr_of | intr_br | intr_ud | intr_nm | intr_df | intr_cso
| intr_ts | intr_np | intr_ss | intr_gp | intr_pf | intr_mf | intr_ac | intr_mc | intr_xm | intr_ve | intr_sx
| f_task_idle | f_syscall_entry | f_vconsole_write
| f_devfs_mount | f_devfs_unmount | f_devfs_lookup
| f_initramfs_mount | f_initramfs_unmount | f_initramfs_lookup | f_initramfs_lock | f_initramfs_unlock.

(** Addresses of static data, buffers on the stack and string literals. *)
Record places := {
  pl_g_kvar : Z; pl_devfs : Z; pl_modules : Z; pl_initramfs_lock : Z; pl_ifs : Z; pl_tmppgt : Z;
  pl_kmalloc_slab : Z; pl_cachename : Z; pl_tmpstr : Z; pl_buf : Z; pl_stk : Z;
  s_slab_cache : Z; s_kmalloc : Z; s_timer_event : Z; s_vfs_module : Z; s_vfs_mount : Z; s_vfs_vnode : Z;
  s_initramfs : Z; s_devfs : Z; s_devfs_entry : Z; s_root : Z;
  s_exception : Z; s_exception_werror : Z; s_page_fault : Z;
  s_welcome : Z; s_busfreq : Z; s_cores : Z; s_memory_head : Z; s_memory : Z; s_rule : Z;
  s_map_nr : Z; s_map_head : Z; s_map : Z;
}.

Section start.
Context (addr : handler → Z) (pl : places) (lit : literals) (fuel : nat).
(** The processor: model specific registers, [cpuid], ports, control register,
    descriptor registers, interrupt flag; time passing while an interrupt
    command is pending ([poll]) and writes to the I/O APIC ([io]). *)
Context (rdmsr : Z → M Z) (wrmsr : Z → Z → M unit) (cpuid : Z → M (Z * Z * Z * Z)).
Context (in32 : Z → M Z) (out8 out16 : Z → Z → M unit) (set_cr3 : Z → M unit).
Context (lgdt : Z → Z → M unit) (lidt ltr lldt : Z → M unit) (cli sti poll : M unit) (io : Z → M unit).
Context (syscall_setup : Z → Z → M unit).
(** The trampoline code in the kernel image. *)
Context (trampoline trampoline_end : Z).
(** The stack pointer. *)
Context (sp : Z).

Let g : Z := KVAR_ADDR.
#[local] Instance kmem_records : DataAllocator := {
  data_alloc := kmem_data_alloc;
  data_free := kmem_data_free;
}.
#[local] Instance start_pages : PageAllocator := kernel_pages (pl_stk pl) fuel.
#[local] Instance start_slab : KernelSlab := kernel_slab (s_slab_cache pl) fuel (kvar_slab g).

Definition start_malloc (sz : Z) : M Z :=
  kmalloc (s_kmalloc pl) fuel (pl_kmalloc_slab pl) (pl_cachename pl) (pl_tmpstr pl) sz.
Definition start_mfree (p : Z) : M unit :=
  kfree (s_kmalloc pl) fuel (pl_kmalloc_slab pl) (pl_cachename pl) (pl_tmpstr pl) p.

(** *** kernel_init *)

Definition syscall_table : list (Z * handler) :=
  [(SYS_exit, f_sys_exit); (SYS_fork, f_sys_fork); (SYS_read, f_sys_read); (SYS_write, f_sys_write);
   (SYS_execve, f_sys_execve); (SYS_nanosleep, f_sys_nanosleep); (SYS_initexec, f_sys_initexec);
   (SYS_driver, f_sys_driver); (766, f_sys_print_counter)].

Fixpoint store_all (syscalls : Z) (l : list (Z * handler)) : M unit :=
  match l with
  | [] => mret tt
  | (nr, f) :: l => _ ← st (syscalls + 8 * nr) (addr f); store_all syscalls l
  end.

Definition setup_syscalls (syscalls : Z) : M unit :=
  _ ← for_up (Z.to_nat SYS_MAXSYSCALL) 0 (λ i, st (syscalls + 8 * i) 0);
  store_all syscalls syscall_table.

Definition call_mount := fs_mount start_malloc (pl_devfs pl) (addr f_devfs_mount) (addr f_initramfs_mount).
Definition start_register (type ifs : Z) : M Z := vfs_register (pl_modules pl) (s_vfs_module pl) fuel type ifs 0.

Definition register_devfs : M Z :=
  let ifs := pl_ifs pl in
  _ ← memset0 ifs sizeof_vfs_interfaces;
  _ ← st (ifs_mount_p ifs) (addr f_devfs_mount);
  _ ← st (ifs_unmount_p ifs) (addr f_devfs_unmount);
  _ ← st (ifs_lookup_p ifs) (addr f_devfs_lookup);
  start_register (s_devfs pl) ifs.

Definition kernel_init : M Z :=
  let sz := 8 * SYS_MAXSYSCALL in
  let nr := Z.shiftr (sz + MEMORY_PAGESIZE - 1) 12 in
  syscalls ← alloc_pages (kvar_mm g) nr MEMORY_ZONE_KERNEL 0;
  if syscalls =? 0 then mret (-1) else
  _ ← setup_syscalls syscalls;
  _ ← st (kvar_syscalls g) syscalls;
  ret ← slab_create (s_timer_event pl) 24;
  if ret <? 0 then mret (-1) else
  ret ← vfs_init (pl_modules pl) (kvar_rootfs g) (s_vfs_module pl) (s_vfs_mount pl) (s_vfs_vnode pl);
  if ret <? 0 then mret (-1) else
  ret ← initramfs_init (pl_initramfs_lock pl) (pl_ifs pl) (addr f_initramfs_mount) (addr f_initramfs_unmount)
          (addr f_initramfs_lookup) (addr f_initramfs_lock) (addr f_initramfs_unlock) (start_register (s_initramfs pl));
  if ret <? 0 then mret (-1) else
  ret ← vfs_mount (pl_modules pl) (kvar_rootfs g) (s_vfs_mount pl) call_mount fuel
          (s_initramfs pl) (s_root pl) 0 0;
  if ret <? 0 then mret (-1) else
  ret ← devfs_init (pl_devfs pl) (s_devfs_entry pl) register_devfs;
  if ret <? 0 then mret (-1) else mret 0.

(** *** The panic screen

    The text goes on the green screen from the upper left corner on; the
    result is the position of the cursor.  The text has less than 2000
    characters, so the integers do not overflow. *)

Fixpoint panic_text (k : nat) (s video i col : Z) : M Z :=
  match k with
  | O => hang
  | S k =>
    c ← ld s;
    if c =? 0 then mret i
    else if c =? 13 then panic_text k (s + 1) (video - 2 * col) (i - col) 0
    else if c =? 10 then panic_text k (s + 1) (video + 2 * 80) (i + 80) col
    else
      _ ← st video (u16 (Z.lor 0x2f00 (i8 c)));
      panic_text k (s + 1) (video + 2) (i + 1) (col + 1)
  end.

Definition panic_screen (buf : Z) : M unit :=
  let video := VIDEO_RAM_80X25 in
  _ ← for_up (Z.to_nat (80 * 25)) 0 (λ i, st (video + 2 * i) 0x2f00);
  i ← panic_text fuel buf video 0 0;
  _ ← out16 0x3d4 (u16 (Z.lor (Z.shiftl (Z.land i 0xff) 8) 0x0f));
  out16 0x3d4 (u16 (Z.lor (Z.shiftl (Z.land (Z.shiftr i 8) 0xff) 8) 0x0e)).

(** [panic]: the loop around [hlt] at its end never ends. *)
Definition panic_print (fmt : Z) (ap : list Z) : M unit :=
  let buf := pl_buf pl in
  _ ← lift (λ m, kvsnprintf fuel m (pl_tmpstr pl) buf (80 * 25) fmt ap);
  _ ← cli;
  k ← ld (pl_g_kvar pl); a ← ld (kvar_arch k); mp ← ld (av_mp_enable a);
  _ ← (if negb (mp =? 0) then lapic_bcast_fixed_ipi rdmsr IV_CRASH else mret tt);
  _ ← panic_screen buf;
  _ ← sti;
  hang.

(** The message of an exception is formatted into a buffer of 4096 bytes, which
    is the format of the panic. *)
Definition isr_exception (buf vec rip cs rflags rsp : Z) : M unit :=
  _ ← lift (λ m, ksnprintf fuel m (pl_tmpstr pl) buf 4096 (s_exception pl) [vec; rip; cs; rflags; rsp]);
  panic_print buf [].

Definition isr_exception_werror (buf vec error rip cs rflags rsp : Z) : M unit :=
  _ ← lift (λ m, ksnprintf fuel m (pl_tmpstr pl) buf 4096 (s_exception_werror pl) [vec; error; rip; cs; rflags; rsp]);
  panic_print buf [].

Definition isr_page_fault (buf virtual error rip cs rflags rsp : Z) : M unit :=
  id ← lapic_id rdmsr;
  t ← this_task id;
  proc ← ld (task_proc t);
  pname ← (if negb (proc =? 0) then proc ← ld (task_proc t); mret (proc_name proc) else mret 0);
  _ ← lift (λ m, ksnprintf fuel m (pl_tmpstr pl) buf 4096 (s_page_fault pl)
                   [t; pname; virtual; error; rip; cs; rflags; rsp]);
  panic_print buf [].

(** [k] rounds of the idle task; [hlt] waits for an interrupt. *)
Fixpoint task_idle (k : nat) (hlt : M unit) (cnt : Z) : M unit :=
  match k with
  | O => mret tt
  | S k =>
    id ← lapic_id rdmsr;
    _ ← st (VIDEO_RAM_80X25 + 2 * (80 * id + 79)) (Z.lor 0x0700 (if Z.testbit (cnt / 10) 0 then 33 else 32));
    _ ← hlt;
    task_idle k hlt (u64 (cnt + 1))
  end.

(** *** Entry points *)

Definition trap_gates : list (Z * handler) :=
  [(0, intr_de); (1, intr_db); (2, intr_nmi); (3, intr_bp); (4, intr_of); (5, intr_br); (6, intr_ud);
   (7, intr_nm); (8, intr_df); (9, intr_cso); (10, intr_ts); (11, intr_np); (12, intr_ss); (13, intr_gp);
   (14, intr_pf); (16, intr_mf); (17, intr_ac); (18, intr_mc); (19, intr_xm); (20, intr_ve); (30, intr_sx)].

Fixpoint set_trap_gates (l : list (Z * handler)) : M unit :=
  match l with
  | [] => mret tt
  | (nr, f) :: l => _ ← idt_setup_trap_gate nr (addr f); set_trap_gates l
  end.

Definition setup_gates : M unit :=
  _ ← idt_setup_intr_gate IV_LOC_TMR (addr intr_apic_loc_tmr);
  _ ← idt_setup_intr_gate IV_CRASH (addr intr_apic_loc_tmr);
  _ ← set_trap_gates trap_gates;
  idt_setup_intr_gate 0x21 (addr intr_irq1).

(** [kprintf]: format, then write to every console device. *)
Fixpoint console_writes (calls : list (Z * Z * Z)) : M unit :=
  match calls with
  | [] => mret tt
  | (dev, buf, n) :: calls =>
    f ← ld (cd_write dev);
    _ ← (if f =? addr f_vconsole_write then vconsole_write out16 dev buf n else panic);
    console_writes calls
  end.
Definition kprintf_ (fmt : Z) (ap : list Z) : M unit :=
  calls ← lift (λ m, kprintf fuel m (kvar_console_dev g) (pl_tmpstr pl) (pl_buf pl) fmt ap);
  console_writes calls.

(** The number of processors with a domain. *)
Fixpoint count_cores (k : nat) (acpi i nr : Z) : M Z :=
  match k with
  | O => mret nr
  | S k => v ← ld (ac_lapic_valid acpi i); count_cores k acpi (i + 1) (if v =? 0 then nr else nr + 1)
  end.

(** The calls to [ioapic_map_intr], the prints about memory. *)
Definition map_irqs (acpi : Z) : M unit :=
  for_up 16 0 (λ i, base ← ld (ac_ioapic_base acpi); ioapic_map_intr io (0x20 + i) i base).
Definition print_domains (acpi : Z) : M unit :=
  n ← ld (ac_num_region acpi);
  for_up (Z.to_nat n) 0 (λ i,
    b ← ld (ac_region_base acpi i); l ← ld (ac_region_length acpi i); d ← ld (ac_region_domain acpi i);
    kprintf_ (s_memory pl) [b; l; d]).
Definition print_map (map nr : Z) : M unit :=
  for_up (Z.to_nat nr) 0 (λ i,
    b ← ld (sysmap_base map i); l ← ld (sysmap_len map i); t ← ld (sysmap_type map i); a ← ld (sysmap_attr map i);
    kprintf_ (s_map pl) [b; l; t; a]).

(** The stacks and variables of the other processors, and their start. *)
Definition start_processors (acpi : Z) : M unit :=
  bstack ← alloc_pages (kvar_mm g) MAX_PROCESSORS MEMORY_ZONE_KERNEL 0;
  if bstack =? 0 then panic else
  _ ← memset0 bstack (MAX_PROCESSORS * MEMORY_PAGESIZE);
  a ← ld (kvar_arch g); cr3 ← ld (pgt_cr3 (av_pgt a));
  _ ← st (APVAR_CR3 + KERNEL_LMAP) cr3;
  _ ← st (APVAR_SP + KERNEL_LMAP) bstack;
  a ← ld (kvar_arch g); _ ← st (av_acpi a) acpi;
  let sz := u64 (trampoline_end - trampoline) in
  if TRAMPOLINE_MAX_SIZE <? sz then panic else
  _ ← memcpy (Z.shiftl TRAMPOLINE_VEC 12 + KERNEL_RELOCBASE) trampoline sz;
  _ ← lapic_send_init_ipi rdmsr;
  _ ← acpi_busy_usleep in32 fuel acpi 10000;
  _ ← lapic_send_startup_ipi rdmsr poll fuel (Z.land TRAMPOLINE_VEC 0xff);
  _ ← acpi_busy_usleep in32 fuel acpi 200;
  _ ← lapic_send_startup_ipi rdmsr poll fuel (Z.land TRAMPOLINE_VEC 0xff);
  acpi_busy_usleep in32 fuel acpi 200.

(** From the reset of the kernel variables to the linear mapping of memory. *)
Definition start_memory (nr : Z) : M unit :=
  _ ← lift_ (A := unit) (λ m, phys_memory_init fuel m (kvar_phys g) nr BI_MM_TABLE_ADDR KERNEL_LMAP);
  a ← ld (kvar_arch g);
  ret ← _init_kernel_pgt set_cr3 fuel (kvar_phys g) (kvar_mm g) (av_pgt a) nr BI_MM_TABLE_ADDR;
  if ret <? 0 then panic else mret tt.

Definition bsp_start : M unit :=
  ret ← kvar_init (pl_g_kvar pl) g KVAR_SIZE sizeof_arch_var;
  if ret <? 0 then panic else
  _ ← _init_temporary_pgt set_cr3 (pl_tmppgt pl);
  _ ← gdt_init; _ ← gdt_load lgdt;
  _ ← idt_init (addr intr_null); _ ← idt_load lidt;
  _ ← lldt 0;
  _ ← tss_init; id ← lapic_id rdmsr; _ ← tr_load ltr id;
  _ ← i8254_stop_timer out8;
  if MEMORY_PAGESIZE <? sizeof_phys_memory then panic else
  nr ← ld BI_MM_NENT_ADDR;
  _ ← start_memory nr;
  if MEMORY_PAGESIZE * 4 <? sizeof_acpi then panic else
  acpi ← alloc_pages (kvar_mm g) 4 MEMORY_ZONE_KERNEL 0;
  if acpi =? 0 then panic else
  ret ← acpi_load fuel acpi KERNEL_LMAP;
  if ret <? 0 then panic else
  ret ← _init_numa_zones fuel (kvar_phys g) acpi nr (BI_MM_TABLE_ADDR + KERNEL_LMAP);
  if ret <? 0 then panic else
  ret ← kmem_slab_init (s_slab_cache pl) fuel (kvar_slab g) (kvar_mm g);
  if ret <? 0 then panic else
  ret ← kmalloc_init (s_slab_cache pl) (s_kmalloc pl) fuel (pl_kmalloc_slab pl) (kvar_slab g) (pl_cachename pl) (pl_tmpstr pl);
  if ret <? 0 then panic else
  ret ← vmem_callback_init (kernel_kvar g) lit;
  if ret <? 0 then panic else
  dev ← vconsole_init start_malloc start_mfree (addr f_vconsole_write);
  if dev =? 0 then panic else
  _ ← st (kvar_console_dev g) dev;
  id ← lapic_id rdmsr;
  ret ← _prepare_idle_task (kernel_kvar g) lit (addr f_task_idle) id;
  if ret <? 0 then panic else
  ret ← _prepare_multitasking (kernel_kvar g) lit start_malloc (arch_memory_ctxsw set_cr3) fuel;
  if ret <? 0 then panic else
  _ ← ioapic_init out8; _ ← map_irqs acpi;
  ret ← kernel_init;
  if ret <? 0 then panic else
  _ ← st (kvar_runqueue g) 0;
  table ← ld (kvar_syscalls g);
  _ ← syscall_init rdmsr wrmsr cpuid (addr f_syscall_entry) syscall_setup table SYS_MAXSYSCALL;
  _ ← setup_gates;
  _ ← start_processors acpi;
  _ ← kprintf_ (s_welcome pl) [];
  busfreq ← _estimate_bus_freq rdmsr in32 fuel acpi;
  _ ← kprintf_ (s_busfreq pl) [busfreq];
  id ← lapic_id rdmsr;
  _ ← st (cpu_busfreq (CPU_TASK id)) busfreq;
  cores ← count_cores (Z.to_nat MAX_PROCESSORS) acpi 0 0;
  _ ← kprintf_ (s_cores pl) [cores];
  _ ← kprintf_ (s_memory_head pl) [];
  _ ← print_domains acpi;
  _ ← kprintf_ (s_rule pl) [];
  nr ← ld (BI_MM_NENT_ADDR + KERNEL_LMAP);
  _ ← kprintf_ (s_map_nr pl) [nr];
  _ ← kprintf_ (s_map_head pl) [];
  _ ← print_map (BI_MM_TABLE_ADDR + KERNEL_LMAP) nr;
  _ ← lapic_start_timer rdmsr busfreq HZ IV_LOC_TMR;
  id ← lapic_id rdmsr;
  task_restart id sp.

Definition ap_start : M unit :=
  id ← lapic_id rdmsr;
  _ ← st (VIDEO_RAM_80X25 + 2 * (80 * id + 79)) (Z.lor 0x0700 33);
  _ ← gdt_load lgdt; _ ← idt_load lidt;
  _ ← lldt 0;
  id ← lapic_id rdmsr; _ ← tr_load ltr id;
  k ← ld (pl_g_kvar pl); pgt ← ld (vmem_arch (memory_kmem (kvar_mm k))); _ ← pgt_set_cr3 set_cr3 pgt;
  k ← ld (pl_g_kvar pl); a ← ld (kvar_arch k); acpi ← ld (av_acpi a);
  busfreq ← _estimate_bus_freq rdmsr in32 fuel acpi;
  id ← lapic_id rdmsr;
  _ ← st (cpu_busfreq (CPU_TASK id)) busfreq;
  id ← lapic_id rdmsr;
  ret ← _prepare_idle_task (kernel_kvar g) lit (addr f_task_idle) id;
  if ret <? 0 then panic else
  _ ← lapic_start_timer rdmsr busfreq HZ IV_LOC_TMR;
  id ← lapic_id rdmsr;
  task_restart id sp.
End start.

(** ** boot/boot.c: the jump into the kernel *)

Definition centry (ljmp : Z → Z → Z → M unit) : M unit := ljmp 0x08 0xc0010000 0xc0007c00.
