(* ===== verification/StartTheorems.v ===== *)
(** * Starting the machine: theorems

    The table of system calls and the interrupt gates the kernel ends up
    with, and what a panic message looks like on the screen. *)

From S2P Require Import Prelude CMonad KString Strfmt Proc Desc Vconsole Acpi Start.

(** ** The panic screen *)

Definition at_cell (i : Z) : Z := VIDEO_RAM_80X25 + 2 * i.
Definition on_screen (x : Z) : Prop := at_cell 0 <= x < at_cell 2000.

(** Characters that are neither line ends nor the end of the message. *)
Definition plain (c : Z) : Prop := 0 < c < 128 ∧ c ≠ 10 ∧ c ≠ 13.

(** Lines, separated by carriage return and line feed. *)
Fixpoint text (l : list Z) (ls : list (list Z)) : list Z :=
  match ls with
  | [] => l
  | l' :: ls => l ++ [13; 10] ++ text l' ls
  end.

(** The last of the lines. *)
Definition last_line (l : list Z) (ls : list (list Z)) : list Z := foldl (λ _ x, x) l ls.

Definition shown (l : list Z) (c : Z) : Z := 0x2f00 + default 0 (l !! Z.to_nat c).

(** A buffer that is not in video memory. *)
Definition off_screen (s : Z) (l : list Z) : Prop := ∀ x, s <= x <= s + Z.of_nat (length l) → ¬ on_screen x.

Lemma lor_attr c : 0 <= c < 256 → Z.lor 0x2f00 c = 0x2f00 + c.
Proof.
  intros Hc. rewrite Z.lor_comm. change 0x2f00 with (Z.shiftl 47 8). rewrite lor_shiftl by lia.
  change (Z.shiftl 47 8) with (47 * 2 ^ 8). lia.
Qed.

Lemma plain_char c : plain c → u16 (Z.lor 0x2f00 (i8 c)) = 0x2f00 + c.
Proof.
  intros [Hc _]. unfold i8. rewrite Z.mod_small by lia.
  replace (c + 128 - 128) with c by lia. rewrite lor_attr by lia. unfold u16. rewrite Z.mod_small; lia.
Qed.

(** A loop that stores [v] in every cell of an array of cells [w] bytes wide. *)
Lemma fill_cells b w v k : ∀ m i, 0 < w →
  ∃ m', for_up k i (λ i, st (b + w * i) v) m = Ok tt m' ∧
    (∀ j, i <= j < i + Z.of_nat k → m'.@(b + w * j) = v) ∧
    ∀ x, ¬ (b + w * i <= x < b + w * (i + Z.of_nat k)) → m'.@x = m.@x.
Proof.
  induction k as [|k IH]; intros m i Hw; cbn [for_up].
  - exists m. split; [done|]. split; [lia|done].
  - mrun. destruct (IH (m.[b + w * i <- v]) (i + 1) Hw) as (m' & E & F & G).
    exists m'. split; [done|]. split.
    + intros j Hj. destruct (decide (j = i)) as [->|]; [|apply F; lia].
      rewrite G by lia. apply rd_wr_eq.
    + intros x Hx. rewrite G by nia. apply rd_wr_ne. nia.
Qed.

(** The cells from [i] on hold the characters [l]; nothing else has changed. *)
Definition put_at (m m' : gmap Z Z) (i : Z) (l : list Z) : Prop :=
  (∀ j c, l !! j = Some c → m'.@(at_cell (i + Z.of_nat j)) = 0x2f00 + c) ∧
  ∀ x, ¬ (at_cell i <= x < at_cell (i + Z.of_nat (length l))) → m'.@x = m.@x.

(** A run of plain characters. *)
Lemma panic_run l : ∀ m s rest i col k,
  cstr m s (l ++ rest) → Forall plain l → off_screen s (l ++ rest) →
  0 <= i → i + Z.of_nat (length l) <= 2000 →
  ∃ m', panic_text (length l + k) s (at_cell i) i col m =
      panic_text k (s + Z.of_nat (length l)) (at_cell (i + Z.of_nat (length l)))
        (i + Z.of_nat (length l)) (col + Z.of_nat (length l)) m' ∧ put_at m m' i l.
Proof.
  induction l as [|c l IH]; intros m s rest i col k Hs Hp Ho Hi Hn; simpl in *.
  - exists m. rewrite !Z.add_0_r. split; [done|]. split; [done|]. by intros.
  - apply cstr_cons in Hs as (Hc & Hc0 & Hs). apply Forall_cons in Hp as [Hpc Hp].
    mrun. rewrite Hc. pose proof Hpc as (Hc1 & Hc2 & Hc3).
    rewrite !(proj2 (Z.eqb_neq c _)) by lia. mrun. rewrite plain_char by done.
    destruct (IH (m.[at_cell i <- 0x2f00 + c]) (s + 1) rest (i + 1) (col + 1) k) as (m' & E & H1 & H2).
    + eapply cstr_frame; [|exact Hs]. intros x Hx. apply rd_wr_ne. intros <-.
      apply (Ho (at_cell i)); [cbn [length]; lia|]. unfold on_screen, at_cell; lia.
    + done.
    + intros x Hx. apply Ho. cbn [length]. lia.
    + lia.
    + lia.
    + exists m'. split.
      { replace (at_cell i + 2) with (at_cell (i + 1)) by (unfold at_cell; lia).
        rewrite E. f_equal; try lia; [unfold at_cell; lia]. }
      split.
      * intros [|j] c' Hj; simpl in Hj.
        -- injection Hj as <-. rewrite H2 by (unfold at_cell; lia). rewrite Z.add_0_r. apply rd_wr_eq.
        -- rewrite <- (H1 j c' Hj). f_equal. unfold at_cell. lia.
      * intros x Hx. rewrite H2 by (revert Hx; unfold at_cell; cbn [length]; lia). apply rd_wr_ne.
        revert Hx. unfold at_cell. cbn [length]. lia.
Qed.

(** The cells of a row that got the characters [l]. *)
Lemma put_row m m' i l c : put_at m m' i l → 0 <= c →
  m'.@(at_cell (i + c)) = if decide (c < Z.of_nat (length l)) then shown l c else m.@(at_cell (i + c)).
Proof.
  intros [H1 H2] Hc. case_decide as Hlt; [|apply H2; unfold at_cell; lia].
  destruct (lookup_lt_is_Some_2 l (Z.to_nat c)) as [ch Hch]; [lia|].
  unfold shown. rewrite Hch. change (default 0 (Some ch)) with ch. rewrite <-(H1 _ _ Hch). f_equal. f_equal. lia.
Qed.

(** The lines [l], [ls] from row [r] on. *)
Lemma panic_lines ls : ∀ m s l r k,
  cstr m s (text l ls) → off_screen s (text l ls) →
  Forall (λ l, Forall plain l ∧ (length l <= 80)%nat) (l :: ls) →
  0 <= r → r + Z.of_nat (length ls) < 25 → (length (text l ls) < k)%nat →
  ∃ m', panic_text k s (at_cell (80 * r)) (80 * r) 0 m =
      Ok (80 * (r + Z.of_nat (length ls)) + Z.of_nat (length (last_line l ls))) m' ∧
    (∀ j lj c, (l :: ls) !! j = Some lj → 0 <= c < 80 →
      m'.@(at_cell (80 * (r + Z.of_nat j) + c)) =
      if decide (c < Z.of_nat (length lj)) then shown lj c else m.@(at_cell (80 * (r + Z.of_nat j) + c))) ∧
    ∀ x, ¬ (at_cell (80 * r) <= x < at_cell (80 * (r + Z.of_nat (length ls) + 1))) → m'.@x = m.@x.
Proof.
  induction ls as [|l' ls IH]; intros m s l r k Hs Ho Hp Hr Hn Hk; cbn [text] in *.
  - apply Forall_cons in Hp as [[Hp Hl] _].
    destruct (panic_run l m s [] (80 * r) 0 (k - length l)) as (m' & E & Hput);
      [by rewrite app_nil_r|done|by rewrite app_nil_r|lia|lia|].
    replace (length l + (k - length l))%nat with k in E by lia.
    pose proof Hput as [_ H2]. assert (m'.@(s + Z.of_nat (length l)) = 0) as Hend.
    { rewrite H2. - rewrite (cstr_at m s l) by (done || lia). by rewrite lookup_ge_None_2 by lia.
      - intros Hx. apply (Ho (s + Z.of_nat (length l))); [lia|]. unfold on_screen. revert Hx. unfold at_cell; lia. }
    exists m'. split; [|split].
    + rewrite E. destruct (k - length l)%nat as [|k'] eqn:Hk'; [lia|]. cbn [panic_text]. mrun.
      rewrite Hend. cbn [Z.eqb last_line foldl length]. unfold mret, M_ret. f_equal. lia.
    + intros [|j] lj c Hj Hc; [|done]. injection Hj as <-. rewrite Z.add_0_r. apply put_row; [done|lia].
    + intros x Hx. apply H2. revert Hx. unfold at_cell. cbn [length]. lia.
  - rewrite length_app in Hk. cbn [length app] in Hk, Hn.
    apply Forall_cons in Hp as [[Hp Hl] Hps].
    destruct (panic_run l m s ([13; 10] ++ text l' ls) (80 * r) 0 (k - length l)) as (m1 & E & Hput);
      [done|done|done|lia|lia|]. pose proof Hput as [_ H2].
    replace (length l + (k - length l))%nat with k in E by lia.
    assert (cstr m1 (s + Z.of_nat (length l)) ([13; 10] ++ text l' ls)) as Hs1.
    { apply cstr_app in Hs as (_ & _ & Hs). eapply cstr_frame; [|exact Hs].
      intros x Hx. apply H2. intros Hx'. apply (Ho x); [rewrite length_app; lia|].
      revert Hx'. unfold on_screen, at_cell. lia. }
    cbn [app] in Hs1. apply cstr_cons in Hs1 as (C1 & _ & Hs1). apply cstr_cons in Hs1 as (C2 & _ & Hs1).
    destruct (IH m1 (s + Z.of_nat (length l) + 1 + 1) l' (r + 1) (k - length l - 2)%nat)
      as (m' & E' & H1' & H2'); [done| |done|lia|lia|lia|].
    { intros x Hx. apply Ho. rewrite length_app. cbn [length app]. lia. }
    exists m'. split; [|split].
    + rewrite E. destruct (k - length l)%nat as [|[|k']] eqn:Hk'; [lia..|].
      cbn [panic_text]. mrun. rewrite C1. cbn [Z.eqb Pos.eqb]. cbn [panic_text]. mrun. rewrite C2. cbn [Z.eqb Pos.eqb].
      replace (at_cell (80 * r + Z.of_nat (length l)) - 2 * (0 + Z.of_nat (length l)) + 2 * 80)
        with (at_cell (80 * (r + 1))) by (unfold at_cell; lia).
      replace (80 * r + Z.of_nat (length l) - (0 + Z.of_nat (length l)) + 80) with (80 * (r + 1)) by lia.
      replace (S (S k') - 2)%nat with k' in E' by lia. rewrite E'.
      f_equal. change (last_line l (l' :: ls)) with (last_line l' ls). cbn [length]. lia.
    + intros [|j] lj c Hj Hc.
      * injection Hj as <-. rewrite H2' by (unfold at_cell; lia). rewrite Z.add_0_r. apply put_row; [done|lia].
      * replace (r + Z.of_nat (S j)) with (r + 1 + Z.of_nat j) by lia. rewrite (H1' j lj c Hj Hc).
        case_decide; [done|]. apply H2. unfold at_cell. lia.
    + intros x Hx. cbn [length] in Hx. rewrite H2' by (revert Hx; unfold at_cell; lia).
      apply H2. revert Hx. unfold at_cell. lia.
Qed.

(** a panic message of at most 25 lines of at most 80 characters appears on
    the green screen, one line below the other from the upper left corner on;
    the rest of the screen is empty, and nothing else in memory changes. *)
Theorem panic_screen_correct out16 fuel m buf l ls :
  (∀ p d m, out16 p d m = Ok tt m) →
  cstr m buf (text l ls) → off_screen buf (text l ls) →
  Forall (λ l, Forall plain l ∧ (length l <= 80)%nat) (l :: ls) → (length ls < 25)%nat →
  (length (text l ls) < fuel)%nat →
  ∃ m', panic_screen fuel out16 buf m = Ok tt m' ∧
    (∀ r c, 0 <= r < 25 → 0 <= c < 80 →
      m'.@(at_cell (80 * r + c)) = shown (default [] ((l :: ls) !! Z.to_nat r)) c) ∧
    ∀ x, ¬ on_screen x → m'.@x = m.@x.
Proof.
  intros Hout Hs Ho Hp Hn Hf. unfold panic_screen.
  destruct (fill_cells VIDEO_RAM_80X25 2 0x2f00 (Z.to_nat (80 * 25)) m 0 ltac:(lia)) as (m1 & E1 & F1 & G1).
  rewrite (bind_ok _ _ _ _ _ E1).
  change (Z.of_nat (Z.to_nat (80 * 25))) with 2000 in F1, G1.
  destruct (panic_lines ls m1 buf l 0 fuel) as (m' & E & H & G).
  - eapply cstr_frame; [|exact Hs]. intros x Hx. apply G1. by apply Ho.
  - done.
  - done.
  - lia.
  - lia.
  - done.
  - change (at_cell (80 * 0)) with VIDEO_RAM_80X25 in E. rewrite (bind_ok _ _ _ _ _ E).
    rewrite (bind_ok _ _ _ _ _ (Hout _ _ _)). exists m'. split; [apply Hout|]. split.
    + intros r c Hr Hc. destruct ((l :: ls) !! Z.to_nat r) as [lr|] eqn:Hlr.
      * specialize (H _ _ c Hlr Hc). rewrite Z2Nat.id in H by lia. rewrite Z.add_0_l in H. rewrite H.
        change (default [] (Some lr)) with lr. case_decide as Hlt; [done|]. unfold shown.
        rewrite lookup_ge_None_2 by lia. apply F1. lia.
      * apply lookup_ge_None in Hlr. cbn [length] in Hlr. change (default [] None) with (@nil Z). unfold shown. rewrite lookup_nil.
        rewrite G; [apply F1; lia|]. unfold at_cell. lia.
    + intros x Hx. rewrite G; [by apply G1|]. revert Hx. unfold on_screen, at_cell. lia.
Qed.

Definition no_ports (p d : Z) : M unit := mret tt.

Definition panic_ex : gmap Z Z := list_to_map (zip (seqZ 100 8) [79; 104; 13; 10; 110; 111; 33; 0]).

Lemma panic_screen_witness :
  ∃ m', panic_screen 20 no_ports 100 panic_ex = Ok tt m' ∧ m'.@(at_cell 81) = 0x2f00 + 111.
Proof.
  destruct (panic_screen_correct no_ports 20 panic_ex 100 [79; 104] [[110; 111; 33]]) as (m' & E & H & _).
  - done.
  - split; [repeat split|]. apply (bool_decide_unpack _). vm_compute. exact I.
  - intros x Hx. unfold on_screen, at_cell, VIDEO_RAM_80X25. simpl in Hx. lia.
  - unfold plain. repeat constructor; simpl; lia.
  - simpl. lia.
  - simpl. lia.
  - exists m'. split; [exact E|]. apply (H 1 1); lia.
Defined.

(** ** System calls *)

(** Storing entries leaves every entry of the list, and changes nothing but
    the cells of the list. *)
Lemma store_all_run addr t l : ∀ m, NoDup l.*1 →
  ∃ m', store_all addr t l m = Ok tt m' ∧
    (∀ nr f, (nr, f) ∈ l → m'.@(t + 8 * nr) = addr f) ∧
    ∀ x, (∀ nr, nr ∈ l.*1 → x ≠ t + 8 * nr) → m'.@x = m.@x.
Proof.
  induction l as [|[nr f] l IH]; intros m Hnd; cbn [store_all].
  - exists m. split; [done|]. split; [by intros ? ? ?%elem_of_nil|done].
  - cbn in Hnd. apply NoDup_cons in Hnd as [Hnr Hnd]. mrun.
    destruct (IH (m.[t + 8 * nr <- addr f]) Hnd) as (m' & E & F & G). exists m'. split; [done|]. split.
    + intros n h [Heq|Hin]%elem_of_cons; [|by apply F]. injection Heq as -> ->.
      rewrite G; [apply rd_wr_eq|]. intros n Hn E'. assert (n = nr) as -> by lia. done.
    + intros x Hx. rewrite G by (intros n Hn; apply Hx; cbn; by apply elem_of_cons; right).
      apply rd_wr_ne. intros <-. apply (Hx nr); [cbn; apply elem_of_cons; by left|done].
Qed.

(** the table of system calls has the handlers of [kernel_init] at their
    numbers and NULL at every other number. *)
Theorem syscall_table_correct addr t m :
  ∃ m', setup_syscalls addr t m = Ok tt m' ∧
    (∀ nr, 0 <= nr < SYS_MAXSYSCALL →
      m'.@(t + 8 * nr) = from_option addr 0 ((list_to_map syscall_table : gmap Z handler) !! nr)) ∧
    ∀ x, ¬ (t <= x < t + 8 * SYS_MAXSYSCALL) → m'.@x = m.@x.
Proof.
  unfold setup_syscalls.
  destruct (fill_cells t 8 0 (Z.to_nat SYS_MAXSYSCALL) m 0 ltac:(lia)) as (m1 & E1 & F1 & G1).
  change (Z.of_nat (Z.to_nat SYS_MAXSYSCALL)) with SYS_MAXSYSCALL in F1, G1.
  rewrite (bind_ok _ _ _ _ _ E1).
  assert (NoDup syscall_table.*1) as Hnd by (apply (bool_decide_unpack _); vm_compute; exact I).
  destruct (store_all_run addr t syscall_table m1 Hnd) as (m' & E & F & G). exists m'. split; [done|]. split.
  - intros nr Hnr. destruct (list_to_map _ !! nr) as [f|] eqn:Hf.
    + apply F. by apply elem_of_list_to_map_2.
    + apply not_elem_of_list_to_map_2 in Hf. rewrite G; [apply F1; lia|].
      intros n Hn E'. assert (n = nr) as -> by lia. done.
  - intros x Hx. assert (Forall (λ nr, 0 <= nr < SYS_MAXSYSCALL) syscall_table.*1) as Hr
      by (unfold SYS_MAXSYSCALL; repeat constructor; vm_compute; congruence).
    rewrite G; [apply G1; lia|]. intros nr Hn ->. rewrite Forall_forall in Hr. specialize (Hr _ Hn). lia.
Qed.

(** ** Interrupt gates *)

Definition INTR : Z := Z.lor IDT_PRESENT IDT_INTGATE.
Definition TRAP : Z := Z.lor IDT_PRESENT IDT_TRAPGATE.

(** The gates written by [setup_gates]: vector, handler, flags. *)
Definition start_gates : list (Z * handler * Z) :=
  [(IV_LOC_TMR, intr_apic_loc_tmr, INTR); (IV_CRASH, intr_apic_loc_tmr, INTR)] ++
  ((λ p : Z * handler, (p.1, p.2, TRAP)) <$> trap_gates) ++ [(0x21, intr_irq1, INTR)].

Fixpoint set_gates (addr : handler → Z) (l : list (Z * handler * Z)) : M unit :=
  match l with
  | [] => mret tt
  | (nr, f, flags) :: l => _ ← idt_setup_gate_desc (idt_at nr) (addr f) GDT_RING0_CODE_SEL flags; set_gates addr l
  end.

Lemma set_gates_app addr l1 l2 m : set_gates addr (l1 ++ l2) m = (_ ← set_gates addr l1; set_gates addr l2) m.
Proof.
  revert m. induction l1 as [|[[nr f] fl] l1 IH]; intros m; cbn [set_gates app]; [done|].
  rewrite bind_assoc. apply bind_ext; [done|]. intros _ m'. apply IH.
Qed.

Lemma set_traps addr l m :
  set_trap_gates addr l m = set_gates addr ((λ p : Z * handler, (p.1, p.2, TRAP)) <$> l) m.
Proof.
  revert m. induction l as [|[nr f] l IH]; intros m; cbn [set_trap_gates set_gates fmap list_fmap fst snd]; [done|].
  apply bind_ext; [done|]. intros _ m'. apply IH.
Qed.

Lemma setup_gates_list addr m : setup_gates addr m = set_gates addr start_gates m.
Proof.
  unfold setup_gates, start_gates. cbn [app set_gates]. apply bind_ext; [done|]. intros _ m1.
  apply bind_ext; [done|]. intros _ m2. rewrite set_gates_app. apply bind_ext; [apply set_traps|].
  intros _ m3. cbn [set_gates]. unfold idt_setup_intr_gate.
  destruct (idt_setup_gate_desc _ _ _ _ m3) as [[] m4| |] eqn:E; [|done..].
  by rewrite (bind_ok _ _ _ _ _ E).
Qed.

Lemma idt_disjoint i j : i ≠ j → idt_at i + 16 <= idt_at j ∨ idt_at j + 16 <= idt_at i.
Proof. unfold idt_at, sizeof_idt_gate_desc. lia. Qed.

Lemma set_gates_run addr l : ∀ m, (∀ f, 0 <= addr f < 2 ^ 48) → NoDup l.*1.*1 →
  ∃ m', set_gates addr l m = Ok tt m' ∧
    (∀ nr f flags, (nr, f, flags) ∈ l → gate m' (idt_at nr) (addr f) flags) ∧
    ∀ nr target flags, nr ∉ l.*1.*1 → gate m (idt_at nr) target flags → gate m' (idt_at nr) target flags.
Proof.
  induction l as [|[[nr f] fl] l IH]; intros m Ha Hnd; cbn [set_gates].
  - exists m. split; [done|]. split; [by intros ? ? ? ?%elem_of_nil|done].
  - cbn in Hnd. apply NoDup_cons in Hnd as [Hnr Hnd].
    destruct (gate_run m (idt_at nr) (addr f) fl) as (m1 & E1 & G1 & F1); [specialize (Ha f); lia|].
    rewrite Z.mod_small in G1 by apply Ha. rewrite (bind_ok _ _ _ _ _ E1).
    destruct (IH m1 Ha Hnd) as (m' & E & G & K). exists m'. split; [done|]. split.
    + intros n h flags [Heq|Hin]%elem_of_cons; [|by apply G]. injection Heq as -> -> ->. by apply K.
    + intros n target flags Hn Hg. cbn in Hn. apply not_elem_of_cons in Hn as [Hne Hn]. apply K; [done|].
      eapply gate_frame; [exact Hg|exact F1|]. unfold sizeof_idt_gate_desc. by apply idt_disjoint.
Qed.

(** after the setup every exception has the gate of its handler, the local
    timer and the keyboard theirs, and every other vector keeps the gate it
    had.  The vector [IV_CRASH], which [panic] sends to stop the other
    processors, runs the handler of the timer and not [intr_crash]. *)
Theorem setup_gates_correct addr m : (∀ f, 0 <= addr f < 2 ^ 48) →
  ∃ m', setup_gates addr m = Ok tt m' ∧
    (∀ nr f, (nr, f) ∈ trap_gates → gate m' (idt_at nr) (addr f) TRAP) ∧
    gate m' (idt_at IV_LOC_TMR) (addr intr_apic_loc_tmr) INTR ∧
    gate m' (idt_at 0x21) (addr intr_irq1) INTR ∧
    gate m' (idt_at IV_CRASH) (addr intr_apic_loc_tmr) INTR ∧
    ∀ nr target flags, nr ∉ 0x21 :: IV_LOC_TMR :: IV_CRASH :: trap_gates.*1 →
      gate m (idt_at nr) target flags → gate m' (idt_at nr) target flags.
Proof.
  intros Ha. rewrite setup_gates_list.
  assert (NoDup start_gates.*1.*1) as Hnd by (apply (bool_decide_unpack _); vm_compute; exact I).
  destruct (set_gates_run addr start_gates m Ha Hnd) as (m' & E & G & K). exists m'. split; [done|].
  split; [|split; [|split; [|split]]].
  - intros nr f Hin. apply G. unfold start_gates. rewrite !elem_of_app. right. left.
    apply list_elem_of_fmap. by exists (nr, f).
  - apply G. unfold start_gates. apply elem_of_cons. by left.
  - apply G. unfold start_gates. rewrite !elem_of_app. right. right. by apply list_elem_of_singleton.
  - apply G. unfold start_gates. apply elem_of_cons. right. apply elem_of_cons. by left.
  - intros nr target flags Hn. apply K. intros Hin. apply Hn. clear -Hin.
    assert (start_gates.*1.*1 = IV_LOC_TMR :: IV_CRASH :: trap_gates.*1 ++ [0x21]) as E by reflexivity.
    rewrite E in Hin. rewrite !elem_of_cons, elem_of_app, list_elem_of_singleton in Hin.
    rewrite !elem_of_cons. tauto.
Qed.

Lemma setup_gates_witness :
  ∃ m', setup_gates (λ _, 0xc0010000) ∅ = Ok tt m' ∧ gate m' (idt_at 14) 0xc0010000 TRAP.
Proof.
  destruct (setup_gates_correct (λ _, 0xc0010000) ∅) as (m' & E & G & _); [intros _; lia|].
  exists m'. split; [exact E|]. apply (G 14 intr_pf). unfold trap_gates.
  repeat (apply elem_of_cons; first [by left | right]).
Defined.
