(* ===== verification/Layout.v ===== *)
(** * The layout of the C structures

    The other files address a field of a structure by its offset.  Here the
    declarations of the sources are data, in the order and with the types of
    the C text, and [offset_of] and [sizeof] compute what the System V ABI for
    x86-64 lays down for them: a scalar is aligned to its size, a structure to
    its most aligned field, packed structures have no padding, bit fields fill
    their unit from the lowest bit on.  [LayoutTheorems] compares the two. *)

From Stdlib Require Import String.
From S2P Require Import Prelude PhysMem Slab Devfs Vfs Acpi Tty.
#[local] Open Scope string_scope.

Inductive cty :=
  | Scalar (size : Z)
  | Ptr
  | Bits (unit : Z) (fs : list (string * Z))
  | Array (n : Z) (t : cty)
  | Struct (fs : list (string * cty))
  | Packed (fs : list (string * cty))
  | Union (fs : list (string * cty)).

Definition align_up (o a : Z) : Z := (o + a - 1) / a * a.

(** The size and the alignment. *)
Fixpoint measure (t : cty) : Z * Z :=
  match t with
  | Scalar n => (n, n)
  | Ptr => (8, 8)
  | Bits n _ => (n, n)
  | Array n t => let '(s, a) := measure t in (n * s, a)
  | Struct fs =>
      let '(o, a) := (fix go o a fs := match fs with
                      | [] => (o, a)
                      | (_, t) :: fs => let '(s, b) := measure t in go (align_up o b + s) (Z.max a b) fs
                      end) 0 1 fs in (align_up o a, a)
  | Packed fs =>
      ((fix go o fs := match fs with [] => o | (_, t) :: fs => go (o + (measure t).1) fs end) 0 fs, 1)
  | Union fs =>
      let '(o, a) := (fix go o a fs := match fs with
                      | [] => (o, a)
                      | (_, t) :: fs => let '(s, b) := measure t in go (Z.max o s) (Z.max a b) fs
                      end) 0 1 fs in (align_up o a, a)
  end.
Definition sizeof (t : cty) : Z := (measure t).1.
Definition alignof (t : cty) : Z := (measure t).2.

(** The offset and the type of a field, the fields laid out from [o] on. *)
Fixpoint find_field (pad : bool) (o : Z) (fs : list (string * cty)) (x : string) : option (Z * cty) :=
  match fs with
  | [] => None
  | (y, t) :: fs =>
    let o := if pad then align_up o (alignof t) else o in
    if String.eqb x y then Some (o, t) else find_field pad (o + sizeof t) fs x
  end.

Fixpoint find_member (fs : list (string * cty)) (x : string) : option cty :=
  match fs with [] => None | (y, t) :: fs => if String.eqb x y then Some t else find_member fs x end.

(** [s.x.y[i]] *)
Inductive step := Fld (x : string) | Idx (i : Z).

Fixpoint offset_of (t : cty) (path : list step) : option Z :=
  match path with
  | [] => Some 0
  | Fld x :: path =>
    match t with
    | Struct fs => '(o, t) ← find_field true 0 fs x; p ← offset_of t path; Some (o + p)
    | Packed fs => '(o, t) ← find_field false 0 fs x; p ← offset_of t path; Some (o + p)
    | Union fs => t ← find_member fs x; offset_of t path
    | _ => None
    end
  | Idx i :: path => match t with Array n t => p ← offset_of t path; Some (i * sizeof t + p) | _ => None end
  end.

(** The lowest bit of a bit field. *)
Fixpoint bit_of (fs : list (string * Z)) (x : string) (o : Z) : option Z :=
  match fs with [] => None | (y, n) :: fs => if String.eqb x y then Some o else bit_of fs x (o + n) end.
Fixpoint bit_offset (t : cty) (path : list string) : option Z :=
  match path, t with
  | [x], Bits _ fs => bit_of fs x 0
  | x :: path, Union fs => t ← find_member fs x; bit_offset t path
  | _, _ => None
  end.

Definition MEMORY_ZONE_CORE_NUM : Z := 2.
Definition DEVFS_FIFO_BUFSIZE : Z := 8192.
Definition FD_MAX : Z := 1024.

(** ** Scalar types *)

Definition char : cty := Scalar 1.
Definition int : cty := Scalar 4.
Definition long : cty := Scalar 8.
Definition longlong : cty := Scalar 8.
(** An enumeration is an [int]. *)
Definition enum : cty := Scalar 4.
Definition ssize_t : cty := Scalar 8.
Definition size_t : cty := Scalar 8.
Definition off_t : cty := Scalar 8.
Definition uint8_t : cty := Scalar 1.
Definition uint16_t : cty := Scalar 2.
Definition uint32_t : cty := Scalar 4.
Definition uint64_t : cty := Scalar 8.
Definition int8_t : cty := Scalar 1.
Definition int16_t : cty := Scalar 2.
Definition int32_t : cty := Scalar 4.
Definition int64_t : cty := Scalar 8.
Definition uintptr_t : cty := Scalar 8.
Definition pid_t : cty := Scalar 4.
Definition uid_t : cty := Scalar 4.
Definition gid_t : cty := Scalar 4.
Definition cc_t : cty := Scalar 1.
Definition tcflag_t : cty := Scalar 8.
Definition speed_t : cty := Scalar 8.
Definition time_t : cty := Scalar 8.

(** ** kernel/memory.h *)

Definition phys_memory_buddy_page : cty :=
  Packed [("next", Ptr)].
Definition phys_memory_zone_t : cty :=
  Struct [("valid", int); ("heads", Array (MEMORY_PHYS_BUDDY_ORDER + 1) Ptr)].
Definition phys_memory_t : cty :=
  Struct [("p2v", uintptr_t); ("czones", Array MEMORY_ZONE_CORE_NUM phys_memory_zone_t); ("max_domain", int);
    ("numazones", Ptr); ("lock", int)].
Definition memory_sysmap_entry_t : cty :=
  Packed [("base", uint64_t); ("len", uint64_t); ("type", uint32_t); ("attr", uint32_t)].
Definition page_t : cty :=
  Struct [("index", uintptr_t); ("physical", uintptr_t); ("flags", uint16_t); ("zone", uint8_t);
    ("order", uint8_t); ("numadomain", uint32_t); ("next", Ptr)].
Definition virt_memory_object_t : cty :=
  Struct [("type", enum); ("pages", Ptr); ("size", size_t); ("refs", int);
    ("u", (Union [("shadow", (Struct [("object", Ptr)]))]))].

(** ** kernel/tree.h *)

Definition btree_node_t : cty :=
  Struct [("left", Ptr); ("right", Ptr); ("data", Ptr)].

(** ** kernel/memory.h *)

Definition virt_memory_entry_t : cty :=
  Struct [("start", uintptr_t); ("size", size_t); ("object", Ptr); ("offset", off_t); ("flags", int);
    ("atree", btree_node_t)].
Definition virt_memory_free_t : cty :=
  Struct [("start", uintptr_t); ("size", size_t); ("atree", btree_node_t); ("stree", btree_node_t)].
Definition virt_memory_block_t : cty :=
  Struct [("start", uintptr_t); ("end", uintptr_t); ("next", Ptr); ("entries", Ptr);
    ("frees", (Struct [("atree", Ptr); ("stree", Ptr)]))].
Definition virt_memory_data_t : cty :=
  Union [("page", page_t); ("object", virt_memory_object_t); ("entry", virt_memory_entry_t);
    ("free", virt_memory_free_t); ("block", virt_memory_block_t)].
Definition virt_memory_allocator_t : cty :=
  Struct [("spec", Ptr); ("alloc", Ptr); ("free", Ptr)].
Definition memory_arch_interfaces_t : cty :=
  Struct [("map", Ptr); ("unmap", Ptr); ("prepare", Ptr); ("refer", Ptr); ("new", Ptr); ("ctxsw", Ptr);
    ("copy", Ptr); ("v2p", Ptr)].
Definition virt_memory_t : cty :=
  Struct [("mem", Ptr); ("blocks", Ptr); ("allocator", virt_memory_allocator_t); ("flags", int); ("arch", Ptr)].
Definition memory_t : cty :=
  Struct [("phys", Ptr); ("kmem", virt_memory_t); ("ifs", memory_arch_interfaces_t)].
Definition memory_slab_hdr_t : cty :=
  Struct [("next", Ptr); ("cache", Ptr); ("nobjs", int); ("nused", int); ("obj_head", Ptr);
    ("marks", Array 0 uint8_t)].
Definition memory_slab_free_list_t : cty :=
  Struct [("partial", Ptr); ("full", Ptr); ("empty", Ptr)].
Definition memory_slab_cache_t : cty :=
  Struct [("name", Array MEMORY_SLAB_CACHE_NAME_MAX char); ("size", size_t);
    ("freelist", memory_slab_free_list_t); ("left", Ptr); ("right", Ptr)].
Definition memory_slab_allocator_t : cty :=
  Struct [("lock", int); ("mem", Ptr); ("root", Ptr)].

(** ** arch/x86_64/pgt.h *)

Definition pgt_entry : cty :=
  Struct [("next", Ptr)].
Definition pgt_t : cty :=
  Struct [("cr3", uintptr_t); ("p2v", uintptr_t); ("free", Ptr)].

(** ** kernel/devfs.c *)

Definition devfs_fifo : cty :=
  Struct [("buf", Array DEVFS_FIFO_BUFSIZE uint8_t); ("head", off_t); ("tail", off_t)].
Definition devfs_device_chr : cty :=
  Struct [("ibuf", devfs_fifo); ("obuf", devfs_fifo)].
Definition devfs_device : cty :=
  Struct [("type", int); ("dev", (Union [("chr", devfs_device_chr)]))].
Definition devfs_fildes : cty :=
  Struct [("entry", Ptr)].
Definition devfs_entry : cty :=
  Struct [("name", Array PATH_MAX char); ("flags", int); ("device", devfs_device); ("proc", Ptr); ("lock", int)].
Definition devfs_t : cty :=
  Struct [("head", Ptr); ("entries", Array DEVFS_MAXDEVS Ptr); ("lock", int)].
Definition devfs_inode : cty :=
  Struct [("e", Ptr)].

(** ** kernel/fildes.h *)

Definition fildes_storage_t : cty :=
  Struct [("u", (Union [("ptr", Ptr); ("storage", Array 96 uint8_t)]))].
Definition fildes_t : cty :=
  Struct [("head", Ptr); ("refs", int); ("vfs", Ptr); ("fsdata", fildes_storage_t); ("vnode", Ptr)].

(** ** kernel/task.h *)

Definition task_t : cty :=
  Struct [("arch", Ptr); ("proc", Ptr); ("kstack", Ptr); ("id", int); ("state", enum); ("next", Ptr);
    ("credit", int); ("signaled", int)].
Definition task_list_t : cty :=
  Struct [("task", Ptr); ("next", Ptr)].
Definition task_mgr_t : cty :=
  Struct [("lock", int)].

(** ** kernel/proc.h *)

Definition proc_t : cty :=
  Struct [("pid", pid_t); ("name", Array PATH_MAX char); ("cwd", Array PATH_MAX char); ("parent", Ptr);
    ("task", Ptr); ("fds", Array FD_MAX Ptr); ("uid", uid_t); ("gid", gid_t); ("vmem", Ptr);
    ("code", (Struct [("addr", uintptr_t); ("size", size_t)])); ("exit_status", int)].

(** ** kernel/timer.h *)

Definition timer_event_t : cty :=
  Struct [("jiffies", uint64_t); ("proc", Ptr); ("next", Ptr)].

(** ** kernel/vfs.h *)

Definition vfs_interfaces_t : cty :=
  Struct [("mount", Ptr); ("unmount", Ptr); ("lookup", Ptr); ("create", Ptr); ("mknod", Ptr); ("link", Ptr);
    ("symlink", Ptr); ("mkdir", Ptr); ("rename", Ptr); ("remove", Ptr); ("rmdir", Ptr); ("access", Ptr);
    ("getattr", Ptr); ("setattr", Ptr); ("open", Ptr); ("readdir", Ptr); ("readlink", Ptr); ("mmap", Ptr);
    ("close", Ptr); ("ioctl", Ptr); ("poll", Ptr); ("lock", Ptr); ("unlock", Ptr)].
Definition vfs_module_t : cty :=
  Struct [("spec", Ptr); ("type", Array VFS_MAXTYPE char); ("ifs", vfs_interfaces_t)].
Definition vfs_mount_t : cty :=
  Struct [("spec", Ptr); ("vnode", Ptr); ("module", Ptr); ("vnode_cache", Ptr)].
Definition vfs_inode_storage_t : cty :=
  Struct [("u", (Union [("ptr", Ptr); ("storage", Array 96 uint8_t)]))].
Definition vfs_vnode_t : cty :=
  Struct [("inode", vfs_inode_storage_t); ("flags", int); ("module", Ptr); ("mount", Ptr); ("next", Ptr)].
Definition vfs_t : cty :=
  Struct [("modules", Array VFS_MAXFS Ptr)].

(** ** kernel/initramfs.c *)

Definition initrd_entry : cty :=
  Packed [("name", Array 15 char); ("attr", uint8_t); ("u", (Union [("file", (Struct [("offset", uint64_t);
    ("size", uint64_t)]))]))].
Definition initramfs_fildes : cty :=
  Struct [("inode", int); ("offset", uint64_t); ("size", uint64_t)].
Definition initramfs_inode : cty :=
  Struct [("offset", uint64_t)].
Definition initramfs_device : cty :=
  Struct [("base", Ptr); ("lock", int)].
Definition initramfs_module : cty :=
  Struct [("lock", int)].

(** ** include/sys/stat.h *)

Definition stat : cty :=
  Struct [("st_uid", uid_t); ("st_gid", gid_t); ("st_size", off_t)].

(** ** include/time.h *)

Definition timespec : cty :=
  Struct [("tv_sec", time_t); ("tv_nsec", long)].

(** ** arch/x86_64/arch.h *)

Definition tss : cty :=
  Packed [("reserved1", uint32_t); ("rsp0l", uint32_t); ("rsp0h", uint32_t); ("rsp1l", uint32_t);
    ("rsp1h", uint32_t); ("rsp2l", uint32_t); ("rsp2h", uint32_t); ("reserved2", uint32_t);
    ("reserved3", uint32_t); ("ist1l", uint32_t); ("ist1h", uint32_t); ("ist2l", uint32_t); ("ist2h", uint32_t);
    ("ist3l", uint32_t); ("ist3h", uint32_t); ("ist4l", uint32_t); ("ist4h", uint32_t); ("ist5l", uint32_t);
    ("ist5h", uint32_t); ("ist6l", uint32_t); ("ist6h", uint32_t); ("ist7l", uint32_t); ("ist7h", uint32_t);
    ("reserved4", uint32_t); ("reserved5", uint32_t); ("reserved6", uint16_t); ("iomap", uint16_t)].
Definition stackframe64 : cty :=
  Packed [("gs", uint16_t); ("fs", uint16_t); ("bp", uint64_t); ("di", uint64_t); ("si", uint64_t);
    ("r15", uint64_t); ("r14", uint64_t); ("r13", uint64_t); ("r12", uint64_t); ("r11", uint64_t);
    ("r10", uint64_t); ("r9", uint64_t); ("r8", uint64_t); ("dx", uint64_t); ("cx", uint64_t); ("bx", uint64_t);
    ("ax", uint64_t); ("ip", uint64_t); ("cs", uint64_t); ("flags", uint64_t); ("sp", uint64_t);
    ("ss", uint64_t)].
Definition arch_task : cty :=
  Packed [("rp", Ptr); ("sp0", uint64_t); ("cr3", uint64_t); ("xregs", Ptr); ("task", Ptr)].
Definition arch_cpu_data : cty :=
  Packed [("cur_task", Ptr); ("next_task", Ptr); ("idle_task", Ptr); ("fpu_task", Ptr); ("busfreq", uint64_t)].

(** ** arch/x86_64/arch_var.h *)

Definition arch_var_t : cty :=
  Struct [("acpi", Ptr); ("pgt", pgt_t); ("mp_enable", int)].

(** ** kernel/console.h *)

Definition console_dev_t : cty :=
  Struct [("write", Ptr); ("next", Ptr); ("spec", Ptr)].
Definition console_t : cty :=
  Struct [("dev", Ptr)].

(** ** kernel/kvar.h *)

Definition kvar_t : cty :=
  Struct [("phys", phys_memory_t); ("mm", memory_t); ("slab", memory_slab_allocator_t); ("syscalls", Ptr);
    ("console", console_t); ("procs", Ptr); ("runqueue", Ptr); ("task_mgr", task_mgr_t); ("jiffies", uint64_t);
    ("timer", Ptr); ("rootfs", Ptr); ("arch", Ptr)].

(** ** arch/x86_64/vconsole.c *)

Definition arch_video_console_t : cty :=
  Struct [("video", Ptr); ("pos", int); ("column", int); ("column_save", int)].

(** ** arch/x86_64/desc.h *)

Definition gdt_desc : cty :=
  Packed [("w0", uint16_t); ("w1", uint16_t); ("w2", uint16_t); ("w3", uint16_t)].
Definition gdt_desc_tss : cty :=
  Packed [("w0", uint16_t); ("w1", uint16_t); ("w2", uint16_t); ("w3", uint16_t); ("w4", uint16_t);
    ("w5", uint16_t); ("w6", uint16_t); ("w7", uint16_t)].
Definition gdtr : cty :=
  Packed [("size", uint16_t); ("base", uint64_t)].
Definition idt_gate_desc : cty :=
  Packed [("target_lo", uint16_t); ("selector", uint16_t); ("reserved1", uint8_t); ("flags", uint8_t);
    ("target_mid", uint16_t); ("target_hi", uint32_t); ("reserved2", uint32_t)].
Definition idtr : cty :=
  Packed [("size", uint16_t); ("base", uint64_t)].

(** ** arch/x86_64/acpi.h *)

Definition acpi_t : cty :=
  Struct [("p2v", uintptr_t); ("apic_address", uint64_t); ("ioapic_base", uint64_t); ("pm_tmr_port", uint64_t);
    ("pm_tmr_ext", uint8_t); ("pm1a_ctrl_block", uint32_t); ("pm1b_ctrl_block", uint32_t);
    ("smi_cmd_port", uint32_t); ("acpi_enable", uint8_t); ("cmos_century", uint8_t);
    ("lapic_domain", (Array MAX_PROCESSORS (Struct [("valid", int); ("domain", uint32_t)])));
    ("num_memory_region", int); ("memory_domain", (Array MAX_MEMORY_REGIONS (Struct [("base", uint64_t);
    ("length", uint64_t); ("domain", uint32_t)])))].

(** ** arch/x86_64/acpi.c *)

Definition acpi_rsdp : cty :=
  Packed [("signature", Array 8 char); ("checksum", uint8_t); ("oemid", Array 6 char); ("revision", uint8_t);
    ("rsdt_addr", uint32_t); ("length", uint32_t); ("xsdt_addr", uint64_t); ("extended_checksum", uint8_t);
    ("reserved", Array 3 char)].
Definition acpi_sdt_hdr : cty :=
  Packed [("signature", Array 4 char); ("length", uint32_t); ("revision", uint8_t); ("checksum", uint8_t);
    ("oemid", Array 6 char); ("oemtableid", Array 8 char); ("oemrevision", uint32_t); ("creatorid", uint32_t);
    ("creatorrevision", uint32_t)].
Definition acpi_sdt_apic : cty :=
  Packed [("local_controller_addr", uint32_t); ("flags", uint32_t)].
Definition acpi_sdt_apic_hdr : cty :=
  Packed [("type", uint8_t); ("length", uint8_t)].
Definition acpi_sdt_apic_lapic : cty :=
  Packed [("hdr", acpi_sdt_apic_hdr); ("cpu_id", uint8_t); ("apic_id", uint8_t); ("flags", uint32_t)].
Definition acpi_sdt_apic_ioapic : cty :=
  Packed [("hdr", acpi_sdt_apic_hdr); ("id", uint8_t); ("reserved", uint8_t); ("addr", uint32_t);
    ("global_int_base", uint32_t)].
Definition acpi_sdt_apic_int_src : cty :=
  Packed [("hdr", acpi_sdt_apic_hdr); ("bus", uint8_t); ("bus_int", uint8_t); ("global_int", uint32_t);
    ("mps_flags", uint16_t)].
Definition acpi_generic_addr_struct : cty :=
  Packed [("addr_space", uint8_t); ("bit_width", uint8_t); ("bit_offset", uint8_t); ("access_size", uint8_t);
    ("addr", uint64_t)].
Definition acpi_sdt_fadt : cty :=
  Packed [("firmware_ctrl", uint32_t); ("dsdt", uint32_t); ("reserved", uint8_t);
    ("preferred_pm_profile", uint8_t); ("sci_interrupt", uint16_t); ("smi_cmd_port", uint32_t);
    ("acpi_enable", uint8_t); ("acpi_disable", uint8_t); ("s4bios_req", uint8_t); ("pstate_ctrl", uint8_t);
    ("pm1a_event_block", uint32_t); ("pm1b_event_block", uint32_t); ("pm1a_ctrl_block", uint32_t);
    ("pm1b_ctrl_block", uint32_t); ("pm2_ctrl_block", uint32_t); ("pm_timer_block", uint32_t);
    ("gpe0_block", uint32_t); ("gpe1_block", uint32_t); ("pm1_event_length", uint8_t);
    ("pm1_ctrl_length", uint8_t); ("pm2_ctrl_length", uint8_t); ("pm_timer_length", uint8_t);
    ("gpe0_length", uint8_t); ("gpe1_length", uint8_t); ("gpe1_base", uint8_t); ("cstate_ctrl", uint8_t);
    ("worst_c2_latency", uint16_t); ("worst_c3_latency", uint16_t); ("flush_size", uint16_t);
    ("flush_stride", uint16_t); ("duty_offset", uint8_t); ("duty_width", uint8_t); ("day_alarm", uint8_t);
    ("month_alarm", uint8_t); ("century", uint8_t); ("boot_arch_flags", uint16_t); ("reserved2", uint8_t);
    ("flags", uint32_t); ("reset_reg", acpi_generic_addr_struct); ("reset_value", uint8_t);
    ("reserved3", Array 3 uint8_t); ("x_firmware_ctrl", uint64_t); ("x_dsdt", uint64_t);
    ("x_pm1a_event_block", acpi_generic_addr_struct); ("x_pm1b_event_block", acpi_generic_addr_struct);
    ("x_pm1a_ctrl_block", acpi_generic_addr_struct); ("x_pm1b_ctrl_block", acpi_generic_addr_struct);
    ("x_pm2_ctrl_block", acpi_generic_addr_struct); ("x_pm_timer_block", acpi_generic_addr_struct);
    ("x_gpe0_block", acpi_generic_addr_struct); ("x_gpe1_block", acpi_generic_addr_struct)].
Definition acpi_sdt_srat_common : cty :=
  Packed [("type", uint8_t); ("length", uint8_t)].
Definition acpi_sdt_srat_lapic : cty :=
  Packed [("type", uint8_t); ("length", uint8_t); ("proximity_domain", uint8_t); ("apic_id", uint8_t);
    ("flags", uint32_t); ("local_sapic_eid", uint8_t); ("proximity_domain2", Array 3 uint8_t);
    ("clock_domain", uint32_t)].
Definition acpi_sdt_srat_memory : cty :=
  Packed [("type", uint8_t); ("length", uint8_t); ("proximity_domain", uint32_t);
    ("reserved1", Array 2 uint8_t); ("base_addr_low", uint32_t); ("base_addr_high", uint32_t);
    ("length_low", uint32_t); ("length_high", uint32_t); ("reserved2", uint32_t); ("flags", uint32_t);
    ("reserved3", Array 8 uint8_t)].
Definition acpi_sdt_srat_lapicx2 : cty :=
  Packed [("type", uint8_t); ("length", uint8_t); ("reserved1", uint16_t); ("proximity_domain", uint32_t);
    ("x2apic_id", uint32_t); ("flags", uint32_t); ("clock_domain", uint32_t); ("reserved2", uint32_t)].
Definition acpi_sdt_srat_hdr : cty :=
  Packed [("reserved1", Array 4 uint8_t); ("reserved2", Array 8 uint8_t)].

(** ** include/termios.h *)

Definition termios : cty :=
  Struct [("c_iflag", tcflag_t); ("c_oflag", tcflag_t); ("c_cflag", tcflag_t); ("c_lflag", tcflag_t);
    ("c_cc", Array 20 cc_t); ("ispeed", speed_t); ("ospeed", speed_t)].

(** ** drivers/tty/tty.h *)

Definition tty_line_buffer_t : cty :=
  Struct [("cur", off_t); ("len", size_t); ("buf", Array TTY_LINEBUFSIZE char)].
Definition tty_t : cty :=
  Struct [("lnbuf", tty_line_buffer_t); ("term", termios)].
Definition kbd_state_t : cty :=
  Bits 4 [("lctrl", 1); ("rctrl", 1); ("lshift", 1); ("rshift", 1); ("capslock", 1); ("numlock", 1);
    ("scrplllock", 1); ("insert", 1)].
Definition kbd_t : cty :=
  Struct [("disabled", int); ("state", kbd_state_t)].
Definition video_t : cty :=
  Struct [("vram", Ptr); ("pos", int)].
Definition screen_t : cty :=
  Struct [("size", size_t); ("width", size_t); ("height", size_t); ("cur", off_t); ("eob", off_t);
    ("lmark", off_t)].
Definition tty_console_t : cty :=
  Struct [("kbd", kbd_t); ("video", video_t); ("screen", screen_t); ("dev", int)].

(** ** include/mki/driver.h *)

Definition sysdriver_io_t : cty :=
  Struct [("port", longlong); ("data", longlong)].
Definition sysdriver_mmio_t : cty :=
  Struct [("addr", Ptr); ("size", size_t)].
Definition sysdriver_msg_buf_t : cty :=
  Struct [("buf", Ptr); ("nbytes", size_t)].
Definition sysdriver_msg_t : cty :=
  Struct [("type", enum); ("dev", int); ("u", (Union [("c", char); ("buf", sysdriver_msg_buf_t)]))].
Definition driver_device_fifo : cty :=
  Struct [("buf", Array SYSDRIVER_DEV_BUFSIZE uint8_t); ("head", off_t); ("tail", off_t)].
Definition driver_mapped_device_chr : cty :=
  Struct [("ibuf", driver_device_fifo); ("obuf", driver_device_fifo)].
Definition driver_device_t : cty :=
  Struct [("type", enum); ("dev", (Union [("chr", driver_mapped_device_chr)]))].
Definition sysdriver_devfs_t : cty :=
  Struct [("name", Ptr); ("type", enum)].

(** ** arch/x86_64/pgt.c *)

Definition pgt_cr3_entry : cty :=
  Union [("ptr", (Bits 8 [("ignore2", 3); ("pwt", 1); ("pcd", 1); ("ignore1", 7); ("pml4", 52)]));
    ("v", uint64_t)].
Definition pgt_pml4_entry : cty :=
  Union [("ptr", (Bits 8 [("present", 1); ("rw", 1); ("us", 1); ("pwt", 1); ("pcd", 1); ("a", 1);
    ("ignore2", 1); ("rsv", 1); ("ignore1", 4); ("pdpt", 51); ("xd", 1)])); ("v", uint64_t)].
Definition pgt_pdpt_entry : cty :=
  Union [("ptr", (Bits 8 [("present", 1); ("rw", 1); ("us", 1); ("pwt", 1); ("pcd", 1); ("a", 1);
    ("ignore2", 1); ("page", 1); ("ignore1", 4); ("pdpt", 51); ("xd", 1)])); ("page", (Bits 8 [("present", 1);
    ("rw", 1); ("us", 1); ("pwt", 1); ("pcd", 1); ("a", 1); ("d", 1); ("page", 1); ("g", 1); ("ignore1", 3);
    ("pat", 1); ("pdpt", 50); ("xd", 1)])); ("v", uint64_t)].
Definition pgt_pd_entry : cty :=
  Union [("ptr", (Bits 8 [("present", 1); ("rw", 1); ("us", 1); ("pwt", 1); ("pcd", 1); ("a", 1);
    ("ignore2", 1); ("page", 1); ("ignore1", 4); ("pdpt", 51); ("xd", 1)])); ("page", (Bits 8 [("present", 1);
    ("rw", 1); ("us", 1); ("pwt", 1); ("pcd", 1); ("a", 1); ("d", 1); ("page", 1); ("g", 1); ("ignore1", 3);
    ("pat", 1); ("pdpt", 50); ("xd", 1)])); ("v", uint64_t)].
Definition pgt_pt_entry : cty :=
  Union [("page", (Bits 8 [("present", 1); ("rw", 1); ("us", 1); ("pwt", 1); ("pcd", 1); ("a", 1); ("d", 1);
    ("pat", 1); ("g", 1); ("ignore1", 3); ("pdpt", 51); ("xd", 1)])); ("v", uint64_t)].
