(* ===== verification/LayoutTheorems.v ===== *)
(** * The model's offsets are those of the C declarations

    Every accessor the model addresses a field with is compared with the
    offset [Layout] computes from the declaration, and fields of a structure
    never overlap. *)

From Stdlib Require Import String.
From S2P Require Import Prelude PhysMem Tree Pgt Kmem Memory Slab Devfs Vfs Proc Tty Desc Vconsole Acpi Start Layout.
#[local] Open Scope string_scope.

(** ** The accessors *)

Definition accessors : list (cty * list step * Z) := [
  (phys_memory_t, [Fld "p2v"], phys_p2v 0);
  (phys_memory_t, [Fld "max_domain"], phys_max_domain 0);
  (phys_memory_t, [Fld "numazones"], phys_numazones 0);
  (phys_memory_t, [Fld "lock"], phys_lock 0);
  (page_t, [Fld "physical"], page_physical 0);
  (page_t, [Fld "flags"], page_flags 0);
  (page_t, [Fld "order"], page_order 0);
  (page_t, [Fld "index"], page_index 0);
  (page_t, [Fld "zone"], page_zone 0);
  (page_t, [Fld "numadomain"], page_numadomain 0);
  (page_t, [Fld "next"], page_next 0);
  (virt_memory_object_t, [Fld "type"], obj_type 0);
  (virt_memory_object_t, [Fld "pages"], obj_pages 0);
  (virt_memory_object_t, [Fld "size"], obj_size 0);
  (virt_memory_object_t, [Fld "refs"], obj_refs 0);
  (virt_memory_entry_t, [Fld "start"], ent_start 0);
  (virt_memory_entry_t, [Fld "size"], ent_size 0);
  (virt_memory_entry_t, [Fld "object"], ent_object 0);
  (virt_memory_entry_t, [Fld "offset"], ent_offset 0);
  (virt_memory_entry_t, [Fld "flags"], ent_flags 0);
  (virt_memory_entry_t, [Fld "atree"], ent_atree 0);
  (virt_memory_free_t, [Fld "start"], free_start 0);
  (virt_memory_free_t, [Fld "size"], free_size 0);
  (virt_memory_free_t, [Fld "atree"], free_atree 0);
  (virt_memory_free_t, [Fld "stree"], free_stree 0);
  (virt_memory_block_t, [Fld "start"], blk_start 0);
  (virt_memory_block_t, [Fld "end"], blk_end 0);
  (virt_memory_block_t, [Fld "next"], blk_next 0);
  (virt_memory_block_t, [Fld "entries"], blk_entries 0);
  (virt_memory_t, [Fld "mem"], vmem_mem 0);
  (virt_memory_t, [Fld "blocks"], vmem_blocks 0);
  (virt_memory_t, [Fld "flags"], vmem_flags 0);
  (virt_memory_t, [Fld "arch"], vmem_arch 0);
  (memory_t, [Fld "phys"], memory_phys 0);
  (memory_t, [Fld "kmem"], memory_kmem 0);
  (memory_slab_hdr_t, [Fld "next"], hdr_next 0);
  (memory_slab_hdr_t, [Fld "cache"], hdr_cache 0);
  (memory_slab_hdr_t, [Fld "nobjs"], hdr_nobjs 0);
  (memory_slab_hdr_t, [Fld "nused"], hdr_nused 0);
  (memory_slab_hdr_t, [Fld "obj_head"], hdr_obj_head 0);
  (memory_slab_cache_t, [Fld "name"], cache_name 0);
  (memory_slab_cache_t, [Fld "size"], cache_size 0);
  (memory_slab_cache_t, [Fld "left"], cache_left 0);
  (memory_slab_cache_t, [Fld "right"], cache_right 0);
  (memory_slab_allocator_t, [Fld "lock"], slab_lock 0);
  (memory_slab_allocator_t, [Fld "mem"], slab_mem 0);
  (memory_slab_allocator_t, [Fld "root"], slab_root 0);
  (btree_node_t, [Fld "left"], node_left 0);
  (btree_node_t, [Fld "right"], node_right 0);
  (btree_node_t, [Fld "data"], node_data 0);
  (pgt_t, [Fld "cr3"], pgt_cr3 0);
  (pgt_t, [Fld "p2v"], pgt_p2v 0);
  (pgt_t, [Fld "free"], pgt_free 0);
  (devfs_fifo, [Fld "head"], fifo_head 0);
  (devfs_fifo, [Fld "tail"], fifo_tail 0);
  (devfs_device, [Fld "type"], dev_type 0);
  (devfs_entry, [Fld "name"], de_name 0);
  (devfs_entry, [Fld "flags"], de_flags 0);
  (devfs_entry, [Fld "device"], de_device 0);
  (devfs_entry, [Fld "proc"], de_proc 0);
  (devfs_entry, [Fld "lock"], de_lock 0);
  (devfs_t, [Fld "lock"], devfs_lock 0);
  (fildes_t, [Fld "head"], fildes_head 0);
  (task_t, [Fld "arch"], task_arch 0);
  (task_t, [Fld "proc"], task_proc 0);
  (task_t, [Fld "kstack"], task_kstack 0);
  (task_t, [Fld "id"], task_id 0);
  (task_t, [Fld "state"], task_state 0);
  (task_t, [Fld "next"], task_next 0);
  (task_t, [Fld "credit"], task_credit 0);
  (task_t, [Fld "signaled"], task_signaled 0);
  (task_list_t, [Fld "task"], tl_task 0);
  (task_list_t, [Fld "next"], tl_next 0);
  (proc_t, [Fld "pid"], proc_pid 0);
  (proc_t, [Fld "name"], proc_name 0);
  (proc_t, [Fld "cwd"], proc_cwd 0);
  (proc_t, [Fld "parent"], proc_parent 0);
  (proc_t, [Fld "task"], proc_task 0);
  (proc_t, [Fld "uid"], proc_uid 0);
  (proc_t, [Fld "gid"], proc_gid 0);
  (proc_t, [Fld "vmem"], proc_vmem 0);
  (proc_t, [Fld "exit_status"], proc_exit_status 0);
  (timer_event_t, [Fld "jiffies"], te_jiffies 0);
  (timer_event_t, [Fld "proc"], te_proc 0);
  (timer_event_t, [Fld "next"], te_next 0);
  (vfs_interfaces_t, [Fld "mount"], ifs_mount_p 0);
  (vfs_interfaces_t, [Fld "unmount"], ifs_unmount_p 0);
  (vfs_interfaces_t, [Fld "lookup"], ifs_lookup_p 0);
  (vfs_interfaces_t, [Fld "lock"], ifs_lock_p 0);
  (vfs_interfaces_t, [Fld "unlock"], ifs_unlock_p 0);
  (vfs_module_t, [Fld "spec"], module_spec 0);
  (vfs_module_t, [Fld "type"], module_type 0);
  (vfs_module_t, [Fld "ifs"], module_ifs 0);
  (vfs_mount_t, [Fld "spec"], mount_spec 0);
  (vfs_mount_t, [Fld "vnode"], mount_vnode 0);
  (vfs_mount_t, [Fld "module"], mount_module 0);
  (vfs_mount_t, [Fld "vnode_cache"], mount_vnode_cache 0);
  (vfs_vnode_t, [Fld "inode"], vnode_inode 0);
  (vfs_vnode_t, [Fld "module"], vnode_module 0);
  (vfs_vnode_t, [Fld "mount"], vnode_mount 0);
  (initramfs_device, [Fld "base"], fs_base 0);
  (initramfs_device, [Fld "lock"], fs_lock 0);
  (stat, [Fld "st_size"], stat_size 0);
  (timespec, [Fld "tv_sec"], tv_sec 0);
  (timespec, [Fld "tv_nsec"], tv_nsec 0);
  (stackframe64, [Fld "gs"], sf_gs 0);
  (stackframe64, [Fld "fs"], sf_fs 0);
  (stackframe64, [Fld "ip"], sf_ip 0);
  (stackframe64, [Fld "cs"], sf_cs 0);
  (stackframe64, [Fld "flags"], sf_flags 0);
  (stackframe64, [Fld "sp"], sf_sp 0);
  (stackframe64, [Fld "ss"], sf_ss 0);
  (arch_task, [Fld "rp"], at_rp 0);
  (arch_task, [Fld "sp0"], at_sp0 0);
  (arch_task, [Fld "cr3"], at_cr3 0);
  (arch_task, [Fld "xregs"], at_xregs 0);
  (arch_task, [Fld "task"], at_task 0);
  (arch_cpu_data, [Fld "cur_task"], cpu_cur_task 0);
  (arch_cpu_data, [Fld "next_task"], cpu_next_task 0);
  (arch_cpu_data, [Fld "idle_task"], cpu_idle_task 0);
  (arch_cpu_data, [Fld "fpu_task"], cpu_fpu_task 0);
  (arch_cpu_data, [Fld "busfreq"], cpu_busfreq 0);
  (arch_var_t, [Fld "acpi"], av_acpi 0);
  (arch_var_t, [Fld "pgt"], av_pgt 0);
  (arch_var_t, [Fld "mp_enable"], av_mp_enable 0);
  (kvar_t, [Fld "phys"], kvar_phys 0);
  (kvar_t, [Fld "mm"], kvar_mm 0);
  (kvar_t, [Fld "slab"], kvar_slab 0);
  (kvar_t, [Fld "syscalls"], kvar_syscalls 0);
  (kvar_t, [Fld "procs"], kvar_procs 0);
  (kvar_t, [Fld "runqueue"], kvar_runqueue 0);
  (kvar_t, [Fld "jiffies"], kvar_jiffies 0);
  (kvar_t, [Fld "timer"], kvar_timer 0);
  (kvar_t, [Fld "rootfs"], kvar_rootfs 0);
  (kvar_t, [Fld "arch"], kvar_arch 0);
  (console_dev_t, [Fld "write"], cd_write 0);
  (console_dev_t, [Fld "next"], cd_next 0);
  (console_dev_t, [Fld "spec"], cd_spec 0);
  (arch_video_console_t, [Fld "video"], vc_video 0);
  (arch_video_console_t, [Fld "pos"], vc_pos 0);
  (arch_video_console_t, [Fld "column"], vc_column 0);
  (arch_video_console_t, [Fld "column_save"], vc_column_save 0);
  (gdtr, [Fld "size"], gdtr_size 0);
  (gdtr, [Fld "base"], gdtr_base 0);
  (idt_gate_desc, [Fld "target_lo"], ig_target_lo 0);
  (idt_gate_desc, [Fld "selector"], ig_selector 0);
  (idt_gate_desc, [Fld "reserved1"], ig_reserved1 0);
  (idt_gate_desc, [Fld "flags"], ig_flags 0);
  (idt_gate_desc, [Fld "target_mid"], ig_target_mid 0);
  (idt_gate_desc, [Fld "target_hi"], ig_target_hi 0);
  (idt_gate_desc, [Fld "reserved2"], ig_reserved2 0);
  (acpi_t, [Fld "p2v"], ac_p2v 0);
  (acpi_t, [Fld "apic_address"], ac_apic_address 0);
  (acpi_t, [Fld "ioapic_base"], ac_ioapic_base 0);
  (acpi_t, [Fld "pm_tmr_port"], ac_pm_tmr_port 0);
  (acpi_t, [Fld "pm_tmr_ext"], ac_pm_tmr_ext 0);
  (acpi_t, [Fld "pm1a_ctrl_block"], ac_pm1a 0);
  (acpi_t, [Fld "pm1b_ctrl_block"], ac_pm1b 0);
  (acpi_t, [Fld "smi_cmd_port"], ac_smi 0);
  (acpi_t, [Fld "acpi_enable"], ac_enable 0);
  (acpi_t, [Fld "cmos_century"], ac_century 0);
  (acpi_t, [Fld "num_memory_region"], ac_num_region 0);
  (tty_line_buffer_t, [Fld "cur"], ln_cur 0);
  (tty_line_buffer_t, [Fld "len"], ln_len 0);
  (tty_line_buffer_t, [Fld "buf"], ln_buf 0);
  (tty_t, [Fld "lnbuf"], tty_lnbuf 0);
  (kbd_t, [Fld "disabled"], kbd_disabled 0);
  (kbd_t, [Fld "state"], kbd_state 0);
  (sysdriver_io_t, [Fld "port"], io_port 0);
  (sysdriver_io_t, [Fld "data"], io_data 0);
  (sysdriver_mmio_t, [Fld "addr"], mmio_addr 0);
  (sysdriver_mmio_t, [Fld "size"], mmio_size 0);
  (sysdriver_devfs_t, [Fld "name"], reg_name 0);
  (sysdriver_devfs_t, [Fld "type"], reg_type 0);
  (phys_memory_t, [Fld "czones"; Idx 1; Fld "valid"], czone_valid 0 1);
  (phys_memory_t, [Fld "czones"; Idx 1; Fld "heads"], czone_heads 0 1);
  ((Array 4 phys_memory_zone_t), [Idx 3; Fld "heads"], zone_heads 0 3);
  ((Array 4 memory_sysmap_entry_t), [Idx 3; Fld "base"], sysmap_base 0 3);
  ((Array 4 memory_sysmap_entry_t), [Idx 3; Fld "len"], sysmap_len 0 3);
  ((Array 4 memory_sysmap_entry_t), [Idx 3; Fld "type"], sysmap_type 0 3);
  ((Array 4 memory_sysmap_entry_t), [Idx 3; Fld "attr"], sysmap_attr 0 3);
  (virt_memory_block_t, [Fld "frees"; Fld "atree"], blk_atree 0);
  (virt_memory_block_t, [Fld "frees"; Fld "stree"], blk_stree 0);
  (virt_memory_t, [Fld "allocator"; Fld "spec"], vmem_spec 0);
  (memory_slab_hdr_t, [Fld "marks"], hdr_mark 0 0);
  (memory_slab_cache_t, [Fld "freelist"; Fld "partial"], cache_partial 0);
  (memory_slab_cache_t, [Fld "freelist"; Fld "full"], cache_full 0);
  (memory_slab_cache_t, [Fld "freelist"; Fld "empty"], cache_empty 0);
  (devfs_device, [Fld "dev"; Fld "chr"; Fld "ibuf"], dev_ibuf 0);
  (devfs_device, [Fld "dev"; Fld "chr"; Fld "obuf"], dev_obuf 0);
  (devfs_t, [Fld "entries"; Idx 7], devfs_entry_at 0 7);
  (proc_t, [Fld "fds"; Idx 7], proc_fd 0 7);
  (proc_t, [Fld "code"; Fld "addr"], proc_code_addr 0);
  (proc_t, [Fld "code"; Fld "size"], proc_code_size 0);
  (vfs_t, [Fld "modules"; Idx 7], module_at 0 7);
  (initrd_entry, [Fld "u"; Fld "file"; Fld "offset"], initrd_offset 0);
  (initrd_entry, [Fld "u"; Fld "file"; Fld "size"], initrd_size 0);
  (tss, [Fld "rsp0l"], tss_sp0 0);
  (kvar_t, [Fld "console"; Fld "dev"], kvar_console_dev 0);
  (kvar_t, [Fld "task_mgr"; Fld "lock"], kvar_task_lock 0);
  (gdt_desc_tss, [Fld "w5"], gd_w 0 5);
  (gdt_desc, [Fld "w3"], gd_w 0 3);
  (acpi_t, [Fld "lapic_domain"; Idx 7; Fld "valid"], ac_lapic_valid 0 7);
  (acpi_t, [Fld "lapic_domain"; Idx 7; Fld "domain"], ac_lapic_domain 0 7);
  (acpi_t, [Fld "memory_domain"; Idx 7; Fld "base"], ac_region_base 0 7);
  (acpi_t, [Fld "memory_domain"; Idx 7; Fld "length"], ac_region_length 0 7);
  (acpi_t, [Fld "memory_domain"; Idx 7; Fld "domain"], ac_region_domain 0 7);
  (acpi_rsdp, [Fld "revision"], rsdp_revision 0);
  (acpi_rsdp, [Fld "rsdt_addr"], rsdp_rsdt_addr 0);
  (acpi_rsdp, [Fld "xsdt_addr"], rsdp_xsdt_addr 0);
  (acpi_sdt_apic_hdr, [Fld "type"], apic_type 0);
  (acpi_sdt_apic_hdr, [Fld "length"], apic_length 0);
  (acpi_sdt_apic_ioapic, [Fld "addr"], ioapic_addr 0);
  (acpi_generic_addr_struct, [Fld "addr_space"], gas_addr_space 0);
  (acpi_generic_addr_struct, [Fld "addr"], gas_addr 0);
  (acpi_sdt_fadt, [Fld "smi_cmd_port"], fadt_smi_cmd_port 0);
  (acpi_sdt_fadt, [Fld "acpi_enable"], fadt_acpi_enable 0);
  (acpi_sdt_fadt, [Fld "pm1a_ctrl_block"], fadt_pm1a_ctrl_block 0);
  (acpi_sdt_fadt, [Fld "pm1b_ctrl_block"], fadt_pm1b_ctrl_block 0);
  (acpi_sdt_fadt, [Fld "pm_timer_block"], fadt_pm_timer_block 0);
  (acpi_sdt_fadt, [Fld "century"], fadt_century 0);
  (acpi_sdt_fadt, [Fld "flags"], fadt_flags 0);
  (acpi_sdt_fadt, [Fld "x_pm1a_ctrl_block"], fadt_x_pm1a_ctrl_block 0);
  (acpi_sdt_fadt, [Fld "x_pm1b_ctrl_block"], fadt_x_pm1b_ctrl_block 0);
  (acpi_sdt_fadt, [Fld "x_pm_timer_block"], fadt_x_pm_timer_block 0);
  (acpi_sdt_srat_common, [Fld "type"], srat_type 0);
  (acpi_sdt_srat_common, [Fld "length"], srat_length 0);
  (acpi_sdt_srat_lapic, [Fld "proximity_domain"], sl_domain 0);
  (acpi_sdt_srat_lapic, [Fld "apic_id"], sl_apic_id 0);
  (acpi_sdt_srat_lapic, [Fld "proximity_domain2"; Idx 2], sl_domain2 0 2);
  (acpi_sdt_srat_memory, [Fld "proximity_domain"], sm_domain 0);
  (acpi_sdt_srat_memory, [Fld "base_addr_low"], sm_base_low 0);
  (acpi_sdt_srat_memory, [Fld "base_addr_high"], sm_base_high 0);
  (acpi_sdt_srat_memory, [Fld "length_low"], sm_length_low 0);
  (acpi_sdt_srat_memory, [Fld "length_high"], sm_length_high 0);
  (acpi_sdt_srat_memory, [Fld "flags"], sm_flags 0);
  (tty_t, [Fld "term"; Fld "c_lflag"], tty_lflag 0);
  (tty_t, [Fld "term"; Fld "c_cc"; Idx 8], tty_term 0 40);
  (tty_console_t, [Fld "kbd"], con_kbd 0);
  (tty_console_t, [Fld "video"; Fld "vram"], con_vram 0);
  (tty_console_t, [Fld "video"; Fld "pos"], con_pos 0);
  (tty_console_t, [Fld "screen"; Fld "width"], con_width 0);
  (tty_console_t, [Fld "screen"; Fld "height"], con_height 0);
  (tty_console_t, [Fld "screen"; Fld "cur"], con_cur 0);
  (tty_console_t, [Fld "screen"; Fld "eob"], con_eob 0);
  (tty_console_t, [Fld "screen"; Fld "lmark"], con_lmark 0);
  (tty_console_t, [Fld "dev"], con_dev 0);
  (sysdriver_msg_t, [Fld "type"], msg_type 0);
  (sysdriver_msg_t, [Fld "dev"], msg_dev 0);
  (sysdriver_msg_t, [Fld "u"; Fld "c"], msg_c 0);
  (sysdriver_msg_t, [Fld "u"; Fld "buf"; Fld "buf"], msg_buf 0);
  (sysdriver_msg_t, [Fld "u"; Fld "buf"; Fld "nbytes"], msg_nbytes 0);
  (driver_device_t, [Fld "dev"; Fld "chr"; Fld "obuf"; Fld "head"], fifo_head (dev_obuf 0))].

Definition sizes : list (cty * Z) := [
  (phys_memory_t, sizeof_phys_memory);
  (virt_memory_data_t, sizeof_data);
  (virt_memory_t, sizeof_virt_memory);
  (memory_slab_hdr_t, sizeof_slab_hdr);
  (memory_slab_cache_t, sizeof_slab_cache);
  (pgt_t, sizeof_pgt);
  (devfs_fifo, sizeof_fifo);
  (devfs_entry, sizeof_devfs_entry);
  (fildes_t, sizeof_fildes);
  (task_t, sizeof_task);
  (task_list_t, sizeof_task_list);
  (proc_t, sizeof_proc);
  (vfs_interfaces_t, sizeof_vfs_interfaces);
  (vfs_module_t, sizeof_vfs_module);
  (vfs_mount_t, sizeof_vfs_mount);
  (vfs_vnode_t, sizeof_vfs_vnode);
  (initramfs_device, sizeof_initramfs_device);
  (stat, sizeof_stat);
  (stackframe64, sizeof_stackframe64);
  (arch_task, sizeof_arch_task);
  (arch_var_t, sizeof_arch_var);
  (kvar_t, sizeof_kvar);
  (console_dev_t, sizeof_console_dev);
  (arch_video_console_t, sizeof_vcon);
  (idt_gate_desc, sizeof_idt_gate_desc);
  (acpi_t, sizeof_acpi);
  (phys_memory_zone_t, sizeof_zone);
  (gdt_desc, sizeof_gdt_desc);
  (gdt_desc_tss, sizeof_gdt_desc_tss);
  (tss, sizeof_tss);
  (acpi_sdt_hdr, sizeof_sdt_hdr);
  (acpi_sdt_apic, sizeof_sdt_apic);
  (acpi_sdt_srat_hdr, sizeof_srat_hdr)].

(** The bits of page table entries and of the keyboard's state. *)
Definition bit_accessors : list (cty * list string * Z) := [
  (pgt_pml4_entry, ["ptr"; "present"], bit_present); (pgt_pml4_entry, ["ptr"; "rw"], bit_rw);
  (pgt_pml4_entry, ["ptr"; "us"], bit_us);
  (pgt_pdpt_entry, ["ptr"; "present"], bit_present); (pgt_pdpt_entry, ["ptr"; "rw"], bit_rw);
  (pgt_pdpt_entry, ["ptr"; "us"], bit_us); (pgt_pdpt_entry, ["ptr"; "page"], bit_page);
  (pgt_pd_entry, ["ptr"; "present"], bit_present); (pgt_pd_entry, ["ptr"; "page"], bit_page);
  (pgt_pd_entry, ["page"; "present"], bit_present); (pgt_pd_entry, ["page"; "rw"], bit_rw);
  (pgt_pd_entry, ["page"; "us"], bit_us); (pgt_pd_entry, ["page"; "page"], bit_page); (pgt_pd_entry, ["page"; "g"], bit_g);
  (pgt_pt_entry, ["page"; "present"], bit_present); (pgt_pt_entry, ["page"; "rw"], bit_rw);
  (pgt_pt_entry, ["page"; "us"], bit_us); (pgt_pt_entry, ["page"; "g"], bit_g)].

(** ** Fields do not overlap *)

Definition measured (fs : list (string * cty)) : Prop := Forall (λ f, 0 <= sizeof f.2 ∧ 0 < alignof f.2) fs.

Lemma round_up_spec o a : 0 < a → o <= align_up o a ∧ (a | align_up o a).
Proof.
  intros Ha. unfold align_up. split; [|by exists ((o + a - 1) / a)].
  pose proof (Z.div_mod (o + a - 1) a). pose proof (Z.mod_pos_bound (o + a - 1) a). lia.
Qed.

(** Where the fields end. *)
Fixpoint fields_end (pad : bool) (o : Z) (fs : list (string * cty)) : Z :=
  match fs with
  | [] => o
  | (_, t) :: fs => fields_end pad ((if pad then align_up o (alignof t) else o) + sizeof t) fs
  end.

Lemma field_start_le (pad : bool) o t : 0 < alignof t → o <= (if pad then align_up o (alignof t) else o).
Proof. intros Ha. destruct pad; [by apply round_up_spec|lia]. Qed.

Lemma fields_end_le pad fs : measured fs → ∀ o, o <= fields_end pad o fs.
Proof.
  induction 1 as [|[x t] fs [Hs Ha] _ IH]; intros o; cbn [fields_end]; [lia|].
  etrans; [|apply IH]. pose proof (field_start_le pad o t Ha). cbn [snd] in Hs. lia.
Qed.

(** A field lies behind what is in front of it, inside, and aligned. *)
Lemma find_field_in pad fs : measured fs → ∀ o x ox t, find_field pad o fs x = Some (ox, t) →
  o <= ox ∧ ox + sizeof t <= fields_end pad o fs ∧ (pad = true → (alignof t | ox)).
Proof.
  induction 1 as [|[y u] fs [Hs Ha] Hm IH]; intros o x ox t E; [done|]. cbn [find_field fields_end snd] in *.
  pose proof (field_start_le pad o u Ha). set (o' := if pad then _ else o) in *. destruct (x =? y)%string; simplify_eq.
  - split_and!; [lia|by apply fields_end_le|]. intros ->. by apply round_up_spec.
  - destruct (IH _ _ _ _ E) as (? & ? & ?). split_and!; [lia|lia|done].
Qed.

Lemma find_field_apart pad fs : measured fs → ∀ o x y ox tx oy ty, x ≠ y →
  find_field pad o fs x = Some (ox, tx) → find_field pad o fs y = Some (oy, ty) →
  ox + sizeof tx <= oy ∨ oy + sizeof ty <= ox.
Proof.
  induction 1 as [|[z u] fs [Hs Ha] Hm IH]; intros o x y ox tx oy ty Hxy Ex Ey; [done|]. cbn [find_field snd] in *.
  destruct (String.eqb_spec x z) as [->|], (String.eqb_spec y z) as [->|]; simplify_eq.
  - left. apply (find_field_in pad fs Hm) in Ey. lia.
  - right. apply (find_field_in pad fs Hm) in Ex. lia.
  - exact (IH _ _ _ _ _ _ _ Hxy Ex Ey).
Qed.

Lemma struct_size fs : sizeof (Struct fs) = align_up (fields_end true 0 fs) (alignof (Struct fs)).
Proof.
  unfold sizeof, alignof. cbn [measure]. generalize 0, 1. intros o a.
  match goal with |- (let '(_, _) := ?x in _).1 = _ => assert (x.1 = fields_end true o fs) as E; [|by destruct x; simpl in *; subst] end.
  revert o a. induction fs as [|[x t] fs IH]; intros o a; [done|]. cbn [fields_end]. unfold alignof, sizeof.
  destruct (measure t) as [s b]. apply IH.
Qed.

(** ** The theorem *)

(** The accessors of the model are the fields of the declarations: every
    offset, size and bit position is the one the ABI gives the structure, and
    in every structure two fields never overlap, each is aligned to its type
    and lies inside. *)
Theorem layout_correct :
  Forall (λ '(t, path, a), offset_of t path = Some a) accessors ∧ Forall (λ '(t, s), sizeof t = s) sizes ∧
  Forall (λ '(t, path, b), bit_offset t path = Some b) bit_accessors ∧
  ∀ fs x y ox tx oy ty, measured fs → 0 < alignof (Struct fs) → x ≠ y →
    find_field true 0 fs x = Some (ox, tx) → find_field true 0 fs y = Some (oy, ty) →
    0 <= ox ∧ (alignof tx | ox) ∧ ox + sizeof tx <= sizeof (Struct fs) ∧
    (ox + sizeof tx <= oy ∨ oy + sizeof ty <= ox).
Proof.
  split_and!; [repeat constructor..|]. intros fs x y ox tx oy ty Hm Ha Hxy Ex Ey.
  destruct (find_field_in true fs Hm 0 x ox tx Ex) as (H1 & H2 & H3). rewrite struct_size.
  pose proof (round_up_spec (fields_end true 0 fs) (alignof (Struct fs)) Ha).
  split_and!; [done|by apply H3|lia|exact (find_field_apart _ _ Hm _ _ _ _ _ _ _ Hxy Ex Ey)].
Qed.
